(** * Storage: an SD card presented as a USB mass-storage drive

    A shallow embedding of [lib/Storage/src/Storage.cpp]: the two
    mass-storage callbacks [onRead] and [onWrite] that translate a host
    request (logical block, byte offset inside it, byte count) into
    whole-sector operations on the card, the start/stop callback, the USB
    event callback, and the [mount]/[unmount] life cycle.

    The card driver ([SD_MMC]), the mass-storage class object ([USBMSC])
    and the USB device stack are libraries outside the repository; they are
    modelled by the state they expose to [Storage.cpp] and by a log of the
    calls made to them. *)

From Stdlib Require Import ZArith Lia List Strings.Byte String.
From stdpp Require Import base tactics option numbers list list_numbers gmap.

Local Open Scope Z_scope.

(** ** Machine integers *)

(** [uint32_t] arithmetic wraps modulo [2^32]. *)
Definition wrap32 (z : Z) : Z := z mod 2 ^ 32.

(** The cast [(int32_t)x] of a [uint32_t] value. *)
Definition to_int32 (z : Z) : Z :=
  let w := wrap32 z in if w <? 2 ^ 31 then w else w - 2 ^ 32.

(** ** Byte buffers

    A buffer is the list of its bytes.  An access that leaves the buffer
    has no defined result: [buf_load] and [buf_store] then give [None]. *)

Definition buf_load (buf : list byte) (off n : Z) : option (list byte) :=
  if (0 <=? off) && (0 <=? n) && (off + n <=? Z.of_nat (length buf))
  then Some (take (Z.to_nat n) (drop (Z.to_nat off) buf))
  else None.

Definition buf_store (buf : list byte) (off : Z) (src : list byte)
  : option (list byte) :=
  if (0 <=? off) && (off + Z.of_nat (length src) <=? Z.of_nat (length buf))
  then Some (take (Z.to_nat off) buf ++ src
             ++ drop (Z.to_nat off + length src) buf)
  else None.

(** [uint8_t tmp[512]]: the sector buffer both loops declare.  It is not
    initialised; [junk] stands for whatever the stack holds, cut or padded
    to the 512 bytes of the array. *)
Definition TMP_SIZE : Z := 512.

Definition stack_buffer (junk : list byte) : list byte :=
  take (Z.to_nat TMP_SIZE) (junk ++ replicate (Z.to_nat TMP_SIZE) x00).

(** ** The card driver [SD_MMC] *)

Inductive sdcard_type_t :=
  CARD_NONE | CARD_MMC | CARD_SD | CARD_SDHC | CARD_UNKNOWN.

Definition is_CARD_NONE (t : sdcard_type_t) : bool :=
  match t with CARD_NONE => true | _ => false end.

(** The driver is open or closed.  The card has a type, a geometry and
    sectors; a sector that is not in [sd_sectors] is outside the card.
    [sd_read_ok] and [sd_write_ok] say for each sector whether the card
    carries out a transfer or reports an error. *)
Record SDMMC := mkSDMMC {
  sd_open : bool;
  sd_cardType : sdcard_type_t;
  sd_sectorSize : Z;
  sd_numSectors : Z;
  sd_sectors : gmap Z (list byte);
  sd_read_ok : Z -> bool;
  sd_write_ok : Z -> bool
}.

Definition set_sd_open (b : bool) (sd : SDMMC) : SDMMC :=
  mkSDMMC b (sd_cardType sd) (sd_sectorSize sd) (sd_numSectors sd)
          (sd_sectors sd) (sd_read_ok sd) (sd_write_ok sd).

Definition set_sd_sectors (m : gmap Z (list byte)) (sd : SDMMC) : SDMMC :=
  mkSDMMC (sd_open sd) (sd_cardType sd) (sd_sectorSize sd) (sd_numSectors sd)
          m (sd_read_ok sd) (sd_write_ok sd).

(** [SD_MMC.sectorSize()], [numSectors()] and [cardType()]: zero, or no
    card, while the driver is closed. *)
Definition sectorSize (sd : SDMMC) : Z :=
  if sd_open sd then sd_sectorSize sd else 0.

Definition numSectors (sd : SDMMC) : Z :=
  if sd_open sd then sd_numSectors sd else 0.

Definition cardType (sd : SDMMC) : sdcard_type_t :=
  if sd_open sd then sd_cardType sd else CARD_NONE.

(** The result of a raw transfer between the card and a caller's buffer. *)
Inductive raw (A : Type) :=
| RawOk (a : A)
| RawFail
| RawFault.
Arguments RawOk {A} a.
Arguments RawFail {A}.
Arguments RawFault {A}.

(** What the card answers to a read of sector [blk]: its bytes, or an
    error (driver closed, transfer refused, sector outside the card). *)
Definition read_sector (sd : SDMMC) (blk : Z) : option (list byte) :=
  if sd_open sd && sd_read_ok sd blk then sd_sectors sd !! blk else None.

(** Whether the card carries out a write of sector [blk]. *)
Definition write_accepted (sd : SDMMC) (blk : Z) : bool :=
  sd_open sd && sd_write_ok sd blk
  && bool_decide (is_Some (sd_sectors sd !! blk)).

(** [SD_MMC.readRAW(buf, blk)]: on success the sector's bytes are stored at
    the start of [buf]. *)
Definition readRAW (sd : SDMMC) (buf : list byte) (blk : Z)
  : raw (list byte) :=
  match read_sector sd blk with
  | Some data =>
      match buf_store buf 0 data with
      | Some buf' => RawOk buf'
      | None => RawFault
      end
  | None => RawFail
  end.

(** [SD_MMC.writeRAW(buf, blk)]: on success the first [sectorSize] bytes
    of [buf] become the sector. *)
Definition writeRAW (sd : SDMMC) (buf : list byte) (blk : Z) : raw SDMMC :=
  if write_accepted sd blk then
    match buf_load buf 0 (sd_sectorSize sd) with
    | Some data => RawOk (set_sd_sectors (<[blk := data]> (sd_sectors sd)) sd)
    | None => RawFault
    end
  else RawFail.

(** ** The translator: [onRead] and [onWrite] *)

(** One call to the card, as the card sees it.  A write carries the
    sector-sized head of the buffer handed over. *)
Inductive SdOp :=
| RdSector (blk : Z) (ok : bool)
| WrSector (blk : Z) (data : list byte) (ok : bool).

Definition sector_head (sd : SDMMC) (buf : list byte) : list byte :=
  take (Z.to_nat (sd_sectorSize sd)) buf.

(** What a callback does: it returns [ret] with a result and the calls it
    made to the card, or it leaves a buffer ([Fault]).  [OutOfFuel] is the
    loop model running out of steps; it never happens (see
    [onRead_loop_runs], [onWrite_loop_runs]). *)
Inductive outcome (A : Type) :=
| Returned (ret : Z) (res : A) (ops : list SdOp)
| Fault
| OutOfFuel.
Arguments Returned {A} ret res ops.
Arguments Fault {A}.
Arguments OutOfFuel {A}.

(** The [while (remain)] loop of [onRead], from its head.  The result is
    the bytes copied to [dst]. *)
Fixpoint onRead_loop (fuel : nat) (junk : list byte) (sd : SDMMC)
    (sec bufsize remain blk off : Z) : outcome (list byte) :=
  if remain =? 0 then Returned (to_int32 bufsize) [] []
  else
    match fuel with
    | O => OutOfFuel
    | S fuel' =>
        let tmp := stack_buffer junk in
        match readRAW sd tmp blk with
        | RawFail => Returned (-1) [] [RdSector blk false]
        | RawFault => Fault
        | RawOk tmp =>
            let chunk := Z.min remain (wrap32 (sec - off)) in
            match buf_load tmp off chunk with
            | None => Fault
            | Some bytes =>
                match onRead_loop fuel' junk sd sec bufsize
                        (remain - chunk) (wrap32 (blk + 1)) 0 with
                | Returned r rest ops =>
                    Returned r (bytes ++ rest) (RdSector blk true :: ops)
                | Fault => Fault
                | OutOfFuel => OutOfFuel
                end
            end
        end
    end.

Definition onRead (junk : list byte) (sd : SDMMC) (lba offset bufsize : Z)
  : outcome (list byte) :=
  let sec := wrap32 (sectorSize sd) in
  if (sec =? 0) || (bufsize =? 0) then Returned (-1) [] []
  else onRead_loop (S (Z.to_nat bufsize)) junk sd sec bufsize bufsize lba offset.

(** The [while (remain)] loop of [onWrite], from its head.  The result is
    the card after the sectors written so far. *)
Fixpoint onWrite_loop (fuel : nat) (junk : list byte) (sd : SDMMC)
    (sec bufsize remain blk off : Z) (src : list byte) : outcome SDMMC :=
  if remain =? 0 then Returned (to_int32 bufsize) sd []
  else
    match fuel with
    | O => OutOfFuel
    | S fuel' =>
        let tmp := stack_buffer junk in
        let rmw := negb (off =? 0) || (remain <? sec) in
        match (if rmw then readRAW sd tmp blk else RawOk tmp) with
        | RawFail => Returned (-1) sd [RdSector blk false]
        | RawFault => Fault
        | RawOk tmp =>
            let rd := if rmw then [RdSector blk true] else [] in
            let chunk := Z.min remain (wrap32 (sec - off)) in
            match buf_load src 0 chunk with
            | None => Fault
            | Some new =>
                match buf_store tmp off new with
                | None => Fault
                | Some tmp =>
                    match writeRAW sd tmp blk with
                    | RawFail =>
                        Returned (-1) sd
                          (rd ++ [WrSector blk (sector_head sd tmp) false])
                    | RawFault => Fault
                    | RawOk sd' =>
                        match onWrite_loop fuel' junk sd' sec bufsize
                                (remain - chunk) (wrap32 (blk + 1)) 0
                                (drop (Z.to_nat chunk) src) with
                        | Returned r sd'' ops =>
                            Returned r sd''
                              (rd ++ WrSector blk (sector_head sd tmp) true :: ops)
                        | Fault => Fault
                        | OutOfFuel => OutOfFuel
                        end
                    end
                end
            end
        end
    end.

Definition onWrite (junk : list byte) (sd : SDMMC) (lba offset : Z)
    (buffer : list byte) (bufsize : Z) : outcome SDMMC :=
  let sec := wrap32 (sectorSize sd) in
  if (sec =? 0) || (bufsize =? 0) then Returned (-1) sd []
  else onWrite_loop (S (Z.to_nat bufsize)) junk sd sec bufsize bufsize
         lba offset buffer.

(** ** The mass-storage class object [s_msc] and the device state *)

Record USBMSC := mkUSBMSC {
  msc_vendorID : string;
  msc_productID : string;
  msc_productRevision : string;
  msc_onRead : bool;          (* [onRead] is registered *)
  msc_onWrite : bool;         (* [onWrite] is registered *)
  msc_onStartStop : bool;     (* [onStartStop] is registered *)
  msc_mediaPresent : bool;
  msc_started : bool;
  msc_blockCount : Z;
  msc_blockSize : Z
}.

(** The calls [Storage.cpp] makes to the libraries, in order. *)
Inductive Call :=
| SD_setPins (clk cmd d0 : Z)
| SD_begin (mountpoint : string) (mode1bit : bool) (ok : bool)
| SD_cardType
| SD_sectorSize
| SD_numSectors
| SD_end
| MSC_vendorID (s : string)
| MSC_productID (s : string)
| MSC_productRevision (s : string)
| MSC_onRead
| MSC_onWrite
| MSC_onStartStop
| MSC_mediaPresent (present : bool)
| MSC_begin (block_count block_size : Z) (ok : bool)
| MSC_end
| USB_begin
| USB_onEvent
| Delay (ms : Z).

(** The file's globals ([s_msc], [s_mounted], [s_usbOnline]), the driver
    object [SD_MMC], whether the USB stack runs and has our event callback,
    and the log of library calls. *)
Record State := mkState {
  s_mounted : bool;
  s_usbOnline : bool;
  SD_MMC : SDMMC;
  s_msc : USBMSC;
  usb_started : bool;
  usb_events_attached : bool;
  calls : list Call
}.

Definition PIN_SD_CLK : Z := 6.
Definition PIN_SD_CMD : Z := 5.
Definition PIN_SD_D0 : Z := 7.

Definition set_mounted (b : bool) (st : State) : State :=
  mkState b (s_usbOnline st) (SD_MMC st) (s_msc st) (usb_started st)
          (usb_events_attached st) (calls st).

Definition set_usbOnline (b : bool) (st : State) : State :=
  mkState (s_mounted st) b (SD_MMC st) (s_msc st) (usb_started st)
          (usb_events_attached st) (calls st).

Definition set_SD_MMC (sd : SDMMC) (st : State) : State :=
  mkState (s_mounted st) (s_usbOnline st) sd (s_msc st) (usb_started st)
          (usb_events_attached st) (calls st).

Definition set_msc (m : USBMSC) (st : State) : State :=
  mkState (s_mounted st) (s_usbOnline st) (SD_MMC st) m (usb_started st)
          (usb_events_attached st) (calls st).

Definition set_usb_started (b : bool) (st : State) : State :=
  mkState (s_mounted st) (s_usbOnline st) (SD_MMC st) (s_msc st) b
          (usb_events_attached st) (calls st).

Definition set_usb_events_attached (b : bool) (st : State) : State :=
  mkState (s_mounted st) (s_usbOnline st) (SD_MMC st) (s_msc st)
          (usb_started st) b (calls st).

Definition call (c : Call) (st : State) : State :=
  mkState (s_mounted st) (s_usbOnline st) (SD_MMC st) (s_msc st)
          (usb_started st) (usb_events_attached st) (calls st ++ [c]).

(** *** The library calls, as state transformers *)

(** [SD_MMC.begin]: nothing to do on an open driver; otherwise the card
    answers ([ok]) or does not, and only an answering card opens it. *)
Definition do_SD_begin (mountpoint : string) (mode1bit ok : bool)
    (st : State) : bool * State :=
  if sd_open (SD_MMC st) then (true, call (SD_begin mountpoint mode1bit true) st)
  else if ok then
    (true, call (SD_begin mountpoint mode1bit true)
             (set_SD_MMC (set_sd_open true (SD_MMC st)) st))
  else (false, call (SD_begin mountpoint mode1bit false) st).

Definition do_SD_end (st : State) : State :=
  call SD_end (set_SD_MMC (set_sd_open false (SD_MMC st)) st).

Definition do_SD_setPins (clk cmd d0 : Z) (st : State) : State :=
  call (SD_setPins clk cmd d0) st.

Definition msc_configure (st : State) : State :=
  let m := s_msc st in
  let st := call (MSC_vendorID "ESP32") st in
  let st := call (MSC_productID "SD-USB") st in
  let st := call (MSC_productRevision "1.0") st in
  let st := call MSC_onRead st in
  let st := call MSC_onWrite st in
  let st := call MSC_onStartStop st in
  set_msc (mkUSBMSC "ESP32" "SD-USB" "1.0" true true true
             (msc_mediaPresent m) (msc_started m)
             (msc_blockCount m) (msc_blockSize m)) st.

Definition do_MSC_mediaPresent (b : bool) (st : State) : State :=
  let m := s_msc st in
  call (MSC_mediaPresent b)
    (set_msc (mkUSBMSC (msc_vendorID m) (msc_productID m)
                (msc_productRevision m) (msc_onRead m) (msc_onWrite m)
                (msc_onStartStop m) b (msc_started m)
                (msc_blockCount m) (msc_blockSize m)) st).

(** [s_msc.begin(count, size)]: the class starts ([ok]) or does not. *)
Definition do_MSC_begin (count size : Z) (ok : bool) (st : State)
  : bool * State :=
  let m := s_msc st in
  if ok then
    (true, call (MSC_begin count size true)
             (set_msc (mkUSBMSC (msc_vendorID m) (msc_productID m)
                         (msc_productRevision m) (msc_onRead m) (msc_onWrite m)
                         (msc_onStartStop m) (msc_mediaPresent m) true
                         count size) st))
  else (false, call (MSC_begin count size false) st).

Definition do_MSC_end (st : State) : State :=
  let m := s_msc st in
  call MSC_end
    (set_msc (mkUSBMSC (msc_vendorID m) (msc_productID m)
                (msc_productRevision m) (msc_onRead m) (msc_onWrite m)
                (msc_onStartStop m) (msc_mediaPresent m) false
                (msc_blockCount m) (msc_blockSize m)) st).

Definition do_USB_begin (st : State) : State :=
  call USB_begin (set_usb_started true st).

Definition delay (ms : Z) (st : State) : State := call (Delay ms) st.

(** *** [namespace Storage] *)

(** What the outside world answers during one [mount()]: whether the card
    initialises and whether the mass-storage class starts. *)
Record MountEnv := mkMountEnv {
  env_sd_begin_ok : bool;
  env_msc_begin_ok : bool
}.

Definition attachUsbEvents (st : State) : State :=
  call USB_onEvent (set_usb_events_attached true st).

Definition mount (env : MountEnv) (st : State) : bool * State :=
  if s_mounted st then (true, st)
  else
    let st := do_SD_setPins PIN_SD_CLK PIN_SD_CMD PIN_SD_D0 st in
    let '(ok, st) := do_SD_begin "/sdcard" true (env_sd_begin_ok env) st in
    if negb ok then (false, st)
    else
      let st := call SD_cardType st in
      if is_CARD_NONE (cardType (SD_MMC st)) then (false, do_SD_end st)
      else
        let st := msc_configure st in
        let st := call SD_sectorSize st in
        let secSize := wrap32 (sectorSize (SD_MMC st)) in
        let st := call SD_numSectors st in
        let secCount := wrap32 (numSectors (SD_MMC st)) in
        if (secSize =? 0) || (secCount =? 0) then (false, do_SD_end st)
        else
          let st := do_MSC_mediaPresent true st in
          let '(ok, st) := do_MSC_begin secCount secSize (env_msc_begin_ok env) st in
          if negb ok then (false, do_SD_end st)
          else
            let st := do_USB_begin st in
            (true, set_mounted true st).

Definition unmount (st : State) : State :=
  if negb (s_mounted st) then st
  else
    let st := do_MSC_mediaPresent false st in
    let st := delay 50 st in
    let st := do_MSC_end st in
    let st := delay 10 st in
    let st := do_SD_end st in
    set_mounted false st.

Definition isMounted (st : State) : bool := s_mounted st.
Definition isUsbOnline (st : State) : bool := s_usbOnline st.

(** *** The callbacks that take no data *)

Definition onStartStop (power_condition : Z) (start load_eject : bool)
    (st : State) : bool * State :=
  if negb start && load_eject then (true, unmount st) else (true, st).

Inductive esp_event_base_t := ARDUINO_USB_EVENTS | OTHER_EVENT_BASE.

Inductive arduino_usb_event_t :=
| ARDUINO_USB_ANY_EVENT
| ARDUINO_USB_STARTED_EVENT
| ARDUINO_USB_STOPPED_EVENT
| ARDUINO_USB_SUSPEND_EVENT
| ARDUINO_USB_RESUME_EVENT
| ARDUINO_USB_MAX_EVENT.

Definition usbEventCallback (base : esp_event_base_t)
    (id : arduino_usb_event_t) (st : State) : State :=
  match base with
  | OTHER_EVENT_BASE => st
  | ARDUINO_USB_EVENTS =>
      match id with
      | ARDUINO_USB_STARTED_EVENT | ARDUINO_USB_RESUME_EVENT =>
          set_usbOnline true st
      | ARDUINO_USB_SUSPEND_EVENT | ARDUINO_USB_STOPPED_EVENT =>
          set_usbOnline false st
      | _ => st
      end
  end.

(** ** Reachable device states

    The device boots unmounted with the driver closed; afterwards the state
    changes only through the entry points of [Storage.cpp]. *)

Definition msc_boot : USBMSC :=
  mkUSBMSC "" "" "" false false false false false 0 0.

Definition boot (card : SDMMC) : State :=
  mkState false false (set_sd_open false card) msc_boot false false [].

Inductive step : State -> State -> Prop :=
| step_attach st : step st (attachUsbEvents st)
| step_mount env st : step st (mount env st).2
| step_unmount st : step st (unmount st)
| step_startstop pc start eject st : step st (onStartStop pc start eject st).2
| step_event base id st : step st (usbEventCallback base id st)
| step_write junk lba offset buffer bufsize st r sd' ops :
    onWrite junk (SD_MMC st) lba offset buffer bufsize = Returned r sd' ops ->
    step st (set_SD_MMC sd' st).

Inductive reachable : State -> Prop :=
| reachable_boot card : reachable (boot card)
| reachable_step st st' : reachable st -> step st st' -> reachable st'.

(** ** Vocabulary of the specification *)

(** A card as the driver reports it: geometry in [uint32_t] range, every
    sector inside the reported count and of the reported size. *)
Definition medium_wf (sd : SDMMC) : Prop :=
  0 <= sd_sectorSize sd < 2 ^ 32 /\
  0 <= sd_numSectors sd < 2 ^ 32 /\
  map_Forall (fun blk data =>
                0 <= blk < sd_numSectors sd /\
                Z.of_nat (length data) = sd_sectorSize sd)
             (sd_sectors sd).

#[global] Instance medium_wf_dec sd : Decision (medium_wf sd).
Proof. unfold medium_wf. apply _. Defined.

(** [sd'] is the card [sd] with other bytes in its sectors: same driver
    state, same geometry, same sectors present, same failures. *)
Definition same_card (sd sd' : SDMMC) : Prop :=
  sd_open sd' = sd_open sd /\
  sd_cardType sd' = sd_cardType sd /\
  sd_sectorSize sd' = sd_sectorSize sd /\
  sd_numSectors sd' = sd_numSectors sd /\
  sd_read_ok sd' = sd_read_ok sd /\
  sd_write_ok sd' = sd_write_ok sd /\
  dom (sd_sectors sd') = dom (sd_sectors sd).

(** The byte of the medium at byte position [pos], sectors laid end to
    end; and [len] bytes from [pos] on. *)
Definition medium_byte (sd : SDMMC) (pos : Z) : byte :=
  default x00
    (data ← sd_sectors sd !! (pos / sd_sectorSize sd);
     data !! Z.to_nat (pos mod sd_sectorSize sd)).

Definition medium_bytes (sd : SDMMC) (pos len : Z) : list byte :=
  medium_byte sd <$> seqZ pos len.

(** [ceil((off + len) / sec)]: the sectors a request of [len] bytes at
    offset [off] touches. *)
Definition sectors_touched (sec off len : Z) : Z :=
  (off + len + sec - 1) / sec.

(** The part of sector [k] inside the range of [len] bytes at [pos]: where
    it starts in the sector, how long it is, and its bytes on the card. *)
Definition chunk_off (sec pos k : Z) : Z := Z.max 0 (pos - k * sec).

Definition chunk_len (sec pos len k : Z) : Z :=
  Z.min ((k + 1) * sec) (pos + len) - Z.max (k * sec) pos.

Definition sector_chunk (sd : SDMMC) (pos len k : Z) : list byte :=
  take (Z.to_nat (chunk_len (sd_sectorSize sd) pos len k))
       (drop (Z.to_nat (chunk_off (sd_sectorSize sd) pos k))
             (default [] (sd_sectors sd !! k))).

(** Sector [k] is only partly inside the range of [len] bytes at [pos]. *)
Definition partial_sector (sec pos len k : Z) : Prop :=
  ~ (pos <= k * sec /\ (k + 1) * sec <= pos + len).

(** Sector [k] after a write of [data] at byte position [pos]: the bytes of
    [old] with those inside the written range replaced. *)
Definition spliced (sec pos : Z) (data old : list byte) (k : Z) : list byte :=
  imap (fun j b =>
          let q := k * sec + Z.of_nat j in
          if (pos <=? q) && (q <? pos + Z.of_nat (length data))
          then default b (data !! Z.to_nat (q - pos))
          else b) old.

(** *** The calls made to the card *)

Definition op_sector (op : SdOp) : Z :=
  match op with RdSector blk _ => blk | WrSector blk _ _ => blk end.

Definition op_ok (op : SdOp) : bool :=
  match op with RdSector _ ok => ok | WrSector _ _ ok => ok end.

Definition is_read (op : SdOp) : bool :=
  match op with RdSector _ _ => true | WrSector _ _ _ => false end.

Definition is_write (op : SdOp) : bool := negb (is_read op).

(** What the card answers to a call: whether it carries out the read, or
    the write, of that sector. *)
Definition card_answer (sd : SDMMC) (op : SdOp) : bool :=
  match op with
  | RdSector k _ => bool_decide (is_Some (read_sector sd k))
  | WrSector k _ _ => write_accepted sd k
  end.

(** The shape of a finished request: every call succeeded and the byte
    count is returned, or the last call failed, nothing follows it, and
    [-1] is returned. *)
Definition all_or_abort (r bufsize : Z) (ops : list SdOp) : Prop :=
  (r = to_int32 bufsize /\ Forall (fun op => op_ok op = true) ops)
  \/ (r = -1 /\ exists pre op,
         ops = pre ++ [op] /\ op_ok op = false
         /\ Forall (fun op => op_ok op = true) pre).

(** *** One round of the write loop *)

(** The sector image one round of the write loop hands to the card: the
    sector as read with the new bytes laid over it when the round reads
    first, the next [sec] bytes of the request when it does not; [None]
    when the read fails. *)
Definition sector_image (sd : SDMMC) (sec remain blk off : Z) (src : list byte)
  : option (list byte) :=
  let chunk := Z.min remain (sec - off) in
  if negb (off =? 0) || (remain <? sec) then
    old ← read_sector sd blk;
    Some (take (Z.to_nat off) old ++ take (Z.to_nat chunk) src
          ++ drop (Z.to_nat (off + chunk)) old)
  else Some (take (Z.to_nat sec) src).

Definition rmw_read (sec remain blk off : Z) : list SdOp :=
  if negb (off =? 0) || (remain <? sec) then [RdSector blk true] else [].

(** *** The life cycle *)

(** Calls to [SD_MMC.begin] in a log. *)
Definition is_SD_begin (c : Call) : bool :=
  match c with SD_begin _ _ _ => true | _ => false end.

Definition count_opens (l : list Call) : nat :=
  length (filter (fun c => is_SD_begin c) l).

(** A log in which the card driver never reports the card open. *)
Definition never_opened (l : list Call) : Prop :=
  Forall (fun c => match c with SD_begin _ _ true => False | _ => True end) l.

(** The invariant of the life cycle: the driver is open exactly while
    [s_mounted] is set. *)
Definition lifecycle_inv (st : State) : Prop :=
  sd_open (SD_MMC st) = s_mounted st.

(** A device one assignment before [mount()] returns [true]: card open,
    class configured and started, USB stack running, [s_mounted] not yet
    set.  The application's own [getSDCardInfo()] also holds the card open
    with [s_mounted] clear. *)
Definition mounting_state (card : SDMMC) : State :=
  mkState false false (set_sd_open true card)
    (mkUSBMSC "ESP32" "SD-USB" "1.0" true true true true true
       (wrap32 (sd_numSectors card)) (wrap32 (sd_sectorSize card)))
    true false
    [SD_setPins 6 5 7; SD_begin "/sdcard" true true; SD_cardType;
     MSC_vendorID "ESP32"; MSC_productID "SD-USB"; MSC_productRevision "1.0";
     MSC_onRead; MSC_onWrite; MSC_onStartStop; SD_sectorSize; SD_numSectors;
     MSC_mediaPresent true;
     MSC_begin (wrap32 (sd_numSectors card)) (wrap32 (sd_sectorSize card)) true;
     USB_begin].

(** ** Sample cards

    An open card of [count] sectors of [sec] bytes each, every byte a
    function of its place; all transfers succeed. *)
Definition sample_byte (n : nat) : byte :=
  default x00 (Byte.of_nat (n mod 256)).

Definition sample_sector (sec : nat) (k : Z) : list byte :=
  (fun j => sample_byte (Z.to_nat k * 7 + j)) <$> seq 0 sec.

Definition sample_card (sec count : Z) : SDMMC :=
  mkSDMMC true CARD_SDHC sec count
    (list_to_map ((fun k => (k, sample_sector (Z.to_nat sec) k)) <$> seqZ 0 count))
    (fun _ => true) (fun _ => true).

(** A sample card whose sector [bad] refuses writes. *)
Definition write_protected_at (bad : Z) (sd : SDMMC) : SDMMC :=
  mkSDMMC (sd_open sd) (sd_cardType sd) (sd_sectorSize sd) (sd_numSectors sd)
    (sd_sectors sd) (sd_read_ok sd) (fun k => negb (k =? bad)).

(** A sample card whose sector [bad] refuses reads. *)
Definition unreadable_at (bad : Z) (sd : SDMMC) : SDMMC :=
  mkSDMMC (sd_open sd) (sd_cardType sd) (sd_sectorSize sd) (sd_numSectors sd)
    (sd_sectors sd) (fun k => negb (k =? bad)) (sd_write_ok sd).

(** ** Further vocabulary *)

(** A successful write of sector [k]. *)
Definition is_write_to (k : Z) (op : SdOp) : bool :=
  match op with
  | WrSector b _ true => bool_decide (b = k)
  | _ => false
  end.


(** The bytes of a medium, position by position, after [data] has been laid
    at [pos] over the bytes [f]. *)
Definition written (pos : Z) (data : list byte) (f : Z -> byte) (p : Z) : byte :=
  if decide (pos <= p < pos + Z.of_nat (length data))
  then default x00 (data !! Z.to_nat (p - pos))
  else f p.

(** What holds of the class object while the card is presented: the class
    is started with the media present, the three callbacks are registered,
    the USB stack runs, and the block size and count announced to the host
    are those of the card, neither of them zero. *)
Definition presented (st : State) : Prop :=
  let m := s_msc st in
  let sd := SD_MMC st in
  sd_open sd = true
  /\ sd_cardType sd <> CARD_NONE
  /\ msc_mediaPresent m = true
  /\ msc_onRead m = true /\ msc_onWrite m = true /\ msc_onStartStop m = true
  /\ msc_vendorID m = "ESP32"%string
  /\ msc_productID m = "SD-USB"%string
  /\ msc_productRevision m = "1.0"%string
  /\ msc_blockSize m = wrap32 (sd_sectorSize sd) /\ msc_blockSize m <> 0
  /\ msc_blockCount m = wrap32 (sd_numSectors sd) /\ msc_blockCount m <> 0
  /\ usb_started st = true.

Definition mounted_inv (st : State) : Prop :=
  msc_started (s_msc st) = s_mounted st
  /\ (s_mounted st = true -> presented st).

(** The library calls of a successful [mount()] and of an [unmount()]. *)
Definition mount_calls (sd : SDMMC) : list Call :=
  [SD_setPins PIN_SD_CLK PIN_SD_CMD PIN_SD_D0; SD_begin "/sdcard" true true;
   SD_cardType;
   MSC_vendorID "ESP32"; MSC_productID "SD-USB"; MSC_productRevision "1.0";
   MSC_onRead; MSC_onWrite; MSC_onStartStop;
   SD_sectorSize; SD_numSectors;
   MSC_mediaPresent true;
   MSC_begin (wrap32 (sd_numSectors sd)) (wrap32 (sd_sectorSize sd)) true;
   USB_begin].

Definition unmount_calls : list Call :=
  [MSC_mediaPresent false; Delay 50; MSC_end; Delay 10; SD_end].

(** The state a successful [mount()] leaves, from the state [st] it
    started in. *)
Definition presented_state (st : State) : State :=
  let sd := SD_MMC st in
  mkState true (s_usbOnline st) (set_sd_open true sd)
    (mkUSBMSC "ESP32" "SD-USB" "1.0" true true true true true
       (wrap32 (sd_numSectors sd)) (wrap32 (sd_sectorSize sd)))
    true (usb_events_attached st) (calls st ++ mount_calls sd).

(** * The application that uses [Storage]

    The sketch that calls [Storage::mount()] and [Storage::unmount()]: it
    probes the card through the same driver object [SD_MMC] while the card
    is not presented, shows what it finds, and mounts or unmounts when the
    button is pressed.  The display library, the serial port and the LED
    are modelled by the log of the calls made to them; the rendering of
    numbers into label texts ([formatBytes], [String(float, n)]) is not
    modelled, a text is kept as the values it is built from. *)

(** ** The file system behind the driver *)

(** An entry returned by [dir.openNextFile()]. *)
Record DirEntry := mkDirEntry {
  ent_name : string;
  ent_isDirectory : bool
}.

(** What [SD_MMC.open(path)] gives: a plain file, or a directory with the
    entries [openNextFile()] returns in turn; [None] is the null [File]. *)
Inductive FsObject :=
| FsFile
| FsDir (entries : list DirEntry).

(** [struct SDCardInfo]: two [uint64_t] and three [int]. *)
Record SDCardInfo := mkSDCardInfo {
  detected : bool;
  totalBytes : Z;
  usedBytes : Z;
  folderCount : Z;
  rootFileCount : Z;
  totalFileCount : Z
}.

(** [SDCardInfo info;] with the member initialisers of the struct. *)
Definition SDCardInfo_default : SDCardInfo := mkSDCardInfo false 0 0 0 0 0.

Definition INT_MAX : Z := 2147483647.

(** [n++] on an [int]; the overflow of a signed integer is not defined:
    [None]. *)
Definition incr (n : Z) : option Z :=
  if n <? INT_MAX then Some (n + 1) else None.

(** [info.folderCount++]. *)
Definition count_folder (info : SDCardInfo) : option SDCardInfo :=
  n ← incr (folderCount info);
  Some (mkSDCardInfo (detected info) (totalBytes info) (usedBytes info)
          n (rootFileCount info) (totalFileCount info)).

(** [info.totalFileCount++; if (isRoot) info.rootFileCount++;]. *)
Definition count_file (isRoot : bool) (info : SDCardInfo) : option SDCardInfo :=
  t ← incr (totalFileCount info);
  r ← (if isRoot then incr (rootFileCount info) else Some (rootFileCount info));
  Some (mkSDCardInfo (detected info) (totalBytes info) (usedBytes info)
          (folderCount info) r t).

(** [countFilesAndFolders(path, info, isRoot)].  [depth] bounds the nesting
    of the recursion; [None] is the walk not finished within it, or a
    counter past [INT_MAX]. *)
Fixpoint countFilesAndFolders (depth : nat) (fs : string -> option FsObject)
    (path : string) (info : SDCardInfo) (isRoot : bool) : option SDCardInfo :=
  match depth with
  | O => None
  | S depth' =>
      match fs path with
      | Some (FsDir entries) =>
          foldl (fun acc file =>
                   info ← acc;
                   if ent_isDirectory file then
                     info ← count_folder info;
                     countFilesAndFolders depth' fs
                       (path ++ ent_name file ++ "/")%string info false
                   else count_file isRoot info)
                (Some info) entries
      | _ => Some info
      end
  end.

(** ** The board and the world *)

(** The constants of the board's pin header. *)
Record Board := mkBoard {
  SD_PIN_CLK : Z;
  SD_PIN_CMD : Z;
  SD_PIN_D0 : Z;
  NEO_PIXEL_COUNT : Z;
  NEO_PIXEL_PIN : Z
}.

(** What the outside world answers during one entry into the application:
    whether the serial/JTAG port sees a host, whether the driver takes the
    pins, whether the card answers, whether the mass-storage class
    starts, what the file system reports, and how deep the directory walk
    is followed. *)
Record AppEnv := mkAppEnv {
  env_jtag_connected : bool;
  env_setPins_ok : bool;
  env_card_answers : bool;
  env_class_starts : bool;
  env_totalBytes : Z;
  env_usedBytes : Z;
  env_fs : string -> option FsObject;
  env_depth : nat
}.

Definition mount_env (env : AppEnv) : MountEnv :=
  mkMountEnv (env_card_answers env) (env_class_starts env).

(** [getSDCardInfo()]: the probe of the card, on the driver object that
    [Storage] uses.  [SD_MMC.totalBytes()], [SD_MMC.usedBytes()] and the
    file system are answered by [env]. *)
Definition getSDCardInfo (bd : Board) (env : AppEnv) (st : State)
  : option (SDCardInfo * State) :=
  let info := SDCardInfo_default in
  let st := do_SD_setPins (SD_PIN_CLK bd) (SD_PIN_CMD bd) (SD_PIN_D0 bd) st in
  if negb (env_setPins_ok env) then Some (info, st)
  else
    let '(ok, st) := do_SD_begin "/sdcard" true (env_card_answers env) st in
    if negb ok then Some (info, st)
    else
      let st := call SD_cardType st in
      if is_CARD_NONE (cardType (SD_MMC st)) then Some (info, do_SD_end st)
      else
        let info := mkSDCardInfo true (env_totalBytes env) (env_usedBytes env)
                      0 0 0 in
        info ← countFilesAndFolders (env_depth env) (env_fs env) "/" info true;
        Some (info, do_SD_end st).

(** ** The display, the serial port and the LED *)

Inductive Widget :=
| scr | logo_img | status_label | storage_label | folders_label
| root_files_label | total_files_label | mount_btn | mount_btn_label.

(** A label text, as the values it is rendered from. *)
Inductive Text :=
| Lit (s : string)
| StorageText (total used : Z)
| CountText (label : string) (n : Z).

Inductive Arg := AInt (z : Z) | ASym (s : string).

Inductive UiCall :=
| lv_obj_add_flag_hidden (w : Widget)
| lv_obj_clear_flag_hidden (w : Widget)
| lv_label_set_text (w : Widget) (t : Text)
| lv_obj_set_style_text_color (w : Widget) (hex : Z)
| lv_obj_set_style_bg_color (w : Widget) (hex : Z)
| lv_obj_add_state_disabled (w : Widget)
| lv_obj_clear_state_disabled (w : Widget)
| lv_create (kind : string) (w : Widget) (parent : Widget)
| lv_setup (fn : string) (w : Widget) (args : list Arg)
| Serial_begin (baud : Z)
| Serial_println (s : string)
| pixels_new (count pin : Z)
| pixels_begin
| pixels_clear
| pixels_setPixelColor (n : Z) (color : Z)
| pixels_show
| display_init (ok : bool)
| display_update
| delay_ms (ms : Z).

Definition COLOR_GREY_BTN : Z := 0x666666.
Definition COLOR_GREY_TEXT : Z := 0xAAAAAA.
Definition COLOR_ORANGE : Z := 0xFF7F1F.
Definition COLOR_GREEN : Z := 0x4CAF50.
Definition COLOR_WHITE : Z := 0xFFFFFF.
Definition COLOR_RED : Z := 0xFF6B6B.
Definition COLOR_PURE_GREEN : Z := 0x00FF00.

Definition REFRESH_INTERVAL : Z := 500.
Definition USB_CHECK_INTERVAL : Z := 100.

(** ** The globals of the sketch *)

(** The state of [Storage.cpp] with the shared driver object, the
    sketch's own flags and timers, the function-local static
    [last_sd_present] of [refreshSDCardInfo], whether [pixels] is set, and
    the log of calls to display, serial port and LED. *)
Record App := mkApp {
  storage : State;
  usb_connected : bool;
  last_usb_state : bool;
  usb_was_connected_before_mount : bool;
  usb_was_ever_mounted : bool;
  sd_card_mounted : bool;
  last_sd_present : bool;
  lastRefreshTime : Z;
  lastUSBCheckTime : Z;
  pixels : bool;
  ui : list UiCall
}.

Definition set_storage (st : State) (a : App) : App :=
  mkApp st (usb_connected a) (last_usb_state a)
    (usb_was_connected_before_mount a) (usb_was_ever_mounted a)
    (sd_card_mounted a) (last_sd_present a) (lastRefreshTime a)
    (lastUSBCheckTime a) (pixels a) (ui a).

Definition set_usb_connected (b : bool) (a : App) : App :=
  mkApp (storage a) b (last_usb_state a)
    (usb_was_connected_before_mount a) (usb_was_ever_mounted a)
    (sd_card_mounted a) (last_sd_present a) (lastRefreshTime a)
    (lastUSBCheckTime a) (pixels a) (ui a).

Definition set_last_usb_state (b : bool) (a : App) : App :=
  mkApp (storage a) (usb_connected a) b
    (usb_was_connected_before_mount a) (usb_was_ever_mounted a)
    (sd_card_mounted a) (last_sd_present a) (lastRefreshTime a)
    (lastUSBCheckTime a) (pixels a) (ui a).

Definition set_usb_was_connected_before_mount (b : bool) (a : App) : App :=
  mkApp (storage a) (usb_connected a) (last_usb_state a)
    b (usb_was_ever_mounted a)
    (sd_card_mounted a) (last_sd_present a) (lastRefreshTime a)
    (lastUSBCheckTime a) (pixels a) (ui a).

Definition set_usb_was_ever_mounted (b : bool) (a : App) : App :=
  mkApp (storage a) (usb_connected a) (last_usb_state a)
    (usb_was_connected_before_mount a) b
    (sd_card_mounted a) (last_sd_present a) (lastRefreshTime a)
    (lastUSBCheckTime a) (pixels a) (ui a).

Definition set_sd_card_mounted (b : bool) (a : App) : App :=
  mkApp (storage a) (usb_connected a) (last_usb_state a)
    (usb_was_connected_before_mount a) (usb_was_ever_mounted a)
    b (last_sd_present a) (lastRefreshTime a)
    (lastUSBCheckTime a) (pixels a) (ui a).

Definition set_last_sd_present (b : bool) (a : App) : App :=
  mkApp (storage a) (usb_connected a) (last_usb_state a)
    (usb_was_connected_before_mount a) (usb_was_ever_mounted a)
    (sd_card_mounted a) b (lastRefreshTime a)
    (lastUSBCheckTime a) (pixels a) (ui a).

Definition set_lastRefreshTime (t : Z) (a : App) : App :=
  mkApp (storage a) (usb_connected a) (last_usb_state a)
    (usb_was_connected_before_mount a) (usb_was_ever_mounted a)
    (sd_card_mounted a) (last_sd_present a) t
    (lastUSBCheckTime a) (pixels a) (ui a).

Definition set_lastUSBCheckTime (t : Z) (a : App) : App :=
  mkApp (storage a) (usb_connected a) (last_usb_state a)
    (usb_was_connected_before_mount a) (usb_was_ever_mounted a)
    (sd_card_mounted a) (last_sd_present a) (lastRefreshTime a)
    t (pixels a) (ui a).

Definition set_pixels (b : bool) (a : App) : App :=
  mkApp (storage a) (usb_connected a) (last_usb_state a)
    (usb_was_connected_before_mount a) (usb_was_ever_mounted a)
    (sd_card_mounted a) (last_sd_present a) (lastRefreshTime a)
    (lastUSBCheckTime a) b (ui a).

(** One call to the display, the serial port or the LED. *)
Definition draw (c : UiCall) (a : App) : App :=
  mkApp (storage a) (usb_connected a) (last_usb_state a)
    (usb_was_connected_before_mount a) (usb_was_ever_mounted a)
    (sd_card_mounted a) (last_sd_present a) (lastRefreshTime a)
    (lastUSBCheckTime a) (pixels a) (ui a ++ [c]).

Definition draws (cs : list UiCall) (a : App) : App := foldl (flip draw) a cs.

(** ** The functions of the sketch *)

(** [Adafruit_NeoPixel::Color(r, g, b)]. *)
Definition Color (r g b : Z) : Z :=
  Z.lor (Z.lor (Z.shiftl r 16) (Z.shiftl g 8)) b.

(** [updateNeoPixel(color)]: each channel at a sixteenth. *)
Definition updateNeoPixel (color : Z) (a : App) : App :=
  if pixels a then
    let r := Z.land (Z.shiftr color 16) 0xFF in
    let g := Z.land (Z.shiftr color 8) 0xFF in
    let b := Z.land color 0xFF in
    let r := r / 16 in
    let g := g / 16 in
    let b := b / 16 in
    draw pixels_show (draw (pixels_setPixelColor 0 (Color r g b)) a)
  else a.

(** [isUSBConnected()]; [jtag] is what [usb_serial_jtag_is_connected()]
    would answer. *)
Definition isUSBConnected (jtag : bool) (a : App) : bool :=
  if usb_was_ever_mounted a then true
  else if sd_card_mounted a then usb_was_connected_before_mount a
  else jtag.

Definition hide_storage_labels (a : App) : App :=
  draws [lv_obj_add_flag_hidden storage_label;
         lv_obj_add_flag_hidden folders_label;
         lv_obj_add_flag_hidden root_files_label;
         lv_obj_add_flag_hidden total_files_label] a.

Definition show_storage_labels (a : App) : App :=
  draws [lv_obj_clear_flag_hidden storage_label;
         lv_obj_clear_flag_hidden folders_label;
         lv_obj_clear_flag_hidden root_files_label;
         lv_obj_clear_flag_hidden total_files_label] a.

(** [refreshSDCardInfo()], with [updateMountButtonState] as [update]. *)
Definition refreshSDCardInfo_with (update : App -> option App)
    (bd : Board) (env : AppEnv) (a : App) : option App :=
  if sd_card_mounted a then
    Some (hide_storage_labels
            (draws [lv_label_set_text status_label (Lit "SD Card in Mount Mode");
                    lv_obj_set_style_text_color status_label COLOR_ORANGE] a))
  else
    '(info, st) ← getSDCardInfo bd env (storage a);
    let a := set_storage st a in
    let current_sd_present := detected info in
    a ← (if negb (eqb current_sd_present (last_sd_present a)) then
           let a :=
             if current_sd_present then draw (Serial_println "SD Card Inserted!") a
             else
               let a := draw (Serial_println "SD Card Removed!") a in
               if sd_card_mounted a then
                 let a := set_sd_card_mounted false a in
                 let a := set_usb_was_connected_before_mount false a in
                 let a := set_storage (unmount (storage a)) a in
                 draw (Serial_println "SD Card unmounted due to removal") a
               else a in
           a ← update a;
           Some (set_last_sd_present current_sd_present a)
         else Some a);
    if negb (detected info) then
      Some (hide_storage_labels
              (draws [lv_label_set_text status_label (Lit "No SD Card Found");
                      lv_obj_set_style_text_color status_label COLOR_RED] a))
    else
      let a := draws [lv_label_set_text status_label (Lit "SD Card Detected");
                      lv_obj_set_style_text_color status_label COLOR_GREEN] a in
      let a := show_storage_labels a in
      Some (draws
              [lv_label_set_text storage_label
                 (StorageText (totalBytes info) (usedBytes info));
               lv_label_set_text folders_label
                 (CountText "Folders: " (folderCount info));
               lv_label_set_text root_files_label
                 (CountText "Root Files: " (rootFileCount info));
               lv_label_set_text total_files_label
                 (CountText "Total Files: " (totalFileCount info))] a).

(** [updateMountButtonState()].  It calls [refreshSDCardInfo], which calls
    it back; [fuel] bounds that nesting, [None] is the bound reached. *)
Fixpoint updateMountButtonState (fuel : nat) (bd : Board) (env : AppEnv)
    (a : App) : option App :=
  match fuel with
  | O => None
  | S fuel' =>
      '(sd_card_detected, a) ←
        (if negb (sd_card_mounted a) then
           '(temp_info, st) ← getSDCardInfo bd env (storage a);
           Some (detected temp_info, set_storage st a)
         else Some (true, a));
      if usb_connected a && negb (sd_card_mounted a) && sd_card_detected then
        let a := draws [lv_obj_set_style_bg_color mount_btn COLOR_ORANGE;
                        lv_obj_set_style_text_color mount_btn_label COLOR_WHITE;
                        lv_label_set_text mount_btn_label (Lit "Mount SD Card");
                        lv_obj_clear_state_disabled mount_btn] a in
        Some (updateNeoPixel COLOR_ORANGE a)
      else if usb_connected a && negb (sd_card_mounted a)
              && negb sd_card_detected then
        let a := draws [lv_obj_set_style_bg_color mount_btn COLOR_GREY_BTN;
                        lv_obj_set_style_text_color mount_btn_label COLOR_GREY_TEXT;
                        lv_label_set_text mount_btn_label (Lit "No SD Card");
                        lv_obj_add_state_disabled mount_btn] a in
        Some (updateNeoPixel 0 a)
      else if usb_connected a && sd_card_mounted a then
        let a := draws [lv_obj_set_style_bg_color mount_btn COLOR_GREEN;
                        lv_obj_set_style_text_color mount_btn_label COLOR_WHITE;
                        lv_label_set_text mount_btn_label (Lit "Unmount SD Card");
                        lv_obj_clear_state_disabled mount_btn] a in
        Some (updateNeoPixel COLOR_PURE_GREEN a)
      else
        let a := draws [lv_obj_set_style_bg_color mount_btn COLOR_GREY_BTN;
                        lv_obj_set_style_text_color mount_btn_label COLOR_GREY_TEXT;
                        lv_label_set_text mount_btn_label (Lit "Connect USB C to PC");
                        lv_obj_clear_state_disabled mount_btn] a in
        let a := updateNeoPixel 0 a in
        if sd_card_mounted a then
          let a := set_sd_card_mounted false a in
          let a := set_usb_was_connected_before_mount false a in
          refreshSDCardInfo_with (updateMountButtonState fuel' bd env) bd env a
        else Some a
  end.

(** The bound used at the entries; two levels are all the nesting there is
    (see [updateMountButtonState_NESTING]). *)
Definition NESTING : nat := 3.

Definition refreshSDCardInfo (bd : Board) (env : AppEnv) (a : App)
  : option App :=
  refreshSDCardInfo_with (updateMountButtonState NESTING bd env) bd env a.

(** [mount_btn_event_handler]: the button is clicked. *)
Definition mount_btn_event_handler (bd : Board) (env : AppEnv) (a : App)
  : option App :=
  if usb_connected a && negb (sd_card_mounted a) then
    let a := draw (Serial_println "Mount SD Card button pressed") a in
    let a := hide_storage_labels a in
    let a := draws [lv_label_set_text status_label (Lit "SD Card in Mount Mode");
                    lv_obj_set_style_text_color status_label COLOR_ORANGE;
                    lv_obj_set_style_bg_color mount_btn COLOR_GREEN;
                    lv_obj_set_style_text_color mount_btn_label COLOR_WHITE;
                    lv_label_set_text mount_btn_label (Lit "Unmount SD Card")] a in
    let a := updateNeoPixel COLOR_PURE_GREEN a in
    let a := set_sd_card_mounted true a in
    let a := set_usb_was_connected_before_mount (usb_connected a) a in
    let a := set_storage (mount (mount_env env) (storage a)).2 a in
    Some (set_usb_was_ever_mounted true a)
  else if usb_connected a && sd_card_mounted a then
    let a := draw (Serial_println "Unmount SD Card button pressed") a in
    let a := set_storage (unmount (storage a)) a in
    let a := set_sd_card_mounted false a in
    let a := set_usb_was_connected_before_mount false a in
    a ← refreshSDCardInfo bd env a;
    updateMountButtonState NESTING bd env a
  else
    let a := draw (Serial_println "USB not connected - cannot mount SD card") a in
    refreshSDCardInfo bd env a.

(** [loop()]; [now] is what [millis()] answers.  Its two timed parts
    first: the check of the USB connection, and the refresh of the
    labels. *)
Definition loop_check_usb (bd : Board) (env : AppEnv) (now : Z) (a : App)
  : option App :=
  if USB_CHECK_INTERVAL <=? wrap32 (now - lastUSBCheckTime a) then
    let current_usb_state := isUSBConnected (env_jtag_connected env) a in
    a ← (if negb (sd_card_mounted a) then
           let a := set_usb_connected current_usb_state a in
           if negb (eqb (usb_connected a) (last_usb_state a)) then
             let a := if usb_connected a
                      then draw (Serial_println "USB Connected!") a
                      else draw (Serial_println "USB Disconnected!") a in
             a ← updateMountButtonState NESTING bd env a;
             Some (set_last_usb_state (usb_connected a) a)
           else Some a
         else Some a);
    Some (set_lastUSBCheckTime now a)
  else Some a.

Definition loop_refresh (bd : Board) (env : AppEnv) (now : Z) (a : App)
  : option App :=
  if REFRESH_INTERVAL <=? wrap32 (now - lastRefreshTime a) then
    a ← refreshSDCardInfo bd env a;
    Some (set_lastRefreshTime now a)
  else Some a.

Definition loop (bd : Board) (env : AppEnv) (now : Z) (a : App) : option App :=
  let a := draw display_update a in
  a ← loop_check_usb bd env now a;
  a ← loop_refresh bd env now a;
  Some (draw (delay_ms 5) a).

(** [createSDCardScreen()]. *)
Definition createSDCardScreen (bd : Board) (env : AppEnv) (a : App)
  : option App :=
  let label w y a :=
    draws [lv_create "lv_label_create" w scr;
           lv_obj_set_style_text_color w 0x999999;
           lv_setup "lv_obj_set_style_text_font" w [ASym "Inter_20"; AInt 0];
           lv_setup "lv_obj_align" w [ASym "LV_ALIGN_TOP_MID"; AInt 0; AInt y]] a in
  let a := draws [lv_setup "lv_scr_act" scr [];
                  lv_obj_set_style_bg_color scr 0x000000;
                  lv_setup "lv_obj_set_style_bg_opa" scr
                    [ASym "LV_OPA_COVER"; ASym "LV_PART_MAIN"];
                  lv_create "lv_image_create" logo_img scr;
                  lv_setup "lv_image_set_src" logo_img [ASym "logotipo"];
                  lv_setup "lv_obj_align" logo_img
                    [ASym "LV_ALIGN_TOP_MID"; AInt 0; AInt 10];
                  lv_create "lv_label_create" status_label scr;
                  lv_obj_set_style_text_color status_label COLOR_WHITE;
                  lv_setup "lv_obj_set_style_text_font" status_label
                    [ASym "Inter_30"; AInt 0];
                  lv_setup "lv_obj_align" status_label
                    [ASym "LV_ALIGN_TOP_MID"; AInt 0; AInt 95]] a in
  let a := label storage_label 140 a in
  let a := label folders_label 170 a in
  let a := label root_files_label 200 a in
  let a := label total_files_label 230 a in
  let a := draws [lv_create "lv_btn_create" mount_btn scr;
                  lv_setup "lv_obj_set_size" mount_btn [AInt 200; AInt 50];
                  lv_setup "lv_obj_align" mount_btn
                    [ASym "LV_ALIGN_BOTTOM_MID"; AInt 0; AInt (-20)];
                  lv_setup "lv_obj_set_style_border_width" mount_btn
                    [AInt 0; AInt 0];
                  lv_setup "lv_obj_set_style_radius" mount_btn [AInt 10; AInt 0];
                  lv_setup "lv_obj_add_event_cb" mount_btn
                    [ASym "mount_btn_event_handler"; ASym "LV_EVENT_CLICKED"];
                  lv_create "lv_label_create" mount_btn_label mount_btn;
                  lv_setup "lv_obj_set_style_text_font" mount_btn_label
                    [ASym "lv_font_montserrat_16"; AInt 0];
                  lv_setup "lv_obj_center" mount_btn_label []] a in
  let a := set_usb_connected (isUSBConnected (env_jtag_connected env) a) a in
  let a := set_last_usb_state (usb_connected a) a in
  a ← updateMountButtonState NESTING bd env a;
  refreshSDCardInfo bd env a.

(** The globals as the program starts, on a device whose card is [card]. *)
Definition power_on (card : SDMMC) : App :=
  mkApp (boot card) false false false false false true 0 0 false [].

(** [setup()]; [display_ok] is what [display.init()] answers.  When it
    fails [setup()] never returns: [None]. *)
Definition setup (bd : Board) (env : AppEnv) (display_ok : bool) (a : App)
  : option App :=
  let a := draws [Serial_begin 115200;
                  Serial_println
                    "SD Card Info Display with USB Detection starting...";
                  pixels_new (NEO_PIXEL_COUNT bd) (NEO_PIXEL_PIN bd)] a in
  let a := set_pixels true a in
  let a := draws [pixels_begin; pixels_clear; pixels_show;
                  display_init display_ok] a in
  if negb display_ok then None
  else
    a ← createSDCardScreen bd env a;
    Some (draw (Serial_println "SD Card screen ready!") a).

(** ** The states the application reaches

    After [setup()] the state changes through [loop()], clicks on the
    button, and what the host does through the callbacks of
    [Storage.cpp]. *)

Inductive host_step : State -> State -> Prop :=
| host_startstop pc start eject st :
    host_step st (onStartStop pc start eject st).2
| host_event base id st : host_step st (usbEventCallback base id st)
| host_write junk lba offset buffer bufsize st r sd' ops :
    onWrite junk (SD_MMC st) lba offset buffer bufsize = Returned r sd' ops ->
    host_step st (set_SD_MMC sd' st).

Inductive app_step (bd : Board) : App -> App -> Prop :=
| app_loop env now a a' : loop bd env now a = Some a' -> app_step bd a a'
| app_click env a a' :
    mount_btn_event_handler bd env a = Some a' -> app_step bd a a'
| app_host a st' : host_step (storage a) st' -> app_step bd a (set_storage st' a).

Inductive app_reachable (bd : Board) : App -> Prop :=
| app_reachable_setup env card a :
    setup bd env true (power_on card) = Some a -> app_reachable bd a
| app_reachable_step a a' :
    app_reachable bd a -> app_step bd a a' -> app_reachable bd a'.

(** ** Directory trees *)

(** A directory tree, and what it means for the file system to answer as
    the tree [t] at [path]: [open(path)] gives a directory whose entries
    are the children of [t], and each child directory is answered at
    [path + name + "/"]. *)
#[warnings="-register-all"] Inductive FsTree :=
| TFile
| TDir (children : list (string * FsTree)).

Definition is_TDir (t : FsTree) : bool :=
  match t with TDir _ => true | TFile => false end.

Definition listing (children : list (string * FsTree)) : list DirEntry :=
  (fun c => mkDirEntry c.1 (is_TDir c.2)) <$> children.

#[warnings="-register-all"] Inductive answers_as (fs : string -> option FsObject) : string -> FsTree -> Prop :=
| answers_file path : answers_as fs path TFile
| answers_dir path children :
    fs path = Some (FsDir (listing children)) ->
    Forall (fun c => answers_as fs (path ++ c.1 ++ "/")%string c.2) children ->
    answers_as fs path (TDir children).

(** Files in a tree, directories below its root, files directly under its
    root, and the nesting of its directories. *)
Fixpoint tree_files (t : FsTree) : Z :=
  match t with
  | TFile => 1
  | TDir children =>
      (fix sum (l : list (string * FsTree)) : Z :=
         match l with
         | [] => 0
         | c :: l => tree_files c.2 + sum l
         end) children
  end.

Fixpoint tree_folders (t : FsTree) : Z :=
  match t with
  | TFile => 0
  | TDir children =>
      (fix sum (l : list (string * FsTree)) : Z :=
         match l with
         | [] => 0
         | c :: l => (if is_TDir c.2 then 1 + tree_folders c.2 else 0) + sum l
         end) children
  end.

Definition root_files (children : list (string * FsTree)) : Z :=
  Z.of_nat (length (filter (fun c => is_TDir c.2 = false) children)).

Fixpoint tree_depth (t : FsTree) : nat :=
  match t with
  | TFile => 0
  | TDir children =>
      S ((fix maxd (l : list (string * FsTree)) : nat :=
            match l with
            | [] => 0%nat
            | c :: l => Nat.max (tree_depth c.2) (maxd l)
            end) children)
  end.

(** ** Vocabulary for the application *)

(** [info] with its three counters raised. *)
Definition bump (folders roots files : Z) (info : SDCardInfo) : SDCardInfo :=
  mkSDCardInfo (detected info) (totalBytes info) (usedBytes info)
    (folderCount info + folders) (rootFileCount info + roots)
    (totalFileCount info + files).


(** The directory walk of [getSDCardInfo] comes to an end. *)
Definition env_walks (env : AppEnv) : Prop :=
  is_Some (countFilesAndFolders (env_depth env) (env_fs env) "/"
             (mkSDCardInfo true (env_totalBytes env) (env_usedBytes env) 0 0 0)
             true).

(** The calls of [getSDCardInfo] that the log of [Storage] records.  Its
    other calls to the driver ([totalBytes], [usedBytes], [open] and the
    reading of directories) are answered by the environment and are not
    logged. *)
Definition is_probe_call (c : Call) : bool :=
  match c with
  | SD_setPins _ _ _ | SD_begin _ _ _ | SD_cardType | SD_end => true
  | _ => false
  end.

(** [st'] is [st] after some probes: the same but for the log of library
    calls, which has grown by calls of the probe. *)
Definition only_called (st st' : State) : Prop :=
  s_mounted st' = s_mounted st /\ s_usbOnline st' = s_usbOnline st
  /\ SD_MMC st' = SD_MMC st /\ s_msc st' = s_msc st
  /\ usb_started st' = usb_started st
  /\ usb_events_attached st' = usb_events_attached st
  /\ exists new, calls st' = calls st ++ new
                 /\ forallb is_probe_call new = true.

(** [a'] is [a] after probing and drawing: flags, timers and the state
    of [Storage] are as before; the logs have grown, and
    [last_sd_present] may have changed. *)
Definition idle (a a' : App) : Prop :=
  only_called (storage a) (storage a')
  /\ usb_connected a' = usb_connected a
  /\ last_usb_state a' = last_usb_state a
  /\ usb_was_connected_before_mount a' = usb_was_connected_before_mount a
  /\ usb_was_ever_mounted a' = usb_was_ever_mounted a
  /\ sd_card_mounted a' = sd_card_mounted a
  /\ lastRefreshTime a' = lastRefreshTime a
  /\ lastUSBCheckTime a' = lastUSBCheckTime a
  /\ pixels a' = pixels a.

(** What the sketch's flags and the state of [Storage] have to do with
    each other. *)
Definition app_inv (a : App) : Prop :=
  lifecycle_inv (storage a)
  /\ mounted_inv (storage a)
  /\ (s_mounted (storage a) = true -> sd_card_mounted a = true)
  /\ (sd_card_mounted a = true ->
      usb_was_ever_mounted a = true
      /\ usb_was_connected_before_mount a = true)
  /\ (usb_was_ever_mounted a = true -> usb_connected a = true).

(** [a'] is [a] after a turn of [loop()]: as [idle], but the USB flags
    [usb_connected] and [last_usb_state] and the timers may have
    changed. *)
Definition watched (a a' : App) : Prop :=
  only_called (storage a) (storage a')
  /\ usb_was_connected_before_mount a' = usb_was_connected_before_mount a
  /\ usb_was_ever_mounted a' = usb_was_ever_mounted a
  /\ sd_card_mounted a' = sd_card_mounted a
  /\ pixels a' = pixels a.

(** ** A sample board, and a sample card with a few files

    [/a.txt], [/music/s1.mp3], [/music/old/s0.mp3] and [/b.txt]. *)

Definition sample_board : Board := mkBoard 6 5 7 1 4.

Definition sample_fs (path : string) : option FsObject :=
  if String.eqb path "/" then
    Some (FsDir [mkDirEntry "a.txt" false; mkDirEntry "music" true;
                 mkDirEntry "b.txt" false])
  else if String.eqb path "/music/" then
    Some (FsDir [mkDirEntry "s1.mp3" false; mkDirEntry "old" true])
  else if String.eqb path "/music/old/" then
    Some (FsDir [mkDirEntry "s0.mp3" false])
  else None.

Definition sample_tree : list (string * FsTree) :=
  [("a.txt", TFile);
   ("music", TDir [("s1.mp3", TFile); ("old", TDir [("s0.mp3", TFile)])]);
   ("b.txt", TFile)]%string.

(** A host on the port, a card that answers, a class that starts. *)
Definition sample_env : AppEnv :=
  mkAppEnv true true true true 4096 1024 sample_fs 8.

(** No host on the port. *)
Definition unplugged_env : AppEnv :=
  mkAppEnv false true true true 4096 1024 sample_fs 8.

(** No card in the slot. *)
Definition empty_slot_env : AppEnv :=
  mkAppEnv true true false true 0 0 (fun _ => None) 8.

(** [a'] is [a] redrawn: only the log of drawing and the timers may
    differ. *)
Definition redrawn (a a' : App) : Prop :=
  storage a' = storage a
  /\ usb_connected a' = usb_connected a
  /\ last_usb_state a' = last_usb_state a
  /\ usb_was_connected_before_mount a' = usb_was_connected_before_mount a
  /\ usb_was_ever_mounted a' = usb_was_ever_mounted a
  /\ sd_card_mounted a' = sd_card_mounted a
  /\ last_sd_present a' = last_sd_present a
  /\ pixels a' = pixels a.

(** * Proofs *)

(** ** Integers and buffers *)

Lemma wrap32_small z : 0 <= z < 2 ^ 32 -> wrap32 z = z.
Proof. intros; unfold wrap32; apply Z.mod_small; lia. Qed.

Lemma to_int32_small z : 0 <= z < 2 ^ 31 -> to_int32 z = z.
Proof.
  intros. unfold to_int32. rewrite wrap32_small by lia.
  destruct (Z.ltb_spec z (2 ^ 31)); lia.
Qed.

Lemma length_stack_buffer junk :
  Z.of_nat (length (stack_buffer junk)) = TMP_SIZE.
Proof.
  unfold stack_buffer.
  rewrite length_take, length_app, length_replicate. unfold TMP_SIZE. lia.
Qed.

Lemma buf_store_head buf data :
  Z.of_nat (length data) <= Z.of_nat (length buf) ->
  buf_store buf 0 data = Some (data ++ drop (length data) buf).
Proof.
  intros Hle. unfold buf_store.
  replace ((0 <=? 0) && (0 + Z.of_nat (length data) <=? Z.of_nat (length buf)))
    with true by (symmetry; apply andb_true_iff; split; apply Z.leb_le; lia).
  change (Z.to_nat 0) with 0%nat. rewrite take_0. reflexivity.
Qed.

Lemma buf_store_Some (buf : list byte) off src :
  0 <= off -> off + Z.of_nat (length src) <= Z.of_nat (length buf) ->
  buf_store buf off src
  = Some (take (Z.to_nat off) buf ++ src ++ drop (Z.to_nat off + length src) buf).
Proof.
  intros Ho Hle. unfold buf_store.
  replace ((0 <=? off) && (off + Z.of_nat (length src) <=? Z.of_nat (length buf)))
    with true; [reflexivity|].
  symmetry. rewrite andb_true_iff, !Z.leb_le. lia.
Qed.

Lemma buf_load_prefix (data rest : list byte) off n :
  0 <= off -> 0 <= n -> off + n <= Z.of_nat (length data) ->
  buf_load (data ++ rest) off n
  = Some (take (Z.to_nat n) (drop (Z.to_nat off) data)).
Proof.
  intros Ho Hn Hle. unfold buf_load.
  replace ((0 <=? off) && (0 <=? n)
           && (off + n <=? Z.of_nat (length (data ++ rest)))) with true.
  2:{ symmetry. rewrite !andb_true_iff, !Z.leb_le, length_app. lia. }
  f_equal. rewrite drop_app_le by lia. apply take_app_le.
  rewrite length_drop. lia.
Qed.

Lemma buf_load_head (buf : list byte) n :
  0 <= n <= Z.of_nat (length buf) ->
  buf_load buf 0 n = Some (take (Z.to_nat n) buf).
Proof.
  intros Hn. unfold buf_load.
  replace ((0 <=? 0) && (0 <=? n) && (0 + n <=? Z.of_nat (length buf))) with true.
  2:{ symmetry. rewrite !andb_true_iff, !Z.leb_le. lia. }
  change (Z.to_nat 0) with 0%nat. rewrite drop_0. reflexivity.
Qed.

Lemma buf_load_nonneg buf off n bytes :
  buf_load buf off n = Some bytes -> 0 <= off /\ 0 <= n.
Proof.
  unfold buf_load.
  destruct (Z.leb_spec 0 off); [|discriminate].
  destruct (Z.leb_spec 0 n); [|discriminate]. auto.
Qed.

Lemma take_split (l : list byte) a b :
  0 <= a <= b ->
  take (Z.to_nat b) l
  = take (Z.to_nat a) l ++ take (Z.to_nat (b - a)) (drop (Z.to_nat a) l).
Proof.
  intros Hab.
  rewrite <- (take_drop (Z.to_nat a) (take (Z.to_nat b) l)).
  rewrite take_take, skipn_firstn_comm.
  f_equal; f_equal; lia.
Qed.

(** ** The card *)

Lemma read_sector_Some sd blk data :
  read_sector sd blk = Some data ->
  sd_open sd = true /\ sd_read_ok sd blk = true /\ sd_sectors sd !! blk = Some data.
Proof.
  unfold read_sector. destruct (sd_open sd), (sd_read_ok sd blk); simpl; try discriminate.
  auto.
Qed.

Lemma read_sector_is_Some sd b :
  is_Some (read_sector sd b)
  <-> sd_open sd = true /\ sd_read_ok sd b = true /\ is_Some (sd_sectors sd !! b).
Proof.
  unfold read_sector.
  destruct (sd_open sd), (sd_read_ok sd b); cbn; split;
    try tauto; try (intros [? ?]; discriminate); intros (? & ? & ?); discriminate.
Qed.

Lemma read_sector_lookup sd b data :
  is_Some (read_sector sd b) -> sd_sectors sd !! b = Some data ->
  read_sector sd b = Some data.
Proof.
  intros [x Hx] Hlk. destruct (read_sector_Some _ _ _ Hx) as (_ & _ & Hlk').
  congruence.
Qed.

Lemma write_accepted_Some sd blk :
  write_accepted sd blk = true ->
  sd_open sd = true /\ is_Some (sd_sectors sd !! blk).
Proof.
  unfold write_accepted. rewrite !andb_true_iff, bool_decide_eq_true. tauto.
Qed.

Lemma medium_wf_sector sd blk data :
  medium_wf sd -> sd_sectors sd !! blk = Some data ->
  0 <= blk < sd_numSectors sd /\ Z.of_nat (length data) = sd_sectorSize sd.
Proof. intros (_ & _ & Hall) Hk. exact (Hall blk data Hk). Qed.

Lemma medium_wf_write sd blk img :
  medium_wf sd -> is_Some (sd_sectors sd !! blk) ->
  Z.of_nat (length img) = sd_sectorSize sd ->
  medium_wf (set_sd_sectors (<[blk := img]> (sd_sectors sd)) sd).
Proof.
  intros (Hs & Hn & Hall) [old Hold] Hlen.
  split; [exact Hs|]. split; [exact Hn|]. cbn.
  apply map_Forall_insert_2; [|exact Hall].
  split; [exact (proj1 (Hall blk old Hold)) | exact Hlen].
Qed.

Lemma sectorSize_open sd : 0 < sectorSize sd -> sd_open sd = true /\ sectorSize sd = sd_sectorSize sd.
Proof. unfold sectorSize. destruct (sd_open sd); [auto|lia]. Qed.

Lemma readRAW_ok junk sd blk data :
  read_sector sd blk = Some data ->
  Z.of_nat (length data) <= TMP_SIZE ->
  readRAW sd (stack_buffer junk) blk
  = RawOk (data ++ drop (length data) (stack_buffer junk)).
Proof.
  intros Hrd Hle. unfold readRAW. rewrite Hrd.
  rewrite buf_store_head; [reflexivity|]. rewrite length_stack_buffer. lia.
Qed.

Lemma writeRAW_open sd buf blk sd' :
  writeRAW sd buf blk = RawOk sd' -> sd_open sd' = sd_open sd.
Proof.
  unfold writeRAW. destruct (write_accepted sd blk); [|discriminate].
  destruct (buf_load buf 0 (sd_sectorSize sd)); [|discriminate].
  intros [= <-]. reflexivity.
Qed.

(** *** The same card with other bytes *)

Lemma same_card_refl sd : same_card sd sd.
Proof. unfold same_card. auto 10. Qed.

Lemma same_card_trans sd1 sd2 sd3 :
  same_card sd1 sd2 -> same_card sd2 sd3 -> same_card sd1 sd3.
Proof.
  unfold same_card. intuition congruence.
Qed.

Lemma same_card_write sd blk img :
  is_Some (sd_sectors sd !! blk) ->
  same_card sd (set_sd_sectors (<[blk := img]> (sd_sectors sd)) sd).
Proof.
  intros Hin. unfold same_card. cbn. split_and!; try reflexivity.
  rewrite dom_insert_L. apply subseteq_union_1_L, singleton_subseteq_l.
  apply elem_of_dom. exact Hin.
Qed.

Lemma same_card_lookup sd sd' b :
  same_card sd sd' ->
  is_Some (sd_sectors sd !! b) <-> is_Some (sd_sectors sd' !! b).
Proof.
  intros (_ & _ & _ & _ & _ & _ & Hdom).
  rewrite <- !elem_of_dom, Hdom. reflexivity.
Qed.

Lemma read_sector_same_card sd sd' b :
  same_card sd sd' ->
  is_Some (read_sector sd b) <-> is_Some (read_sector sd' b).
Proof.
  intros Hsame. rewrite !read_sector_is_Some.
  rewrite (same_card_lookup sd sd' b Hsame).
  destruct Hsame as (-> & _ & _ & _ & -> & _ & _). reflexivity.
Qed.

Lemma write_accepted_same_card sd sd' b :
  same_card sd sd' -> write_accepted sd' b = write_accepted sd b.
Proof.
  intros Hsame. unfold write_accepted.
  rewrite (bool_decide_ext _ _ (same_card_lookup sd sd' b Hsame)).
  destruct Hsame as (-> & _ & _ & _ & _ & -> & _). reflexivity.
Qed.

Lemma card_answer_same_card sd sd' op :
  same_card sd sd' -> card_answer sd' op = card_answer sd op.
Proof.
  intros Hsame. destruct op as [k ok|k img ok]; cbn.
  - apply bool_decide_ext. symmetry. apply read_sector_same_card. exact Hsame.
  - apply write_accepted_same_card. exact Hsame.
Qed.

(** ** Byte positions and sectors *)

Lemma medium_byte_at sd blk data j :
  0 < sd_sectorSize sd -> 
  sd_sectors sd !! blk = Some data ->
  0 <= j < sd_sectorSize sd ->
  medium_byte sd (blk * sd_sectorSize sd + j) = default x00 (data !! Z.to_nat j).
Proof.
  intros Hs Hk Hj. unfold medium_byte.
  replace ((blk * sd_sectorSize sd + j) / sd_sectorSize sd) with blk.
  2:{ rewrite Z.div_add_l by lia. rewrite Z.div_small by lia. lia. }
  replace ((blk * sd_sectorSize sd + j) mod sd_sectorSize sd) with j.
  2:{ rewrite Z.add_comm, Z.mod_add by lia. rewrite Z.mod_small; lia. }
  rewrite Hk. reflexivity.
Qed.

Lemma medium_bytes_sector sd blk data off n :
  0 < sd_sectorSize sd ->
  sd_sectors sd !! blk = Some data ->
  Z.of_nat (length data) = sd_sectorSize sd ->
  0 <= off -> 0 <= n -> off + n <= sd_sectorSize sd ->
  take (Z.to_nat n) (drop (Z.to_nat off) data)
  = medium_bytes sd (blk * sd_sectorSize sd + off) n.
Proof.
  intros Hs Hk Hlen Ho Hn Hle. unfold medium_bytes.
  apply list_eq. intros i. rewrite list_lookup_fmap.
  destruct (decide (Z.of_nat i < n)) as [Hi|Hi].
  - rewrite lookup_take_lt by lia. rewrite lookup_drop.
    rewrite lookup_seqZ_lt by lia. simpl.
    replace (blk * sd_sectorSize sd + off + Z.of_nat i)
      with (blk * sd_sectorSize sd + (off + Z.of_nat i)) by lia.
    rewrite (medium_byte_at sd blk data) by (auto; lia).
    replace (Z.to_nat (off + Z.of_nat i)) with (Z.to_nat off + i)%nat by lia.
    destruct (lookup_lt_is_Some_2 data (Z.to_nat off + i)) as [b Hb]; [lia|].
    rewrite Hb. reflexivity.
  - rewrite lookup_take_ge by lia. rewrite lookup_seqZ_ge by lia. reflexivity.
Qed.

Lemma medium_bytes_nil sd pos : medium_bytes sd pos 0 = [].
Proof. unfold medium_bytes. rewrite seqZ_nil by lia. reflexivity. Qed.

Lemma medium_bytes_app sd pos a b :
  0 <= a -> 0 <= b ->
  medium_bytes sd pos (a + b) = medium_bytes sd pos a ++ medium_bytes sd (pos + a) b.
Proof.
  intros. unfold medium_bytes. rewrite seqZ_app by lia. apply fmap_app.
Qed.

Lemma length_medium_bytes sd pos n :
  Z.of_nat (length (medium_bytes sd pos n)) = Z.max 0 n.
Proof. unfold medium_bytes. rewrite length_fmap, length_seqZ. lia. Qed.

Lemma sectors_touched_step sec off remain :
  0 < sec -> 0 <= off < sec -> 0 < remain ->
  sectors_touched sec off remain
  = 1 + sectors_touched sec 0 (remain - Z.min remain (sec - off)).
Proof.
  intros Hs Ho Hr. unfold sectors_touched.
  destruct (Z.min_spec remain (sec - off)) as [[Hlt ->]|[Hge ->]].
  - replace (0 + (remain - remain) + sec - 1) with (sec - 1) by lia.
    rewrite (Z.div_small (sec - 1)) by lia.
    replace (off + remain + sec - 1) with (1 * sec + (off + remain - 1)) by lia.
    rewrite Z.div_add_l by lia. rewrite Z.div_small by lia. lia.
  - replace (off + remain + sec - 1)
      with (1 * sec + (0 + (remain - (sec - off)) + sec - 1)) by lia.
    rewrite Z.div_add_l by lia. lia.
Qed.

Lemma sectors_touched_nonneg sec off remain :
  0 < sec -> 0 <= off -> 0 <= remain -> 0 <= sectors_touched sec off remain.
Proof. intros. unfold sectors_touched. apply Z.div_pos; lia. Qed.

Lemma sectors_touched_0 sec : 0 < sec -> sectors_touched sec 0 0 = 0.
Proof. intros. unfold sectors_touched. apply Z.div_small. lia. Qed.

Lemma sectors_touched_aligned sec len :
  0 < sec -> (sec | len) -> sectors_touched sec 0 len = len / sec.
Proof.
  intros Hsec [m ->]. unfold sectors_touched.
  rewrite Z.div_mul by lia.
  replace (0 + m * sec + sec - 1) with (m * sec + (sec - 1)) by lia.
  rewrite Z.div_add_l by lia. rewrite (Z.div_small (sec - 1)) by lia. lia.
Qed.

Lemma rmw_iff_partial sec remain blk off :
  0 < sec -> 0 <= off -> 
  negb (off =? 0) || (remain <? sec) = true
  <-> partial_sector sec (blk * sec + off) remain blk.
Proof.
  intros Hsec Hoff. unfold partial_sector.
  rewrite orb_true_iff, negb_true_iff, Z.eqb_neq, Z.ltb_lt. lia.
Qed.

Lemma partial_sector_words sec lba offset len k :
  0 < sec -> 0 <= offset < sec -> lba <= k ->
  partial_sector sec (lba * sec + offset) len k
  <-> (k = lba /\ offset <> 0)
      \/ lba * sec + offset + len - Z.max (lba * sec + offset) (k * sec) < sec.
Proof.
  intros Hsec Hoff Hk. unfold partial_sector.
  destruct (decide (k = lba)) as [->|Hne]; [lia|].
  assert ((lba + 1) * sec <= k * sec) by nia. lia.
Qed.

(** ** The spliced sector *)

Lemma spliced_length sec pos data old k :
  length (spliced sec pos data old k) = length old.
Proof. unfold spliced. apply length_imap. Qed.

Lemma spliced_lookup sec pos data old k j b :
  old !! j = Some b ->
  spliced sec pos data old k !! j
  = Some (if (pos <=? k * sec + Z.of_nat j)
             && (k * sec + Z.of_nat j <? pos + Z.of_nat (length data))
          then default b (data !! Z.to_nat (k * sec + Z.of_nat j - pos))
          else b).
Proof. intros Hb. unfold spliced. rewrite list_lookup_imap, Hb. reflexivity. Qed.

Lemma spliced_outside sec pos data old k j :
  ~ (pos <= k * sec + Z.of_nat j < pos + Z.of_nat (length data)) ->
  spliced sec pos data old k !! j = old !! j.
Proof.
  intros Hout. destruct (old !! j) as [b|] eqn:Hb.
  - rewrite (spliced_lookup _ _ _ _ _ _ b Hb).
    destruct (Z.leb_spec pos (k * sec + Z.of_nat j));
      destruct (Z.ltb_spec (k * sec + Z.of_nat j) (pos + Z.of_nat (length data)));
      cbn; try reflexivity. lia.
  - apply lookup_ge_None. rewrite spliced_length. apply lookup_ge_None. exact Hb.
Qed.

Lemma spliced_inside sec pos data old k j :
  (j < length old)%nat ->
  pos <= k * sec + Z.of_nat j < pos + Z.of_nat (length data) ->
  spliced sec pos data old k !! j = data !! Z.to_nat (k * sec + Z.of_nat j - pos).
Proof.
  intros Hj Hin. destruct (lookup_lt_is_Some_2 old j Hj) as [b Hb].
  rewrite (spliced_lookup _ _ _ _ _ _ b Hb).
  destruct (Z.leb_spec pos (k * sec + Z.of_nat j)); [|lia].
  destruct (Z.ltb_spec (k * sec + Z.of_nat j) (pos + Z.of_nat (length data))); [|lia].
  cbn.
  destruct (lookup_lt_is_Some_2 data (Z.to_nat (k * sec + Z.of_nat j - pos)))
    as [x Hx]; [lia|].
  rewrite Hx. reflexivity.
Qed.

(** The image built by a round that reads first is the old sector with the
    request's bytes laid over their range. *)
Lemma sector_image_spliced sec remain blk off (src old : list byte) :
  0 < sec -> 0 <= off <= sec -> 0 < remain <= Z.of_nat (length src) ->
  Z.of_nat (length old) = sec ->
  let chunk := Z.min remain (sec - off) in
  take (Z.to_nat off) old ++ take (Z.to_nat chunk) src
    ++ drop (Z.to_nat (off + chunk)) old
  = spliced sec (blk * sec + off) (take (Z.to_nat remain) src) old blk.
Proof.
  intros Hsec Hoff Hrem Hlen chunk.
  assert (Hchunk : 0 <= chunk <= remain /\ off + chunk <= sec) by (subst chunk; lia).
  apply list_eq. intros j. unfold spliced. rewrite list_lookup_imap.
  rewrite length_take.
  replace (Z.of_nat (Z.to_nat remain `min` length src)) with remain by lia.
  destruct (old !! j) as [b|] eqn:Hb; cbn.
  - apply lookup_lt_Some in Hb as Hj.
    destruct (decide (Z.of_nat j < off)) as [Hlo|Hlo].
    + rewrite lookup_app_l by (rewrite length_take; lia).
      rewrite lookup_take_lt by lia. rewrite Hb. f_equal.
      destruct (Z.leb_spec (blk * sec + off) (blk * sec + Z.of_nat j)); [lia|].
      reflexivity.
    + rewrite lookup_app_r by (rewrite length_take; lia).
      rewrite length_take.
      destruct (decide (Z.of_nat j < off + chunk)) as [Hin|Hin].
      * rewrite lookup_app_l by (rewrite length_take; lia).
        rewrite lookup_take_lt by lia.
        destruct (Z.leb_spec (blk * sec + off) (blk * sec + Z.of_nat j)); [|lia].
        destruct (Z.ltb_spec (blk * sec + Z.of_nat j) (blk * sec + off + remain)); [|lia].
        cbn. rewrite lookup_take_lt by lia.
        replace (Z.to_nat (blk * sec + Z.of_nat j - (blk * sec + off)))
          with (j - Z.to_nat off `min` length old)%nat by lia.
        destruct (lookup_lt_is_Some_2 src (j - Z.to_nat off `min` length old)) as [x Hx];
          [lia|].
        rewrite Hx. reflexivity.
      * rewrite lookup_app_r by (rewrite length_take; lia).
        rewrite length_take, lookup_drop.
        replace (Z.to_nat (off + chunk)
                 + (j - Z.to_nat off `min` length old
                    - Z.to_nat chunk `min` length src))%nat with j by lia.
        rewrite Hb. f_equal.
        destruct (Z.leb_spec (blk * sec + off) (blk * sec + Z.of_nat j)); [|lia].
        destruct (Z.ltb_spec (blk * sec + Z.of_nat j) (blk * sec + off + remain)); [lia|].
        reflexivity.
  - apply lookup_ge_None in Hb. apply lookup_ge_None.
    rewrite !length_app, !length_take, length_drop. lia.
Qed.

(** Past the first sector the layout of a request is that of the rest of
    the request. *)
Lemma spliced_shift sec pos remain chunk (src old : list byte) k :
  0 < sec -> 0 <= chunk <= remain -> remain <= Z.of_nat (length src) ->
  pos + chunk <= k * sec ->
  spliced sec pos (take (Z.to_nat remain) src) old k
  = spliced sec (pos + chunk)
      (take (Z.to_nat (remain - chunk)) (drop (Z.to_nat chunk) src)) old k.
Proof.
  intros Hsec Hchunk Hrem Hk. unfold spliced. apply imap_ext.
  intros j b Hb. cbn. rewrite !length_take, length_drop.
  replace (Z.of_nat (Z.to_nat remain `min` length src)) with remain by lia.
  replace (Z.of_nat (Z.to_nat (remain - chunk)
                     `min` (length src - Z.to_nat chunk)))
    with (remain - chunk) by lia.
  destruct (Z.leb_spec pos (k * sec + Z.of_nat j)); [|lia].
  destruct (Z.leb_spec (pos + chunk) (k * sec + Z.of_nat j)); [|lia].
  cbn.
  destruct (Z.ltb_spec (k * sec + Z.of_nat j) (pos + remain));
    destruct (Z.ltb_spec (k * sec + Z.of_nat j) (pos + chunk + (remain - chunk)));
    try lia; [|reflexivity].
  rewrite !lookup_take_lt by lia. rewrite lookup_drop. do 2 f_equal. lia.
Qed.

Lemma sector_image_length sd remain blk off src img :
  medium_wf sd -> 0 < sd_sectorSize sd ->
  0 <= off <= sd_sectorSize sd -> 0 < remain <= Z.of_nat (length src) ->
  sector_image sd (sd_sectorSize sd) remain blk off src = Some img ->
  Z.of_nat (length img) = sd_sectorSize sd.
Proof.
  intros Hwf Hsec Hoff Hrem. unfold sector_image.
  destruct (negb (off =? 0) || (remain <? sd_sectorSize sd)) eqn:Hrmw.
  - destruct (read_sector sd blk) as [old|] eqn:Hold; cbn; [|discriminate].
    destruct (read_sector_Some _ _ _ Hold) as (Hopen & _ & Hlk).
    destruct (medium_wf_sector _ _ _ Hwf Hlk) as [Hrange Hlen].
    intros [= <-]. rewrite !length_app, !length_take, length_drop. lia.
  - apply orb_false_iff in Hrmw as [Hz Hfull]. apply Z.ltb_ge in Hfull.
    intros [= <-]. rewrite length_take. lia.
Qed.

(** The sector a round writes, read back: the request's bytes at the
    place they were laid. *)
Lemma sector_image_readback sd remain blk off src img :
  medium_wf sd -> 0 < sd_sectorSize sd ->
  0 <= off <= sd_sectorSize sd -> 0 < remain <= Z.of_nat (length src) ->
  sector_image sd (sd_sectorSize sd) remain blk off src = Some img ->
  let chunk := Z.min remain (sd_sectorSize sd - off) in
  take (Z.to_nat chunk) (drop (Z.to_nat off) img) = take (Z.to_nat chunk) src.
Proof.
  intros Hwf Hsec Hoff Hrem Himg chunk. unfold sector_image in Himg.
  fold chunk in Himg.
  destruct (negb (off =? 0) || (remain <? sd_sectorSize sd)) eqn:Hrmw.
  - destruct (read_sector sd blk) as [old|] eqn:Hold; [|discriminate].
    cbn in Himg. injection Himg as <-.
    destruct (read_sector_Some _ _ _ Hold) as (_ & _ & Hlk).
    destruct (medium_wf_sector _ _ _ Hwf Hlk) as [_ Hlen].
    rewrite drop_app_length' by (rewrite length_take; lia).
    apply take_app_length'. rewrite length_take. subst chunk. lia.
  - injection Himg as <-.
    apply orb_false_iff in Hrmw as [Hz Hfull].
    apply negb_false_iff, Z.eqb_eq in Hz. apply Z.ltb_ge in Hfull. subst off.
    change (Z.to_nat 0) with 0%nat. rewrite drop_0, take_take.
    f_equal. subst chunk. lia.
Qed.

(** ** Traces *)

Lemma all_or_abort_nil bufsize : all_or_abort (to_int32 bufsize) bufsize [].
Proof. left. split; [reflexivity | constructor]. Qed.

Lemma all_or_abort_failed bufsize pre op :
  Forall (fun op => op_ok op = true) pre -> op_ok op = false ->
  all_or_abort (-1) bufsize (pre ++ [op]).
Proof. intros Hpre Hop. right. split; [reflexivity|]. exists pre, op. auto. Qed.

Lemma all_or_abort_app r bufsize pre ops :
  Forall (fun op => op_ok op = true) pre ->
  all_or_abort r bufsize ops -> all_or_abort r bufsize (pre ++ ops).
Proof.
  intros Hpre [[-> Hall]|[-> (pre' & op & -> & Hop & Hall)]].
  - left. split; [reflexivity|]. apply Forall_app; auto.
  - right. split; [reflexivity|]. exists (pre ++ pre'), op.
    rewrite app_assoc. split_and!; auto. apply Forall_app; auto.
Qed.

Lemma all_or_abort_ret r bufsize ops :
  all_or_abort r bufsize ops -> r = -1 \/ r = to_int32 bufsize.
Proof. intros [[-> _]|[-> _]]; auto. Qed.

Lemma rmw_read_ok sec remain blk off :
  Forall (fun op => op_ok op = true) (rmw_read sec remain blk off).
Proof. unfold rmw_read. destruct (_ || _); repeat constructor. Qed.

Lemma rmw_read_sector sec remain blk off :
  Forall (fun op => op_sector op = blk /\ is_read op = true)
         (rmw_read sec remain blk off).
Proof. unfold rmw_read. destruct (_ || _); repeat constructor. Qed.

Lemma rmw_read_writes sec remain blk off :
  filter (fun op => is_write op) (rmw_read sec remain blk off) = [].
Proof. unfold rmw_read. destruct (_ || _); reflexivity. Qed.

Lemma split_at_write rd x l2 pre k img ok post :
  Forall (fun op => is_read op = true) rd ->
  rd ++ x :: l2 = pre ++ WrSector k img ok :: post ->
  (pre = rd /\ x = WrSector k img ok /\ post = l2)
  \/ (exists m, pre = rd ++ x :: m /\ l2 = m ++ WrSector k img ok :: post).
Proof.
  revert pre. induction rd as [|r rd IH]; intros pre Hrd Heq.
  - destruct pre as [|p pre]; cbn in Heq.
    + injection Heq as -> ->. left. auto.
    + injection Heq as -> ->. right. exists pre. auto.
  - apply Forall_cons in Hrd as [Hr Hrd].
    destruct pre as [|p pre]; cbn in Heq.
    + injection Heq as -> _. discriminate.
    + injection Heq as -> Heq. destruct (IH pre Hrd Heq) as [(-> & -> & ->)|(m & -> & ->)].
      * left. auto.
      * right. exists m. auto.
Qed.

Lemma filter_all_writes ops :
  Forall (fun op => is_write op = true) ops ->
  filter (fun op => is_write op) ops = ops.
Proof.
  induction 1 as [|op ops Hop _ IH]; [reflexivity|].
  rewrite filter_cons_True by (rewrite Hop; exact I). f_equal. exact IH.
Qed.

Create HintDb storage discriminated.

#[global] Hint Resolve all_or_abort_nil same_card_refl rmw_read_ok : storage.
#[global] Hint Constructors Forall : storage.

(** ** The read loop

    On a card whose sectors fit the sector buffer a round of the loop is a
    read of the card and a copy out of the sector read; the buffers drop
    out of the equations. *)

Lemma onRead_loop_done fuel junk sd sec bufsize blk off :
  onRead_loop fuel junk sd sec bufsize 0 blk off
  = Returned (to_int32 bufsize) [] [].
Proof. destruct fuel; reflexivity. Qed.

Section ReadLoop.
Context (junk : list byte) (sd : SDMMC) (bufsize : Z).
Hypothesis Hwf : medium_wf sd.
Hypothesis Hsec : 0 < sd_sectorSize sd <= TMP_SIZE.

Lemma onRead_loop_step fuel remain blk off :
  0 <= off <= sd_sectorSize sd -> 0 < remain ->
  onRead_loop (S fuel) junk sd (sd_sectorSize sd) bufsize remain blk off
  = match read_sector sd blk with
    | None => Returned (-1) [] [RdSector blk false]
    | Some data =>
        let chunk := Z.min remain (sd_sectorSize sd - off) in
        match onRead_loop fuel junk sd (sd_sectorSize sd) bufsize
                (remain - chunk) (wrap32 (blk + 1)) 0 with
        | Returned r rest ops =>
            Returned r (take (Z.to_nat chunk) (drop (Z.to_nat off) data) ++ rest)
                     (RdSector blk true :: ops)
        | Fault => Fault
        | OutOfFuel => OutOfFuel
        end
    end.
Proof.
  intros Hoff Hrem. cbn [onRead_loop].
  destruct (Z.eqb_spec remain 0) as [|_]; [lia|].
  destruct (read_sector sd blk) as [data|] eqn:Hdata.
  - destruct (read_sector_Some _ _ _ Hdata) as (Hopen & _ & Hlk).
    destruct (medium_wf_sector _ _ _ Hwf Hlk) as [Hrange Hlen].
    rewrite (readRAW_ok junk sd blk data Hdata) by lia.
    rewrite (wrap32_small (sd_sectorSize sd - off)) by (destruct Hwf; lia).
    rewrite buf_load_prefix by lia. reflexivity.
  - unfold readRAW. rewrite Hdata. reflexivity.
Qed.

Lemma onRead_loop_ok fuel :
  forall remain blk off,
    0 <= blk -> 0 <= off < sd_sectorSize sd -> 0 <= remain ->
    (Z.to_nat remain <= fuel)%nat ->
    (remain = 0 -> off = 0) ->
    (forall i, 0 <= i < sectors_touched (sd_sectorSize sd) off remain ->
               is_Some (read_sector sd (blk + i))) ->
    onRead_loop fuel junk sd (sd_sectorSize sd) bufsize remain blk off
    = Returned (to_int32 bufsize)
        (medium_bytes sd (blk * sd_sectorSize sd + off) remain)
        ((fun b => RdSector b true)
           <$> seqZ blk (sectors_touched (sd_sectorSize sd) off remain)).
Proof.
  induction fuel as [|fuel IH]; intros remain blk off Hblk Hoff Hrem Hfuel Hz Hrd.
  - assert (remain = 0) as -> by lia. rewrite (Hz eq_refl). simpl.
    rewrite medium_bytes_nil, sectors_touched_0 by lia. reflexivity.
  - cbn [onRead_loop]. destruct (Z.eqb_spec remain 0) as [->|Hne].
    { rewrite (Hz eq_refl), medium_bytes_nil, sectors_touched_0 by lia. reflexivity. }
    pose proof (sectors_touched_step (sd_sectorSize sd) off remain) as Hstep.
    assert (0 <= sectors_touched (sd_sectorSize sd) 0
                   (remain - Z.min remain (sd_sectorSize sd - off))) as Hnn
      by (apply sectors_touched_nonneg; lia).
    specialize (Hstep ltac:(lia) ltac:(lia) ltac:(lia)).
    destruct (Hrd 0) as [data Hdata]; [lia|].
    rewrite Z.add_0_r in Hdata.
    destruct (read_sector_Some _ _ _ Hdata) as (Hopen & _ & Hlk).
    destruct (medium_wf_sector _ _ _ Hwf Hlk) as [Hrange Hlen].
    rewrite (readRAW_ok junk sd blk data Hdata) by lia.
    rewrite (wrap32_small (sd_sectorSize sd - off)) by (destruct Hwf; lia).
    rewrite buf_load_prefix by lia.
    rewrite (wrap32_small (blk + 1)) by (destruct Hwf as (? & ? & ?); lia).
    rewrite IH; try lia; auto.
    + f_equal.
      * rewrite (medium_bytes_sector sd blk data) by (first [assumption | lia]).
        replace remain with (Z.min remain (sd_sectorSize sd - off)
                             + (remain - Z.min remain (sd_sectorSize sd - off))) at 4 by lia.
        rewrite medium_bytes_app by lia. f_equal.
        destruct (Z.min_spec remain (sd_sectorSize sd - off)) as [[Hlt Hm]|[Hge Hm]]; rewrite Hm.
        -- rewrite Z.sub_diag, !medium_bytes_nil. reflexivity.
        -- f_equal. lia.
      * rewrite Hstep.
        rewrite (seqZ_cons blk) by lia. rewrite fmap_cons. do 3 f_equal; lia.
    + intros i Hi. replace (blk + 1 + i) with (blk + (1 + i)) by lia.
      apply Hrd. lia.
Qed.

Lemma onRead_loop_chunks fuel :
  forall remain blk off,
    0 <= blk -> 0 <= off < sd_sectorSize sd -> 0 <= remain ->
    (Z.to_nat remain <= fuel)%nat ->
    (remain = 0 -> off = 0) ->
    (forall i, 0 <= i < sectors_touched (sd_sectorSize sd) off remain ->
               is_Some (read_sector sd (blk + i))) ->
    exists ops,
    onRead_loop fuel junk sd (sd_sectorSize sd) bufsize remain blk off
    = Returned (to_int32 bufsize)
        (concat (sector_chunk sd (blk * sd_sectorSize sd + off) remain
                   <$> seqZ blk (sectors_touched (sd_sectorSize sd) off remain)))
        ops.
Proof.
  induction fuel as [|fuel IH]; intros remain blk off Hblk Hoff Hrem Hfuel Hz Hrd.
  - assert (remain = 0) as -> by lia. rewrite (Hz eq_refl). simpl.
    rewrite sectors_touched_0 by lia. eexists; reflexivity.
  - cbn [onRead_loop]. destruct (Z.eqb_spec remain 0) as [->|Hne].
    { rewrite (Hz eq_refl), sectors_touched_0 by lia. eexists; reflexivity. }
    pose proof (sectors_touched_step (sd_sectorSize sd) off remain) as Hstep.
    assert (0 <= sectors_touched (sd_sectorSize sd) 0
                   (remain - Z.min remain (sd_sectorSize sd - off))) as Hnn
      by (apply sectors_touched_nonneg; lia).
    specialize (Hstep ltac:(lia) ltac:(lia) ltac:(lia)).
    destruct (Hrd 0) as [data Hdata]; [lia|].
    rewrite Z.add_0_r in Hdata.
    destruct (read_sector_Some _ _ _ Hdata) as (Hopen & _ & Hlk).
    destruct (medium_wf_sector _ _ _ Hwf Hlk) as [Hrange Hlen].
    rewrite (readRAW_ok junk sd blk data Hdata) by lia.
    rewrite (wrap32_small (sd_sectorSize sd - off)) by (destruct Hwf; lia).
    rewrite buf_load_prefix by lia.
    rewrite (wrap32_small (blk + 1)) by (destruct Hwf as (? & ? & ?); lia).
    destruct (IH (remain - Z.min remain (sd_sectorSize sd - off)) (blk + 1) 0)
      as [ops Hops]; try lia; auto.
    { intros i Hi. replace (blk + 1 + i) with (blk + (1 + i)) by lia.
      apply Hrd. lia. }
    rewrite Hops. eexists. f_equal.
    rewrite Hstep. rewrite (seqZ_cons blk) by lia. rewrite fmap_cons. cbn [concat].
    f_equal.
    + unfold sector_chunk, chunk_len, chunk_off. rewrite Hlk. cbn [default].
      f_equal; [|f_equal]; lia.
    + replace (Z.pred (1 + sectors_touched (sd_sectorSize sd) 0
                 (remain - Z.min remain (sd_sectorSize sd - off))))
        with (sectors_touched (sd_sectorSize sd) 0
                 (remain - Z.min remain (sd_sectorSize sd - off))) by lia.
      replace (Z.succ blk) with (blk + 1) by lia.
      destruct (Z.min_spec remain (sd_sectorSize sd - off)) as [[Hlt Hm]|[Hge Hm]]; rewrite Hm in *.
      * rewrite Z.sub_diag, sectors_touched_0 by lia. reflexivity.
      * f_equal. apply list_fmap_ext. intros i k Hk.
        apply lookup_seqZ in Hk as [-> Hi].
        unfold sector_chunk, chunk_len, chunk_off.
        f_equal; [|f_equal]; nia.
Qed.

(** The read loop always returns: all the bytes after reads that all
    succeeded, or [-1] right after the read that failed. *)
Lemma onRead_loop_runs fuel :
  forall remain blk off,
    0 <= off <= sd_sectorSize sd -> 0 <= remain ->
    (Z.to_nat remain + (if decide (off = 0%Z) then 0 else 1) <= fuel)%nat ->
    exists r bytes ops,
      onRead_loop fuel junk sd (sd_sectorSize sd) bufsize remain blk off
      = Returned r bytes ops
      /\ all_or_abort r bufsize ops
      /\ Forall is_read ops
      /\ (Forall (fun op => op_ok op = true) ops ->
          Z.of_nat (length bytes) = remain).
Proof.
  induction fuel as [|fuel IH]; intros remain blk off Hoff Hrem Hfuel.
  - assert (remain = 0) as -> by lia. cbn.
    exists (to_int32 bufsize), [], []. split_and!; auto with storage.
  - destruct (decide (remain = 0)) as [->|Hne].
    { cbn. exists (to_int32 bufsize), [], [].
      split_and!; auto with storage. }
    rewrite onRead_loop_step by first [assumption | lia].
    destruct (read_sector sd blk) as [data|] eqn:Hdata.
    2:{ exists (-1), [], [RdSector blk false]. split_and!.
        - reflexivity.
        - apply (all_or_abort_failed bufsize []); auto.
        - repeat constructor.
        - intros Hok. apply Forall_cons in Hok as [Hok _]. discriminate. }
    destruct (read_sector_Some _ _ _ Hdata) as (Hopen & _ & Hlk).
    destruct (medium_wf_sector _ _ _ Hwf Hlk) as [Hrange Hlen].
    cbv zeta. set (chunk := Z.min remain (sd_sectorSize sd - off)).
    assert (Hfuel' : (Z.to_nat (remain - chunk)
                      + (if decide (0%Z = 0%Z) then 0 else 1) <= fuel)%nat).
    { rewrite decide_True by reflexivity. subst chunk. revert Hfuel.
      destruct (decide (off = 0)); intros; lia. }
    destruct (IH (remain - chunk) (wrap32 (blk + 1)) 0
                ltac:(lia) ltac:(subst chunk; lia) Hfuel')
      as (r & rest & ops & Hrun & Hshape & Hreads & Hcount).
    rewrite Hrun.
    exists r, (take (Z.to_nat chunk) (drop (Z.to_nat off) data) ++ rest),
      (RdSector blk true :: ops).
    split_and!.
    + reflexivity.
    + apply (all_or_abort_app r bufsize [RdSector blk true]); auto.
    + constructor; auto. 
    + intros Hok. apply Forall_cons in Hok as [_ Hok].
      rewrite length_app, length_take, length_drop.
      specialize (Hcount Hok). subst chunk. lia.
Qed.

End ReadLoop.

(** ** The write loop

    A round of the loop hands the card one sector image, after a read of
    the sector when the round covers it only in part. *)

Lemma onWrite_loop_done fuel junk sd sec bufsize blk off src :
  onWrite_loop fuel junk sd sec bufsize 0 blk off src
  = Returned (to_int32 bufsize) sd [].
Proof. destruct fuel; reflexivity. Qed.

Lemma onWrite_loop_open junk sec bufsize fuel :
  forall sd remain blk off src r sd' ops,
    onWrite_loop fuel junk sd sec bufsize remain blk off src = Returned r sd' ops ->
    sd_open sd' = sd_open sd.
Proof.
  induction fuel as [|fuel IH]; intros sd remain blk off src r sd' ops; cbn.
  - destruct (remain =? 0); [|discriminate]. intros [= _ <- _]. reflexivity.
  - destruct (remain =? 0); [intros [= _ <- _]; reflexivity|].
    destruct (if negb (off =? 0) || (remain <? sec)
              then readRAW sd (stack_buffer junk) blk
              else RawOk (stack_buffer junk)) as [tmp| |];
      [|intros [= _ <- _]; reflexivity|discriminate].
    destruct (buf_load src 0 _); [|discriminate].
    destruct (buf_store tmp off _) as [tmp2|]; [|discriminate].
    destruct (writeRAW sd tmp2 blk) as [sd1| |] eqn:Hw;
      [|intros [= _ <- _]; reflexivity|discriminate].
    destruct (onWrite_loop fuel junk sd1 sec bufsize _ _ 0 _)
      as [r1 sd1' ops1| |] eqn:Hrest; try discriminate.
    intros [= _ <- _]. rewrite (IH _ _ _ _ _ _ _ _ Hrest).
    eapply writeRAW_open; eauto.
Qed.

Section WriteLoop.
Context (junk : list byte) (bufsize : Z).

Lemma onWrite_loop_step sd fuel remain blk off src :
  medium_wf sd ->
  0 < sd_sectorSize sd <= TMP_SIZE ->
  0 <= off <= sd_sectorSize sd -> 0 < remain <= Z.of_nat (length src) ->
  let sec := sd_sectorSize sd in
  let chunk := Z.min remain (sec - off) in
  onWrite_loop (S fuel) junk sd sec bufsize remain blk off src
  = match sector_image sd sec remain blk off src with
    | None => Returned (-1) sd [RdSector blk false]
    | Some img =>
        if write_accepted sd blk then
          match onWrite_loop fuel junk
                  (set_sd_sectors (<[blk := img]> (sd_sectors sd)) sd)
                  sec bufsize (remain - chunk) (wrap32 (blk + 1)) 0
                  (drop (Z.to_nat chunk) src) with
          | Returned r sd' ops =>
              Returned r sd'
                (rmw_read sec remain blk off ++ WrSector blk img true :: ops)
          | Fault => Fault
          | OutOfFuel => OutOfFuel
          end
        else
          Returned (-1) sd
            (rmw_read sec remain blk off ++ [WrSector blk img false])
    end.
Proof.
  intros Hwf Hsec Hoff Hrem sec chunk. subst sec chunk. cbn [onWrite_loop].
  destruct (Z.eqb_spec remain 0) as [|_]; [lia|].
  unfold sector_image, rmw_read.
  rewrite (wrap32_small (sd_sectorSize sd - off)) by (destruct Hwf; lia).
  set (chunk := Z.min remain (sd_sectorSize sd - off)).
  assert (Hchunk : 0 <= chunk <= remain /\ off + chunk <= sd_sectorSize sd)
    by (subst chunk; lia).
  pose proof (length_stack_buffer junk) as Hjunk.
  destruct (negb (off =? 0) || (remain <? sd_sectorSize sd)) eqn:Hrmw.
  - destruct (read_sector sd blk) as [old|] eqn:Hold; cbn [mbind option_bind].
    2:{ unfold readRAW. rewrite Hold. reflexivity. }
    destruct (read_sector_Some _ _ _ Hold) as (Hopen & _ & Hlk).
    destruct (medium_wf_sector _ _ _ Hwf Hlk) as [Hrange Hlen].
    rewrite (readRAW_ok junk sd blk old Hold) by lia.
    rewrite buf_load_head by lia.
    rewrite buf_store_Some.
    2: lia.
    2:{ rewrite length_take, length_app, length_drop. lia. }
    set (tmp2 := take (Z.to_nat off) _ ++ _ ++ _).
    assert (Himg : take (Z.to_nat (sd_sectorSize sd)) tmp2
                   = take (Z.to_nat off) old ++ take (Z.to_nat chunk) src
                     ++ drop (Z.to_nat (off + chunk)) old).
    { subst tmp2. rewrite (take_app_le old _ (Z.to_nat off)) by lia.
      rewrite length_take.
      replace (Z.to_nat off + Z.to_nat chunk `min` length src)%nat
        with (Z.to_nat (off + chunk)) by lia.
      rewrite (drop_app_le old) by lia.
      rewrite !app_assoc. apply take_app_length'.
      rewrite !length_app, !length_take, length_drop. lia. }
    unfold writeRAW, sector_head.
    destruct (write_accepted sd blk).
    + rewrite buf_load_head.
      2:{ subst tmp2. rewrite !length_app, !length_take, !length_drop, !length_app, length_drop. lia. }
      rewrite Himg. reflexivity.
    + rewrite Himg. reflexivity.
  - apply orb_false_iff in Hrmw as [Hz Hfull].
    apply negb_false_iff, Z.eqb_eq in Hz. apply Z.ltb_ge in Hfull. subst off.
    assert (chunk = sd_sectorSize sd) as Hc by (subst chunk; lia).
    rewrite buf_load_head by lia.
    rewrite buf_store_Some.
    2: lia.
    2:{ rewrite length_take. lia. }
    change (Z.to_nat 0) with 0%nat. rewrite take_0. cbn [app].
    set (tmp2 := take (Z.to_nat chunk) src ++ _).
    assert (Himg : take (Z.to_nat (sd_sectorSize sd)) tmp2
                   = take (Z.to_nat (sd_sectorSize sd)) src).
    { subst tmp2. rewrite Hc. apply take_app_length'. rewrite length_take. lia. }
    unfold writeRAW, sector_head.
    destruct (write_accepted sd blk).
    + rewrite buf_load_head.
      2:{ subst tmp2. rewrite !length_app, !length_take, !length_drop. lia. }
      rewrite Himg. reflexivity.
    + rewrite Himg. reflexivity.
Qed.

(** The write loop always returns, with [-1] or the byte count, a card that
    differs only in sectors from [blk] on, and calls on those sectors. *)
Lemma onWrite_loop_runs fuel :
  forall sd remain blk off src,
    medium_wf sd ->
    0 < sd_sectorSize sd <= TMP_SIZE ->
    0 <= off <= sd_sectorSize sd -> 0 <= remain <= Z.of_nat (length src) ->
    (Z.to_nat remain + (if decide (off = 0%Z) then 0 else 1) <= fuel)%nat ->
    exists r sd' ops,
      onWrite_loop fuel junk sd (sd_sectorSize sd) bufsize remain blk off src
      = Returned r sd' ops
      /\ all_or_abort r bufsize ops
      /\ medium_wf sd' /\ same_card sd sd'
      /\ (forall b, b < blk -> sd_sectors sd' !! b = sd_sectors sd !! b)
      /\ Forall (fun op => blk <= op_sector op) ops
      /\ (forall b, (forall img, WrSector b img true ∉ ops) ->
                    sd_sectors sd' !! b = sd_sectors sd !! b).
Proof.
  induction fuel as [|fuel IH]; intros sd remain blk off src Hwf Hsec Hoff Hrem Hfuel.
  - assert (remain = 0) as -> by lia. cbn.
    exists (to_int32 bufsize), sd, []. split_and!; auto with storage.
  - destruct (decide (remain = 0)) as [->|Hne].
    { cbn. exists (to_int32 bufsize), sd, []. split_and!; auto with storage. }
    rewrite onWrite_loop_step by first [assumption | lia].
    destruct (sector_image sd (sd_sectorSize sd) remain blk off src) as [img|] eqn:Himg.
    2:{ exists (-1), sd, [RdSector blk false].
        split_and!; auto with storage.
        - apply (all_or_abort_failed bufsize []); auto.
        - repeat constructor. cbn. lia. }
    assert (Hrd : Forall (fun op => blk <= op_sector op)
                    (rmw_read (sd_sectorSize sd) remain blk off)).
    { unfold rmw_read. destruct (_ || _); repeat constructor. cbn. lia. }
    assert (Hlen : Z.of_nat (length img) = sd_sectorSize sd)
      by (eapply sector_image_length; eauto; lia).
    destruct (write_accepted sd blk) eqn:Hacc.
    2:{ exists (-1), sd, (rmw_read (sd_sectorSize sd) remain blk off ++ [WrSector blk img false]).
        split_and!; auto with storage.
        - apply all_or_abort_failed; auto with storage.
        - apply Forall_app; split; [exact Hrd|]. repeat constructor. cbn. lia. }
    destruct (write_accepted_Some _ _ Hacc) as [Hopen Hin].
    set (sd1 := set_sd_sectors (<[blk := img]> (sd_sectors sd)) sd).
    assert (Hwf1 : medium_wf sd1) by (apply medium_wf_write; auto).
    assert (Hsame1 : same_card sd sd1) by (apply same_card_write; auto).
    destruct Hin as [old Hold].
    destruct (medium_wf_sector _ _ _ Hwf Hold) as [Hrange _].
    rewrite (wrap32_small (blk + 1)) by (destruct Hwf as (? & ? & ?); lia).
    set (chunk := Z.min remain (sd_sectorSize sd - off)).
    assert (Hsrc : 0 <= remain - chunk
                   <= Z.of_nat (length (drop (Z.to_nat chunk) src)))
      by (rewrite length_drop; subst chunk; lia).
    assert (Hfuel' : (Z.to_nat (remain - chunk)
                      + (if decide (0%Z = 0%Z) then 0 else 1) <= fuel)%nat).
    { rewrite decide_True by reflexivity. subst chunk. revert Hfuel.
      destruct (decide (off = 0)); intros; lia. }
    destruct (IH sd1 (remain - chunk) (blk + 1) 0 (drop (Z.to_nat chunk) src)
                Hwf1 Hsec ltac:(cbn; lia) Hsrc Hfuel')
      as (r & sd' & ops & Hrun & Hshape & Hwf' & Hsame' & Hframe & Hops & Hunw).
    change (sd_sectorSize sd1) with (sd_sectorSize sd) in Hrun.
    rewrite Hrun. exists r, sd', (rmw_read (sd_sectorSize sd) remain blk off
                                   ++ WrSector blk img true :: ops).
    split_and!; auto.
    + apply all_or_abort_app; auto with storage.
      apply (all_or_abort_app r bufsize [WrSector blk img true]); auto.
    + eapply same_card_trans; eauto.
    + intros b Hb. rewrite Hframe by lia. cbn. apply lookup_insert_ne. lia.
    + apply Forall_app; split; [exact Hrd|]. constructor; [cbn; lia|].
      eapply Forall_impl; [exact Hops|]. cbn. intros; lia.
    + intros b Hb. destruct (decide (b = blk)) as [->|Hnb].
      { exfalso. apply (Hb img). apply elem_of_app. right. left. }
      rewrite Hunw.
      * cbn. apply lookup_insert_ne. auto.
      * intros img' Hin. apply (Hb img'). apply elem_of_app. right. right.
        exact Hin.
Qed.

(** Every write in the trace of the write loop: what precedes it, what
    follows it, what it carries, and that it stays on the card. *)
Lemma onWrite_loop_discipline fuel :
  forall sd remain blk off src r sd' ops,
    medium_wf sd ->
    0 < sd_sectorSize sd <= TMP_SIZE ->
    0 <= off <= sd_sectorSize sd -> 0 <= remain <= Z.of_nat (length src) ->
    (Z.to_nat remain + (if decide (off = 0%Z) then 0 else 1) <= fuel)%nat ->
    onWrite_loop fuel junk sd (sd_sectorSize sd) bufsize remain blk off src
    = Returned r sd' ops ->
    forall pre k img ok post,
      ops = pre ++ WrSector k img ok :: post ->
      let sec := sd_sectorSize sd in
      let pos := blk * sec + off in
      Forall (fun op => k < op_sector op) post
      /\ Z.of_nat (length img) = sec
      /\ (ok = true -> sd_sectors sd' !! k = Some img)
      /\ (partial_sector sec pos remain k ->
          exists pre' old,
            pre = pre' ++ [RdSector k true]
            /\ Forall (fun op => op_sector op < k) pre'
            /\ sd_sectors sd !! k = Some old
            /\ img = spliced sec pos (take (Z.to_nat remain) src) old k)
      /\ (~ partial_sector sec pos remain k ->
          Forall (fun op => op_sector op < k) pre
          /\ img = take (Z.to_nat sec) (drop (Z.to_nat (k * sec - pos)) src)).
Proof.
  induction fuel as [|fuel IH];
    intros sd remain blk off src r sd' ops Hwf Hsec Hoff Hrem Hfuel Hrun
           pre k img ok post Hops sec pos.
  { assert (remain = 0) as -> by lia. cbn in Hrun. injection Hrun as _ _ <-.
    destruct pre; discriminate. }
  destruct (decide (remain = 0)) as [->|Hne].
  { cbn in Hrun. injection Hrun as _ _ <-. destruct pre; discriminate. }
  rewrite onWrite_loop_step in Hrun by first [assumption | lia].
  destruct (sector_image sd (sd_sectorSize sd) remain blk off src) as [img0|] eqn:Himg.
  2:{ injection Hrun as _ _ <-. destruct pre as [|? [|? ?]]; discriminate. }
  assert (Hlen0 : Z.of_nat (length img0) = sd_sectorSize sd)
    by (eapply sector_image_length; eauto; lia).
  set (chunk := Z.min remain (sd_sectorSize sd - off)) in *.
  assert (Hchunk : 0 <= chunk <= remain /\ off + chunk <= sd_sectorSize sd)
    by (subst chunk; lia).
  pose proof (rmw_read_sector (sd_sectorSize sd) remain blk off) as Hrd.
  assert (Hrd_read : Forall (fun op => is_read op = true)
                       (rmw_read (sd_sectorSize sd) remain blk off))
    by (eapply Forall_impl; [exact Hrd|]; cbn; tauto).
  (* what holds of the write of sector [blk] itself *)
  assert (Hhead :
    (partial_sector sec pos remain blk ->
       exists old,
         rmw_read (sd_sectorSize sd) remain blk off = [RdSector blk true]
         /\ sd_sectors sd !! blk = Some old
         /\ img0 = spliced sec pos (take (Z.to_nat remain) src) old blk)
    /\ (~ partial_sector sec pos remain blk ->
        rmw_read (sd_sectorSize sd) remain blk off = []
        /\ img0 = take (Z.to_nat sec) (drop (Z.to_nat (blk * sec - pos)) src))).
  { subst sec pos. unfold sector_image, rmw_read in *.
    pose proof (rmw_iff_partial (sd_sectorSize sd) remain blk off
                  ltac:(lia) ltac:(lia)) as Hiff.
    destruct (negb (off =? 0) || (remain <? sd_sectorSize sd)) eqn:Hrmw.
    - split; [|intros Hn; exfalso; apply Hn, Hiff; reflexivity].
      intros _. destruct (read_sector sd blk) as [old|] eqn:Hold; [|discriminate].
      cbn in Himg. injection Himg as <-.
      destruct (read_sector_Some _ _ _ Hold) as (_ & _ & Hlk).
      destruct (medium_wf_sector _ _ _ Hwf Hlk) as [_ Hlen].
      exists old. split_and!; auto.
      apply sector_image_spliced; lia.
    - split; [intros Hp; apply Hiff in Hp; discriminate|].
      intros _. injection Himg as <-. split; [reflexivity|].
      apply orb_false_iff in Hrmw as [Hz _].
      apply negb_false_iff, Z.eqb_eq in Hz. subst off.
      replace (blk * sd_sectorSize sd - (blk * sd_sectorSize sd + 0)) with 0 by lia.
      reflexivity. }
  destruct Hhead as [Hhead_p Hhead_f].
  destruct (write_accepted sd blk) eqn:Hacc.
  2:{ injection Hrun as _ <- <-.
      apply split_at_write in Hops; [|exact Hrd_read].
      destruct Hops as [(-> & Hx & ->)|(m & _ & Hm)];
        [|destruct m; discriminate].
      injection Hx as <- <- <-.
      split_and!; auto.
      - discriminate.
      - intros Hp. destruct (Hhead_p Hp) as (old & Hr & Hlk & Hsp).
        exists [], old. rewrite Hr. split_and!; auto.
      - intros Hp. destruct (Hhead_f Hp) as [Hr Hsp]. rewrite Hr. auto. }
  destruct (write_accepted_Some _ _ Hacc) as [Hopen [old0 Hold0]].
  set (sd1 := set_sd_sectors (<[blk := img0]> (sd_sectors sd)) sd) in *.
  assert (Hwf1 : medium_wf sd1) by (apply medium_wf_write; eauto).
  destruct (medium_wf_sector _ _ _ Hwf Hold0) as [Hrange _].
  rewrite (wrap32_small (blk + 1)) in Hrun by (destruct Hwf as (? & ? & ?); lia).
  assert (Hsrc : 0 <= remain - chunk
                 <= Z.of_nat (length (drop (Z.to_nat chunk) src)))
    by (rewrite length_drop; lia).
  assert (Hfuel' : (Z.to_nat (remain - chunk)
                    + (if decide (0%Z = 0%Z) then 0 else 1) <= fuel)%nat).
  { rewrite decide_True by reflexivity. subst chunk. revert Hfuel.
    destruct (decide (off = 0)); intros; lia. }
  destruct (onWrite_loop_runs fuel sd1 (remain - chunk) (blk + 1) 0
              (drop (Z.to_nat chunk) src) Hwf1 Hsec ltac:(cbn; lia) Hsrc Hfuel')
    as (r1 & sd1' & ops1 & Hrun1 & _ & _ & _ & Hframe & Hge & _).
  change (sd_sectorSize sd1) with (sd_sectorSize sd) in Hrun1.
  rewrite Hrun1 in Hrun. injection Hrun as -> -> <-.
  apply split_at_write in Hops; [|exact Hrd_read].
  destruct Hops as [(-> & Hx & ->)|(m & -> & Hm)].
  - (* the write of sector [blk] *)
    injection Hx as <- <- <-.
    split_and!; auto.
    + eapply Forall_impl; [exact Hge|]. cbn. intros; lia.
    + intros _. rewrite Hframe by lia. cbn. apply lookup_insert_eq.
    + intros Hp. destruct (Hhead_p Hp) as (old & Hr & Hlk & Hsp).
      exists [], old. rewrite Hr. split_and!; auto.
    + intros Hp. destruct (Hhead_f Hp) as [Hr Hsp]. rewrite Hr. auto.
  - (* a later write *)
    assert (Hk : blk + 1 <= k).
    { rewrite Hm in Hge. apply Forall_app in Hge as [_ Hge].
      apply Forall_cons in Hge as [Hge _]. exact Hge. }
    destruct (decide (remain - chunk = 0)) as [Hz|Hnz].
    { rewrite Hz, onWrite_loop_done in Hrun1. injection Hrun1 as _ _ <-.
      destruct m; discriminate. }
    assert (Hc : chunk = sd_sectorSize sd - off) by (subst chunk; lia).
    destruct (IH sd1 (remain - chunk) (blk + 1) 0 (drop (Z.to_nat chunk) src)
                r sd' ops1 Hwf1 Hsec ltac:(cbn; lia) Hsrc Hfuel' Hrun1
                m k img ok post Hm)
      as (Hpost & Hlen & Hkept & Hpart & Hfull).
    change (sd_sectorSize sd1) with (sd_sectorSize sd) in *.
    assert (Hpos : (blk + 1) * sd_sectorSize sd + 0 = pos + chunk)
      by (subst pos sec; lia).
    rewrite Hpos in Hpart, Hfull.
    assert (Hpk : pos + chunk <= k * sd_sectorSize sd) by (subst pos sec; nia).
    assert (Hiff : partial_sector sec pos remain k
                   <-> partial_sector (sd_sectorSize sd) (pos + chunk)
                         (remain - chunk) k).
    { subst sec. unfold partial_sector. lia. }
    assert (Hbefore : Forall (fun op => op_sector op < k)
                        (rmw_read (sd_sectorSize sd) remain blk off
                           ++ [WrSector blk img0 true])).
    { apply Forall_app; split.
      - eapply Forall_impl; [exact Hrd|]. cbn. intros ? [-> _]. lia.
      - repeat constructor. cbn. lia. }
    split_and!; auto.
    + intros Hp. apply Hiff in Hp.
      destruct (Hpart Hp) as (pre' & old & -> & Hpre' & Hlk & Hsp).
      exists (rmw_read (sd_sectorSize sd) remain blk off
              ++ WrSector blk img0 true :: pre'), old.
      split_and!.
      * rewrite <- !app_assoc. reflexivity.
      * change (WrSector blk img0 true :: pre')
          with ([WrSector blk img0 true] ++ pre').
        rewrite app_assoc. apply Forall_app; auto.
      * cbn in Hlk. rewrite lookup_insert_ne in Hlk by lia. exact Hlk.
      * rewrite Hsp. symmetry. apply spliced_shift; lia.
    + intros Hp. rewrite Hiff in Hp. destruct (Hfull Hp) as [Hm' Himg'].
      split.
      * change (WrSector blk img0 true :: m)
          with ([WrSector blk img0 true] ++ m).
        rewrite app_assoc. apply Forall_app; auto.
      * rewrite Himg', drop_drop. do 2 f_equal. subst sec. lia.
Qed.

(** When every call succeeds the writes go, in order and once each, to the
    sectors the request touches. *)
Lemma onWrite_loop_covers fuel :
  forall sd remain blk off src r sd' ops,
    medium_wf sd ->
    0 < sd_sectorSize sd <= TMP_SIZE ->
    0 <= off < sd_sectorSize sd -> 0 <= remain <= Z.of_nat (length src) ->
    (remain = 0 -> off = 0) ->
    onWrite_loop fuel junk sd (sd_sectorSize sd) bufsize remain blk off src
    = Returned r sd' ops ->
    Forall (fun op => op_ok op = true) ops ->
    op_sector <$> filter (fun op => is_write op) ops
    = seqZ blk (sectors_touched (sd_sectorSize sd) off remain).
Proof.
  induction fuel as [|fuel IH];
    intros sd remain blk off src r sd' ops Hwf Hsec Hoff Hrem Hz Hrun Hok.
  { destruct (decide (remain = 0)) as [->|Hne].
    - rewrite onWrite_loop_done in Hrun. injection Hrun as _ _ <-.
      rewrite (Hz eq_refl), sectors_touched_0 by lia. reflexivity.
    - cbn in Hrun. destruct (Z.eqb_spec remain 0); [lia|discriminate]. }
  destruct (decide (remain = 0)) as [->|Hne].
  { rewrite onWrite_loop_done in Hrun. injection Hrun as _ _ <-.
    rewrite (Hz eq_refl), sectors_touched_0 by lia. reflexivity. }
  rewrite onWrite_loop_step in Hrun by first [assumption | lia].
  destruct (sector_image sd (sd_sectorSize sd) remain blk off src) as [img|] eqn:Himg.
  2:{ injection Hrun as _ _ <-. apply Forall_cons in Hok as [Hok _]. discriminate. }
  assert (Hlen : Z.of_nat (length img) = sd_sectorSize sd)
    by (eapply sector_image_length; eauto; lia).
  destruct (write_accepted sd blk) eqn:Hacc.
  2:{ injection Hrun as _ _ <-. apply Forall_app in Hok as [_ Hok].
      apply Forall_cons in Hok as [Hok _]. discriminate. }
  destruct (write_accepted_Some _ _ Hacc) as [Hopen [old Hold]].
  set (sd1 := set_sd_sectors (<[blk := img]> (sd_sectors sd)) sd) in *.
  assert (Hwf1 : medium_wf sd1) by (apply medium_wf_write; eauto).
  destruct (medium_wf_sector _ _ _ Hwf Hold) as [Hrange _].
  rewrite (wrap32_small (blk + 1)) in Hrun by (destruct Hwf as (? & ? & ?); lia).
  set (chunk := Z.min remain (sd_sectorSize sd - off)) in *.
  destruct (onWrite_loop fuel junk sd1 (sd_sectorSize sd) bufsize (remain - chunk)
              (blk + 1) 0 (drop (Z.to_nat chunk) src))
    as [r1 sd1' ops1| |] eqn:Hrun1; try discriminate.
  injection Hrun as -> -> <-.
  apply Forall_app in Hok as [_ Hok]. apply Forall_cons in Hok as [_ Hok].
  rewrite filter_app, rmw_read_writes. cbn [app].
  rewrite filter_cons_True by reflexivity. rewrite fmap_cons. cbn [op_sector].
  rewrite (IH sd1 (remain - chunk) (blk + 1) 0 (drop (Z.to_nat chunk) src)
             r sd' ops1 Hwf1 Hsec ltac:(cbn; lia)
             ltac:(rewrite length_drop; subst chunk; lia) ltac:(reflexivity)
             Hrun1 Hok).
  change (sd_sectorSize sd1) with (sd_sectorSize sd).
  pose proof (sectors_touched_step (sd_sectorSize sd) off remain
                ltac:(lia) ltac:(lia) ltac:(lia)) as Hstep.
  assert (0 <= sectors_touched (sd_sectorSize sd) 0 (remain - chunk))
    by (apply sectors_touched_nonneg; subst chunk; lia).
  rewrite Hstep. fold chunk. rewrite (seqZ_cons blk) by lia.
  do 2 f_equal; lia.
Qed.

(** A sector-aligned request never reads. *)
Lemma onWrite_loop_aligned fuel :
  forall sd remain blk src r sd' ops,
    medium_wf sd ->
    0 < sd_sectorSize sd <= TMP_SIZE ->
    0 <= remain <= Z.of_nat (length src) ->
    (sd_sectorSize sd | remain) ->
    onWrite_loop fuel junk sd (sd_sectorSize sd) bufsize remain blk 0 src
    = Returned r sd' ops ->
    Forall (fun op => is_write op = true) ops.
Proof.
  induction fuel as [|fuel IH];
    intros sd remain blk src r sd' ops Hwf Hsec Hrem Hdiv Hrun.
  { destruct (decide (remain = 0)) as [->|Hne].
    - rewrite onWrite_loop_done in Hrun. injection Hrun as _ _ <-. constructor.
    - cbn in Hrun. destruct (Z.eqb_spec remain 0); [lia|discriminate]. }
  destruct (decide (remain = 0)) as [->|Hne].
  { rewrite onWrite_loop_done in Hrun. injection Hrun as _ _ <-. constructor. }
  assert (Hfull : sd_sectorSize sd <= remain).
  { destruct Hdiv as [m ->]. destruct (decide (m <= 0)); nia. }
  rewrite onWrite_loop_step in Hrun by first [assumption | lia].
  unfold sector_image, rmw_read in Hrun.
  replace (negb (0 =? 0) || (remain <? sd_sectorSize sd)) with false in Hrun.
  2:{ symmetry. apply orb_false_iff. split; [reflexivity|]. apply Z.ltb_ge. lia. }
  cbn [app] in Hrun.
  set (img := take (Z.to_nat (sd_sectorSize sd)) src) in *.
  destruct (write_accepted sd blk) eqn:Hacc.
  2:{ injection Hrun as _ _ <-. repeat constructor. }
  destruct (write_accepted_Some _ _ Hacc) as [Hopen [old Hold]].
  set (sd1 := set_sd_sectors (<[blk := img]> (sd_sectors sd)) sd) in *.
  assert (Hwf1 : medium_wf sd1).
  { apply medium_wf_write; eauto. subst img. rewrite length_take. lia. }
  replace (Z.min remain (sd_sectorSize sd - 0)) with (sd_sectorSize sd) in Hrun by lia.
  destruct (medium_wf_sector _ _ _ Hwf Hold) as [Hrange _].
  rewrite (wrap32_small (blk + 1)) in Hrun by (destruct Hwf as (? & ? & ?); lia).
  destruct (onWrite_loop fuel junk sd1 (sd_sectorSize sd) bufsize
              (remain - sd_sectorSize sd) (blk + 1) 0
              (drop (Z.to_nat (sd_sectorSize sd)) src))
    as [r1 sd1' ops1| |] eqn:Hrun1; try discriminate.
  injection Hrun as -> -> <-. constructor; [reflexivity|].
  apply (IH sd1 (remain - sd_sectorSize sd) (blk + 1)
            (drop (Z.to_nat (sd_sectorSize sd)) src) r sd' ops1 Hwf1 Hsec).
  - rewrite length_drop. lia.
  - change (sd_sectorSize sd1) with (sd_sectorSize sd).
    destruct Hdiv as [m ->]. exists (m - 1). lia.
  - exact Hrun1.
Qed.

(** A sector-aligned request whose writes the card accepts succeeds. *)
Lemma onWrite_loop_aligned_ok fuel :
  forall sd remain blk src,
    medium_wf sd ->
    0 < sd_sectorSize sd <= TMP_SIZE ->
    0 <= remain <= Z.of_nat (length src) ->
    (sd_sectorSize sd | remain) ->
    (Z.to_nat remain <= fuel)%nat ->
    (forall i, 0 <= i < remain / sd_sectorSize sd ->
               write_accepted sd (blk + i) = true) ->
    exists sd' ops,
      onWrite_loop fuel junk sd (sd_sectorSize sd) bufsize remain blk 0 src
      = Returned (to_int32 bufsize) sd' ops
      /\ Forall (fun op => op_ok op = true) ops.
Proof.
  induction fuel as [|fuel IH];
    intros sd remain blk src Hwf Hsec Hrem Hdiv Hfuel Hall.
  { assert (remain = 0) as -> by lia. exists sd, []. cbn. auto. }
  destruct (decide (remain = 0)) as [->|Hne].
  { exists sd, []. cbn. auto. }
  destruct Hdiv as [m Hm].
  assert (Hmpos : 1 <= m) by (destruct (decide (m <= 0)); nia).
  assert (Hq : remain / sd_sectorSize sd = m)
    by (rewrite Hm; apply Z.div_mul; lia).
  assert (Hfull : sd_sectorSize sd <= remain) by nia.
  rewrite onWrite_loop_step by first [assumption | lia].
  unfold sector_image, rmw_read.
  replace (negb (0 =? 0) || (remain <? sd_sectorSize sd)) with false.
  2:{ symmetry. apply orb_false_iff. split; [reflexivity|]. apply Z.ltb_ge. lia. }
  cbn [app].
  set (img := take (Z.to_nat (sd_sectorSize sd)) src).
  pose proof (Hall 0 ltac:(lia)) as Hacc. rewrite Z.add_0_r in Hacc.
  rewrite Hacc.
  destruct (write_accepted_Some _ _ Hacc) as [Hopen [old Hold]].
  set (sd1 := set_sd_sectors (<[blk := img]> (sd_sectors sd)) sd).
  assert (Hwf1 : medium_wf sd1).
  { apply medium_wf_write; eauto. subst img. rewrite length_take. lia. }
  assert (Hsame1 : same_card sd sd1) by (apply same_card_write; eauto).
  replace (Z.min remain (sd_sectorSize sd - 0)) with (sd_sectorSize sd) by lia.
  destruct (medium_wf_sector _ _ _ Hwf Hold) as [Hrange _].
  rewrite (wrap32_small (blk + 1)) by (destruct Hwf as (? & ? & ?); lia).
  destruct (IH sd1 (remain - sd_sectorSize sd) (blk + 1)
              (drop (Z.to_nat (sd_sectorSize sd)) src) Hwf1 Hsec)
    as (sd' & ops & Hrun & Hok).
  - rewrite length_drop. lia.
  - exists (m - 1). change (sd_sectorSize sd1) with (sd_sectorSize sd). lia.
  - lia.
  - intros i Hi. change (sd_sectorSize sd1) with (sd_sectorSize sd) in Hi.
    rewrite (write_accepted_same_card sd sd1) by exact Hsame1.
    replace (blk + 1 + i) with (blk + (1 + i)) by lia. apply Hall.
    replace (remain - sd_sectorSize sd) with ((m - 1) * sd_sectorSize sd) in Hi by lia.
    rewrite Z.div_mul in Hi by lia. lia.
  - change (sd_sectorSize sd1) with (sd_sectorSize sd) in Hrun. rewrite Hrun.
    exists sd', (WrSector blk img true :: ops). split; [reflexivity|].
    constructor; auto.
Qed.

(** The outcome recorded with each call of the write loop is the card's
    answer. *)
Lemma onWrite_loop_answers fuel :
  forall sd remain blk off src r sd' ops,
    medium_wf sd ->
    0 < sd_sectorSize sd <= TMP_SIZE ->
    0 <= off <= sd_sectorSize sd -> 0 <= remain <= Z.of_nat (length src) ->
    onWrite_loop fuel junk sd (sd_sectorSize sd) bufsize remain blk off src
    = Returned r sd' ops ->
    Forall (fun op => op_ok op = card_answer sd op) ops.
Proof.
  induction fuel as [|fuel IH];
    intros sd remain blk off src r sd' ops Hwf Hsec Hoff Hrem Hrun.
  { destruct (decide (remain = 0)) as [->|Hne].
    - rewrite onWrite_loop_done in Hrun. injection Hrun as _ _ <-. constructor.
    - cbn in Hrun. destruct (Z.eqb_spec remain 0); [lia|discriminate]. }
  destruct (decide (remain = 0)) as [->|Hne].
  { rewrite onWrite_loop_done in Hrun. injection Hrun as _ _ <-. constructor. }
  rewrite onWrite_loop_step in Hrun by first [assumption | lia].
  assert (Hrd : Forall (fun op => op_ok op = card_answer sd op)
                  (rmw_read (sd_sectorSize sd) remain blk off)
                \/ sector_image sd (sd_sectorSize sd) remain blk off src = None
                   /\ read_sector sd blk = None).
  { unfold rmw_read, sector_image.
    destruct (negb (off =? 0) || (remain <? sd_sectorSize sd)); [|left; constructor].
    destruct (read_sector sd blk) as [old|] eqn:Hold; [left|right; auto].
    repeat constructor. cbn. rewrite Hold. symmetry.
    apply bool_decide_eq_true. eauto. }
  destruct (sector_image sd (sd_sectorSize sd) remain blk off src) as [img|] eqn:Himg.
  2:{ injection Hrun as _ _ <-. clear Hrd. unfold sector_image in Himg.
      destruct (negb (off =? 0) || (remain <? sd_sectorSize sd)); [|discriminate].
      destruct (read_sector sd blk) eqn:Hnone; [discriminate|].
      repeat constructor. cbn. rewrite Hnone. symmetry.
      apply bool_decide_eq_false. intros [? ?]. discriminate. }
  destruct Hrd as [Hrd|[? _]]; [|discriminate].
  assert (Hlen : Z.of_nat (length img) = sd_sectorSize sd)
    by (eapply sector_image_length; eauto; lia).
  destruct (write_accepted sd blk) eqn:Hacc.
  2:{ injection Hrun as _ _ <-. apply Forall_app; split; [exact Hrd|].
      repeat constructor. cbn. auto. }
  destruct (write_accepted_Some _ _ Hacc) as [Hopen [old Hold]].
  set (sd1 := set_sd_sectors (<[blk := img]> (sd_sectors sd)) sd) in *.
  assert (Hwf1 : medium_wf sd1) by (apply medium_wf_write; eauto).
  assert (Hsame1 : same_card sd sd1) by (apply same_card_write; eauto).
  set (chunk := Z.min remain (sd_sectorSize sd - off)) in *.
  destruct (onWrite_loop fuel junk sd1 (sd_sectorSize sd) bufsize (remain - chunk)
              (wrap32 (blk + 1)) 0 (drop (Z.to_nat chunk) src))
    as [r1 sd1' ops1| |] eqn:Hrun1; try discriminate.
  injection Hrun as -> -> <-.
  apply Forall_app; split; [exact Hrd|]. constructor; [cbn; auto|].
  assert (Hrest : Forall (fun op => op_ok op = card_answer sd1 op) ops1).
  { apply (IH sd1 (remain - chunk) (wrap32 (blk + 1)) 0
              (drop (Z.to_nat chunk) src) r sd' ops1 Hwf1 Hsec).
    - cbn. lia.
    - rewrite length_drop. subst chunk. lia.
    - exact Hrun1. }
  eapply Forall_impl; [exact Hrest|]. cbn. intros op Hop.
  rewrite Hop. apply card_answer_same_card. exact Hsame1.
Qed.

(** What the write loop stores, the read loop returns. *)
Lemma roundtrip_loop junk' fuel :
  forall sd remain blk off src,
    medium_wf sd ->
    0 < sd_sectorSize sd <= TMP_SIZE ->
    0 <= off < sd_sectorSize sd -> 0 <= remain <= Z.of_nat (length src) ->
    (remain = 0 -> off = 0) ->
    (Z.to_nat remain <= fuel)%nat ->
    (forall i, 0 <= i < sectors_touched (sd_sectorSize sd) off remain ->
               is_Some (read_sector sd (blk + i))
               /\ write_accepted sd (blk + i) = true) ->
    exists sd' wops rops,
      onWrite_loop fuel junk sd (sd_sectorSize sd) bufsize remain blk off src
      = Returned (to_int32 bufsize) sd' wops
      /\ Forall (fun op => op_ok op = true) wops
      /\ onRead_loop fuel junk' sd' (sd_sectorSize sd) bufsize remain blk off
         = Returned (to_int32 bufsize) (take (Z.to_nat remain) src) rops
      /\ Forall (fun op => op_ok op = true) rops.
Proof.
  induction fuel as [|fuel IH];
    intros sd remain blk off src Hwf Hsec Hoff Hrem Hz Hfuel Hall.
  { assert (remain = 0) as -> by lia. exists sd, [], []. cbn. auto. }
  destruct (decide (remain = 0)) as [->|Hne].
  { exists sd, [], []. cbn. auto. }
  pose proof (sectors_touched_step (sd_sectorSize sd) off remain
                ltac:(lia) ltac:(lia) ltac:(lia)) as Hstep.
  set (chunk := Z.min remain (sd_sectorSize sd - off)) in *.
  assert (Hnn : 0 <= sectors_touched (sd_sectorSize sd) 0 (remain - chunk))
    by (apply sectors_touched_nonneg; subst chunk; lia).
  destruct (Hall 0 ltac:(lia)) as [Hrd0 Hacc]. rewrite Z.add_0_r in Hrd0, Hacc.
  rewrite onWrite_loop_step by first [assumption | lia]. fold chunk.
  destruct (sector_image sd (sd_sectorSize sd) remain blk off src) as [img|] eqn:Himg.
  2:{ exfalso. unfold sector_image in Himg. destruct Hrd0 as [old Hold].
      rewrite Hold in Himg. destruct (_ || _); discriminate. }
  assert (Hlen : Z.of_nat (length img) = sd_sectorSize sd)
    by (eapply sector_image_length; eauto; lia).
  rewrite Hacc.
  destruct (write_accepted_Some _ _ Hacc) as [Hopen [old Hold]].
  set (sd1 := set_sd_sectors (<[blk := img]> (sd_sectors sd)) sd) in *.
  assert (Hwf1 : medium_wf sd1) by (apply medium_wf_write; eauto).
  assert (Hsame1 : same_card sd sd1) by (apply same_card_write; eauto).
  destruct (medium_wf_sector _ _ _ Hwf Hold) as [Hrange _].
  rewrite (wrap32_small (blk + 1)) by (destruct Hwf as (? & ? & ?); lia).
  assert (Hsrc : 0 <= remain - chunk
                 <= Z.of_nat (length (drop (Z.to_nat chunk) src)))
    by (rewrite length_drop; subst chunk; lia).
  destruct (IH sd1 (remain - chunk) (blk + 1) 0 (drop (Z.to_nat chunk) src)
              Hwf1 Hsec ltac:(cbn; lia) Hsrc ltac:(reflexivity)
              ltac:(subst chunk; lia))
    as (sd' & wops & rops & Hw & Hwok & Hr & Hrok).
  { intros i Hi. change (sd_sectorSize sd1) with (sd_sectorSize sd) in Hi.
    replace (blk + 1 + i) with (blk + (1 + i)) by lia.
    rewrite <- (read_sector_same_card sd sd1) by exact Hsame1.
    rewrite (write_accepted_same_card sd sd1) by exact Hsame1.
    apply Hall. lia. }
  change (sd_sectorSize sd1) with (sd_sectorSize sd) in Hw, Hr.
  rewrite Hw.
  destruct (onWrite_loop_runs fuel sd1 (remain - chunk) (blk + 1) 0
              (drop (Z.to_nat chunk) src) Hwf1 Hsec ltac:(cbn; lia) Hsrc
              ltac:(rewrite decide_True by reflexivity; subst chunk; lia))
    as (r1 & sd1' & ops1 & Hrun1 & _ & Hwf' & Hsame' & Hframe & _).
  change (sd_sectorSize sd1) with (sd_sectorSize sd) in Hrun1.
  rewrite Hw in Hrun1. injection Hrun1 as <- <- <-.
  assert (Hsame : same_card sd sd') by (eapply same_card_trans; eauto).
  assert (Hsec' : sd_sectorSize sd' = sd_sectorSize sd) by apply Hsame.
  assert (Hlk' : sd_sectors sd' !! blk = Some img).
  { rewrite Hframe by lia. cbn. apply lookup_insert_eq. }
  assert (Hrd' : read_sector sd' blk = Some img).
  { apply read_sector_lookup; [|exact Hlk'].
    apply (read_sector_same_card sd sd'); assumption. }
  exists sd', (rmw_read (sd_sectorSize sd) remain blk off
               ++ WrSector blk img true :: wops), (RdSector blk true :: rops).
  split_and!.
  - reflexivity.
  - apply Forall_app; split; [apply rmw_read_ok|]. constructor; auto.
  - pose proof (onRead_loop_step junk' sd' bufsize Hwf' ltac:(lia)
                  fuel remain blk off ltac:(lia) ltac:(lia)) as Hrs.
    rewrite Hsec' in Hrs. rewrite Hrs, Hrd'. cbv zeta. fold chunk.
    rewrite (wrap32_small (blk + 1)) by (destruct Hwf as (? & ? & ?); lia).
    rewrite Hr. f_equal.
    pose proof (sector_image_readback sd remain blk off src img Hwf
                  ltac:(lia) ltac:(lia) ltac:(lia) Himg) as Hback.
    cbv zeta in Hback. fold chunk in Hback. rewrite Hback.
    symmetry. apply take_split. subst chunk. lia.
  - constructor; auto.
Qed.

End WriteLoop.

(** ** The loops never run out of steps

    Whatever the card, the buffers and the request: a round past the first
    consumes at least one byte, so [bufsize + 1] rounds are enough. *)

Lemma onRead_loop_fuel junk sd sec bufsize fuel :
  forall remain blk off,
    0 < sec < 2 ^ 32 -> 0 <= remain ->
    (Z.to_nat remain + (if decide (off = 0%Z) then 0 else 1) <= fuel)%nat ->
    onRead_loop fuel junk sd sec bufsize remain blk off <> OutOfFuel.
Proof.
  induction fuel as [|fuel IH]; intros remain blk off Hsec Hrem Hfuel; cbn.
  - destruct (Z.eqb_spec remain 0) as [|Hne]; [discriminate|]. lia.
  - destruct (Z.eqb_spec remain 0) as [|Hne]; [discriminate|].
    destruct (readRAW sd (stack_buffer junk) blk) as [tmp| |]; try discriminate.
    destruct (buf_load tmp off _) as [bytes|] eqn:Hload; [|discriminate].
    apply buf_load_nonneg in Hload as [Hoff Hchunk].
    specialize (IH (remain - Z.min remain (wrap32 (sec - off)))
                  (wrap32 (blk + 1)) 0 Hsec).
    destruct (onRead_loop fuel junk sd sec bufsize _ _ 0); try discriminate.
    exfalso. apply IH; [lia| |reflexivity].
    rewrite decide_True by reflexivity. revert Hfuel.
    destruct (decide (off = 0)) as [->|Hnz]; intros Hfuel.
    + rewrite Z.sub_0_r, (wrap32_small sec) in * by lia. lia.
    + lia.
Qed.

Lemma onWrite_loop_fuel junk sec bufsize fuel :
  forall sd remain blk off src,
    0 < sec < 2 ^ 32 -> 0 <= remain ->
    (Z.to_nat remain + (if decide (off = 0%Z) then 0 else 1) <= fuel)%nat ->
    onWrite_loop fuel junk sd sec bufsize remain blk off src <> OutOfFuel.
Proof.
  induction fuel as [|fuel IH]; intros sd remain blk off src Hsec Hrem Hfuel; cbn.
  - destruct (Z.eqb_spec remain 0) as [|Hne]; [discriminate|]. lia.
  - destruct (Z.eqb_spec remain 0) as [|Hne]; [discriminate|].
    destruct (if negb (off =? 0) || (remain <? sec)
              then readRAW sd (stack_buffer junk) blk
              else RawOk (stack_buffer junk)) as [tmp| |]; try discriminate.
    destruct (buf_load src 0 _) as [new|] eqn:Hload; [|discriminate].
    apply buf_load_nonneg in Hload as [_ Hchunk].
    destruct (buf_store tmp off new) as [tmp2|]; [|discriminate].
    destruct (writeRAW sd tmp2 blk) as [sd1| |]; try discriminate.
    specialize (IH sd1 (remain - Z.min remain (wrap32 (sec - off)))
                  (wrap32 (blk + 1)) 0
                  (drop (Z.to_nat (Z.min remain (wrap32 (sec - off)))) src) Hsec).
    destruct (onWrite_loop fuel junk sd1 sec bufsize _ _ 0 _); try discriminate.
    exfalso. apply IH; [lia| |reflexivity].
    rewrite decide_True by reflexivity. revert Hfuel.
    destruct (decide (off = 0)) as [->|Hnz]; intros Hfuel.
    + rewrite Z.sub_0_r, (wrap32_small sec) in * by lia. lia.
    + lia.
Qed.

(** [onRead] and [onWrite] are total: for every card, every buffer and
    every request they return or leave a buffer. *)
Lemma onRead_total junk sd lba offset bufsize :
  0 <= bufsize -> onRead junk sd lba offset bufsize <> OutOfFuel.
Proof.
  intros Hlen. unfold onRead.
  destruct (Z.eqb_spec (wrap32 (sectorSize sd)) 0) as [|Hsec]; [discriminate|].
  destruct (Z.eqb_spec bufsize 0) as [|Hne]; [discriminate|]. cbn [orb].
  apply onRead_loop_fuel; [|lia|destruct (decide (offset = 0)); lia].
  pose proof (Z.mod_pos_bound (sectorSize sd) (2 ^ 32) ltac:(lia)).
  unfold wrap32 in *. lia.
Qed.

Lemma onWrite_total junk sd lba offset buffer bufsize :
  0 <= bufsize -> onWrite junk sd lba offset buffer bufsize <> OutOfFuel.
Proof.
  intros Hlen. unfold onWrite.
  destruct (Z.eqb_spec (wrap32 (sectorSize sd)) 0) as [|Hsec]; [discriminate|].
  destruct (Z.eqb_spec bufsize 0) as [|Hne]; [discriminate|]. cbn [orb].
  apply onWrite_loop_fuel; [|lia|destruct (decide (offset = 0)); lia].
  pose proof (Z.mod_pos_bound (sectorSize sd) (2 ^ 32) ltac:(lia)).
  unfold wrap32 in *. lia.
Qed.

(** ** The entry checks *)

Lemma onRead_unfold junk sd lba offset bufsize :
  0 < sd_sectorSize sd < 2 ^ 32 -> sd_open sd = true -> bufsize <> 0 ->
  onRead junk sd lba offset bufsize
  = onRead_loop (S (Z.to_nat bufsize)) junk sd (sd_sectorSize sd)
      bufsize bufsize lba offset.
Proof.
  intros Hsec Hopen Hlen. unfold onRead, sectorSize. rewrite Hopen.
  rewrite wrap32_small by lia.
  destruct (Z.eqb_spec (sd_sectorSize sd) 0); [lia|].
  destruct (Z.eqb_spec bufsize 0); [lia|]. reflexivity.
Qed.

Lemma onWrite_unfold junk sd lba offset buffer bufsize :
  0 < sd_sectorSize sd < 2 ^ 32 -> sd_open sd = true -> bufsize <> 0 ->
  onWrite junk sd lba offset buffer bufsize
  = onWrite_loop (S (Z.to_nat bufsize)) junk sd (sd_sectorSize sd)
      bufsize bufsize lba offset buffer.
Proof.
  intros Hsec Hopen Hlen. unfold onWrite, sectorSize. rewrite Hopen.
  rewrite wrap32_small by lia.
  destruct (Z.eqb_spec (sd_sectorSize sd) 0); [lia|].
  destruct (Z.eqb_spec bufsize 0); [lia|]. reflexivity.
Qed.

Lemma onRead_refuses junk sd lba offset bufsize :
  medium_wf sd -> sectorSize sd = 0 \/ bufsize = 0 ->
  onRead junk sd lba offset bufsize = Returned (-1) [] [].
Proof.
  intros Hwf Hz. unfold onRead.
  assert (Hs : 0 <= sectorSize sd < 2 ^ 32)
    by (unfold sectorSize; destruct (sd_open sd), Hwf; lia).
  rewrite wrap32_small by lia.
  destruct (Z.eqb_spec (sectorSize sd) 0); [reflexivity|].
  destruct (Z.eqb_spec bufsize 0); [reflexivity|]. lia.
Qed.

Lemma onWrite_refuses junk sd lba offset buffer bufsize :
  medium_wf sd -> sectorSize sd = 0 \/ bufsize = 0 ->
  onWrite junk sd lba offset buffer bufsize = Returned (-1) sd [].
Proof.
  intros Hwf Hz. unfold onWrite.
  assert (Hs : 0 <= sectorSize sd < 2 ^ 32)
    by (unfold sectorSize; destruct (sd_open sd), Hwf; lia).
  rewrite wrap32_small by lia.
  destruct (Z.eqb_spec (sectorSize sd) 0); [reflexivity|].
  destruct (Z.eqb_spec bufsize 0); [reflexivity|]. lia.
Qed.

Lemma onRead_closed junk sd lba offset bufsize :
  sd_open sd = false ->
  onRead junk sd lba offset bufsize = Returned (-1) [] [].
Proof. intros Hc. unfold onRead, sectorSize. rewrite Hc. reflexivity. Qed.

Lemma onWrite_closed junk sd lba offset buffer bufsize :
  sd_open sd = false ->
  onWrite junk sd lba offset buffer bufsize = Returned (-1) sd [].
Proof. intros Hc. unfold onWrite, sectorSize. rewrite Hc. reflexivity. Qed.

Lemma onWrite_open junk sd lba offset buffer bufsize r sd' ops :
  onWrite junk sd lba offset buffer bufsize = Returned r sd' ops ->
  sd_open sd' = sd_open sd.
Proof.
  unfold onWrite. destruct (_ || _).
  - intros [= _ <- _]. reflexivity.
  - apply onWrite_loop_open.
Qed.

(** ** The life cycle *)

Lemma mount_inv env st : lifecycle_inv st -> lifecycle_inv (mount env st).2.
Proof.
  unfold lifecycle_inv, mount. intros Hinv.
  destruct (s_mounted st) eqn:Hm; [cbn; congruence|].
  unfold do_SD_setPins, do_SD_begin. cbn. rewrite Hinv.
  destruct (env_sd_begin_ok env); cbn; [|congruence].
  destruct (is_CARD_NONE (sd_cardType (SD_MMC st))); cbn; [congruence|].
  destruct ((wrap32 (sd_sectorSize (SD_MMC st)) =? 0)
            || (wrap32 (sd_numSectors (SD_MMC st)) =? 0)); cbn; [congruence|].
  unfold do_MSC_begin. cbn.
  destruct (env_msc_begin_ok env); cbn; congruence.
Qed.

Lemma unmount_inv st : lifecycle_inv st -> lifecycle_inv (unmount st).
Proof.
  unfold lifecycle_inv, unmount. intros Hinv.
  destruct (s_mounted st) eqn:Hm; cbn; [reflexivity|congruence].
Qed.

Lemma step_inv st st' : step st st' -> lifecycle_inv st -> lifecycle_inv st'.
Proof.
  intros Hstep Hinv. destruct Hstep.
  - exact Hinv.
  - apply mount_inv, Hinv.
  - apply unmount_inv, Hinv.
  - unfold onStartStop. destruct (negb start && eject); cbn;
      [apply unmount_inv|]; exact Hinv.
  - unfold usbEventCallback. destruct base, id; exact Hinv.
  - unfold lifecycle_inv in *. cbn. rewrite <- Hinv. eapply onWrite_open; eauto.
Qed.

Lemma reachable_inv st : reachable st -> lifecycle_inv st.
Proof.
  induction 1 as [card|st st' _ IH Hstep].
  - reflexivity.
  - eapply step_inv; eauto.
Qed.

Example mounting_state_is_inside_mount :
  mount (mkMountEnv true true) (boot (sample_card 512 8))
  = (true, set_mounted true (mounting_state (sample_card 512 8))).
Proof. reflexivity. Qed.

Ltac mount_cases :=
  unfold mount, do_SD_setPins, do_SD_begin, do_MSC_begin; cbn;
  repeat (match goal with
          | |- context [if ?b then _ else _] => destruct b eqn:?
          end; cbn).

(** ** The sample cards *)

Lemma length_sample_sector n k : length (sample_sector n k) = n.
Proof. unfold sample_sector. rewrite length_fmap. apply length_seq. Qed.

Lemma sample_card_sectors sec count k data :
  sd_sectors (sample_card sec count) !! k = Some data
  <-> 0 <= k < count /\ data = sample_sector (Z.to_nat sec) k.
Proof.
  cbn. rewrite <- elem_of_list_to_map.
  2:{ rewrite <- list_fmap_compose.
      rewrite (list_fmap_ext _ id (seqZ 0 count)) by reflexivity.
      rewrite list_fmap_id. apply NoDup_seqZ. }
  rewrite list_elem_of_fmap. split.
  - intros (k' & [= -> ->] & Hk). apply elem_of_seqZ in Hk. split; [lia|reflexivity].
  - intros [Hk ->]. exists k. split; [reflexivity|]. apply elem_of_seqZ. lia.
Qed.

Lemma sample_card_wf sec count :
  0 <= sec < 2 ^ 32 -> 0 <= count < 2 ^ 32 -> medium_wf (sample_card sec count).
Proof.
  intros Hsec Hcount. split; [exact Hsec|]. split; [exact Hcount|].
  intros k data Hk. apply sample_card_sectors in Hk as [Hk ->].
  split; [exact Hk|]. rewrite length_sample_sector. cbn. lia.
Qed.

Lemma sample_card_read sec count k :
  0 <= k < count ->
  read_sector (sample_card sec count) k = Some (sample_sector (Z.to_nat sec) k).
Proof. intros Hk. unfold read_sector. cbn. apply sample_card_sectors. auto. Qed.

Lemma sample_card_write_accepted sec count k :
  0 <= k < count -> write_accepted (sample_card sec count) k = true.
Proof.
  intros Hk. unfold write_accepted. cbn. apply bool_decide_eq_true.
  exists (sample_sector (Z.to_nat sec) k).
  apply (sample_card_sectors sec count k). auto.
Qed.

Ltac decide_by_computation :=
  refine (bool_decide_unpack _ _); vm_compute; exact I.


(** ** A read that fails *)

Lemma first_unreadable sd (n : nat) :
  forall blk,
    read_sector sd (blk + Z.of_nat n) = None ->
    exists m, 0 <= m <= Z.of_nat n
              /\ (forall i, 0 <= i < m -> is_Some (read_sector sd (blk + i)))
              /\ read_sector sd (blk + m) = None.
Proof.
  induction n as [|n IH]; intros blk Hnone.
  - exists 0. split_and!; [lia|lia|intros; lia|exact Hnone].
  - destruct (read_sector sd blk) as [data|] eqn:Hhead.
    + destruct (IH (blk + 1)) as (m & Hm & Hbefore & Hat).
      { rewrite <- Hnone. f_equal. lia. }
      exists (m + 1). split_and!; [lia|lia| |].
      * intros i Hi. destruct (decide (i = 0)) as [->|Hnz].
        -- rewrite Z.add_0_r, Hhead. eauto.
        -- replace (blk + i) with (blk + 1 + (i - 1)) by lia. apply Hbefore. lia.
      * rewrite <- Hat. f_equal. lia.
    + exists 0. split_and!; [lia|lia|intros; lia|].
      rewrite Z.add_0_r. exact Hhead.
Qed.

Section ReadLoopFailure.
Context (junk : list byte) (sd : SDMMC) (bufsize : Z).
Hypothesis Hwf : medium_wf sd.
Hypothesis Hsec : 0 < sd_sectorSize sd <= TMP_SIZE.

(** The read loop up to the first sector it cannot read. *)
Lemma onRead_loop_fails fuel :
  forall remain blk off m,
    0 <= blk -> 0 <= off < sd_sectorSize sd -> 0 < remain ->
    (Z.to_nat remain <= fuel)%nat ->
    0 <= m < sectors_touched (sd_sectorSize sd) off remain ->
    (forall i, 0 <= i < m -> is_Some (read_sector sd (blk + i))) ->
    read_sector sd (blk + m) = None ->
    onRead_loop fuel junk sd (sd_sectorSize sd) bufsize remain blk off
    = Returned (-1)
        (medium_bytes sd (blk * sd_sectorSize sd + off)
           (Z.max 0 (m * sd_sectorSize sd - off)))
        (((fun b => RdSector b true) <$> seqZ blk m)
           ++ [RdSector (blk + m) false]).
Proof.
  induction fuel as [|fuel IH];
    intros remain blk off m Hblk Hoff Hrem Hfuel Hm Hbefore Hat; [lia|].
  rewrite onRead_loop_step by first [assumption | lia].
  destruct (decide (m = 0)) as [->|Hnz].
  { rewrite Z.add_0_r in *. rewrite Hat.
    replace (Z.max 0 (0 * sd_sectorSize sd - off)) with 0 by lia.
    rewrite medium_bytes_nil, seqZ_nil by lia. reflexivity. }
  destruct (Hbefore 0) as [data Hdata]; [lia|].
  rewrite Z.add_0_r in Hdata. rewrite Hdata. cbv zeta.
  destruct (read_sector_Some _ _ _ Hdata) as (_ & _ & Hlk).
  destruct (medium_wf_sector _ _ _ Hwf Hlk) as [Hrange Hlen].
  pose proof (sectors_touched_step (sd_sectorSize sd) off remain
                ltac:(lia) ltac:(lia) ltac:(lia)) as Hstep.
  assert (Hmore : sd_sectorSize sd - off < remain).
  { destruct (decide (sd_sectorSize sd - off < remain)) as [|Hle]; [assumption|].
    exfalso. replace (Z.min remain (sd_sectorSize sd - off)) with remain in Hstep by lia.
    rewrite Z.sub_diag, sectors_touched_0 in Hstep by lia. lia. }
  replace (Z.min remain (sd_sectorSize sd - off)) with (sd_sectorSize sd - off) in * by lia.
  rewrite (wrap32_small (blk + 1)) by (destruct Hwf as (? & ? & ?); lia).
  rewrite (IH (remain - (sd_sectorSize sd - off)) (blk + 1) 0 (m - 1));
    try lia.
  - f_equal.
    + rewrite (medium_bytes_sector sd blk data) by (first [assumption | lia]).
      replace (Z.max 0 (m * sd_sectorSize sd - off))
        with ((sd_sectorSize sd - off) + (m - 1) * sd_sectorSize sd) by nia.
      rewrite medium_bytes_app by nia. do 2 f_equal; nia.
    + rewrite (seqZ_cons blk m) by lia. rewrite fmap_cons. cbn [app].
      replace (Z.succ blk) with (blk + 1) by lia.
      replace (Z.pred m) with (m - 1) by lia.
      replace (blk + 1 + (m - 1)) with (blk + m) by lia. reflexivity.
  - intros i Hi. replace (blk + 1 + i) with (blk + (1 + i)) by lia.
    apply Hbefore. lia.
  - rewrite <- Hat. f_equal. lia.
Qed.

End ReadLoopFailure.

(** The read loop is settled by the bytes of the sectors it touches and
    by which of them the card reads. *)
Lemma onRead_loop_settled junk sd sd2 bufsize fuel remain blk off :
  medium_wf sd -> 0 < sd_sectorSize sd <= TMP_SIZE ->
  medium_wf sd2 -> same_card sd sd2 ->
  0 <= blk -> 0 <= off < sd_sectorSize sd -> 0 < remain ->
  (Z.to_nat remain <= fuel)%nat ->
  (forall p, blk * sd_sectorSize sd + off <= p
             < blk * sd_sectorSize sd + off + remain ->
             medium_byte sd2 p = medium_byte sd p) ->
  onRead_loop fuel junk sd2 (sd_sectorSize sd) bufsize remain blk off
  = onRead_loop fuel junk sd (sd_sectorSize sd) bufsize remain blk off.
Proof.
  intros Hwf Hsec Hwf2 Hsame Hblk Hoff Hrem Hfuel Hbytes.
  assert (Hsec2 : sd_sectorSize sd2 = sd_sectorSize sd) by apply Hsame.
  assert (Hsec2' : 0 < sd_sectorSize sd2 <= TMP_SIZE) by lia.
  assert (Heq : forall n, 0 <= n <= remain ->
                  medium_bytes sd2 (blk * sd_sectorSize sd + off) n
                  = medium_bytes sd (blk * sd_sectorSize sd + off) n).
  { intros n Hn. unfold medium_bytes. apply list_fmap_ext.
    intros i p Hp. apply lookup_seqZ in Hp as [-> Hi]. apply Hbytes. lia. }
  set (touched := sectors_touched (sd_sectorSize sd) off remain).
  assert (Htouched : (touched - 1) * sd_sectorSize sd < off + remain).
  { subst touched. unfold sectors_touched.
    pose proof (Z.div_mod (off + remain + sd_sectorSize sd - 1) (sd_sectorSize sd)
                  ltac:(lia)).
    pose proof (Z.mod_pos_bound (off + remain + sd_sectorSize sd - 1)
                  (sd_sectorSize sd) ltac:(lia)). nia. }
  destruct (decide (Forall (fun k => is_Some (read_sector sd k))
                      (seqZ blk touched))) as [Hall|Hsome].
  - rewrite Forall_seqZ in Hall.
    pose proof (onRead_loop_ok junk sd bufsize Hwf Hsec fuel remain blk off
                  Hblk Hoff ltac:(lia) Hfuel ltac:(lia)) as Hok.
    pose proof (onRead_loop_ok junk sd2 bufsize Hwf2 Hsec2' fuel remain blk off
                  Hblk ltac:(lia) ltac:(lia) Hfuel ltac:(lia)) as Hok2.
    rewrite Hsec2 in Hok2. rewrite Hok, Hok2.
    + f_equal. apply Heq; lia.
    + intros i Hi. apply (read_sector_same_card sd sd2); [exact Hsame|].
      apply Hall. fold touched in Hi. lia.
    + intros i Hi. apply Hall. fold touched in Hi. lia.
  - apply not_Forall_Exists in Hsome; [|apply _].
    apply Exists_exists in Hsome as (k & Hk & Hnone).
    apply elem_of_seqZ in Hk.
    assert (Hnone' : read_sector sd (blk + Z.of_nat (Z.to_nat (k - blk))) = None).
    { replace (blk + Z.of_nat (Z.to_nat (k - blk))) with k by lia.
      cbn in Hnone. destruct (read_sector sd k) eqn:Hrk; [exfalso; apply Hnone; eexists; reflexivity | reflexivity]. }
    destruct (first_unreadable sd _ blk Hnone') as (m & Hm & Hbefore & Hat).
    rewrite (onRead_loop_fails junk sd bufsize Hwf Hsec fuel remain blk off m)
      by (first [assumption | lia]).
    pose proof (onRead_loop_fails junk sd2 bufsize Hwf2 Hsec2' fuel remain blk off m)
      as Hfails2.
    rewrite Hsec2 in Hfails2. rewrite Hfails2; try first [assumption | lia].
    + f_equal. apply Heq. fold touched in Hk. nia.
    + intros i Hi. apply (read_sector_same_card sd sd2); [exact Hsame|].
      apply Hbefore. exact Hi.
    + destruct (read_sector sd2 (blk + m)) eqn:Hx; [|reflexivity].
      exfalso. assert (Hs : is_Some (read_sector sd (blk + m))).
      { apply (read_sector_same_card sd sd2); [exact Hsame|]. eauto. }
      rewrite Hat in Hs. destruct Hs as [? ?]. discriminate.
Qed.

(** ** Where a write leaves its bytes *)

Lemma sectors_touched_ceil sec off len :
  0 < sec -> 0 <= off -> 0 < len ->
  off + len <= sectors_touched sec off len * sec
  /\ (sectors_touched sec off len - 1) * sec < off + len.
Proof.
  intros Hsec Hoff Hlen. unfold sectors_touched.
  pose proof (Z.div_mod (off + len + sec - 1) sec ltac:(lia)).
  pose proof (Z.mod_pos_bound (off + len + sec - 1) sec ltac:(lia)). nia.
Qed.

Lemma sector_of_position sec lba off len p :
  0 < sec -> 0 <= off < sec -> 0 < len ->
  lba * sec + off <= p < lba * sec + off + len ->
  lba <= p / sec < lba + sectors_touched sec off len.
Proof.
  intros Hsec Hoff Hlen Hp.
  destruct (sectors_touched_ceil sec off len) as [Hup _]; [lia..|].
  split.
  - apply Z.div_le_lower_bound; lia.
  - apply Z.div_lt_upper_bound; nia.
Qed.

Lemma position_in_sector sec p :
  0 < sec ->
  p = p / sec * sec + Z.of_nat (Z.to_nat (p mod sec))
  /\ (Z.to_nat (p mod sec) < Z.to_nat sec)%nat.
Proof.
  intros Hsec.
  pose proof (Z.div_mod p sec ltac:(lia)).
  pose proof (Z.mod_pos_bound p sec ltac:(lia)). lia.
Qed.

(** A write loop that stops at a failed call has written every sector
    before the one it failed on. *)
Lemma onWrite_loop_prefix junk bufsize fuel :
  forall sd remain blk off src r sd' ops pre failed,
    medium_wf sd ->
    0 < sd_sectorSize sd <= TMP_SIZE ->
    0 <= off <= sd_sectorSize sd -> 0 <= remain <= Z.of_nat (length src) ->
    onWrite_loop fuel junk sd (sd_sectorSize sd) bufsize remain blk off src
    = Returned r sd' ops ->
    ops = pre ++ [failed] ->
    op_ok failed = false ->
    blk <= op_sector failed
    /\ forall j, blk <= j < op_sector failed ->
                 exists img, WrSector j img true ∈ pre.
Proof.
  induction fuel as [|fuel IH];
    intros sd remain blk off src r sd' ops pre failed Hwf Hsec Hoff Hrem
           Hrun Hops Hfail.
  { cbn in Hrun. destruct (remain =? 0); [|discriminate].
    injection Hrun as _ _ <-. destruct pre; discriminate. }
  destruct (decide (remain = 0)) as [->|Hne].
  { rewrite onWrite_loop_done in Hrun. injection Hrun as _ _ <-.
    destruct pre; discriminate. }
  rewrite onWrite_loop_step in Hrun by first [assumption | lia].
  destruct (sector_image sd (sd_sectorSize sd) remain blk off src)
    as [img|] eqn:Himg.
  2:{ injection Hrun as _ _ <-.
      apply (app_inj_tail [] pre) in Hops as [<- <-]. cbn.
      split; [lia|]. intros; lia. }
  destruct (write_accepted sd blk) eqn:Hacc.
  2:{ injection Hrun as _ _ <-.
      apply app_inj_tail in Hops as [<- <-]. cbn. split; [lia|]. intros; lia. }
  destruct (write_accepted_Some _ _ Hacc) as [Hopen [old Hold]].
  destruct (medium_wf_sector _ _ _ Hwf Hold) as [Hrange _].
  assert (Hlen : Z.of_nat (length img) = sd_sectorSize sd)
    by (eapply sector_image_length; eauto; lia).
  set (sd1 := set_sd_sectors (<[blk := img]> (sd_sectors sd)) sd) in *.
  assert (Hwf1 : medium_wf sd1) by (apply medium_wf_write; auto).
  rewrite (wrap32_small (blk + 1)) in Hrun
    by (destruct Hwf as (? & ? & ?); lia).
  set (chunk := Z.min remain (sd_sectorSize sd - off)) in *.
  destruct (onWrite_loop fuel junk sd1 (sd_sectorSize sd) bufsize
              (remain - chunk) (blk + 1) 0 (drop (Z.to_nat chunk) src))
    as [r1 sd1' ops1| |] eqn:Hrest; try discriminate.
  injection Hrun as _ _ <-.
  destruct (decide (ops1 = [])) as [->|Hne1].
  { apply (app_inj_tail (rmw_read (sd_sectorSize sd) remain blk off) pre)
      in Hops as [_ <-]. discriminate. }
  destruct (exists_last Hne1) as (pre1 & last1 & ->).
  change (rmw_read (sd_sectorSize sd) remain blk off
          ++ WrSector blk img true :: pre1 ++ [last1])
    with (rmw_read (sd_sectorSize sd) remain blk off
          ++ (WrSector blk img true :: pre1) ++ [last1]) in Hops.
  rewrite app_assoc in Hops. apply app_inj_tail in Hops as [<- <-].
  destruct (IH sd1 (remain - chunk) (blk + 1) 0 (drop (Z.to_nat chunk) src)
              r1 sd1' (pre1 ++ [last1]) pre1 last1 Hwf1 Hsec
              ltac:(cbn; lia)
              ltac:(rewrite length_drop; subst chunk; lia)
              Hrest eq_refl Hfail) as [Hle Hcov].
  split; [lia|]. intros j Hj.
  destruct (decide (j = blk)) as [->|Hnj].
  - exists img. apply elem_of_app. right. left.
  - destruct (Hcov j ltac:(lia)) as [img' Hin]. exists img'.
    apply elem_of_app. right. right. exact Hin.
Qed.

(** The calls of the write loop stay on the sectors the request touches. *)
Lemma onWrite_loop_range junk bufsize fuel :
  forall sd remain blk off src r sd' ops,
    medium_wf sd ->
    0 < sd_sectorSize sd <= TMP_SIZE ->
    0 <= off < sd_sectorSize sd -> 0 <= remain <= Z.of_nat (length src) ->
    (remain = 0 -> off = 0) ->
    onWrite_loop fuel junk sd (sd_sectorSize sd) bufsize remain blk off src
    = Returned r sd' ops ->
    Forall (fun op => blk <= op_sector op
                      < blk + sectors_touched (sd_sectorSize sd) off remain) ops.
Proof.
  induction fuel as [|fuel IH];
    intros sd remain blk off src r sd' ops Hwf Hsec Hoff Hrem Hz Hrun.
  { destruct (decide (remain = 0)) as [->|Hne].
    - rewrite onWrite_loop_done in Hrun. injection Hrun as _ _ <-. constructor.
    - cbn in Hrun. destruct (Z.eqb_spec remain 0); [lia|discriminate]. }
  destruct (decide (remain = 0)) as [->|Hne].
  { rewrite onWrite_loop_done in Hrun. injection Hrun as _ _ <-. constructor. }
  rewrite onWrite_loop_step in Hrun by first [assumption | lia].
  pose proof (sectors_touched_step (sd_sectorSize sd) off remain
                ltac:(lia) ltac:(lia) ltac:(lia)) as Hstep.
  set (chunk := Z.min remain (sd_sectorSize sd - off)) in *.
  assert (Hnn : 0 <= sectors_touched (sd_sectorSize sd) 0 (remain - chunk))
    by (apply sectors_touched_nonneg; subst chunk; lia).
  assert (Hrd : Forall (fun op => blk <= op_sector op
                          < blk + sectors_touched (sd_sectorSize sd) off remain)
                  (rmw_read (sd_sectorSize sd) remain blk off)).
  { unfold rmw_read. destruct (_ || _); repeat constructor; cbn; lia. }
  destruct (sector_image sd (sd_sectorSize sd) remain blk off src) as [img|] eqn:Himg.
  2:{ injection Hrun as _ _ <-. repeat constructor; cbn; lia. }
  assert (Hlen : Z.of_nat (length img) = sd_sectorSize sd)
    by (eapply sector_image_length; eauto; lia).
  destruct (write_accepted sd blk) eqn:Hacc.
  2:{ injection Hrun as _ _ <-. apply Forall_app; split; [exact Hrd|].
      repeat constructor; cbn; lia. }
  destruct (write_accepted_Some _ _ Hacc) as [Hopen [old Hold]].
  set (sd1 := set_sd_sectors (<[blk := img]> (sd_sectors sd)) sd) in *.
  assert (Hwf1 : medium_wf sd1) by (apply medium_wf_write; eauto).
  destruct (medium_wf_sector _ _ _ Hwf Hold) as [Hrange _].
  rewrite (wrap32_small (blk + 1)) in Hrun by (destruct Hwf as (? & ? & ?); lia).
  destruct (onWrite_loop fuel junk sd1 (sd_sectorSize sd) bufsize (remain - chunk)
              (blk + 1) 0 (drop (Z.to_nat chunk) src))
    as [r1 sd1' ops1| |] eqn:Hrun1; try discriminate.
  injection Hrun as -> -> <-.
  apply Forall_app; split; [exact Hrd|]. constructor; [cbn; lia|].
  pose proof (IH sd1 (remain - chunk) (blk + 1) 0 (drop (Z.to_nat chunk) src)
                r sd' ops1 Hwf1 Hsec ltac:(cbn; lia)
                ltac:(rewrite length_drop; subst chunk; lia) ltac:(reflexivity)
                Hrun1) as Hrest.
  change (sd_sectorSize sd1) with (sd_sectorSize sd) in Hrest.
  eapply Forall_impl; [exact Hrest|]. cbn. intros op Hop. lia.
Qed.

Lemma is_write_to_true k op :
  is_write_to k op = true <-> exists img, op = WrSector k img true.
Proof.
  destruct op as [b ok|b img ok]; cbn.
  - split; [discriminate|]. intros [? ?]. discriminate.
  - destruct ok.
    + rewrite bool_decide_eq_true. split.
      * intros ->. eauto.
      * intros [? [= -> _]]. reflexivity.
    + split; [discriminate|]. intros [? ?]. discriminate.
Qed.

Section WriteBytes.
Context (junk : list byte) (bufsize : Z) (fuel : nat).
Context (sd : SDMMC) (remain blk off : Z) (src : list byte).
Context (r : Z) (sd' : SDMMC) (ops : list SdOp).
Hypothesis Hwf : medium_wf sd.
Hypothesis Hsec : 0 < sd_sectorSize sd <= TMP_SIZE.
Hypothesis Hoff : 0 <= off < sd_sectorSize sd.
Hypothesis Hrem : 0 < remain <= Z.of_nat (length src).
Hypothesis Hfuel : (Z.to_nat remain < fuel)%nat.
Hypothesis Hrun :
  onWrite_loop fuel junk sd (sd_sectorSize sd) bufsize remain blk off src
  = Returned r sd' ops.

Lemma onWrite_loop_facts :
  all_or_abort r bufsize ops /\ medium_wf sd' /\ same_card sd sd'
  /\ (forall b, (forall img, WrSector b img true ∉ ops) ->
                sd_sectors sd' !! b = sd_sectors sd !! b).
Proof.
  destruct (onWrite_loop_runs junk bufsize fuel sd remain blk off src Hwf Hsec
              ltac:(lia) ltac:(lia) ltac:(destruct (decide (off = 0)); lia))
    as (r1 & sd1 & ops1 & Hrun1 & Hshape & Hwf' & Hsame & _ & _ & Hunw).
  rewrite Hrun in Hrun1. injection Hrun1 as <- <- <-. auto.
Qed.

(** Whatever the outcome, no byte outside the range changes. *)
Lemma onWrite_loop_outside p :
  ~ ((blk * sd_sectorSize sd + off) <= p < (blk * sd_sectorSize sd + off) + remain) -> medium_byte sd' p = medium_byte sd p.
Proof.
  intros Hout.
  destruct onWrite_loop_facts as (_ & Hwf' & Hsame & Hunw).
  assert (Hsec' : sd_sectorSize sd' = (sd_sectorSize sd)) by apply Hsame.
  unfold medium_byte. rewrite Hsec'.
  set (k := p / (sd_sectorSize sd)).
  destruct (decide (Exists (fun op => is_write_to k op = true) ops))
    as [Hex|Hno].
  - apply Exists_exists in Hex as (op & Hin & Hop).
    apply is_write_to_true in Hop as [img ->].
    apply list_elem_of_split in Hin as (pre & post & Hops).
    destruct (onWrite_loop_discipline junk bufsize fuel sd remain blk off src
                r sd' ops Hwf Hsec ltac:(lia) ltac:(lia)
                ltac:(destruct (decide (off = 0)); lia) Hrun
                pre k img true post Hops)
      as (_ & Hlen & Hkept & Hpart & Hfull).
    rewrite (Hkept eq_refl). cbn.
    destruct (position_in_sector (sd_sectorSize sd) p ltac:(lia)) as [Hp Hj]. fold k in Hp.
    destruct (decide (partial_sector (sd_sectorSize sd) (blk * sd_sectorSize sd + off) remain k)) as [Hp1|Hp1].
    + destruct (Hpart Hp1) as (pre' & old & _ & _ & Hlk & ->).
      rewrite Hlk. cbn. f_equal. apply spliced_outside.
      rewrite length_take. lia.
    + exfalso. unfold partial_sector in Hp1.
      assert ((blk * sd_sectorSize sd + off) <= k * (sd_sectorSize sd) /\ (k + 1) * (sd_sectorSize sd) <= (blk * sd_sectorSize sd + off) + remain) as [? ?]
        by (destruct (decide ((blk * sd_sectorSize sd + off) <= k * (sd_sectorSize sd) /\ (k + 1) * (sd_sectorSize sd) <= (blk * sd_sectorSize sd + off) + remain));
            [assumption|tauto]).
      lia.
  - rewrite Hunw; [reflexivity|].
    intros img Hin. apply Hno. apply Exists_exists.
    exists (WrSector k img true). split; [exact Hin|].
    apply is_write_to_true. eauto.
Qed.

(** When no call fails, every byte of the range is the request's. *)
Lemma onWrite_loop_inside p :
  Forall (fun op => op_ok op = true) ops ->
  (blk * sd_sectorSize sd + off) <= p < (blk * sd_sectorSize sd + off) + remain ->
  medium_byte sd' p = default x00 (src !! Z.to_nat (p - (blk * sd_sectorSize sd + off))).
Proof.
  intros Hok Hin.
  destruct onWrite_loop_facts as (_ & Hwf' & Hsame & _).
  assert (Hsec' : sd_sectorSize sd' = (sd_sectorSize sd)) by apply Hsame.
  unfold medium_byte. rewrite Hsec'.
  set (k := p / (sd_sectorSize sd)).
  destruct (sector_of_position (sd_sectorSize sd) blk off remain p) as [Hk1 Hk2]; [lia..|].
  fold k in Hk1, Hk2.
  pose proof (onWrite_loop_covers junk bufsize fuel sd remain blk off src r sd' ops
                Hwf Hsec Hoff ltac:(lia) ltac:(lia) Hrun Hok) as Hcov.
  assert (Hkin : k ∈ op_sector <$> filter (fun op => is_write op) ops).
  { rewrite Hcov. apply elem_of_seqZ. lia. }
  apply list_elem_of_fmap in Hkin as (op & Hk & Hop).
  apply list_elem_of_filter in Hop as [Hw Hop].
  rewrite Forall_forall in Hok. pose proof (Hok op Hop) as Hop_ok.
  destruct op as [?|b img ok]; [destruct Hw|]. cbn in Hk, Hop_ok. subst b ok.
  apply list_elem_of_split in Hop as (pre & post & Hops).
  destruct (onWrite_loop_discipline junk bufsize fuel sd remain blk off src
              r sd' ops Hwf Hsec ltac:(lia) ltac:(lia)
              ltac:(destruct (decide (off = 0)); lia) Hrun
              pre k img true post Hops)
    as (_ & Hlen & Hkept & Hpart & Hfull).
  rewrite (Hkept eq_refl). cbn.
  destruct (position_in_sector (sd_sectorSize sd) p ltac:(lia)) as [Hp Hj]. fold k in Hp.
  f_equal.
  destruct (decide (partial_sector (sd_sectorSize sd) (blk * sd_sectorSize sd + off) remain k)) as [Hp1|Hp1].
  - destruct (Hpart Hp1) as (pre' & old & _ & _ & Hlk & ->).
    destruct (medium_wf_sector _ _ _ Hwf Hlk) as [_ Hlen_old].
    rewrite spliced_inside by (rewrite ?length_take; lia).
    rewrite lookup_take_lt by lia. f_equal. lia.
  - destruct (Hfull Hp1) as [_ ->].
    unfold partial_sector in Hp1.
    assert ((blk * sd_sectorSize sd + off) <= k * (sd_sectorSize sd) /\ (k + 1) * (sd_sectorSize sd) <= (blk * sd_sectorSize sd + off) + remain) as [? ?]
      by (destruct (decide ((blk * sd_sectorSize sd + off) <= k * (sd_sectorSize sd) /\ (k + 1) * (sd_sectorSize sd) <= (blk * sd_sectorSize sd + off) + remain));
          [assumption|tauto]).
    rewrite lookup_take_lt by lia. rewrite lookup_drop. f_equal. lia.
Qed.

End WriteBytes.

(** Two cards that differ at most in sector contents and agree byte for
    byte are the same card. *)
Lemma card_ext sd1 sd2 :
  medium_wf sd1 -> medium_wf sd2 -> 0 < sd_sectorSize sd1 ->
  same_card sd1 sd2 ->
  (forall p, medium_byte sd2 p = medium_byte sd1 p) ->
  sd2 = sd1.
Proof.
  intros Hwf1 Hwf2 Hsec Hsame Hbytes.
  assert (Hmap : sd_sectors sd2 = sd_sectors sd1).
  { apply map_eq. intros k.
    pose proof (same_card_lookup sd1 sd2 k Hsame) as Hdom.
    destruct (sd_sectors sd1 !! k) as [d1|] eqn:H1;
      destruct (sd_sectors sd2 !! k) as [d2|] eqn:H2; try reflexivity.
    2:{ exfalso. destruct (proj1 Hdom) as [? Hx]; [eauto|discriminate Hx]. }
    2:{ exfalso. destruct (proj2 Hdom) as [? Hx]; [eauto|discriminate Hx]. }
    f_equal.
    destruct (medium_wf_sector _ _ _ Hwf1 H1) as [_ Hl1].
    destruct (medium_wf_sector _ _ _ Hwf2 H2) as [_ Hl2].
    assert (Hs2 : sd_sectorSize sd2 = sd_sectorSize sd1) by apply Hsame.
    apply list_eq. intros j.
    destruct (decide (j < length d1)%nat) as [Hj|Hj].
    - pose proof (Hbytes (k * sd_sectorSize sd1 + Z.of_nat j)) as Hb.
      rewrite (medium_byte_at sd1 k d1) in Hb by (first [assumption | lia]).
      rewrite <- Hs2 in Hb at 1.
      rewrite (medium_byte_at sd2 k d2) in Hb by (first [assumption | lia]).
      rewrite Nat2Z.id in Hb.
      destruct (lookup_lt_is_Some_2 d1 j) as [b1 Hb1]; [lia|].
      destruct (lookup_lt_is_Some_2 d2 j) as [b2 Hb2]; [lia|].
      rewrite Hb1, Hb2 in *. cbn in Hb. congruence.
    - rewrite !lookup_ge_None_2 by lia. reflexivity. }
  destruct Hsame as (Ho & Ht & Hs & Hn & Hr & Hw & _).
  destruct sd1, sd2. cbn in *. congruence.
Qed.

(** ** The uninitialised sector buffer *)

Lemma onRead_loop_junk junk junk' sd bufsize fuel :
  forall remain blk off,
    medium_wf sd -> 0 < sd_sectorSize sd <= TMP_SIZE ->
    0 <= off <= sd_sectorSize sd -> 0 <= remain ->
    onRead_loop fuel junk sd (sd_sectorSize sd) bufsize remain blk off
    = onRead_loop fuel junk' sd (sd_sectorSize sd) bufsize remain blk off.
Proof.
  induction fuel as [|fuel IH]; intros remain blk off Hwf Hsec Hoff Hrem.
  { reflexivity. }
  destruct (decide (remain = 0)) as [->|Hne].
  { rewrite !onRead_loop_done. reflexivity. }
  rewrite !onRead_loop_step by first [assumption | lia].
  destruct (read_sector sd blk); [|reflexivity]. cbv zeta.
  rewrite (IH (remain - Z.min remain (sd_sectorSize sd - off))
              (wrap32 (blk + 1)) 0) by first [assumption | lia].
  reflexivity.
Qed.

Lemma onWrite_loop_junk junk junk' bufsize fuel :
  forall sd remain blk off src,
    medium_wf sd -> 0 < sd_sectorSize sd <= TMP_SIZE ->
    0 <= off <= sd_sectorSize sd -> 0 <= remain <= Z.of_nat (length src) ->
    onWrite_loop fuel junk sd (sd_sectorSize sd) bufsize remain blk off src
    = onWrite_loop fuel junk' sd (sd_sectorSize sd) bufsize remain blk off src.
Proof.
  induction fuel as [|fuel IH]; intros sd remain blk off src Hwf Hsec Hoff Hrem.
  { reflexivity. }
  destruct (decide (remain = 0)) as [->|Hne].
  { rewrite !onWrite_loop_done. reflexivity. }
  rewrite !onWrite_loop_step by first [assumption | lia].
  destruct (sector_image sd (sd_sectorSize sd) remain blk off src) as [img|] eqn:Himg;
    [|reflexivity].
  assert (Hlen : Z.of_nat (length img) = sd_sectorSize sd)
    by (eapply sector_image_length; eauto; lia).
  destruct (write_accepted sd blk) eqn:Hacc; [|reflexivity].
  destruct (write_accepted_Some _ _ Hacc) as [Hopen [old Hold]].
  set (sd1 := set_sd_sectors (<[blk := img]> (sd_sectors sd)) sd).
  assert (Hwf1 : medium_wf sd1) by (apply medium_wf_write; eauto).
  change (sd_sectorSize sd) with (sd_sectorSize sd1).
  rewrite (IH sd1) by (first [assumption | cbn; rewrite ?length_drop; lia]).
  reflexivity.
Qed.

(** ** What a write never changes *)

Lemma writeRAW_same_card sd buf blk sd' :
  writeRAW sd buf blk = RawOk sd' -> same_card sd sd'.
Proof.
  unfold writeRAW. destruct (write_accepted sd blk) eqn:Hacc; [|discriminate].
  destruct (buf_load buf 0 (sd_sectorSize sd)); [|discriminate].
  intros [= <-]. apply same_card_write.
  apply write_accepted_Some in Hacc. tauto.
Qed.

Lemma onWrite_loop_same_card junk sec bufsize fuel :
  forall sd remain blk off src r sd' ops,
    onWrite_loop fuel junk sd sec bufsize remain blk off src = Returned r sd' ops ->
    same_card sd sd'.
Proof.
  induction fuel as [|fuel IH]; intros sd remain blk off src r sd' ops; cbn.
  - destruct (remain =? 0); [|discriminate]. intros [= _ <- _]. apply same_card_refl.
  - destruct (remain =? 0); [intros [= _ <- _]; apply same_card_refl|].
    destruct (if negb (off =? 0) || (remain <? sec)
              then readRAW sd (stack_buffer junk) blk
              else RawOk (stack_buffer junk)) as [tmp| |];
      [|intros [= _ <- _]; apply same_card_refl|discriminate].
    destruct (buf_load src 0 _); [|discriminate].
    destruct (buf_store tmp off _) as [tmp2|]; [|discriminate].
    destruct (writeRAW sd tmp2 blk) as [sd1| |] eqn:Hw;
      [|intros [= _ <- _]; apply same_card_refl|discriminate].
    destruct (onWrite_loop fuel junk sd1 sec bufsize _ _ 0 _)
      as [r1 sd1' ops1| |] eqn:Hrest; try discriminate.
    intros [= _ <- _]. eapply same_card_trans.
    + eapply writeRAW_same_card; eauto.
    + eapply IH; eauto.
Qed.

Lemma onWrite_same_card junk sd lba offset buffer bufsize r sd' ops :
  onWrite junk sd lba offset buffer bufsize = Returned r sd' ops ->
  same_card sd sd'.
Proof.
  unfold onWrite. destruct (_ || _).
  - intros [= _ <- _]. apply same_card_refl.
  - apply onWrite_loop_same_card.
Qed.

(** ** A write request, byte by byte *)

Lemma onWrite_medium junk sd lba offset buffer r sd' ops :
  medium_wf sd ->
  0 < sectorSize sd <= TMP_SIZE ->
  0 <= offset < sectorSize sd ->
  0 < Z.of_nat (length buffer) < 2 ^ 32 ->
  onWrite junk sd lba offset buffer (Z.of_nat (length buffer)) = Returned r sd' ops ->
  medium_wf sd' /\ same_card sd sd'
  /\ all_or_abort r (Z.of_nat (length buffer)) ops
  /\ Forall (fun op => lba <= op_sector op
                       < lba + sectors_touched (sd_sectorSize sd) offset
                                 (Z.of_nat (length buffer))) ops
  /\ (forall k, (forall img, WrSector k img true ∉ ops) ->
                sd_sectors sd' !! k = sd_sectors sd !! k)
  /\ (forall p, ~ (lba * sd_sectorSize sd + offset <= p
                   < lba * sd_sectorSize sd + offset + Z.of_nat (length buffer)) ->
                medium_byte sd' p = medium_byte sd p)
  /\ (r <> -1 ->
      forall p, lba * sd_sectorSize sd + offset <= p
                < lba * sd_sectorSize sd + offset + Z.of_nat (length buffer) ->
                medium_byte sd' p
                = default x00 (buffer !! Z.to_nat (p - (lba * sd_sectorSize sd + offset)))).
Proof.
  intros Hwf Hsec Hoff Hlen Hrun.
  destruct (sectorSize_open sd) as [Hopen Hss]; [lia|]. rewrite Hss in *.
  assert (Hs32 : 0 < sd_sectorSize sd < 2 ^ 32) by (destruct Hwf; lia).
  rewrite onWrite_unfold in Hrun by first [assumption | lia].
  assert (Hfuel : (Z.to_nat (Z.of_nat (length buffer))
                   < S (Z.to_nat (Z.of_nat (length buffer))))%nat) by lia.
  destruct (onWrite_loop_facts junk (Z.of_nat (length buffer)) _ sd
              (Z.of_nat (length buffer)) lba offset buffer r sd' ops
              Hwf Hsec Hoff ltac:(lia) Hfuel Hrun)
    as (Hshape & Hwf' & Hsame & Hunw).
  split_and!; auto.
  - eapply onWrite_loop_range; eauto; lia.
  - intros p Hp. eapply onWrite_loop_outside; eauto; lia.
  - intros Hr p Hp.
    eapply (onWrite_loop_inside junk (Z.of_nat (length buffer)) _ sd
              (Z.of_nat (length buffer)) lba offset buffer r sd' ops);
      eauto; try lia.
    destruct Hshape as [[_ Hok]|[Hneg _]]; [exact Hok|contradiction].
Qed.

Lemma medium_bytes_ext sd1 sd2 pos len :
  (forall p, pos <= p < pos + len -> medium_byte sd1 p = medium_byte sd2 p) ->
  medium_bytes sd1 pos len = medium_bytes sd2 pos len.
Proof.
  intros Hb. unfold medium_bytes. apply list_fmap_ext.
  intros i p Hp. apply lookup_seqZ in Hp as [-> Hi]. apply Hb. lia.
Qed.

Lemma medium_bytes_buffer sd pos (buffer : list byte) :
  (forall p, pos <= p < pos + Z.of_nat (length buffer) ->
             medium_byte sd p = default x00 (buffer !! Z.to_nat (p - pos))) ->
  medium_bytes sd pos (Z.of_nat (length buffer)) = buffer.
Proof.
  intros Hb. apply list_eq. intros i. unfold medium_bytes.
  rewrite list_lookup_fmap.
  destruct (decide (i < length buffer)%nat) as [Hi|Hi].
  - rewrite lookup_seqZ_lt by lia. cbn. rewrite Hb by lia.
    replace (Z.to_nat (pos + Z.of_nat i - pos)) with i by lia.
    destruct (lookup_lt_is_Some_2 buffer i Hi) as [b Hbi]. rewrite Hbi. reflexivity.
  - rewrite lookup_seqZ_ge by lia. rewrite lookup_ge_None_2 by lia. reflexivity.
Qed.


Lemma same_card_sym sd sd' : same_card sd sd' -> same_card sd' sd.
Proof. unfold same_card. intuition congruence. Qed.

(** A write request that succeeds lays its buffer over the medium. *)
Lemma onWrite_written junk sd lba offset buffer r sd' ops :
  medium_wf sd ->
  0 < sectorSize sd <= TMP_SIZE ->
  0 <= offset < sectorSize sd ->
  0 < Z.of_nat (length buffer) < 2 ^ 32 ->
  onWrite junk sd lba offset buffer (Z.of_nat (length buffer)) = Returned r sd' ops ->
  r <> -1 ->
  medium_wf sd' /\ same_card sd sd'
  /\ forall p, medium_byte sd' p
               = written (lba * sectorSize sd + offset) buffer (medium_byte sd) p.
Proof.
  intros Hwf Hsec Hoff Hlen Hrun Hr.
  destruct (onWrite_medium junk sd lba offset buffer r sd' ops Hwf Hsec Hoff
              Hlen Hrun) as (Hwf' & Hsame & _ & _ & _ & Hout & Hin).
  destruct (sectorSize_open sd) as [Hopen Hss]; [lia|]. rewrite Hss.
  split; [exact Hwf'|]. split; [exact Hsame|].
  intros p. unfold written. destruct (decide _) as [Hp|Hp].
  - apply Hin; assumption.
  - apply Hout. exact Hp.
Qed.

Lemma sectorSize_same_card sd sd' :
  same_card sd sd' -> sectorSize sd' = sectorSize sd.
Proof. intros (Ho & _ & Hs & _). unfold sectorSize. rewrite Ho, Hs. reflexivity. Qed.

Lemma written_ext pos data f g p :
  (forall q, f q = g q) -> written pos data f p = written pos data g p.
Proof. intros Hfg. unfold written. destruct (decide _); [reflexivity|apply Hfg]. Qed.

Lemma written_adjoining pos a b f p :
  written (pos + Z.of_nat (length a)) b (written pos a f) p
  = written pos (a ++ b) f p.
Proof.
  unfold written. rewrite length_app.
  repeat destruct (decide _); try lia; try reflexivity.
  - rewrite lookup_app_r by lia. do 2 f_equal. lia.
  - rewrite lookup_app_l by lia. reflexivity.
Qed.

Lemma written_disjoint pos1 a pos2 b f p :
  pos1 + Z.of_nat (length a) <= pos2 \/ pos2 + Z.of_nat (length b) <= pos1 ->
  written pos2 b (written pos1 a f) p = written pos1 a (written pos2 b f) p.
Proof.
  intros Hd. unfold written.
  repeat destruct (decide _); try lia; reflexivity.
Qed.

Lemma written_over pos a b f p :
  length a = length b ->
  written pos b (written pos a f) p = written pos b f p.
Proof.
  intros Hl. unfold written. rewrite Hl.
  repeat destruct (decide _); try lia; reflexivity.
Qed.

(** Two write requests, one after the other, both successful. *)
Lemma onWrite_twice junk sd lba1 off1 a lba2 off2 b r1 sd1 ops1 r2 sd2 ops2 :
  medium_wf sd ->
  0 < sectorSize sd <= TMP_SIZE ->
  0 <= off1 < sectorSize sd -> 0 <= off2 < sectorSize sd ->
  0 < Z.of_nat (length a) < 2 ^ 32 -> 0 < Z.of_nat (length b) < 2 ^ 32 ->
  onWrite junk sd lba1 off1 a (Z.of_nat (length a)) = Returned r1 sd1 ops1 ->
  r1 <> -1 ->
  onWrite junk sd1 lba2 off2 b (Z.of_nat (length b)) = Returned r2 sd2 ops2 ->
  r2 <> -1 ->
  medium_wf sd2 /\ same_card sd sd2
  /\ forall p, medium_byte sd2 p
               = written (lba2 * sectorSize sd + off2) b
                   (written (lba1 * sectorSize sd + off1) a (medium_byte sd)) p.
Proof.
  intros Hwf Hsec Hoff1 Hoff2 Hla Hlb Hrun1 Hr1 Hrun2 Hr2.
  destruct (onWrite_written junk sd lba1 off1 a r1 sd1 ops1)
    as (Hwf1 & Hsame1 & Hbytes1); try assumption.
  pose proof (sectorSize_same_card sd sd1 Hsame1) as Hss.
  destruct (onWrite_written junk sd1 lba2 off2 b r2 sd2 ops2)
    as (Hwf2 & Hsame2 & Hbytes2);
    try first [assumption | rewrite Hss; assumption].
  split; [exact Hwf2|]. split; [eapply same_card_trans; eassumption|].
  intros p. rewrite Hbytes2, Hss. apply written_ext. exact Hbytes1.
Qed.

(** ** Requests beyond the card *)



Lemma write_accepted_off_card sd k :
  medium_wf sd -> ~ (0 <= k < sd_numSectors sd) -> write_accepted sd k = false.
Proof.
  intros Hwf Hk. destruct (write_accepted sd k) eqn:Hacc; [|reflexivity].
  apply write_accepted_Some in Hacc as [_ [data Hlk]].
  destruct (medium_wf_sector _ _ _ Hwf Hlk). lia.
Qed.

(** ** The life cycle, further *)

Lemma set_sd_open_same sd : set_sd_open (sd_open sd) sd = sd.
Proof. destruct sd. reflexivity. Qed.

(** Equations between card objects that differ at most in the open flag. *)
Ltac card_eta :=
  repeat match goal with
         | H : sd_open (SD_MMC _) = _ |- _ => revert H
         end;
  match goal with
  | |- context [SD_MMC ?st] => destruct (SD_MMC st)
  end;
  cbn; intros; subst; reflexivity.

Lemma onWrite_presented junk st lba offset buffer bufsize r sd' ops :
  onWrite junk (SD_MMC st) lba offset buffer bufsize = Returned r sd' ops ->
  presented st -> presented (set_SD_MMC sd' st).
Proof.
  intros Hrun Hp. apply onWrite_same_card in Hrun.
  destruct Hrun as (Ho & Ht & Hs & Hn & _).
  unfold presented in *. cbn. rewrite Ho, Ht, Hs, Hn. exact Hp.
Qed.

Lemma mount_mounted_inv env st : mounted_inv st -> mounted_inv (mount env st).2.
Proof.
  unfold mounted_inv, presented. intros [Hstarted Hpres].
  destruct (s_mounted st) eqn:Hm.
  { unfold mount. rewrite Hm. cbn. rewrite Hm. auto. }
  clear Hpres. revert Hstarted.
  mount_cases; intros Hstarted; try discriminate Hm;
    (split; [congruence|]); intros Hx; try congruence.
  all: unfold sectorSize, numSectors, cardType in *; cbn in *.
  all: repeat match goal with
         | H : sd_open _ = true |- _ => rewrite H in *; clear H
         | H : _ || _ = false |- _ => apply orb_false_iff in H as [? ?]
         | H : (_ =? _) = false |- _ => apply Z.eqb_neq in H
         end.
  all: split_and!; try reflexivity; try assumption.
  all: match goal with
       | H : is_CARD_NONE ?t = false |- ?t <> CARD_NONE =>
           intros Heq; rewrite Heq in H; discriminate H
       end.
Qed.

Lemma unmount_mounted_inv st : mounted_inv st -> mounted_inv (unmount st).
Proof.
  unfold mounted_inv. intros [Hstarted Hpres]. unfold unmount.
  destruct (s_mounted st) eqn:Hm; cbn.
  - split; [reflexivity|discriminate].
  - rewrite Hm. split; [exact Hstarted|discriminate].
Qed.

Lemma step_mounted_inv st st' : step st st' -> mounted_inv st -> mounted_inv st'.
Proof.
  intros Hstep Hinv. destruct Hstep.
  - exact Hinv.
  - apply mount_mounted_inv, Hinv.
  - apply unmount_mounted_inv, Hinv.
  - unfold onStartStop. destruct (negb start && eject); cbn;
      [apply unmount_mounted_inv|]; exact Hinv.
  - unfold usbEventCallback. destruct base, id; exact Hinv.
  - destruct Hinv as [Hstarted Hpres]. split; [exact Hstarted|].
    cbn. intros Hm. eapply onWrite_presented; eauto.
Qed.

Lemma reachable_mounted_inv st : reachable st -> mounted_inv st.
Proof.
  induction 1 as [card|st st' _ IH Hstep].
  - split; [reflexivity|discriminate].
  - eapply step_mounted_inv; eauto.
Qed.

Lemma set_sd_open_twice a b sd : set_sd_open a (set_sd_open b sd) = set_sd_open a sd.
Proof. reflexivity. Qed.

(** When [mount()] succeeds. *)
Lemma mount_ok_iff env st :
  s_mounted st = false ->
  ((mount env st).1 = true
   <-> (sd_open (SD_MMC st) = true \/ env_sd_begin_ok env = true)
       /\ sd_cardType (SD_MMC st) <> CARD_NONE
       /\ wrap32 (sd_sectorSize (SD_MMC st)) <> 0
       /\ wrap32 (sd_numSectors (SD_MMC st)) <> 0
       /\ env_msc_begin_ok env = true).
Proof.
  intros Hm. unfold mount. rewrite Hm.
  unfold do_SD_setPins, do_SD_begin, do_MSC_begin, cardType, sectorSize,
    numSectors. cbn.
  destruct (sd_open (SD_MMC st)) eqn:Hopen; cbn;
    [|destruct (env_sd_begin_ok env) eqn:Hbegin; cbn].
  3:{ split; [discriminate|]. intros ([?|?] & _); discriminate. }
  all: rewrite ?Hopen; cbn.
  all: destruct (sd_cardType (SD_MMC st)) eqn:Htype; cbn;
    try (split; [discriminate|]; intros (_ & Hx & _); congruence).
  all: destruct (Z.eqb_spec (wrap32 (sd_sectorSize (SD_MMC st))) 0) as [Hs|Hs]; cbn;
    try (split; [discriminate|]; intros (_ & _ & Hx & _); congruence).
  all: destruct (Z.eqb_spec (wrap32 (sd_numSectors (SD_MMC st))) 0) as [Hn|Hn]; cbn;
    try (split; [discriminate|]; intros (_ & _ & _ & Hx & _); congruence).
  all: destruct (env_msc_begin_ok env); cbn;
    try (split; [discriminate|]; intros (_ & _ & _ & _ & Hx); congruence).
  all: split; [intros _|reflexivity]; split_and!; auto; discriminate.
Qed.

(** What a successful [mount()] leaves. *)
Lemma mount_ok_state env st :
  s_mounted st = false -> (mount env st).1 = true ->
  (mount env st).2 = presented_state st.
Proof.
  intros Hm. unfold presented_state, mount_calls.
  mount_cases; intros Hok; try discriminate Hok; try congruence.
  all: unfold sectorSize, numSectors in *; cbn in *.
  all: repeat match goal with
         | H : sd_open _ = true |- _ => rewrite H in *; revert H
         end.
  all: intros; unfold set_mounted; cbn; rewrite <- ?app_assoc; cbn.
  all: f_equal; try reflexivity.
  card_eta.
Qed.

(** ** The directory walk *)

Lemma bump_bump a b c a' b' c' info :
  bump a b c (bump a' b' c' info) = bump (a' + a) (b' + b) (c' + c) info.
Proof. unfold bump. cbn. f_equal; lia. Qed.

Lemma bump_0 info : bump 0 0 0 info = info.
Proof. destruct info. unfold bump. cbn. f_equal; lia. Qed.

Lemma tree_files_cons c children :
  tree_files (TDir (c :: children)) = tree_files c.2 + tree_files (TDir children).
Proof. reflexivity. Qed.

Lemma tree_folders_cons c children :
  tree_folders (TDir (c :: children))
  = (if is_TDir c.2 then 1 + tree_folders c.2 else 0) + tree_folders (TDir children).
Proof. reflexivity. Qed.

Lemma tree_depth_cons c children :
  tree_depth (TDir (c :: children))
  = S (Nat.max (tree_depth c.2) (Nat.pred (tree_depth (TDir children)))).
Proof. reflexivity. Qed.

Lemma root_files_cons c children :
  root_files (c :: children)
  = (if is_TDir c.2 then 0 else 1) + root_files children.
Proof.
  unfold root_files. destruct (is_TDir c.2) eqn:Hd.
  - rewrite filter_cons_False by (rewrite Hd; discriminate). lia.
  - rewrite filter_cons_True by exact Hd. cbn [length]. lia.
Qed.

Lemma tree_counts_nonneg d :
  forall t, (tree_depth t <= d)%nat -> 0 <= tree_files t /\ 0 <= tree_folders t.
Proof.
  induction d as [|d IH]; intros [|children] Hd; cbn in Hd; try (cbn; lia).
  apply le_S_n in Hd.
  induction children as [|c children IHc]; [cbn; lia|].
  rewrite tree_files_cons, tree_folders_cons.
  destruct (IH c.2) as [? ?]; [lia|].
  destruct IHc as [? ?]; [lia|].
  destruct (is_TDir c.2); lia.
Qed.

Lemma tree_files_nonneg t : 0 <= tree_files t.
Proof. apply (tree_counts_nonneg (tree_depth t)). lia. Qed.

Lemma tree_folders_nonneg t : 0 <= tree_folders t.
Proof. apply (tree_counts_nonneg (tree_depth t)). lia. Qed.

Lemma root_files_nonneg children : 0 <= root_files children.
Proof. unfold root_files. lia. Qed.

Lemma incr_ok n : n < INT_MAX -> incr n = Some (n + 1).
Proof. intros H. unfold incr. destruct (Z.ltb_spec n INT_MAX); [reflexivity|lia]. Qed.

Lemma incr_Some n m : incr n = Some m -> m = n + 1 /\ n < INT_MAX.
Proof.
  unfold incr. destruct (Z.ltb_spec n INT_MAX); [|discriminate].
  intros [= <-]. auto.
Qed.

Lemma count_folder_ok info :
  folderCount info < INT_MAX -> count_folder info = Some (bump 1 0 0 info).
Proof.
  intros H. unfold count_folder. rewrite incr_ok by exact H. cbn.
  unfold bump. do 2 f_equal; lia.
Qed.

Lemma count_file_ok (isRoot : bool) info :
  totalFileCount info < INT_MAX ->
  rootFileCount info + (if isRoot then 1 else 0) <= INT_MAX ->
  count_file isRoot info = Some (bump 0 (if isRoot then 1 else 0) 1 info).
Proof.
  intros Ht Hr. unfold count_file.
  rewrite (incr_ok (totalFileCount info)) by exact Ht. cbn.
  destruct isRoot; [rewrite incr_ok by lia|]; cbn; unfold bump;
    do 2 f_equal; lia.
Qed.

(** The walk of a directory that answers as a tree. *)
Lemma countFilesAndFolders_walk fs depth :
  forall children path info (isRoot : bool),
    answers_as fs path (TDir children) ->
    (tree_depth (TDir children) <= depth)%nat ->
    folderCount info + tree_folders (TDir children) <= INT_MAX ->
    rootFileCount info + (if isRoot then root_files children else 0) <= INT_MAX ->
    totalFileCount info + tree_files (TDir children) <= INT_MAX ->
    countFilesAndFolders depth fs path info isRoot
    = Some (bump (tree_folders (TDir children))
                 (if isRoot then root_files children else 0)
                 (tree_files (TDir children)) info).
Proof.
  induction depth as [|depth IH];
    intros children path info isRoot Hans Hdepth.
  { cbn in Hdepth. lia. }
  inversion Hans as [|path' children' Hopen Hsub]; subst.
  cbn [countFilesAndFolders]. rewrite Hopen.
  clear Hans Hopen. revert info.
  induction children as [|c children IHc]; intros info Hfo Hro Hto.
  { cbn. rewrite (bump_0 info) || (destruct isRoot; rewrite bump_0); reflexivity. }
  apply Forall_cons in Hsub as [Hc Hsub].
  rewrite tree_depth_cons in Hdepth.
  assert (Hd1 : (tree_depth c.2 <= depth)%nat) by lia.
  assert (Hd2 : (tree_depth (TDir children) <= S depth)%nat).
  { destruct children; cbn in *; lia. }
  specialize (IHc Hd2 Hsub).
  rewrite tree_files_cons, tree_folders_cons in *.
  rewrite root_files_cons in *.
  pose proof (tree_files_nonneg (TDir children)).
  pose proof (tree_folders_nonneg (TDir children)).
  pose proof (tree_files_nonneg c.2). pose proof (tree_folders_nonneg c.2).
  pose proof (root_files_nonneg children).
  cbn [listing fmap list_fmap foldl].
  cbn [ent_isDirectory ent_name mbind option_bind].
  destruct c as [name t]. cbn [fst snd] in *.
  destruct t as [|grandchildren]; cbn [is_TDir] in *.
  - rewrite count_file_ok by (change (tree_files TFile) with 1 in *; destruct isRoot; lia).
    fold (listing children). rewrite IHc.
    + rewrite bump_bump. f_equal. change (tree_files TFile) with 1.
      destruct isRoot; f_equal; lia.
    + unfold bump; cbn [folderCount rootFileCount totalFileCount]. lia.
    + unfold bump; cbn [folderCount rootFileCount totalFileCount]. change (tree_files TFile) with 1 in *. destruct isRoot; lia.
    + unfold bump; cbn [folderCount rootFileCount totalFileCount]. change (tree_files TFile) with 1 in *. lia.
  - rewrite count_folder_ok by lia. cbn [mbind option_bind].
    rewrite (IH grandchildren _ _ false Hc Hd1);
      [|unfold bump; cbn [folderCount rootFileCount totalFileCount];
        destruct isRoot; lia..].
    fold (listing children). rewrite IHc.
    + rewrite !bump_bump. f_equal. destruct isRoot; f_equal; lia.
    + unfold bump; cbn [folderCount rootFileCount totalFileCount]. lia.
    + unfold bump; cbn [folderCount rootFileCount totalFileCount]. destruct isRoot; lia.
    + unfold bump; cbn [folderCount rootFileCount totalFileCount]. lia.
Qed.

(** The walk changes the counters only, and does not lower them. *)
Lemma countFilesAndFolders_detected fs depth :
  forall path info isRoot info',
    countFilesAndFolders depth fs path info isRoot = Some info' ->
    detected info' = detected info
    /\ totalBytes info' = totalBytes info /\ usedBytes info' = usedBytes info
    /\ folderCount info <= folderCount info'
    /\ rootFileCount info <= rootFileCount info'
    /\ totalFileCount info <= totalFileCount info'
    /\ rootFileCount info' - rootFileCount info
       <= totalFileCount info' - totalFileCount info
    /\ (isRoot = false -> rootFileCount info' = rootFileCount info).
Proof.
  induction depth as [|depth IH]; intros path info isRoot info'; [discriminate|].
  cbn [countFilesAndFolders].
  destruct (fs path) as [[|entries]|]; try (intros [= <-]; split_and!; auto; lia).
  revert info'. induction entries as [|e entries IHe] using rev_ind; intros info'.
  { cbn. intros [= <-]. split_and!; auto; lia. }
  rewrite foldl_snoc.
  destruct (foldl _ (Some info) entries) as [mid|] eqn:Hmid; [|discriminate].
  specialize (IHe mid eq_refl). cbn [mbind option_bind].
  destruct IHe as (? & ? & ? & ? & ? & ? & ? & Hroot0).
  destruct (ent_isDirectory e).
  - unfold count_folder.
    destruct (incr (folderCount mid)) as [n|] eqn:Hn; cbn [mbind option_bind];
      [|discriminate].
    apply incr_Some in Hn as [-> _].
    intros Hsub. apply IH in Hsub. cbn in Hsub.
    destruct Hsub as (? & ? & ? & ? & ? & ? & ? & Hroot).
    specialize (Hroot eq_refl).
    split_and!; try congruence; try lia. intros Hr. specialize (Hroot0 Hr). lia.
  - unfold count_file.
    destruct (incr (totalFileCount mid)) as [t|] eqn:Ht; cbn [mbind option_bind];
      [|discriminate].
    apply incr_Some in Ht as [-> _].
    destruct isRoot.
    + destruct (incr (rootFileCount mid)) as [r|] eqn:Hr;
        cbn [mbind option_bind]; [|discriminate].
      apply incr_Some in Hr as [-> _].
      intros [= <-]. cbn. split_and!; try congruence; try lia.
    + cbn [mbind option_bind]. intros [= <-]. cbn.
      split_and!; try congruence; try lia.
Qed.

(** ** The probe *)

Lemma only_called_refl st : only_called st st.
Proof.
  unfold only_called. split_and!; auto. exists [].
  rewrite app_nil_r. split; reflexivity.
Qed.

Lemma only_called_trans st1 st2 st3 :
  only_called st1 st2 -> only_called st2 st3 -> only_called st1 st3.
Proof.
  unfold only_called.
  intros (? & ? & ? & ? & ? & ? & n1 & Hn1 & Hp1)
         (? & ? & ? & ? & ? & ? & n2 & Hn2 & Hp2).
  split_and!; try congruence.
  exists (n1 ++ n2). rewrite Hn2, Hn1, app_assoc, forallb_app, Hp1, Hp2.
  split; reflexivity.
Qed.

Lemma idle_refl a : idle a a.
Proof. unfold idle. split_and!; auto using only_called_refl. Qed.

Lemma idle_trans a1 a2 a3 : idle a1 a2 -> idle a2 a3 -> idle a1 a3.
Proof.
  unfold idle.
  intros (? & ? & ? & ? & ? & ? & ? & ? & ?) (? & ? & ? & ? & ? & ? & ? & ? & ?).
  split_and!; try congruence. eapply only_called_trans; eassumption.
Qed.

Lemma idle_draw c a : idle a (draw c a).
Proof. unfold idle. cbn. split_and!; auto using only_called_refl. Qed.

Lemma idle_draws cs a : idle a (draws cs a).
Proof.
  revert a. induction cs as [|c cs IH]; intros a; [apply idle_refl|].
  cbn. eapply idle_trans; [apply (idle_draw c)|apply IH].
Qed.

Lemma idle_updateNeoPixel color a : idle a (updateNeoPixel color a).
Proof.
  unfold updateNeoPixel. destruct (pixels a); [|apply idle_refl].
  eapply idle_trans; apply idle_draw.
Qed.

Lemma idle_set_last_sd_present b a : idle a (set_last_sd_present b a).
Proof. unfold idle. cbn. split_and!; auto using only_called_refl. Qed.

Lemma idle_set_storage st a :
  only_called (storage a) st -> idle a (set_storage st a).
Proof. intros H. unfold idle. cbn. split_and!; auto. Qed.

(** Goals [idle a a'] where [a'] is [a] after drawing, with the state of
    [Storage] replaced by one that [only_called] relates to it. *)
Ltac idle_steps :=
  repeat match goal with
         | |- idle ?a ?a => apply idle_refl
         | |- idle _ (updateNeoPixel _ ?x) =>
             apply (idle_trans _ x); [|apply idle_updateNeoPixel]
         | |- idle _ (draws _ ?x) => apply (idle_trans _ x); [|apply idle_draws]
         | |- idle _ (draw _ ?x) => apply (idle_trans _ x); [|apply idle_draw]
         | |- idle _ (hide_storage_labels ?x) =>
             apply (idle_trans _ x); [|apply idle_draws]
         | |- idle _ (show_storage_labels ?x) =>
             apply (idle_trans _ x); [|apply idle_draws]
         | |- idle _ (set_last_sd_present _ ?x) =>
             apply (idle_trans _ x); [|apply idle_set_last_sd_present]
         | |- idle _ (set_storage _ ?x) =>
             apply (idle_trans _ x); [|apply idle_set_storage; assumption]
         | |- idle ?a (mkApp _ _ _ _ _ _ _ _ _ _ _) =>
             unfold idle;
             cbn [storage usb_connected last_usb_state
                  usb_was_connected_before_mount usb_was_ever_mounted
                  sd_card_mounted lastRefreshTime lastUSBCheckTime pixels];
             split_and!; auto using only_called_refl
         end.

(** Reduction of the option monad and of the tests on flags, leaving the
    drawing alone. *)
Ltac run :=
  cbn [mbind option_bind mret option_ret negb andb orb eqb
       storage usb_connected last_usb_state usb_was_connected_before_mount
       usb_was_ever_mounted sd_card_mounted last_sd_present lastRefreshTime
       lastUSBCheckTime pixels ui
       set_storage set_usb_connected set_last_usb_state
       set_usb_was_connected_before_mount set_usb_was_ever_mounted
       set_sd_card_mounted set_last_sd_present set_lastRefreshTime
       set_lastUSBCheckTime set_pixels draw fst snd].

Ltac log_grew :=
  cbn; rewrite <- ?app_assoc; eexists; split; reflexivity.

(** The probe of a closed driver leaves it closed, and leaves [Storage]
    as it was. *)
Lemma getSDCardInfo_closed bd env st info st' :
  sd_open (SD_MMC st) = false ->
  getSDCardInfo bd env st = Some (info, st') ->
  only_called st st'
  /\ (detected info = true
      <-> env_setPins_ok env = true /\ env_card_answers env = true
          /\ sd_cardType (SD_MMC st) <> CARD_NONE).
Proof.
  intros Hclosed. unfold getSDCardInfo, do_SD_setPins, do_SD_begin, only_called.
  cbn. rewrite Hclosed.
  destruct (env_setPins_ok env); cbn.
  2:{ intros [= <- <-]. cbn. split_and!; auto; [log_grew|].
      split; [discriminate|]. intros (? & _); discriminate. }
  destruct (env_card_answers env); cbn.
  2:{ intros [= <- <-]. cbn. split_and!; auto; [log_grew|].
      split; [discriminate|]. intros (_ & ? & _); discriminate. }
  unfold cardType. cbn.
  destruct (sd_cardType (SD_MMC st)) eqn:Htype; cbn.
  1:{ intros [= <- <-]. cbn. split_and!; auto.
      - clear - Hclosed. card_eta.
      - log_grew.
      - split; [discriminate|]. intros (_ & _ & ?); congruence. }
  all: destruct (countFilesAndFolders _ _ _ _ _) as [info'|] eqn:Hwalk;
    cbn; [|discriminate].
  all: intros [= <- <-]; cbn.
  all: assert (Hdet : detected info' = true)
    by (rewrite (proj1 (countFilesAndFolders_detected _ _ _ _ _ _ Hwalk)); reflexivity).
  all: split_and!; auto;
    [ clear - Hclosed; card_eta
    | log_grew
    | split; [intros _; split_and!; auto; discriminate | intros _; exact Hdet] ].
Qed.

(** The probe returns when the walk does. *)
Lemma getSDCardInfo_returns bd env st :
  env_walks env -> is_Some (getSDCardInfo bd env st).
Proof.
  intros [info Hinfo]. unfold getSDCardInfo.
  destruct (negb (env_setPins_ok env)); [eauto|].
  destruct (do_SD_begin _ _ _ _) as [ok st1].
  destruct (negb ok); [eauto|].
  destruct (is_CARD_NONE _); [eauto|].
  rewrite Hinfo. cbn. eauto.
Qed.

(** ** Drawing the button and the labels *)

Lemma pixels_draws cs a : pixels (draws cs a) = pixels a.
Proof. apply (idle_draws cs a). Qed.

Lemma sd_card_mounted_draws cs a : sd_card_mounted (draws cs a) = sd_card_mounted a.
Proof. apply (idle_draws cs a). Qed.

Lemma sd_card_mounted_updateNeoPixel c a :
  sd_card_mounted (updateNeoPixel c a) = sd_card_mounted a.
Proof. apply (idle_updateNeoPixel c a). Qed.

Lemma updateMountButtonState_idle n bd env a a' :
  (sd_card_mounted a = true -> usb_connected a = true) ->
  (sd_card_mounted a = false -> sd_open (SD_MMC (storage a)) = false) ->
  updateMountButtonState (S n) bd env a = Some a' -> idle a a'.
Proof.
  intros Hm Hc. cbn [updateMountButtonState].
  destruct (sd_card_mounted a) eqn:Hmounted; run.
  - rewrite (Hm eq_refl), Hmounted. run. intros [= <-]. idle_steps.
  - destruct (getSDCardInfo bd env (storage a)) as [[info st]|] eqn:Hp;
      run; [|discriminate].
    apply getSDCardInfo_closed in Hp as [Hoc _]; [|auto].
    rewrite Hmounted.
    destruct (usb_connected a), (detected info); run;
      rewrite ?sd_card_mounted_updateNeoPixel, ?sd_card_mounted_draws; run;
      rewrite ?Hmounted;
      intros [= <-]; idle_steps.
Qed.

Lemma updateMountButtonState_returns n bd env a :
  env_walks env ->
  (sd_card_mounted a = true -> usb_connected a = true) ->
  is_Some (updateMountButtonState (S n) bd env a).
Proof.
  intros Hwalk Hm. cbn [updateMountButtonState].
  destruct (sd_card_mounted a) eqn:Hmounted; run.
  - rewrite (Hm eq_refl), Hmounted. run. eauto.
  - destruct (getSDCardInfo_returns bd env (storage a) Hwalk) as [[info st] Hp].
    rewrite Hp. run. rewrite Hmounted.
    destruct (usb_connected a), (detected info); run;
      rewrite ?sd_card_mounted_updateNeoPixel, ?sd_card_mounted_draws; run;
      rewrite ?Hmounted; eauto.
Qed.

Section Refresh.
Context (update : App -> option App) (bd : Board) (env : AppEnv).
Hypothesis update_idle :
  forall b b',
    sd_card_mounted b = false -> sd_open (SD_MMC (storage b)) = false ->
    update b = Some b' -> idle b b'.

Lemma refreshSDCardInfo_with_idle a a' :
  (sd_card_mounted a = false -> sd_open (SD_MMC (storage a)) = false) ->
  refreshSDCardInfo_with update bd env a = Some a' -> idle a a'.
Proof.
  intros Hc. unfold refreshSDCardInfo_with.
  destruct (sd_card_mounted a) eqn:Hmounted.
  { intros [= <-]. idle_steps. }
  destruct (getSDCardInfo bd env (storage a)) as [[info st]|] eqn:Hp;
    run; [|discriminate].
  apply getSDCardInfo_closed in Hp as [Hoc _]; [|auto].
  assert (Hst : SD_MMC st = SD_MMC (storage a)) by apply Hoc.
  destruct (negb (eqb (detected info) (last_sd_present a))).
  - rewrite Hmounted.
    match goal with
    | |- context [update ?b] =>
        destruct (update b) as [b'|] eqn:Hu; run;
        [|destruct (detected info); discriminate]
    end.
    apply update_idle in Hu;
      [|destruct (detected info); exact Hmounted
       |destruct (detected info); run; rewrite Hst; auto].
    assert (Hidle : idle a b').
    { eapply idle_trans; [|exact Hu]. destruct (detected info); idle_steps. }
    clear Hu.
    destruct (detected info); run; intros [= <-];
      (eapply idle_trans; [exact Hidle|]); idle_steps.
  - run. destruct (detected info); run; intros [= <-]; idle_steps.
Qed.
End Refresh.

(** ** The nesting of [updateMountButtonState] and [refreshSDCardInfo] *)

Lemma updateMountButtonState_unmounted n m bd env a :
  sd_card_mounted a = false ->
  updateMountButtonState (S n) bd env a = updateMountButtonState (S m) bd env a.
Proof.
  intros Hmounted. cbn [updateMountButtonState]. rewrite Hmounted. run.
  destruct (getSDCardInfo bd env (storage a)) as [[info st]|]; run;
    [|reflexivity].
  rewrite Hmounted.
  destruct (usb_connected a), (detected info); run;
    rewrite ?sd_card_mounted_updateNeoPixel, ?sd_card_mounted_draws; run;
    rewrite ?Hmounted; reflexivity.
Qed.

Lemma updateMountButtonState_unmounted_returns n bd env a :
  env_walks env -> sd_card_mounted a = false ->
  is_Some (updateMountButtonState (S n) bd env a).
Proof.
  intros Hwalk Hmounted. apply updateMountButtonState_returns; [exact Hwalk|].
  rewrite Hmounted. discriminate.
Qed.

Lemma refreshSDCardInfo_with_ext update1 update2 bd env a :
  (forall b, sd_card_mounted b = false -> update1 b = update2 b) ->
  refreshSDCardInfo_with update1 bd env a
  = refreshSDCardInfo_with update2 bd env a.
Proof.
  intros Hext. unfold refreshSDCardInfo_with.
  destruct (sd_card_mounted a) eqn:Hmounted; [reflexivity|].
  destruct (getSDCardInfo bd env (storage a)) as [[info st]|]; run;
    [|reflexivity].
  destruct (negb (eqb (detected info) (last_sd_present a))); [|reflexivity].
  rewrite Hmounted.
  destruct (detected info); run; rewrite Hext by exact Hmounted; reflexivity.
Qed.

Lemma refreshSDCardInfo_with_returns update bd env a :
  env_walks env ->
  (forall b, sd_card_mounted b = false -> is_Some (update b)) ->
  is_Some (refreshSDCardInfo_with update bd env a).
Proof.
  intros Hwalk Hupd. unfold refreshSDCardInfo_with.
  destruct (sd_card_mounted a) eqn:Hmounted; [eauto|].
  destruct (getSDCardInfo_returns bd env (storage a) Hwalk) as [[info st] Hp].
  rewrite Hp. run.
  destruct (negb (eqb (detected info) (last_sd_present a))).
  - rewrite Hmounted.
    destruct (detected info); run;
      match goal with
      | |- context [update ?b] =>
          destruct (Hupd b Hmounted) as [b' Hb]; rewrite Hb
      end; run; eauto.
  - run. destruct (detected info); run; eauto.
Qed.

(** Two levels are all the nesting there is. *)
Lemma updateMountButtonState_fuel n bd env a :
  updateMountButtonState (S (S n)) bd env a
  = updateMountButtonState 2 bd env a.
Proof.
  cbn [updateMountButtonState].
  destruct (sd_card_mounted a) eqn:Hmounted; run.
  2:{ destruct (getSDCardInfo bd env (storage a)) as [[info st]|]; run;
        [|reflexivity].
      rewrite Hmounted.
      destruct (usb_connected a), (detected info); run;
        rewrite ?sd_card_mounted_updateNeoPixel, ?sd_card_mounted_draws; run;
        rewrite ?Hmounted; reflexivity. }
  rewrite Hmounted.
  destruct (usb_connected a); run; [reflexivity|].
  rewrite sd_card_mounted_updateNeoPixel, sd_card_mounted_draws, Hmounted.
  apply refreshSDCardInfo_with_ext. intros b Hb.
  apply (updateMountButtonState_unmounted n 0 bd env b Hb).
Qed.

Lemma updateMountButtonState_total n bd env a :
  env_walks env -> is_Some (updateMountButtonState (S (S n)) bd env a).
Proof.
  intros Hwalk. cbn [updateMountButtonState].
  destruct (sd_card_mounted a) eqn:Hmounted; run.
  2:{ apply (updateMountButtonState_unmounted_returns (S n) bd env a Hwalk)
        in Hmounted as Hsome.
      cbn [updateMountButtonState] in Hsome. rewrite Hmounted in Hsome.
      exact Hsome. }
  rewrite Hmounted.
  destruct (usb_connected a); run; [eauto|].
  rewrite sd_card_mounted_updateNeoPixel, sd_card_mounted_draws, Hmounted.
  apply refreshSDCardInfo_with_returns; [exact Hwalk|].
  intros b Hb. apply updateMountButtonState_unmounted_returns; assumption.
Qed.

Lemma refreshSDCardInfo_returns bd env a :
  env_walks env -> is_Some (refreshSDCardInfo bd env a).
Proof.
  intros Hwalk. apply refreshSDCardInfo_with_returns; [exact Hwalk|].
  intros b _. apply updateMountButtonState_total, Hwalk.
Qed.

Lemma refreshSDCardInfo_idle bd env a a' :
  (sd_card_mounted a = false -> sd_open (SD_MMC (storage a)) = false) ->
  refreshSDCardInfo bd env a = Some a' -> idle a a'.
Proof.
  apply refreshSDCardInfo_with_idle. intros b b' Hb Hc.
  apply updateMountButtonState_idle; [rewrite Hb; discriminate|auto].
Qed.

(** ** The flags of the sketch and the state of [Storage] *)

Lemma app_inv_closed a :
  app_inv a -> sd_card_mounted a = false -> sd_open (SD_MMC (storage a)) = false.
Proof.
  intros (Hlife & _ & Hflag & _) Hmounted. rewrite Hlife.
  destruct (s_mounted (storage a)); [|reflexivity].
  rewrite Hflag in Hmounted by reflexivity. discriminate.
Qed.

Lemma app_inv_connected a :
  app_inv a -> sd_card_mounted a = true -> usb_connected a = true.
Proof. intros (_ & _ & _ & Hever & Hconn) Hmounted. apply Hconn, Hever, Hmounted. Qed.

Lemma only_called_inv st st' :
  only_called st st' ->
  (lifecycle_inv st -> lifecycle_inv st')
  /\ (mounted_inv st -> mounted_inv st').
Proof.
  intros (Hm & _ & Hsd & Hmsc & Husb & _).
  unfold lifecycle_inv, mounted_inv, presented.
  rewrite Hm, Hsd, Hmsc, Husb. auto.
Qed.

Lemma idle_app_inv a a' : idle a a' -> app_inv a -> app_inv a'.
Proof.
  intros (Hoc & Hconn & _ & Hbefore & Hever & Hmounted & _)
         (Hlife & Hminv & Hflag & Hmode & Hsticky).
  destruct (only_called_inv _ _ Hoc) as [Hl Hmi].
  unfold app_inv. rewrite Hconn, Hbefore, Hever, Hmounted.
  replace (s_mounted (storage a')) with (s_mounted (storage a)) by (symmetry; apply Hoc).
  auto.
Qed.

Lemma unmount_not_mounted st : s_mounted (unmount st) = false.
Proof. unfold unmount. destruct (s_mounted st) eqn:Hm; cbn; auto. Qed.

Lemma host_step_step st st' : host_step st st' -> step st st'.
Proof. intros []; econstructor; eauto. Qed.

Lemma host_step_mounted st st' :
  host_step st st' -> s_mounted st' = true -> s_mounted st = true.
Proof.
  intros [pc start eject st0|base id st0|]; cbn; [| |auto].
  - unfold onStartStop. destruct (negb start && eject); cbn; [|auto].
    rewrite unmount_not_mounted. discriminate.
  - unfold usbEventCallback. destruct base, id; cbn; auto.
Qed.

Lemma host_step_inv a st' :
  app_inv a -> host_step (storage a) st' -> app_inv (set_storage st' a).
Proof.
  intros (Hlife & Hminv & Hflag & Hmode & Hsticky) Hstep.
  unfold app_inv. run. split_and!; auto.
  - eapply step_inv; [apply host_step_step|]; eassumption.
  - eapply step_mounted_inv; [apply host_step_step|]; eassumption.
  - intros Hm. apply Hflag. eapply host_step_mounted; eassumption.
Qed.

(** Name the state [x] that [idle] relates to [a], and forget how it was
    drawn. *)
Ltac forget_drawing a x b H :=
  assert (H : idle a x) by idle_steps;
  generalize dependent x; intros b H.

Lemma mount_btn_event_handler_inv bd env a a' :
  app_inv a -> mount_btn_event_handler bd env a = Some a' -> app_inv a'.
Proof.
  intros Hinv. unfold mount_btn_event_handler.
  destruct (usb_connected a) eqn:Hconn, (sd_card_mounted a) eqn:Hmounted;
    cbn [andb negb].
  - (* unmount *)
    match goal with
    | |- context [draw ?c a] => forget_drawing a (draw c a) b Hidle
    end.
    pose proof (idle_app_inv _ _ Hidle Hinv) as Hb.
    match goal with
    | |- context [refreshSDCardInfo bd env ?b] =>
        assert (Hb1 : app_inv b); [|
          destruct (refreshSDCardInfo bd env b) as [b1|] eqn:Hr; run;
          [|discriminate]]
    end.
    { destruct Hb as (Hlife & Hminv & Hflag & Hmode & Hsticky).
      unfold app_inv. run. split_and!.
      - apply unmount_inv, Hlife.
      - apply unmount_mounted_inv, Hminv.
      - rewrite unmount_not_mounted. discriminate.
      - discriminate.
      - exact Hsticky. }
    apply refreshSDCardInfo_idle in Hr; [|apply app_inv_closed, Hb1].
    apply (idle_app_inv _ _ Hr) in Hb1. intros Hu.
    apply updateMountButtonState_idle in Hu;
      [|apply app_inv_connected, Hb1|apply app_inv_closed, Hb1].
    apply (idle_app_inv _ _ Hu), Hb1.
  - (* mount *)
    match goal with
    | |- context [updateNeoPixel ?c ?x] =>
        forget_drawing a (updateNeoPixel c x) b Hidle
    end.
    intros [= <-]. pose proof (idle_app_inv _ _ Hidle Hinv) as Hb.
    destruct Hb as (Hlife & Hminv & Hflag & Hmode & Hsticky).
    assert (Hcb : usb_connected b = true)
      by (destruct Hidle as (_ & -> & _); exact Hconn).
    unfold app_inv. run. split_and!; auto.
    + apply mount_inv, Hlife.
    + apply mount_mounted_inv, Hminv.
  - (* not connected, mount mode *)
    match goal with
    | |- context [draw ?c a] => forget_drawing a (draw c a) b Hidle
    end.
    intros Hr. apply refreshSDCardInfo_idle in Hr.
    + eapply idle_app_inv; [exact Hr|]. eapply idle_app_inv; eassumption.
    + destruct Hidle as (_ & _ & _ & _ & _ & -> & _). rewrite Hmounted.
      discriminate.
  - match goal with
    | |- context [draw ?c a] => forget_drawing a (draw c a) b Hidle
    end.
    pose proof (idle_app_inv _ _ Hidle Hinv) as Hb.
    intros Hr. apply refreshSDCardInfo_idle in Hr.
    + eapply idle_app_inv; eassumption.
    + apply app_inv_closed, Hb.
Qed.

(** ** A turn of [loop()] *)

Lemma idle_watched a a' : idle a a' -> watched a a'.
Proof.
  intros (? & _ & _ & ? & ? & ? & _ & _ & ?). unfold watched. auto.
Qed.

Lemma watched_refl a : watched a a.
Proof. apply idle_watched, idle_refl. Qed.

Lemma watched_trans a1 a2 a3 : watched a1 a2 -> watched a2 a3 -> watched a1 a3.
Proof.
  unfold watched. intros (? & ? & ? & ? & ?) (? & ? & ? & ? & ?).
  split_and!; try congruence. eapply only_called_trans; eassumption.
Qed.

Lemma loop_check_usb_inv bd env now a a' :
  app_inv a -> loop_check_usb bd env now a = Some a' ->
  app_inv a' /\ watched a a'.
Proof.
  intros Hinv. unfold loop_check_usb.
  destruct (_ <=? _); [|intros [= <-]; auto using watched_refl].
  destruct (sd_card_mounted a) eqn:Hmounted; cbn [negb]; run.
  { intros [= <-]. split; [exact Hinv|]. unfold watched. run.
    auto using only_called_refl. }
  assert (Hb : app_inv (set_usb_connected
                          (isUSBConnected (env_jtag_connected env) a) a)).
  { destruct Hinv as (Hlife & Hminv & Hflag & Hmode & Hsticky).
    unfold app_inv, isUSBConnected. run. rewrite Hmounted.
    split_and!; [assumption|assumption| | |].
    - intros Hm. apply Hflag in Hm. congruence.
    - discriminate.
    - intros ->. reflexivity. }
  assert (Hw : watched a (set_usb_connected
                            (isUSBConnected (env_jtag_connected env) a) a)).
  { unfold watched. run. auto using only_called_refl. }
  revert Hb Hw. generalize (isUSBConnected (env_jtag_connected env) a).
  intros conn Hb Hw.
  destruct (negb (eqb conn (last_usb_state a))); run.
  2:{ intros [= <-]. split; [exact Hb|exact Hw]. }
  match goal with
  | |- context [updateMountButtonState _ _ _ ?x] =>
      assert (Hidle : idle (set_usb_connected conn a) x)
        by (destruct conn; apply idle_draw);
      generalize dependent x; intros b Hidle
  end.
  apply (idle_app_inv _ _ Hidle) in Hb.
  destruct (updateMountButtonState NESTING bd env b) as [b1|] eqn:Hu; run;
    [|discriminate].
  apply updateMountButtonState_idle in Hu;
    [|apply app_inv_connected, Hb|apply app_inv_closed, Hb].
  apply (idle_app_inv _ _ Hu) in Hb as Hb1.
  intros [= <-]. split; [exact Hb1|].
  eapply watched_trans; [exact Hw|].
  eapply watched_trans; [apply idle_watched, Hidle|].
  eapply watched_trans; [apply idle_watched, Hu|].
  unfold watched. run. auto using only_called_refl.
Qed.

Lemma loop_refresh_inv bd env now a a' :
  app_inv a -> loop_refresh bd env now a = Some a' ->
  app_inv a' /\ watched a a'.
Proof.
  intros Hinv. unfold loop_refresh.
  destruct (_ <=? _); [|intros [= <-]; auto using watched_refl].
  destruct (refreshSDCardInfo bd env a) as [b|] eqn:Hr; run; [|discriminate].
  apply refreshSDCardInfo_idle in Hr; [|apply app_inv_closed, Hinv].
  intros [= <-]. split.
  - apply (idle_app_inv _ _ Hr Hinv).
  - eapply watched_trans; [apply idle_watched, Hr|].
    unfold watched. run. auto using only_called_refl.
Qed.

Lemma loop_inv bd env now a a' :
  app_inv a -> loop bd env now a = Some a' -> app_inv a' /\ watched a a'.
Proof.
  intros Hinv. unfold loop.
  match goal with
  | |- context [draw ?c a] => forget_drawing a (draw c a) b Hidle
  end.
  pose proof (idle_app_inv _ _ Hidle Hinv) as Hb.
  destruct (loop_check_usb bd env now b) as [b1|] eqn:H1; run; [|discriminate].
  apply loop_check_usb_inv in H1 as [Hb1 Hw1]; [|exact Hb].
  destruct (loop_refresh bd env now b1) as [b2|] eqn:H2; run; [|discriminate].
  apply loop_refresh_inv in H2 as [Hb2 Hw2]; [|exact Hb1].
  intros [= <-]. split.
  - apply (idle_app_inv b2); [apply idle_draw|exact Hb2].
  - eapply watched_trans; [apply idle_watched, Hidle|].
    eapply watched_trans; [exact Hw1|].
    eapply watched_trans; [exact Hw2|]. apply idle_watched, idle_draw.
Qed.

(** ** From power-on *)

Lemma createSDCardScreen_inv bd env a a' :
  app_inv a -> sd_card_mounted a = false ->
  createSDCardScreen bd env a = Some a' ->
  app_inv a' /\ watched a a'.
Proof.
  intros Hinv Hmounted. unfold createSDCardScreen.
  match goal with
  | |- context [isUSBConnected _ ?x] => forget_drawing a x b Hidle
  end.
  pose proof (idle_app_inv _ _ Hidle Hinv) as Hb.
  assert (Hmb : sd_card_mounted b = false)
    by (destruct Hidle as (_ & _ & _ & _ & _ & -> & _); exact Hmounted).
  match goal with
  | |- context [updateMountButtonState _ _ _ ?x] =>
      assert (Hx : app_inv x);
      [|assert (Hw : watched b x);
        [|generalize dependent x; intros b0 Hb0 Hw0]]
  end.
  { destruct Hb as (Hlife & Hminv & Hflag & Hmode & Hsticky).
    unfold app_inv, isUSBConnected. run. rewrite Hmb.
    split_and!; [assumption|assumption| | |].
    - intros Hm. apply Hflag in Hm. congruence.
    - discriminate.
    - intros ->. reflexivity. }
  { unfold watched. run. auto using only_called_refl. }
  destruct (updateMountButtonState NESTING bd env b0) as [b1|] eqn:Hu; run;
    [|discriminate].
  apply updateMountButtonState_idle in Hu;
    [|apply app_inv_connected, Hb0|apply app_inv_closed, Hb0].
  apply (idle_app_inv _ _ Hu) in Hb0 as Hb1.
  intros Hr. apply refreshSDCardInfo_idle in Hr; [|apply app_inv_closed, Hb1].
  split; [apply (idle_app_inv _ _ Hr Hb1)|].
  eapply watched_trans; [apply idle_watched, Hidle|].
  eapply watched_trans; [exact Hw0|].
  eapply watched_trans; apply idle_watched; eassumption.
Qed.

Lemma power_on_inv card : app_inv (power_on card).
Proof.
  unfold app_inv, power_on, boot, lifecycle_inv, mounted_inv. cbn.
  split_and!; auto; discriminate.
Qed.

Lemma setup_inv bd env card a :
  setup bd env true (power_on card) = Some a -> app_inv a.
Proof.
  unfold setup. cbn [negb].
  match goal with
  | |- context [createSDCardScreen _ _ ?x] =>
      assert (Hx : app_inv x /\ sd_card_mounted x = false);
      [|generalize dependent x; intros b [Hb Hmb]]
  end.
  { split; [|reflexivity].
    pose proof (power_on_inv card) as Hinv. revert Hinv.
    generalize (power_on card). intros a0 Hinv.
    eapply idle_app_inv; [apply idle_draws|].
    match goal with
    | |- app_inv (set_pixels _ ?x) =>
        assert (Hx : app_inv x) by (eapply idle_app_inv; [apply idle_draws|exact Hinv]);
        generalize dependent x; intros b Hb
    end.
    exact Hb. }
  destruct (createSDCardScreen bd env b) as [b1|] eqn:Hc; run; [|discriminate].
  apply createSDCardScreen_inv in Hc as [Hb1 _]; [|exact Hb|exact Hmb].
  intros [= <-]. eapply idle_app_inv; [apply idle_draw|exact Hb1].
Qed.

Lemma app_step_inv bd a a' : app_step bd a a' -> app_inv a -> app_inv a'.
Proof.
  intros Hstep Hinv.
  destruct Hstep as [env now a0 a1 Hloop|env a0 a1 Hclick|a0 st' Hhost].
  - eapply loop_inv; eassumption.
  - eapply mount_btn_event_handler_inv; eassumption.
  - apply host_step_inv; assumption.
Qed.

Lemma app_reachable_inv bd a : app_reachable bd a -> app_inv a.
Proof.
  induction 1 as [env card a Hsetup|a a' _ IH Hstep].
  - eapply setup_inv; eassumption.
  - eapply app_step_inv; eassumption.
Qed.

(** ** Every entry returns *)

Lemma loop_check_usb_returns bd env now a :
  env_walks env -> is_Some (loop_check_usb bd env now a).
Proof.
  intros Hwalk. unfold loop_check_usb.
  destruct (_ <=? _); [|eauto].
  destruct (negb (sd_card_mounted a)); run; [|eauto].
  destruct (negb (eqb _ _)); run; [|eauto].
  match goal with
  | |- context [updateMountButtonState NESTING bd env ?x] =>
      destruct (updateMountButtonState_total 1 bd env x Hwalk) as [b Hb];
      fold NESTING in Hb; rewrite Hb
  end.
  run. eauto.
Qed.

Lemma loop_refresh_returns bd env now a :
  env_walks env -> is_Some (loop_refresh bd env now a).
Proof.
  intros Hwalk. unfold loop_refresh. destruct (_ <=? _); [|eauto].
  destruct (refreshSDCardInfo_returns bd env a Hwalk) as [b Hb].
  rewrite Hb. run. eauto.
Qed.

Lemma loop_returns bd env now a : env_walks env -> is_Some (loop bd env now a).
Proof.
  intros Hwalk. unfold loop.
  match goal with
  | |- context [loop_check_usb bd env now ?x] =>
      destruct (loop_check_usb_returns bd env now x Hwalk) as [b Hb];
      rewrite Hb
  end.
  run. destruct (loop_refresh_returns bd env now b Hwalk) as [b1 Hb1].
  rewrite Hb1. run. eauto.
Qed.

Lemma mount_btn_event_handler_returns bd env a :
  env_walks env -> is_Some (mount_btn_event_handler bd env a).
Proof.
  intros Hwalk. unfold mount_btn_event_handler.
  destruct (usb_connected a && negb (sd_card_mounted a)); [eauto|].
  destruct (usb_connected a && sd_card_mounted a).
  - match goal with
    | |- context [refreshSDCardInfo bd env ?x] =>
        destruct (refreshSDCardInfo_returns bd env x Hwalk) as [b Hb];
        rewrite Hb
    end.
    run. apply (updateMountButtonState_total 1), Hwalk.
  - apply refreshSDCardInfo_returns, Hwalk.
Qed.

Lemma createSDCardScreen_returns bd env a :
  env_walks env -> is_Some (createSDCardScreen bd env a).
Proof.
  intros Hwalk. unfold createSDCardScreen.
  match goal with
  | |- context [updateMountButtonState NESTING bd env ?x] =>
      destruct (updateMountButtonState_total 1 bd env x Hwalk) as [b Hb];
      fold NESTING in Hb; rewrite Hb
  end.
  run. apply refreshSDCardInfo_returns, Hwalk.
Qed.

Lemma setup_returns bd env a :
  env_walks env -> is_Some (setup bd env true a).
Proof.
  intros Hwalk. unfold setup. cbn [negb].
  match goal with
  | |- context [createSDCardScreen bd env ?x] =>
      destruct (createSDCardScreen_returns bd env x Hwalk) as [b Hb];
      rewrite Hb
  end.
  run. eauto.
Qed.

(** A walk over a tree of directories comes to an end. *)
Lemma tree_walks env children :
  answers_as (env_fs env) "/" (TDir children) ->
  (tree_depth (TDir children) <= env_depth env)%nat ->
  tree_folders (TDir children) <= INT_MAX ->
  tree_files (TDir children) <= INT_MAX ->
  env_walks env.
Proof.
  intros Hans Hdepth Hfo Hfi. unfold env_walks.
  rewrite (countFilesAndFolders_walk _ _ _ _ _ _ Hans Hdepth);
    [eauto|cbn [folderCount rootFileCount totalFileCount]..].
  - lia.
  - assert (root_files children <= tree_files (TDir children)); [|lia].
    clear. induction children as [|c children IH];
      [unfold root_files; rewrite filter_nil; cbn; lia|].
    rewrite root_files_cons, tree_files_cons.
    pose proof (tree_files_nonneg c.2).
    destruct c as [name [|]]; cbn [snd is_TDir] in *;
      change (tree_files TFile) with 1 in *; lia.
  - lia.
Qed.

(** ** Mount mode *)

Lemma redrawn_refl a : redrawn a a.
Proof. unfold redrawn. auto 10. Qed.

Lemma redrawn_trans a1 a2 a3 : redrawn a1 a2 -> redrawn a2 a3 -> redrawn a1 a3.
Proof.
  unfold redrawn.
  intros (? & ? & ? & ? & ? & ? & ? & ?) (? & ? & ? & ? & ? & ? & ? & ?).
  split_and!; congruence.
Qed.

Lemma redrawn_draw c a : redrawn a (draw c a).
Proof. unfold redrawn. cbn. auto 10. Qed.

Lemma redrawn_draws cs a : redrawn a (draws cs a).
Proof.
  revert a. induction cs as [|c cs IH]; intros a; [apply redrawn_refl|].
  cbn. eapply redrawn_trans; [apply (redrawn_draw c)|apply IH].
Qed.

Lemma redrawn_updateNeoPixel color a : redrawn a (updateNeoPixel color a).
Proof.
  unfold updateNeoPixel. destruct (pixels a); [|apply redrawn_refl].
  eapply redrawn_trans; apply redrawn_draw.
Qed.

Lemma redrawn_set_lastUSBCheckTime t a : redrawn a (set_lastUSBCheckTime t a).
Proof. unfold redrawn. cbn. auto 10. Qed.

Lemma redrawn_set_lastRefreshTime t a : redrawn a (set_lastRefreshTime t a).
Proof. unfold redrawn. cbn. auto 10. Qed.

Lemma redrawn_idle a a' : redrawn a a' -> lastRefreshTime a' = lastRefreshTime a ->
  lastUSBCheckTime a' = lastUSBCheckTime a -> idle a a'.
Proof.
  intros (Hst & ? & ? & ? & ? & ? & ? & ?) ? ?. unfold idle.
  rewrite Hst. split_and!; auto using only_called_refl.
Qed.

Ltac redrawn_steps :=
  repeat match goal with
         | |- redrawn ?a ?a => apply redrawn_refl
         | |- redrawn _ (updateNeoPixel _ ?x) =>
             apply (redrawn_trans _ x); [|apply redrawn_updateNeoPixel]
         | |- redrawn _ (draws _ ?x) =>
             apply (redrawn_trans _ x); [|apply redrawn_draws]
         | |- redrawn _ (draw _ ?x) =>
             apply (redrawn_trans _ x); [|apply redrawn_draw]
         | |- redrawn _ (hide_storage_labels ?x) =>
             apply (redrawn_trans _ x); [|apply redrawn_draws]
         | |- redrawn _ (show_storage_labels ?x) =>
             apply (redrawn_trans _ x); [|apply redrawn_draws]
         | |- redrawn _ (set_lastUSBCheckTime _ ?x) =>
             apply (redrawn_trans _ x); [|apply redrawn_set_lastUSBCheckTime]
         | |- redrawn _ (set_lastRefreshTime _ ?x) =>
             apply (redrawn_trans _ x); [|apply redrawn_set_lastRefreshTime]
         end.

Ltac forget_redrawing a x b H :=
  assert (H : redrawn a x) by redrawn_steps;
  generalize dependent x; intros b H.

Lemma redrawn_mounted a b :
  redrawn a b -> sd_card_mounted b = sd_card_mounted a.
Proof. intros H. apply H. Qed.

(** In mount mode the two timed parts of [loop()] only redraw. *)
Lemma loop_check_usb_mount_mode bd env now a :
  sd_card_mounted a = true ->
  exists a', loop_check_usb bd env now a = Some a' /\ redrawn a a'.
Proof.
  intros Hmounted. unfold loop_check_usb.
  destruct (_ <=? _); [|eauto using redrawn_refl].
  rewrite Hmounted. run. eauto using redrawn_set_lastUSBCheckTime.
Qed.

Lemma refreshSDCardInfo_mount_mode bd env a :
  sd_card_mounted a = true ->
  exists a', refreshSDCardInfo bd env a = Some a' /\ redrawn a a'.
Proof.
  intros Hmounted. unfold refreshSDCardInfo, refreshSDCardInfo_with.
  rewrite Hmounted. eexists. split; [reflexivity|]. redrawn_steps.
Qed.

Lemma loop_refresh_mount_mode bd env now a :
  sd_card_mounted a = true ->
  exists a', loop_refresh bd env now a = Some a' /\ redrawn a a'.
Proof.
  intros Hmounted. unfold loop_refresh.
  destruct (_ <=? _); [|eauto using redrawn_refl].
  destruct (refreshSDCardInfo_mount_mode bd env a Hmounted) as (b & -> & Hb).
  run. eexists. split; [reflexivity|].
  eapply redrawn_trans; [exact Hb|apply redrawn_set_lastRefreshTime].
Qed.

Lemma loop_mount_mode bd env now a :
  sd_card_mounted a = true ->
  exists a', loop bd env now a = Some a' /\ redrawn a a'.
Proof.
  intros Hmounted. unfold loop.
  match goal with
  | |- context [draw ?c a] => forget_redrawing a (draw c a) b Hb
  end.
  assert (Hmb : sd_card_mounted b = true)
    by (rewrite (redrawn_mounted _ _ Hb); exact Hmounted).
  destruct (loop_check_usb_mount_mode bd env now b Hmb) as (b1 & -> & Hb1).
  assert (Hmb1 : sd_card_mounted b1 = true)
    by (rewrite (redrawn_mounted _ _ Hb1); exact Hmb).
  run.
  destruct (loop_refresh_mount_mode bd env now b1 Hmb1) as (b2 & -> & Hb2).
  run. eexists. split; [reflexivity|].
  eapply redrawn_trans; [exact Hb|].
  eapply redrawn_trans; [exact Hb1|].
  eapply redrawn_trans; [exact Hb2|apply redrawn_draw].
Qed.

(** ** A click on the button *)

Lemma mount_flag env st : s_mounted (mount env st).2 = (mount env st).1.
Proof.
  destruct (s_mounted st) eqn:Hm.
  { unfold mount. rewrite Hm. exact Hm. }
  revert Hm. mount_cases; intros; cbn; congruence.
Qed.

Lemma unmount_card st :
  lifecycle_inv st -> SD_MMC (unmount st) = set_sd_open false (SD_MMC st).
Proof.
  unfold lifecycle_inv, unmount. intros Hlife.
  destruct (s_mounted st); cbn; [reflexivity|].
  rewrite <- Hlife at 1. symmetry. apply set_sd_open_same.
Qed.

Lemma click_mount bd env a :
  usb_connected a = true -> sd_card_mounted a = false ->
  exists b,
    redrawn a b
    /\ mount_btn_event_handler bd env a
       = Some (set_usb_was_ever_mounted true
                 (set_storage (mount (mount_env env) (storage b)).2
                    (set_usb_was_connected_before_mount (usb_connected b)
                       (set_sd_card_mounted true b)))).
Proof.
  intros Hconn Hmounted. unfold mount_btn_event_handler.
  rewrite Hconn, Hmounted. cbn [andb negb].
  match goal with
  | |- context [updateNeoPixel ?c ?x] =>
      forget_redrawing a (updateNeoPixel c x) b Hb
  end.
  exists b. split; [exact Hb|reflexivity].
Qed.

Lemma redrawn_app_inv a b : redrawn a b -> app_inv a -> app_inv b.
Proof.
  intros (Hst & Hconn & _ & Hbefore & Hever & Hmounted & _). unfold app_inv.
  rewrite Hst, Hconn, Hbefore, Hever, Hmounted. auto.
Qed.

Lemma click_unmount bd env a a' :
  app_inv a -> sd_card_mounted a = true ->
  mount_btn_event_handler bd env a = Some a' ->
  only_called (unmount (storage a)) (storage a')
  /\ sd_card_mounted a' = false
  /\ usb_was_connected_before_mount a' = false
  /\ usb_connected a' = true
  /\ usb_was_ever_mounted a' = usb_was_ever_mounted a.
Proof.
  intros Hinv Hmounted. unfold mount_btn_event_handler.
  pose proof (app_inv_connected a Hinv Hmounted) as Hconn.
  rewrite Hconn, Hmounted. cbn [andb negb].
  match goal with
  | |- context [draw ?c a] => forget_redrawing a (draw c a) b Hred
  end.
  pose proof (redrawn_app_inv _ _ Hred Hinv) as Hb.
  destruct Hred as (Hst & Hcb & _ & _ & Heb & _).
  match goal with
  | |- context [refreshSDCardInfo bd env ?x] =>
      assert (Hc : app_inv x);
      [|assert (Hfacts : storage x = unmount (storage a)
                         /\ sd_card_mounted x = false
                         /\ usb_was_connected_before_mount x = false
                         /\ usb_connected x = true
                         /\ usb_was_ever_mounted x = usb_was_ever_mounted a);
        [|generalize dependent x; intros c Hc Hfacts]]
  end.
  { destruct Hb as (Hlife & Hminv & Hflag & Hmode & Hsticky).
    unfold app_inv. run. split_and!.
    - apply unmount_inv, Hlife.
    - apply unmount_mounted_inv, Hminv.
    - rewrite unmount_not_mounted. discriminate.
    - discriminate.
    - exact Hsticky. }
  { run. rewrite Hst, Hcb, Heb. auto. }
  destruct (refreshSDCardInfo bd env c) as [c1|] eqn:Hr; run; [|discriminate].
  apply refreshSDCardInfo_idle in Hr; [|apply app_inv_closed, Hc].
  apply (idle_app_inv _ _ Hr) in Hc as Hc1. intros Hu.
  apply updateMountButtonState_idle in Hu;
    [|apply app_inv_connected, Hc1|apply app_inv_closed, Hc1].
  pose proof (idle_trans _ _ _ Hr Hu) as Hidle.
  destruct Hidle as (Hoc & Hc' & _ & Hb' & He' & Hm' & _).
  destruct Hfacts as (Hs0 & Hm0 & Hb0 & Hc0 & He0).
  rewrite Hs0 in Hoc. rewrite Hc', Hb', He', Hm'. auto.
Qed.

(** [usb_was_ever_mounted] is never cleared. *)
Lemma mount_btn_event_handler_ever bd env a a' :
  app_inv a -> mount_btn_event_handler bd env a = Some a' ->
  usb_was_ever_mounted a = true -> usb_was_ever_mounted a' = true.
Proof.
  intros Hinv Hclick Hever.
  destruct (sd_card_mounted a) eqn:Hmounted.
  - destruct (click_unmount bd env a a' Hinv Hmounted Hclick)
      as (_ & _ & _ & _ & ->). exact Hever.
  - pose proof (proj2 (proj2 (proj2 (proj2 Hinv))) Hever) as Hconn.
    destruct (click_mount bd env a Hconn Hmounted) as (b & _ & Hb).
    rewrite Hb in Hclick. injection Hclick as <-. reflexivity.
Qed.

Lemma app_step_ever bd a a' :
  app_inv a -> app_step bd a a' ->
  usb_was_ever_mounted a = true -> usb_was_ever_mounted a' = true.
Proof.
  intros Hinv Hstep Hever.
  destruct Hstep as [env now a0 a1 Hloop|env a0 a1 Hclick|a0 st' Hhost].
  - apply loop_inv in Hloop as [_ (_ & _ & -> & _)]; assumption.
  - eapply mount_btn_event_handler_ever; eassumption.
  - exact Hever.
Qed.

(** ** The LED *)

Lemma Color_dim r g b :
  0 <= r < 16 -> 0 <= g < 16 -> 0 <= b < 16 ->
  Color r g b = 65536 * r + 256 * g + b.
Proof.
  intros Hr Hg Hb.
  assert (Hall : forallb (fun r => forallb (fun g => forallb (fun b =>
            Color r g b =? 65536 * r + 256 * g + b)
            (seqZ 0 16)) (seqZ 0 16)) (seqZ 0 16) = true)
    by (vm_compute; reflexivity).
  rewrite forallb_forall in Hall.
  specialize (Hall r). rewrite forallb_forall in Hall.
  specialize (Hall ltac:(apply list_elem_of_In, elem_of_seqZ; lia) g).
  rewrite forallb_forall in Hall.
  specialize (Hall ltac:(apply list_elem_of_In, elem_of_seqZ; lia) b
                   ltac:(apply list_elem_of_In, elem_of_seqZ; lia)).
  apply Z.eqb_eq, Hall.
Qed.

Lemma channel_dim c : 0 <= Z.land c 0xFF / 16 < 16.
Proof.
  change 0xFF with (Z.ones 8). rewrite Z.land_ones by lia.
  pose proof (Z.mod_pos_bound c (2 ^ 8) ltac:(lia)) as Hc.
  split.
  - apply Z.div_pos; lia.
  - apply Z.div_lt_upper_bound; lia.
Qed.

(** ** More on the probe *)

Lemma getSDCardInfo_counters bd env st info st' :
  getSDCardInfo bd env st = Some (info, st') ->
  (detected info = false -> info = SDCardInfo_default)
  /\ (detected info = true ->
      totalBytes info = env_totalBytes env
      /\ usedBytes info = env_usedBytes env
      /\ 0 <= folderCount info
      /\ 0 <= rootFileCount info <= totalFileCount info).
Proof.
  unfold getSDCardInfo.
  destruct (negb (env_setPins_ok env));
    [intros [= <- <-]; split; [reflexivity|discriminate]|].
  destruct (do_SD_begin _ _ _ _) as [ok st1].
  destruct (negb ok);
    [intros [= <- <-]; split; [reflexivity|discriminate]|].
  destruct (is_CARD_NONE _);
    [intros [= <- <-]; split; [reflexivity|discriminate]|].
  destruct (countFilesAndFolders _ _ _ _ _) as [info'|] eqn:Hwalk;
    cbn [mbind option_bind]; [|discriminate].
  intros [= <- <-].
  apply countFilesAndFolders_detected in Hwalk.
  cbn in Hwalk. destruct Hwalk as (Hd & Ht & Hu & ? & ? & ? & ? & _).
  split; [rewrite Hd; discriminate|]. intros _. split_and!; auto; lia.
Qed.

(** Whatever the state of the driver, once the pins are taken the probe
    leaves it closed. *)
Lemma getSDCardInfo_closes bd env st info st' :
  getSDCardInfo bd env st = Some (info, st') ->
  s_mounted st' = s_mounted st /\ s_msc st' = s_msc st
  /\ (env_setPins_ok env = true -> sd_open (SD_MMC st') = false)
  /\ (env_setPins_ok env = false ->
      SD_MMC st' = SD_MMC st /\ detected info = false).
Proof.
  unfold getSDCardInfo, do_SD_setPins, do_SD_begin.
  destruct (env_setPins_ok env); cbn [negb].
  2:{ intros [= <- <-]. cbn. split_and!; auto; discriminate. }
  cbn [SD_MMC call].
  destruct (sd_open (SD_MMC st)) eqn:Hopen.
  - cbn [negb]. unfold cardType. cbn [SD_MMC call]. rewrite Hopen.
    destruct (is_CARD_NONE _).
    + intros [= <- <-]. cbn. split_and!; auto; discriminate.
    + destruct (countFilesAndFolders _ _ _ _ _); cbn [mbind option_bind];
        [|discriminate].
      intros [= <- <-]. cbn. split_and!; auto; discriminate.
  - destruct (env_card_answers env); cbn [negb].
    + destruct (is_CARD_NONE _).
      * intros [= <- <-]. cbn. split_and!; auto; discriminate.
      * destruct (countFilesAndFolders _ _ _ _ _); cbn [mbind option_bind];
          [|discriminate].
        intros [= <- <-]. cbn. split_and!; auto; discriminate.
    + intros [= <- <-]. cbn. split_and!; auto; discriminate.
Qed.

Lemma loop_keeps_mode bd env now a a' :
  app_reachable bd a -> loop bd env now a = Some a' ->
  sd_card_mounted a' = sd_card_mounted a.
Proof.
  intros Hreach Hloop.
  apply (loop_inv bd env now a a' (app_reachable_inv bd a Hreach) Hloop).
Qed.

(** ** The sample card *)

Lemma sample_answers : answers_as sample_fs "/" (TDir sample_tree).
Proof.
  unfold sample_tree.
  repeat first [ apply answers_file
               | apply answers_dir; [reflexivity|]
               | apply Forall_cons; split
               | apply Forall_nil_2 ].
Qed.

Lemma sample_env_walks : env_walks sample_env.
Proof.
  apply (tree_walks sample_env sample_tree);
    [exact sample_answers|vm_compute; lia|vm_compute; discriminate..].
Qed.

Lemma unplugged_env_walks : env_walks unplugged_env.
Proof.
  apply (tree_walks unplugged_env sample_tree);
    [exact sample_answers|vm_compute; lia|vm_compute; discriminate..].
Qed.

Lemma empty_slot_env_walks : env_walks empty_slot_env.
Proof. unfold env_walks. cbn. eauto. Qed.

Lemma updateMountButtonState_NESTING fuel bd env a :
  (2 <= fuel)%nat ->
  updateMountButtonState fuel bd env a = updateMountButtonState NESTING bd env a.
Proof.
  intros Hfuel. destruct fuel as [|[|n]]; [lia|lia|].
  rewrite updateMountButtonState_fuel. symmetry.
  apply (updateMountButtonState_fuel 1).
Qed.

Lemma refreshSDCardInfo_NESTING fuel bd env a :
  (1 <= fuel)%nat ->
  refreshSDCardInfo_with (updateMountButtonState fuel bd env) bd env a
  = refreshSDCardInfo bd env a.
Proof.
  intros Hfuel. destruct fuel as [|n]; [lia|].
  apply refreshSDCardInfo_with_ext. intros b Hb.
  apply updateMountButtonState_unmounted, Hb.
Qed.

(** A colour whose three bytes are below 16 has no channel left. *)
Lemma dim_channels_off color :
  0 <= color < 2 ^ 24 -> Z.land color 0xF0F0F0 = 0 ->
  65536 * (Z.land (Z.shiftr color 16) 0xFF / 16)
  + 256 * (Z.land (Z.shiftr color 8) 0xFF / 16)
  + Z.land color 0xFF / 16 = 0.
Proof.
  intros Hcolor Hlow.
  assert (Hbits : forall i, 0 <= i -> Z.testbit 0xF0F0F0 i = true ->
                            Z.testbit color i = false).
  { intros i Hi Hmask.
    pose proof (f_equal (fun z => Z.testbit z i) Hlow) as Hx. cbn beta in Hx.
    rewrite Z.land_spec, Hmask, andb_true_r, Z.bits_0 in Hx. exact Hx. }
  assert (Hch : forall k, 0 <= k ->
                Z.testbit 0xF0F0F0 (k + 4) = true ->
                Z.testbit 0xF0F0F0 (k + 5) = true ->
                Z.testbit 0xF0F0F0 (k + 6) = true ->
                Z.testbit 0xF0F0F0 (k + 7) = true ->
                Z.land (Z.shiftr color k) 0xFF / 16 = 0).
  { intros k Hk H4 H5 H6 H7.
    change 0xFF with (Z.ones 8). rewrite Z.land_ones by lia.
    change 16 with (2 ^ 4). rewrite <- Z.shiftr_div_pow2 by lia.
    apply Z.bits_inj'. intros i Hi.
    rewrite Z.shiftr_spec, Z.bits_0 by lia.
    destruct (Z.lt_ge_cases (i + 4) 8) as [Hlt|Hge].
    - rewrite Z.mod_pow2_bits_low by lia.
      rewrite Z.shiftr_spec by lia.
      assert (Hcases : i = 0 \/ i = 1 \/ i = 2 \/ i = 3) by lia.
      destruct Hcases as [-> | [-> | [-> | ->]]]; apply Hbits; try lia.
      + replace (0 + 4 + k) with (k + 4) by lia. exact H4.
      + replace (1 + 4 + k) with (k + 5) by lia. exact H5.
      + replace (2 + 4 + k) with (k + 6) by lia. exact H6.
      + replace (3 + 4 + k) with (k + 7) by lia. exact H7.
    - apply Z.mod_pow2_bits_high. lia. }
  rewrite (Hch 16), (Hch 8) by (lia || reflexivity).
  replace color with (Z.shiftr color 0) at 1 by apply Z.shiftr_0_r.
  rewrite (Hch 0) by (lia || reflexivity). reflexivity.
Qed.

(** * The claims *)

(** ** C1: what a read assembles *)

(** C1, for sector sizes that fit the sector buffer.  For every read
    request with [bufsize > 0], [0 <= offset < sectorSize] and
    [0 < sectorSize <= 512], on a card where the read of every touched
    sector succeeds, [onRead] reads the sectors [lba], [lba + 1], ... once
    each and in order, [ceil((offset + bufsize) / sectorSize)] of them; it
    copies [min(bufsize, sectorSize - offset)] bytes of the first one from
    [offset] on, and of every later one the smaller of a whole sector and
    what remains, from 0 on; the bytes it returns are [bufsize] many and
    are the card's bytes from position [lba * sectorSize + offset] on; the
    value returned is [(int32_t)bufsize], which is [bufsize] below [2^31].
    For 1500 bytes at sector 0, offset 100, sector size 512, the sectors
    read are 0, 1, 2 and 3. *)
Theorem onRead_assembles junk sd lba offset bufsize :
  medium_wf sd ->
  0 < sectorSize sd <= TMP_SIZE ->
  0 <= lba -> 0 <= offset < sectorSize sd -> 0 < bufsize < 2 ^ 32 ->
  Forall (fun k => is_Some (read_sector sd k))
         (seqZ lba (sectors_touched (sectorSize sd) offset bufsize)) ->
  let sec := sectorSize sd in
  let pos := lba * sec + offset in
  let touched := seqZ lba (sectors_touched sec offset bufsize) in
  exists bytes,
    onRead junk sd lba offset bufsize
    = Returned (to_int32 bufsize) bytes ((fun k => RdSector k true) <$> touched)
    /\ (bufsize < 2 ^ 31 -> to_int32 bufsize = bufsize)
    /\ bytes = concat (sector_chunk sd pos bufsize <$> touched)
    /\ chunk_off sec pos lba = offset
    /\ chunk_len sec pos bufsize lba = Z.min bufsize (sec - offset)
    /\ (forall k, lba < k < lba + sectors_touched sec offset bufsize ->
          chunk_off sec pos k = 0
          /\ chunk_len sec pos bufsize k = Z.min sec (pos + bufsize - k * sec))
    /\ Z.of_nat (length bytes) = bufsize
    /\ bytes = medium_bytes sd pos bufsize
    /\ (sec = 512 -> lba = 0 -> offset = 100 -> bufsize = 1500 ->
        touched = [0; 1; 2; 3]).
Proof.
  intros Hwf Hsec Hlba Hoff Hlen Hall sec pos touched.
  destruct (sectorSize_open sd) as [Hopen Hss]; [lia|].
  subst sec pos touched. rewrite Hss in *.
  rewrite Forall_seqZ in Hall.
  assert (Hrd : forall i, 0 <= i < sectors_touched (sd_sectorSize sd) offset bufsize ->
                          is_Some (read_sector sd (lba + i))).
  { intros i Hi. apply Hall. lia. }
  assert (Hrun : onRead junk sd lba offset bufsize
                 = onRead_loop (S (Z.to_nat bufsize)) junk sd (sd_sectorSize sd)
                     bufsize bufsize lba offset).
  { unfold onRead. rewrite Hss, wrap32_small by (destruct Hwf; lia).
    destruct (Z.eqb_spec (sd_sectorSize sd) 0); [lia|].
    destruct (Z.eqb_spec bufsize 0); [lia|]. reflexivity. }
  pose proof (onRead_loop_ok junk sd bufsize Hwf Hsec (S (Z.to_nat bufsize))
                bufsize lba offset Hlba Hoff) as Hok.
  destruct (onRead_loop_chunks junk sd bufsize Hwf Hsec (S (Z.to_nat bufsize))
              bufsize lba offset Hlba Hoff) as [ops Hch]; try lia; auto.
  rewrite Hok in Hch by (try lia; auto). injection Hch as Hbytes Hops.
  exists (medium_bytes sd (lba * sd_sectorSize sd + offset) bufsize).
  rewrite Hrun, Hok by (try lia; auto).
  split; [reflexivity|].
  split; [intros; apply to_int32_small; lia|].
  split; [exact Hbytes|].
  split; [unfold chunk_off; lia|].
  split; [unfold chunk_len; lia|].
  split; [intros k Hk; unfold chunk_off, chunk_len; nia|].
  split; [rewrite length_medium_bytes; lia|].
  split; [reflexivity|].
  intros -> -> -> ->. reflexivity.
Qed.

(** The scenario of the specification: 1500 bytes from sector 0, offset
    100, on a card of 1000 sectors of 512 bytes. *)
Lemma onRead_assembles_witness :
  exists bytes,
    onRead [] (sample_card 512 1000) 0 100 1500
    = Returned 1500 bytes
        [RdSector 0 true; RdSector 1 true; RdSector 2 true; RdSector 3 true]
    /\ Z.of_nat (length bytes) = 1500
    /\ bytes = medium_bytes (sample_card 512 1000) 100 1500.
Proof.
  destruct (onRead_assembles [] (sample_card 512 1000) 0 100 1500)
    as (bytes & Hrun & _ & _ & _ & _ & _ & Hlen & Hbytes & _).
  - apply sample_card_wf; lia.
  - change (0 < 512 <= 512). lia.
  - lia.
  - change (0 <= 100 < 512). lia.
  - lia.
  - apply Forall_seqZ. intros k Hk.
    change (sectors_touched (sectorSize (sample_card 512 1000)) 100 1500)
      with 4 in Hk.
    rewrite sample_card_read by lia. eauto.
  - exists bytes. split; [exact Hrun|]. split; [exact Hlen | exact Hbytes].
Defined.

(** C1 as stated, for every positive sector size, fails: on a card of
    1024-byte sectors whose reads all succeed, the first [readRAW] into
    [tmp[512]] leaves the buffer. *)
Lemma onRead_sector_larger_than_tmp :
  let sd := sample_card 1024 8 in
  medium_wf sd
  /\ 0 < sectorSize sd
  /\ 0 <= 0 < sectorSize sd
  /\ Forall (fun k => is_Some (read_sector sd k))
            (seqZ 0 (sectors_touched (sectorSize sd) 0 1))
  /\ onRead [] sd 0 0 1 = Fault.
Proof.
  intros sd. subst sd. split_and!; try (cbn; lia).
  - apply sample_card_wf; lia.
  - decide_by_computation.
  - vm_compute. reflexivity.
Qed.

(** ** C2: read-modify-write of a partial sector *)

(** C2, for sector sizes that fit the sector buffer.  For every write
    request with [bufsize > 0], [0 <= offset < sectorSize] and
    [0 < sectorSize <= 512]: [onWrite] returns, and every write it issues
    to a sector [k] that the request covers only in part comes right after
    one successful read of [k], the only other call on [k] in the request;
    the sector written has full size and is the sector as read with the
    request's bytes laid over their range, every byte outside that range
    unchanged; a write that succeeds leaves that image on the card.  A
    sector is covered in part exactly when it is the first one and
    [offset <> 0], or fewer than [sectorSize] bytes remain for it.  When
    all calls succeed every touched sector is written.  One byte written
    at sector 3, offset 10, sector size 512, on a card that carries out
    both transfers: one read of sector 3, one write of sector 3 with byte
    10 replaced and the bytes before and after it as read. *)
Theorem onWrite_read_modify_write junk sd lba offset buffer :
  let bufsize := Z.of_nat (length buffer) in
  let sec := sectorSize sd in
  let pos := lba * sec + offset in
  medium_wf sd ->
  0 < sec <= TMP_SIZE ->
  0 <= offset < sec ->
  0 < bufsize < 2 ^ 32 ->
  exists r sd' ops,
    onWrite junk sd lba offset buffer bufsize = Returned r sd' ops
    /\ (forall pre k img ok post,
          ops = pre ++ WrSector k img ok :: post ->
          partial_sector sec pos bufsize k ->
          exists pre' old,
            pre = pre' ++ [RdSector k true]
            /\ Forall (fun op => op_sector op <> k) (pre' ++ post)
            /\ sd_sectors sd !! k = Some old
            /\ Z.of_nat (length old) = sec
            /\ Z.of_nat (length img) = sec
            /\ img = spliced sec pos buffer old k
            /\ (forall j,
                  ~ (pos <= k * sec + Z.of_nat j < pos + bufsize) ->
                  img !! j = old !! j)
            /\ (forall j,
                  (j < length old)%nat ->
                  pos <= k * sec + Z.of_nat j < pos + bufsize ->
                  img !! j = buffer !! Z.to_nat (k * sec + Z.of_nat j - pos))
            /\ (ok = true -> sd_sectors sd' !! k = Some img))
    /\ (forall k, lba <= k ->
          partial_sector sec pos bufsize k
          <-> (k = lba /\ offset <> 0)
              \/ pos + bufsize - Z.max pos (k * sec) < sec)
    /\ (Forall (fun op => op_ok op = true) ops ->
        forall k, lba <= k < lba + sectors_touched sec offset bufsize ->
                  exists img, WrSector k img true ∈ ops)
    /\ (forall x old,
          sec = 512 -> lba = 3 -> offset = 10 -> buffer = [x] ->
          read_sector sd 3 = Some old -> write_accepted sd 3 = true ->
          r = 1
          /\ ops = [RdSector 3 true;
                    WrSector 3 (take 10 old ++ [x] ++ drop 11 old) true]
          /\ sd_sectors sd' !! 3 = Some (take 10 old ++ [x] ++ drop 11 old)).
Proof.
  intros bufsize sec pos Hwf Hsec Hoff Hlen.
  destruct (sectorSize_open sd) as [Hopen Hss]; [subst sec; lia|].
  subst sec pos. rewrite Hss in *.
  assert (Hs32 : 0 < sd_sectorSize sd < 2 ^ 32) by (destruct Hwf; lia).
  rewrite onWrite_unfold by first [assumption | lia].
  assert (Hfuel : (Z.to_nat bufsize + (if decide (offset = 0%Z) then 0 else 1)
                   <= S (Z.to_nat bufsize))%nat)
    by (destruct (decide (offset = 0)); lia).
  destruct (onWrite_loop_runs junk bufsize (S (Z.to_nat bufsize)) sd bufsize
              lba offset buffer Hwf Hsec ltac:(lia) ltac:(lia) Hfuel)
    as (r & sd' & ops & Hrun & _).
  exists r, sd', ops. split; [exact Hrun|].
  pose proof (onWrite_loop_discipline junk bufsize (S (Z.to_nat bufsize)) sd
                bufsize lba offset buffer r sd' ops Hwf Hsec ltac:(lia)
                ltac:(lia) Hfuel Hrun) as Hdisc.
  assert (Htake : take (Z.to_nat bufsize) buffer = buffer)
    by (apply take_ge; lia).
  split_and!.
  - intros pre k img ok post Hops Hpart.
    destruct (Hdisc pre k img ok post Hops)
      as (Hpost & Hlen_img & Hkept & Hp & _).
    destruct (Hp Hpart) as (pre' & old & -> & Hpre' & Hlk & Himg).
    rewrite Htake in Himg.
    destruct (medium_wf_sector _ _ _ Hwf Hlk) as [_ Hlen_old].
    exists pre', old. split_and!; auto.
    + apply Forall_app; split.
      * eapply Forall_impl; [exact Hpre'|]. cbn. intros; lia.
      * eapply Forall_impl; [exact Hpost|]. cbn. intros; lia.
    + intros j Hout. rewrite Himg. apply spliced_outside. exact Hout.
    + intros j Hj Hin. rewrite Himg. apply spliced_inside; assumption.
  - intros k Hk. apply partial_sector_words; lia.
  - intros Hok k Hk.
    pose proof (onWrite_loop_covers junk bufsize (S (Z.to_nat bufsize)) sd
                  bufsize lba offset buffer r sd' ops Hwf Hsec Hoff
                  ltac:(lia) ltac:(lia) Hrun Hok) as Hcov.
    assert (Hin : k ∈ op_sector <$> filter (fun op => is_write op) ops).
    { rewrite Hcov. apply elem_of_seqZ. lia. }
    apply list_elem_of_fmap in Hin as (op & -> & Hop).
    apply list_elem_of_filter in Hop as [Hw Hop].
    rewrite Forall_forall in Hok. specialize (Hok op Hop).
    destruct op as [?|b img ok]; [destruct Hw|]. cbn in Hok. subst ok.
    exists img. exact Hop.
  - intros x old Hs -> -> -> Hold Hacc.
    rewrite Hs in *. change (Z.to_nat bufsize) with 1%nat in Hrun.
    change bufsize with 1 in Hrun.
    pose proof (onWrite_loop_step junk 1 sd 1 1 3 10 [x] Hwf) as Hstep.
    rewrite Hs in Hstep.
    rewrite Hstep in Hrun by (cbn; lia).
    unfold sector_image, rmw_read in Hrun. cbn in Hrun.
    rewrite Hold, Hacc in Hrun. cbn in Hrun.
    injection Hrun as <- <- <-. split_and!; auto.
    cbn. apply lookup_insert_eq.
Qed.

(** The scenario of the specification: one byte at sector 3, offset 10, on
    a card of 1000 sectors of 512 bytes. *)
Lemma onWrite_read_modify_write_witness :
  exists sd',
    let old := sample_sector 512 3 in
    let new := take 10 old ++ [xff] ++ drop 11 old in
    onWrite [] (sample_card 512 1000) 3 10 [xff] 1
    = Returned 1 sd' [RdSector 3 true; WrSector 3 new true]
    /\ sd_sectors sd' !! 3 = Some new
    /\ new !! 10%nat = Some xff
    /\ take 10 new = take 10 old
    /\ drop 11 new = drop 11 old.
Proof.
  destruct (onWrite_read_modify_write [] (sample_card 512 1000) 3 10 [xff])
    as (r & sd' & ops & Hrun & _ & _ & _ & Hscenario).
  - apply sample_card_wf; lia.
  - change (0 < 512 <= 512). lia.
  - change (0 <= 10 < 512). lia.
  - change (0 < 1 < 2 ^ 32). lia.
  - assert (Hrd : read_sector (sample_card 512 1000) 3
                   = Some (sample_sector 512 3))
      by (apply sample_card_read; lia).
    assert (Hacc : write_accepted (sample_card 512 1000) 3 = true)
      by (apply sample_card_write_accepted; lia).
    destruct (Hscenario xff (sample_sector 512 3) eq_refl eq_refl eq_refl
                eq_refl Hrd Hacc) as (-> & -> & Hkept).
    exists sd'. split; [exact Hrun|]. split; [exact Hkept|].
    split_and!; vm_compute; reflexivity.
Defined.

(** C2 as stated, for every sector size, fails: on a card of 1024-byte
    sectors the read of the partial sector into [tmp[512]] leaves the
    buffer, and no write follows. *)
Lemma onWrite_sector_larger_than_tmp :
  let sd := sample_card 1024 8 in
  medium_wf sd
  /\ 0 < sectorSize sd
  /\ 0 <= 10 < sectorSize sd
  /\ is_Some (read_sector sd 3) /\ write_accepted sd 3 = true
  /\ partial_sector (sectorSize sd) (3 * sectorSize sd + 10) 1 3
  /\ onWrite [] sd 3 10 [xff] 1 = Fault.
Proof.
  intros sd. subst sd. split_and!; try (cbn; lia).
  - apply sample_card_wf; lia.
  - rewrite sample_card_read by lia. eauto.
  - apply sample_card_write_accepted. lia.
  - unfold partial_sector. cbn. lia.
  - vm_compute. reflexivity.
Qed.

(** ** C3: sector-aligned requests *)

(** C3, when the calls succeed and the sector fits the buffer.  For
    every request with [offset = 0], [bufsize] a positive multiple of
    [sectorSize] and [0 < sectorSize <= 512]: if the reads of the
    [bufsize / sectorSize] sectors from [lba] on succeed, [onRead] issues
    exactly those reads, once each; if the card accepts the writes of
    those sectors, [onWrite] issues exactly [bufsize / sectorSize] calls,
    all of them writes, none of them a read, one per sector in order. *)
Theorem aligned_request_operations junk sd lba buffer :
  let bufsize := Z.of_nat (length buffer) in
  let sec := sectorSize sd in
  let n := bufsize / sec in
  medium_wf sd ->
  0 < sec <= TMP_SIZE ->
  0 <= lba ->
  0 < bufsize < 2 ^ 32 ->
  (sec | bufsize) ->
  (Forall (fun k => is_Some (read_sector sd k)) (seqZ lba n) ->
   exists bytes ops,
     onRead junk sd lba 0 bufsize = Returned (to_int32 bufsize) bytes ops
     /\ Z.of_nat (length ops) = n
     /\ ops = (fun k => RdSector k true) <$> seqZ lba n)
  /\ (Forall (fun k => write_accepted sd k = true) (seqZ lba n) ->
      exists sd' ops,
        onWrite junk sd lba 0 buffer bufsize = Returned (to_int32 bufsize) sd' ops
        /\ Z.of_nat (length ops) = n
        /\ Forall (fun op => is_write op = true) ops
        /\ Forall (fun op => op_ok op = true) ops
        /\ op_sector <$> ops = seqZ lba n).
Proof.
  intros bufsize sec n Hwf Hsec Hlba Hlen Hdiv.
  destruct (sectorSize_open sd) as [Hopen Hss]; [subst sec; lia|].
  subst sec n. rewrite Hss in *.
  assert (Hs32 : 0 < sd_sectorSize sd < 2 ^ 32) by (destruct Hwf; lia).
  pose proof (sectors_touched_aligned (sd_sectorSize sd) bufsize
                ltac:(lia) Hdiv) as Hn.
  assert (Hnn : 0 <= bufsize / sd_sectorSize sd) by (apply Z.div_pos; lia).
  split.
  - intros Hall. rewrite Forall_seqZ in Hall.
    rewrite onRead_unfold by first [assumption | lia].
    rewrite onRead_loop_ok; try first [assumption | lia].
    + rewrite Hn. do 2 eexists. split; [reflexivity|]. split; [|reflexivity].
      rewrite length_fmap, length_seqZ. lia.
    + intros i Hi. rewrite Hn in Hi. apply Hall. lia.
  - intros Hall. rewrite Forall_seqZ in Hall.
    rewrite onWrite_unfold by first [assumption | lia].
    destruct (onWrite_loop_aligned_ok junk bufsize (S (Z.to_nat bufsize)) sd
                bufsize lba buffer Hwf Hsec ltac:(lia) Hdiv ltac:(lia))
      as (sd' & ops & Hrun & Hok).
    { intros i Hi. apply Hall. lia. }
    rewrite Hrun. exists sd', ops.
    pose proof (onWrite_loop_aligned junk bufsize (S (Z.to_nat bufsize)) sd
                  bufsize lba buffer _ sd' ops Hwf Hsec ltac:(lia) Hdiv Hrun)
      as Hwr.
    pose proof (onWrite_loop_covers junk bufsize (S (Z.to_nat bufsize)) sd
                  bufsize lba 0 buffer _ sd' ops Hwf Hsec ltac:(lia)
                  ltac:(lia) ltac:(lia) Hrun Hok) as Hcov.
    rewrite filter_all_writes, Hn in Hcov by exact Hwr.
    split_and!; auto.
    rewrite <- (length_fmap op_sector), Hcov, length_seqZ. lia.
Qed.

(** Two whole sectors from sector 2 on, on a card of 1000 sectors of 512
    bytes. *)
Lemma aligned_request_operations_witness :
  (exists bytes,
     onRead [] (sample_card 512 1000) 2 0 1024
     = Returned 1024 bytes [RdSector 2 true; RdSector 3 true])
  /\ (exists sd' img2 img3,
        onWrite [] (sample_card 512 1000) 2 0 (replicate 1024 x55) 1024
        = Returned 1024 sd' [WrSector 2 img2 true; WrSector 3 img3 true]).
Proof.
  pose proof (aligned_request_operations [] (sample_card 512 1000) 2
                (replicate 1024 x55)) as H.
  cbv zeta in H.
  specialize (H (sample_card_wf 512 1000 ltac:(lia) ltac:(lia))).
  assert (H1 : 0 < sectorSize (sample_card 512 1000) <= TMP_SIZE)
    by (change (0 < 512 <= 512); lia).
  specialize (H H1 ltac:(lia)).
  assert (H2 : 0 < Z.of_nat (length (replicate 1024 x55)) < 2 ^ 32)
    by (change (0 < 1024 < 2 ^ 32); lia).
  specialize (H H2).
  assert (H3 : (sectorSize (sample_card 512 1000)
                | Z.of_nat (length (replicate 1024 x55))))
    by (exists 2; reflexivity).
  specialize (H H3).
  change (Z.of_nat (length (replicate 1024 x55))
          / sectorSize (sample_card 512 1000)) with 2 in H.
  change (Z.of_nat (length (replicate 1024 x55))) with 1024 in H.
  change (to_int32 1024) with 1024 in H.
  change (seqZ 2 2) with [2; 3] in H.
  destruct H as [Hread Hwrite]. split.
  - destruct Hread as (bytes & ops & Hrun & _ & ->).
    { repeat constructor; rewrite sample_card_read by lia; eauto. }
    exists bytes. exact Hrun.
  - destruct Hwrite as (sd' & ops & Hrun & Hcount & Hwr & Hok & Hsec).
    { repeat constructor; apply sample_card_write_accepted; lia. }
    destruct ops as [|op2 [|op3 [|? ?]]]; try discriminate Hsec.
    apply Forall_cons in Hwr as [Hw2 Hwr]. apply Forall_cons in Hwr as [Hw3 _].
    apply Forall_cons in Hok as [Hok2 Hok]. apply Forall_cons in Hok as [Hok3 _].
    destruct op2 as [?|b2 img2 ok2]; [discriminate Hw2|].
    destruct op3 as [?|b3 img3 ok3]; [discriminate Hw3|].
    cbn in Hok2, Hok3, Hsec. subst ok2 ok3. injection Hsec as -> ->.
    exists sd', img2, img3. exact Hrun.
Defined.

(** C3 as stated fails where a call fails and where the sector does not
    fit: a request of two sectors issues one call when the first sector
    fails, on the read path and on the write path; on 1024-byte sectors
    the first transfer leaves [tmp[512]]. *)
Lemma aligned_request_stops_at_failure :
  (let sd := unreadable_at 0 (sample_card 512 8) in
   medium_wf sd /\ sectorSize sd = 512 /\ 1024 / sectorSize sd = 2
   /\ onRead [] sd 0 0 1024 = Returned (-1) [] [RdSector 0 false])
  /\ (let sd := write_protected_at 0 (sample_card 512 8) in
      medium_wf sd /\ sectorSize sd = 512
      /\ onWrite [] sd 0 0 (replicate 1024 x55) 1024
         = Returned (-1) sd [WrSector 0 (replicate 512 x55) false])
  /\ (let sd := sample_card 1024 8 in
      medium_wf sd /\ sectorSize sd = 1024
      /\ Forall (fun k => is_Some (read_sector sd k)
                          /\ write_accepted sd k = true) (seqZ 0 1)
      /\ onRead [] sd 0 0 1024 = Fault
      /\ onWrite [] sd 0 0 (replicate 1024 x55) 1024 = Fault).
Proof.
  cbv zeta. split_and!;
    first [ decide_by_computation | vm_compute; reflexivity ].
Qed.

(** ** C4: write, then read *)

(** C4, for sector sizes that fit the sector buffer.  For every byte
    range ([lba], [0 <= offset < sectorSize], [0 < len < 2^32]) and every
    [data] of that length, on a card with [0 < sectorSize <= 512] on which
    the reads and writes of the touched sectors succeed: [onWrite] of the
    range succeeds, and [onRead] of the same range on the card it leaves
    succeeds and returns exactly [data]. *)
Theorem write_then_read_roundtrip junk junk' sd lba offset data :
  let len := Z.of_nat (length data) in
  let sec := sectorSize sd in
  medium_wf sd ->
  0 < sec <= TMP_SIZE ->
  0 <= lba -> 0 <= offset < sec -> 0 < len < 2 ^ 32 ->
  Forall (fun k => is_Some (read_sector sd k) /\ write_accepted sd k = true)
         (seqZ lba (sectors_touched sec offset len)) ->
  exists sd' wops rops,
    onWrite junk sd lba offset data len = Returned (to_int32 len) sd' wops
    /\ onRead junk' sd' lba offset len = Returned (to_int32 len) data rops
    /\ Forall (fun op => op_ok op = true) (wops ++ rops)
    /\ (len < 2 ^ 31 -> to_int32 len = len).
Proof.
  intros len sec Hwf Hsec Hlba Hoff Hlen Hall.
  destruct (sectorSize_open sd) as [Hopen Hss]; [subst sec; lia|].
  subst sec. rewrite Hss in *. rewrite Forall_seqZ in Hall.
  assert (Hs32 : 0 < sd_sectorSize sd < 2 ^ 32) by (destruct Hwf; lia).
  destruct (roundtrip_loop junk len junk' (S (Z.to_nat len)) sd len lba offset
              data Hwf Hsec Hoff ltac:(lia) ltac:(lia) ltac:(lia))
    as (sd' & wops & rops & Hw & Hwok & Hr & Hrok).
  { intros i Hi. apply Hall. lia. }
  assert (Hfuel : (Z.to_nat len + (if decide (offset = 0%Z) then 0 else 1)
                   <= S (Z.to_nat len))%nat)
    by (destruct (decide (offset = 0)); lia).
  destruct (onWrite_loop_runs junk len (S (Z.to_nat len)) sd len lba offset
              data Hwf Hsec ltac:(lia) ltac:(lia) Hfuel)
    as (r1 & sd1 & ops1 & Hrun1 & _ & Hwf' & Hsame & _).
  rewrite Hw in Hrun1. injection Hrun1 as <- <- <-.
  destruct Hsame as (Hopen' & _ & Hsec' & _).
  exists sd', wops, rops. split_and!.
  - rewrite onWrite_unfold by first [assumption | lia]. exact Hw.
  - rewrite onRead_unfold by first [congruence | lia].
    rewrite Hsec', Hr. f_equal. apply take_ge. lia.
  - apply Forall_app; auto.
  - intros. apply to_int32_small. lia.
Qed.

(** 1500 bytes written at sector 0, offset 100, and read back, on a card
    of 1000 sectors of 512 bytes. *)
Lemma write_then_read_roundtrip_witness :
  let data := sample_sector 1500 9 in
  exists sd' wops rops,
    onWrite [] (sample_card 512 1000) 0 100 data 1500
    = Returned 1500 sd' wops
    /\ onRead [] sd' 0 100 1500 = Returned 1500 data rops.
Proof.
  intros data.
  destruct (write_then_read_roundtrip [] [] (sample_card 512 1000) 0 100 data)
    as (sd' & wops & rops & Hw & Hr & _ & _).
  - apply sample_card_wf; lia.
  - change (0 < 512 <= 512). lia.
  - lia.
  - change (0 <= 100 < 512). lia.
  - change (0 < 1500 < 2 ^ 32). lia.
  - apply Forall_seqZ. intros k Hk. change (0 <= k < 0 + 4) in Hk.
    rewrite sample_card_read by lia.
    split; [eauto | apply sample_card_write_accepted; lia].
  - exists sd', wops, rops. split; [exact Hw | exact Hr].
Defined.

(** C4 as stated, for every card whose transfers succeed, fails: on
    1024-byte sectors the write of one byte leaves [tmp[512]] at its
    read-modify-write read. *)
Lemma roundtrip_sector_larger_than_tmp :
  let sd := sample_card 1024 8 in
  medium_wf sd
  /\ Forall (fun k => is_Some (read_sector sd k) /\ write_accepted sd k = true)
            (seqZ 0 (sectors_touched (sectorSize sd) 0 1))
  /\ onWrite [] sd 0 0 [xff] 1 = Fault.
Proof.
  cbv zeta. split_and!; [decide_by_computation | decide_by_computation |].
  vm_compute. reflexivity.
Qed.

(** ** C5: a failing sector aborts the request *)

(** C5, for sector sizes that fit the sector buffer.  For every write
    request with [bufsize > 0], [0 <= offset < sectorSize] and
    [0 < sectorSize <= 512]: [onWrite] returns, and each call it records
    failed or succeeded as the card answered.  If the card refuses the
    write of a touched sector, or the read of a touched partial sector,
    some call of the request fails.  If a call fails, the value returned
    is [-1], the failed call is the last call of the request and is on a
    sector the request touches, every call before it succeeded, and every
    touched sector before the failing one has been written; every sector
    written lies before the failing sector, still holds the image written
    and, inside the request's range, the request's bytes; every other
    sector of the card, the failing one included, is as it was.  When no
    call fails the byte count is returned. *)
Theorem onWrite_failure_aborts junk sd lba offset buffer :
  let bufsize := Z.of_nat (length buffer) in
  let sec := sectorSize sd in
  let pos := lba * sec + offset in
  medium_wf sd ->
  0 < sec <= TMP_SIZE ->
  0 <= offset < sec ->
  0 < bufsize < 2 ^ 32 ->
  exists r sd' ops,
    onWrite junk sd lba offset buffer bufsize = Returned r sd' ops
    /\ same_card sd sd'
    /\ Forall (fun op => op_ok op = card_answer sd op) ops
    /\ (Forall (fun op => op_ok op = true) ops -> r = to_int32 bufsize)
    /\ (forall k,
          lba <= k < lba + sectors_touched sec offset bufsize ->
          write_accepted sd k = false
          \/ (partial_sector sec pos bufsize k /\ read_sector sd k = None) ->
          exists failed, failed ∈ ops /\ op_ok failed = false)
    /\ forall failed,
         failed ∈ ops -> op_ok failed = false ->
         r = -1
         /\ lba <= op_sector failed < lba + sectors_touched sec offset bufsize
         /\ exists pre,
              ops = pre ++ [failed]
              /\ Forall (fun op => op_ok op = true) pre
              /\ (forall j,
                    lba <= j < op_sector failed ->
                    exists img, WrSector j img true ∈ pre)
              /\ (forall k img,
                    WrSector k img true ∈ pre ->
                    k < op_sector failed
                    /\ sd_sectors sd' !! k = Some img
                    /\ Z.of_nat (length img) = sec
                    /\ forall j,
                         Z.of_nat j < sec ->
                         pos <= k * sec + Z.of_nat j < pos + bufsize ->
                         img !! j
                         = buffer !! Z.to_nat (k * sec + Z.of_nat j - pos))
              /\ (forall b,
                    (forall img, WrSector b img true ∉ pre) ->
                    sd_sectors sd' !! b = sd_sectors sd !! b).
Proof.
  intros bufsize sec pos Hwf Hsec Hoff Hlen.
  destruct (sectorSize_open sd) as [Hopen Hss]; [subst sec; lia|].
  subst sec pos. rewrite Hss in *.
  assert (Hs32 : 0 < sd_sectorSize sd < 2 ^ 32) by (destruct Hwf; lia).
  rewrite onWrite_unfold by first [assumption | lia].
  assert (Hfuel : (Z.to_nat bufsize + (if decide (offset = 0%Z) then 0 else 1)
                   <= S (Z.to_nat bufsize))%nat)
    by (destruct (decide (offset = 0)); lia).
  destruct (onWrite_loop_runs junk bufsize (S (Z.to_nat bufsize)) sd bufsize
              lba offset buffer Hwf Hsec ltac:(lia) ltac:(lia) Hfuel)
    as (r & sd' & ops & Hrun & Hshape & _ & Hsame & _ & _ & Hunw).
  exists r, sd', ops. split; [exact Hrun|]. split; [exact Hsame|].
  pose proof (onWrite_loop_discipline junk bufsize (S (Z.to_nat bufsize)) sd
                bufsize lba offset buffer r sd' ops Hwf Hsec ltac:(lia)
                ltac:(lia) Hfuel Hrun) as Hdisc.
  pose proof (onWrite_loop_answers junk bufsize (S (Z.to_nat bufsize)) sd
                bufsize lba offset buffer r sd' ops Hwf Hsec ltac:(lia)
                ltac:(lia) Hrun) as Hans.
  assert (Htake : take (Z.to_nat bufsize) buffer = buffer)
    by (apply take_ge; lia).
  split; [exact Hans|]. split.
  { intros Hok. destruct Hshape as [[-> _]|[_ (pre & op & -> & Hop & _)]];
      [reflexivity|].
    apply Forall_app in Hok as [_ Hok]. apply Forall_cons in Hok as [Hok _].
    congruence. }
  split.
  { intros k Hk Hrefused.
    destruct Hshape as [[_ Hok]|[_ (pre & op & -> & Hop & _)]].
    2:{ exists op. split; [|exact Hop]. apply elem_of_app. right. left. }
    exfalso.
    pose proof (onWrite_loop_covers junk bufsize (S (Z.to_nat bufsize)) sd
                  bufsize lba offset buffer r sd' ops Hwf Hsec Hoff
                  ltac:(lia) ltac:(lia) Hrun Hok) as Hcov.
    assert (Hin : k ∈ op_sector <$> filter (fun op => is_write op) ops).
    { rewrite Hcov. apply elem_of_seqZ. lia. }
    apply list_elem_of_fmap in Hin as (op & -> & Hop).
    apply list_elem_of_filter in Hop as [Hw Hop].
    rewrite Forall_forall in Hok, Hans.
    pose proof (Hok op Hop) as Hop_ok. pose proof (Hans op Hop) as Hop_ans.
    destruct op as [?|k img ok]; [destruct Hw|]. cbn in *. subst ok.
    destruct Hrefused as [Hrefused|[Hpart Hnone]]; [congruence|].
    apply list_elem_of_split in Hop as (p1 & p2 & Hops).
    destruct (Hdisc p1 k img true p2 Hops) as (_ & _ & _ & Hp & _).
    destruct (Hp Hpart) as (pre' & old & Hp1 & _).
    assert (Hrd_in : RdSector k true ∈ ops).
    { rewrite Hops, Hp1. apply elem_of_app. left. apply elem_of_app. right. left. }
    specialize (Hans _ Hrd_in). cbn in Hans. symmetry in Hans.
    apply bool_decide_eq_true in Hans as [x Hx]. congruence. }
  intros failed Hin Hfail.
  pose proof (onWrite_loop_range junk bufsize (S (Z.to_nat bufsize)) sd
                bufsize lba offset buffer r sd' ops Hwf Hsec Hoff
                ltac:(lia) ltac:(lia) Hrun) as Htouched.
  rewrite Forall_forall in Htouched. specialize (Htouched failed Hin).
  destruct Hshape as [[_ Hok]|[-> (pre & op & -> & Hop & Hpre)]].
  { rewrite Forall_forall in Hok. specialize (Hok failed Hin). congruence. }
  assert (failed = op) as ->.
  { apply elem_of_app in Hin as [Hin|Hin].
    - rewrite Forall_forall in Hpre. specialize (Hpre failed Hin). congruence.
    - apply list_elem_of_singleton in Hin. exact Hin. }
  destruct (onWrite_loop_prefix junk bufsize (S (Z.to_nat bufsize)) sd
              bufsize lba offset buffer (-1) sd' (pre ++ [op]) pre op Hwf Hsec
              ltac:(lia) ltac:(lia) Hrun eq_refl Hop) as [_ Hwritten].
  split; [reflexivity|]. split; [exact Htouched|].
  exists pre. split_and!; auto.
  - intros k img Hk.
    apply list_elem_of_split in Hk as (p1 & p2 & ->).
    destruct (Hdisc p1 k img true (p2 ++ [op]))
      as (Hpost & Hlen_img & Hkept & Hp & Hf).
    { rewrite <- app_assoc. reflexivity. }
    apply Forall_app in Hpost as [_ Hpost].
    apply Forall_cons in Hpost as [Hlt _].
    split_and!; auto.
    intros j Hj Hrange.
    destruct (decide (partial_sector (sd_sectorSize sd)
                        (lba * sd_sectorSize sd + offset) bufsize k)) as [Hpart|Hfull].
    + destruct (Hp Hpart) as (pre' & old & _ & _ & Hlk & ->).
      destruct (medium_wf_sector _ _ _ Hwf Hlk) as [_ Hlen_old].
      rewrite Htake. apply spliced_inside; lia.
    + destruct (Hf Hfull) as [_ ->].
      rewrite lookup_take_lt by lia. rewrite lookup_drop. f_equal.
      unfold partial_sector in Hfull.
      assert (lba * sd_sectorSize sd + offset <= k * sd_sectorSize sd)
        by (destruct (decide (lba * sd_sectorSize sd + offset
                              <= k * sd_sectorSize sd)); [assumption|tauto]).
      lia.
  - intros b Hb. apply Hunw. intros img Hin'.
    apply elem_of_app in Hin' as [Hin'|Hin'].
    + exact (Hb img Hin').
    + apply list_elem_of_singleton in Hin'. subst op. discriminate.
Qed.

(** Three sectors written to a card whose sector 1 refuses writes: the
    request returns [-1] after the failed write, sector 0 keeps the new
    bytes, sectors 1 and 2 are as before. *)
Lemma onWrite_failure_aborts_witness :
  let sd := write_protected_at 1 (sample_card 512 8) in
  let new := replicate 512 x55 in
  exists sd',
    onWrite [] sd 0 0 (replicate 1536 x55) 1536
    = Returned (-1) sd' [WrSector 0 new true; WrSector 1 new false]
    /\ sd_sectors sd' !! 0 = Some new
    /\ sd_sectors sd' !! 1 = sd_sectors sd !! 1
    /\ sd_sectors sd' !! 2 = sd_sectors sd !! 2.
Proof.
  intros sd new.
  pose proof (onWrite_failure_aborts [] sd 0 0 (replicate 1536 x55)) as H.
  cbv zeta in H.
  assert (Hwf : medium_wf sd) by (subst sd; decide_by_computation).
  assert (H1 : 0 < sectorSize sd <= TMP_SIZE) by (change (0 < 512 <= 512); lia).
  assert (H2 : 0 <= 0 < sectorSize sd) by (change (0 <= 0 < 512); lia).
  assert (H3 : 0 < Z.of_nat (length (replicate 1536 x55)) < 2 ^ 32)
    by (change (0 < 1536 < 2 ^ 32); lia).
  destruct (H Hwf H1 H2 H3) as (r & sd' & ops & Hrun & _ & _ & _ & _ & Hfail).
  assert (Hc : exists sdc,
             onWrite [] sd 0 0 (replicate 1536 x55)
               (Z.of_nat (length (replicate 1536 x55)))
             = Returned (-1) sdc [WrSector 0 new true; WrSector 1 new false]).
  { eexists. vm_compute. reflexivity. }
  destruct Hc as [sdc Hc]. rewrite Hc in Hrun. injection Hrun as <- <- <-.
  destruct (Hfail (WrSector 1 new false))
    as (_ & _ & pre & Hpre & _ & _ & Hkept & Hsame).
  { apply list_elem_of_In. right. left. reflexivity. }
  { reflexivity. }
  apply (app_inj_tail [WrSector 0 new true] pre) in Hpre as [<- _].
  destruct (Hkept 0 new) as (_ & Hk0 & _).
  { apply list_elem_of_In. left. reflexivity. }
  exists sdc. split; [exact Hc|]. split; [exact Hk0|].
  split; apply Hsame; intros img Hin; apply list_elem_of_In in Hin;
    destruct Hin as [Hin|[]]; discriminate Hin.
Defined.

(** C5 as stated, for every card, fails: on 1024-byte sectors the copy of
    the first sector into [tmp[512]] leaves the buffer before the refused
    write of sector 1 is reached, and nothing is returned. *)
Lemma onWrite_failure_sector_larger_than_tmp :
  let sd := write_protected_at 1 (sample_card 1024 8) in
  medium_wf sd
  /\ write_accepted sd 0 = true
  /\ write_accepted sd 1 = false
  /\ onWrite [] sd 0 0 (replicate 2048 x55) 2048 = Fault.
Proof.
  cbv zeta. split_and!;
    first [ decide_by_computation | vm_compute; reflexivity ].
Qed.

(** ** C6: what gates the translator *)

(** C6, with the gate the code has.  In every state the life cycle
    reaches, [isMounted() = false] implies that the card driver is closed.
    Whenever the driver is closed, every read and every write request
    returns [-1] and makes no call to the card.  Hence every request
    issued in a reachable state with [isMounted() = false] is refused.
    The gate is the sector size the driver reports, not [s_mounted].  The
    link state is never consulted: neither setting [s_usbOnline] nor a USB
    event changes what a request does. *)
Theorem translator_gate_is_the_medium :
  (forall st, reachable st -> isMounted st = false ->
     sd_open (SD_MMC st) = false)
  /\ (forall junk st lba offset buffer bufsize,
        sd_open (SD_MMC st) = false ->
        onRead junk (SD_MMC st) lba offset bufsize = Returned (-1) [] []
        /\ onWrite junk (SD_MMC st) lba offset buffer bufsize
           = Returned (-1) (SD_MMC st) [])
  /\ (forall junk st lba offset buffer bufsize,
        reachable st -> isMounted st = false ->
        onRead junk (SD_MMC st) lba offset bufsize = Returned (-1) [] []
        /\ onWrite junk (SD_MMC st) lba offset buffer bufsize
           = Returned (-1) (SD_MMC st) [])
  /\ (forall junk st online base id lba offset buffer bufsize,
        onRead junk (SD_MMC (set_usbOnline online st)) lba offset bufsize
        = onRead junk (SD_MMC st) lba offset bufsize
        /\ onWrite junk (SD_MMC (set_usbOnline online st)) lba offset buffer bufsize
           = onWrite junk (SD_MMC st) lba offset buffer bufsize
        /\ onRead junk (SD_MMC (usbEventCallback base id st)) lba offset bufsize
           = onRead junk (SD_MMC st) lba offset bufsize
        /\ onWrite junk (SD_MMC (usbEventCallback base id st)) lba offset buffer bufsize
           = onWrite junk (SD_MMC st) lba offset buffer bufsize).
Proof.
  assert (Hclosed : forall st, reachable st -> isMounted st = false ->
                               sd_open (SD_MMC st) = false).
  { intros st Hreach Hm. rewrite (reachable_inv st Hreach). exact Hm. }
  split_and!.
  - exact Hclosed.
  - intros. split; [apply onRead_closed | apply onWrite_closed]; assumption.
  - intros junk st lba offset buffer bufsize Hreach Hm.
    split; [apply onRead_closed | apply onWrite_closed]; auto.
  - intros junk st online base id lba offset buffer bufsize.
    split_and!; try reflexivity; destruct base, id; reflexivity.
Qed.

(** After boot nothing is mounted and a request is refused. *)
Lemma translator_gate_is_the_medium_witness :
  let st := boot (sample_card 512 8) in
  isMounted st = false
  /\ onRead [] (SD_MMC st) 0 0 512 = Returned (-1) [] []
  /\ onWrite [] (SD_MMC st) 0 0 (replicate 512 x55) 512
     = Returned (-1) (SD_MMC st) [].
Proof.
  intros st.
  destruct translator_gate_is_the_medium as (_ & _ & Hrefuse & _).
  destruct (Hrefuse [] st 0 0 (replicate 512 x55) 512) as [Hr Hw].
  - apply reachable_boot.
  - reflexivity.
  - split; [reflexivity|]. split; [exact Hr | exact Hw].
Defined.

(** C6 as stated, with [s_mounted] as the gate, fails: one assignment
    before [mount()] returns, [s_mounted] is clear, the card is open, and
    a read and a write are both carried out. *)
Lemma translator_serves_while_unmounted :
  let st := mounting_state (sample_card 512 8) in
  isMounted st = false
  /\ isUsbOnline st = false
  /\ mount (mkMountEnv true true) (boot (sample_card 512 8))
     = (true, set_mounted true st)
  /\ (exists bytes,
        onRead [] (SD_MMC st) 0 0 512 = Returned 512 bytes [RdSector 0 true])
  /\ (exists sd',
        onWrite [] (SD_MMC st) 0 0 (replicate 512 x55) 512
        = Returned 512 sd' [WrSector 0 (replicate 512 x55) true]).
Proof.
  cbv zeta. split_and!; try reflexivity.
  - eexists. vm_compute. reflexivity.
  - eexists. vm_compute. reflexivity.
Qed.

(** ** C7: a failed mount *)

(** C7.  Whenever [mount()] returns [false], [isMounted()] is [false]
    afterwards and the card driver is closed; the last library call of
    the failed [mount()] is [SD_MMC.end()], unless [SD_MMC.begin()] itself
    failed, in which case the driver never reported the card open. *)
Theorem failed_mount_leaves_medium_closed env st :
  (mount env st).1 = false ->
  let st' := (mount env st).2 in
  isMounted st' = false
  /\ sd_open (SD_MMC st') = false
  /\ exists new,
       calls st' = calls st ++ new
       /\ (last new = Some SD_end
           \/ (last new = Some (SD_begin "/sdcard" true false)
               /\ never_opened new)).
Proof.
  unfold isMounted. mount_cases; intros Hfail; try discriminate;
    (split_and!; [congruence | congruence |]);
    eexists; rewrite <- ?app_assoc; (split; [reflexivity|]);
    first [ left; reflexivity
          | right; split; [reflexivity | repeat constructor] ].
Qed.

(** No card answers: [mount()] fails and the driver never reports open. *)
Lemma failed_mount_leaves_medium_closed_witness :
  let st := boot (sample_card 512 8) in
  let env := mkMountEnv false true in
  (mount env st).1 = false
  /\ isMounted (mount env st).2 = false
  /\ sd_open (SD_MMC (mount env st).2) = false
  /\ never_opened (calls (mount env st).2).
Proof.
  intros st env.
  assert (Hfail : (mount env st).1 = false) by reflexivity.
  destruct (failed_mount_leaves_medium_closed env st Hfail)
    as (Hm & Hclosed & new & Hcalls & Hlast).
  split; [exact Hfail|]. split; [exact Hm|]. split; [exact Hclosed|].
  vm_compute. repeat constructor.
Defined.

(** The class does not start: the card that was opened is closed again. *)
Example failed_class_start_closes_medium :
  let st := boot (sample_card 512 8) in
  let env := mkMountEnv true false in
  (mount env st).1 = false
  /\ sd_open (SD_MMC (mount env st).2) = false
  /\ last (calls (mount env st).2) = Some SD_end
  /\ SD_begin "/sdcard" true true ∈ calls (mount env st).2.
Proof.
  cbv zeta. split_and!; try reflexivity.
  apply list_elem_of_In. vm_compute. tauto.
Qed.

(** ** C8: mounting twice *)

(** C8.  After a [mount()] that returned [true], a second [mount()]
    returns [true] and changes nothing: no call to the card driver, to
    the class object or to the USB stack is added to the log.  The two
    calls together contain at most one [SD_MMC.begin()]; if the device
    was already mounted the first call changes nothing either. *)
Theorem mount_twice_opens_once env1 env2 st :
  (mount env1 st).1 = true ->
  let st1 := (mount env1 st).2 in
  isMounted st1 = true
  /\ mount env2 st1 = (true, st1)
  /\ (isMounted st = true -> st1 = st)
  /\ exists new,
       calls st1 = calls st ++ new
       /\ (count_opens new <= 1)%nat
       /\ calls (mount env2 st1).2 = calls st ++ new.
Proof.
  intros Hok st1.
  assert (Hm1 : s_mounted st1 = true).
  { subst st1. revert Hok. mount_cases; intros; congruence. }
  assert (Hagain : mount env2 st1 = (true, st1)).
  { unfold mount at 1. rewrite Hm1. reflexivity. }
  unfold isMounted. split_and!; auto.
  - intros Hm. subst st1. unfold mount. rewrite Hm. reflexivity.
  - rewrite Hagain. cbn [snd]. subst st1. clear Hm1 Hagain. revert Hok.
    mount_cases; intros; try discriminate.
    + exists []. rewrite app_nil_r. auto.
    + eexists. rewrite <- ?app_assoc. split; [reflexivity|].
      split; [|reflexivity]. vm_compute. lia.
    + eexists. rewrite <- ?app_assoc. split; [reflexivity|].
      split; [|reflexivity]. vm_compute. lia.
Qed.

(** Two mounts in a row after boot: both succeed, one [SD_MMC.begin]. *)
Lemma mount_twice_opens_once_witness :
  let st := boot (sample_card 512 8) in
  let env := mkMountEnv true true in
  let st1 := (mount env st).2 in
  mount env st = (true, st1)
  /\ mount env st1 = (true, st1)
  /\ count_opens (calls (mount env st1).2) = 1%nat.
Proof.
  intros st env st1.
  assert (Hok : (mount env st).1 = true) by reflexivity.
  destruct (mount_twice_opens_once env env st Hok)
    as (_ & Hagain & _ & new & _ & _ & _).
  split; [vm_compute; reflexivity|]. split; [exact Hagain|].
  vm_compute. reflexivity.
Defined.

(** ** C9: the host's stop command *)

(** C9.  A stop command with the eject flag does exactly what
    [unmount()] does and reports success; afterwards [isMounted()] is
    [false] and a further [unmount()] changes nothing.  A stop command
    without the eject flag, like every command without it and like a
    start command, reports success and changes nothing. *)
Theorem host_eject_is_unmount power_condition st :
  onStartStop power_condition false true st = (true, unmount st)
  /\ isMounted (unmount st) = false
  /\ unmount (unmount st) = unmount st
  /\ isMounted (onStartStop power_condition false true st).2 = false
  /\ unmount (onStartStop power_condition false true st).2
     = (onStartStop power_condition false true st).2
  /\ onStartStop power_condition false false st = (true, st)
  /\ (forall start, onStartStop power_condition start false st = (true, st))
  /\ onStartStop power_condition true true st = (true, st).
Proof.
  assert (Hun : isMounted (unmount st) = false).
  { unfold isMounted, unmount. destruct (s_mounted st) eqn:Hm; cbn; congruence. }
  assert (Hidem : unmount (unmount st) = unmount st).
  { unfold unmount at 1. unfold isMounted in Hun. rewrite Hun. reflexivity. }
  split_and!; auto.
  intros start. destruct start; reflexivity.
Qed.

(** The scenario of the specification: eject while mounted. *)
Example host_eject_while_mounted :
  let st := (mount (mkMountEnv true true) (boot (sample_card 512 8))).2 in
  isMounted st = true
  /\ isMounted (onStartStop 0 false true st).2 = false
  /\ sd_open (SD_MMC (onStartStop 0 false true st).2) = false
  /\ unmount (onStartStop 0 false true st).2 = (onStartStop 0 false true st).2
  /\ onStartStop 0 false false st = (true, st).
Proof. cbv zeta. split_and!; vm_compute; reflexivity. Qed.

(** ** C10: the value returned *)

(** C10, inside the range of [int32_t] and of the sector buffer.  For
    every card, failing or not, every [lba], every [bufsize < 2^31] and
    every [offset] with [offset <= sectorSize <= 512]:
    [onRead] and [onWrite] return, and the value returned is [-1] or
    [bufsize], never a count in between; it is [-1], with no call to the
    card, when [bufsize] or the sector size is zero; when it is [bufsize]
    every call to the card succeeded and a read delivered [bufsize]
    bytes. *)
Theorem callbacks_all_or_nothing junk sd lba offset buffer bufsize :
  medium_wf sd ->
  sectorSize sd <= TMP_SIZE ->
  0 <= bufsize < 2 ^ 31 ->
  bufsize <= Z.of_nat (length buffer) ->
  sectorSize sd = 0 \/ bufsize = 0 \/ 0 <= offset <= sectorSize sd ->
  (exists r bytes ops,
      onRead junk sd lba offset bufsize = Returned r bytes ops
      /\ (r = -1 \/ r = bufsize)
      /\ (sectorSize sd = 0 \/ bufsize = 0 -> r = -1 /\ ops = [])
      /\ (r = bufsize ->
          Z.of_nat (length bytes) = bufsize
          /\ Forall (fun op => op_ok op = true) ops))
  /\ (exists r sd' ops,
      onWrite junk sd lba offset buffer bufsize = Returned r sd' ops
      /\ (r = -1 \/ r = bufsize)
      /\ (sectorSize sd = 0 \/ bufsize = 0 -> r = -1 /\ ops = [])
      /\ (r = bufsize -> Forall (fun op => op_ok op = true) ops)).
Proof.
  intros Hwf Hsec Hlen Hbuf Hoff.
  assert (Hcast : to_int32 bufsize = bufsize) by (apply to_int32_small; lia).
  destruct (decide (sectorSize sd = 0 \/ bufsize = 0)) as [Hz|Hnz].
  { rewrite onRead_refuses, onWrite_refuses by assumption. split.
    - exists (-1), [], []. split_and!; auto. intros <-. split; [lia|constructor].
    - exists (-1), sd, []. split_and!; auto. }
  destruct (sectorSize_open sd) as [Hopen Hss].
  { unfold sectorSize in *. destruct (sd_open sd), Hwf; lia. }
  rewrite Hss in *.
  assert (Hfuel : (Z.to_nat bufsize + (if decide (offset = 0%Z) then 0 else 1)
                   <= S (Z.to_nat bufsize))%nat)
    by (destruct (decide (offset = 0)); lia).
  assert (Hs32 : 0 < sd_sectorSize sd < 2 ^ 32) by (destruct Hwf; lia).
  rewrite onRead_unfold, onWrite_unfold by first [assumption | lia].
  split.
  - destruct (onRead_loop_runs junk sd bufsize Hwf ltac:(lia)
                (S (Z.to_nat bufsize)) bufsize lba offset
                ltac:(lia) ltac:(lia) Hfuel)
      as (r & bytes & ops & -> & Hshape & _ & Hcount).
    exists r, bytes, ops. split_and!; auto.
    + destruct (all_or_abort_ret _ _ _ Hshape); [auto|right; congruence].
    + intros Hz. tauto.
    + intros ->. destruct Hshape as [[_ Hok]|[Hneg _]]; [auto|lia].
  - destruct (onWrite_loop_runs junk bufsize (S (Z.to_nat bufsize)) sd bufsize
                lba offset buffer Hwf ltac:(lia) ltac:(lia) ltac:(lia) Hfuel)
      as (r & sd' & ops & -> & Hshape & _).
    exists r, sd', ops. split_and!; auto.
    + destruct (all_or_abort_ret _ _ _ Hshape); [auto|right; congruence].
    + intros Hz. tauto.
    + intros ->. destruct Hshape as [[_ Hok]|[Hneg _]]; [auto|lia].
Qed.

(** A write that fails at its second sector, and a read, seen from the
    return value: the write returns [-1] although sector 0 has changed. *)
Lemma callbacks_all_or_nothing_witness :
  let sd := write_protected_at 1 (sample_card 512 8) in
  (exists bytes ops,
     onRead [] sd 0 0 1536 = Returned 1536 bytes ops
     /\ Z.of_nat (length bytes) = 1536)
  /\ (exists sd' ops,
        onWrite [] sd 0 0 (replicate 1536 x55) 1536 = Returned (-1) sd' ops
        /\ sd_sectors sd' !! 0 <> sd_sectors sd !! 0).
Proof.
  intros sd.
  pose proof (callbacks_all_or_nothing [] sd 0 0 (replicate 1536 x55) 1536)
    as H.
  assert (Hwf : medium_wf sd) by (subst sd; decide_by_computation).
  assert (H1 : sectorSize sd <= TMP_SIZE) by (change (512 <= 512); lia).
  assert (H3 : 1536 <= Z.of_nat (length (replicate 1536 x55)))
    by (change (1536 <= 1536); lia).
  assert (H4 : sectorSize sd = 0 \/ 1536 = 0 \/ 0 <= 0 <= sectorSize sd)
    by (right; right; change (0 <= 0 <= 512); lia).
  destruct (H Hwf H1 ltac:(lia) H3 H4)
    as [(r & bytes & ops & Hrun & Hr & _ & Hlen)
        (r' & sd' & ops' & Hrun' & Hr' & _)].
  assert (Hc : exists b o, onRead [] sd 0 0 1536 = Returned 1536 b o).
  { do 2 eexists. vm_compute. reflexivity. }
  destruct Hc as (b & o & Hc). rewrite Hc in Hrun. injection Hrun as <- <- <-.
  assert (Hc' : exists s o,
             onWrite [] sd 0 0 (replicate 1536 x55) 1536 = Returned (-1) s o
             /\ sd_sectors s !! 0 <> sd_sectors sd !! 0).
  { do 2 eexists. split; [vm_compute; reflexivity|]. vm_compute. discriminate. }
  destruct Hc' as (s & o' & Hc' & Hdiff).
  rewrite Hc' in Hrun'. injection Hrun' as <- <- <-.
  split.
  - exists b, o. split; [exact Hc|]. apply Hlen. reflexivity.
  - exists s, o'. split; [exact Hc' | exact Hdiff].
Defined.

(** C10 as stated, for every input, fails: a count of [2^31] bytes, all
    read successfully, comes back as [(int32_t)0x80000000], which is
    neither [-1] nor the count. *)
Lemma callbacks_count_beyond_int32 :
  exists bytes ops,
    onRead [] (sample_card 512 4194304) 0 0 2147483648
    = Returned (-2147483648) bytes ops
    /\ Forall (fun op => op_ok op = true) ops
    /\ Z.of_nat (length bytes) = 2147483648.
Proof.
  assert (Hwf : medium_wf (sample_card 512 4194304))
    by (apply sample_card_wf; lia).
  exists (medium_bytes (sample_card 512 4194304) (0 * 512 + 0) 2147483648),
    ((fun k => RdSector k true)
       <$> seqZ 0 (sectors_touched 512 0 2147483648)).
  split_and!.
  - rewrite onRead_unfold by (cbn; first [reflexivity | lia]).
    change (sd_sectorSize (sample_card 512 4194304)) with 512.
    pose proof (onRead_loop_ok [] (sample_card 512 4194304) 2147483648 Hwf
                  ltac:(change (0 < 512 <= 512); lia)
                  (S (Z.to_nat 2147483648)) 2147483648 0 0) as Hok.
    change (sd_sectorSize (sample_card 512 4194304)) with 512 in Hok.
    rewrite Hok; [reflexivity| | | | | |].
    + lia.
    + lia.
    + lia.
    + lia.
    + lia.
    + intros i Hi. change (sectors_touched 512 0 2147483648) with 4194304 in Hi.
      rewrite sample_card_read by lia. eauto.
  - apply Forall_fmap, Forall_forall. intros; reflexivity.
  - rewrite length_medium_bytes. lia.
Qed.

(** * Further properties of the translator *)

(** ** A read that fails *)

(** X1.  [onRead] stops at the first sector the card does not read.  For a
    request with [0 < bufsize], [0 <= offset < sectorSize <= 512] whose
    first [m] touched sectors are read and whose next touched sector is
    not: the value returned is [-1], the calls made are the [m] successful
    reads in order followed by the failed read, which is the last call,
    and the bytes copied to the host buffer so far are the card's bytes
    from the start of the range to the end of sector [lba + m - 1]. *)
Theorem onRead_stops_at_first_failure junk sd lba offset bufsize m :
  medium_wf sd ->
  0 < sectorSize sd <= TMP_SIZE ->
  0 <= lba -> 0 <= offset < sectorSize sd -> 0 < bufsize < 2 ^ 32 ->
  0 <= m < sectors_touched (sectorSize sd) offset bufsize ->
  Forall (fun k => is_Some (read_sector sd k)) (seqZ lba m) ->
  read_sector sd (lba + m) = None ->
  onRead junk sd lba offset bufsize
  = Returned (-1)
      (medium_bytes sd (lba * sectorSize sd + offset)
         (Z.max 0 (m * sectorSize sd - offset)))
      (((fun k => RdSector k true) <$> seqZ lba m)
         ++ [RdSector (lba + m) false]).
Proof.
  intros Hwf Hsec Hlba Hoff Hlen Hm Hbefore Hat.
  destruct (sectorSize_open sd) as [Hopen Hss]; [lia|]. rewrite Hss in *.
  assert (Hs32 : 0 < sd_sectorSize sd < 2 ^ 32) by (destruct Hwf; lia).
  rewrite Forall_seqZ in Hbefore.
  rewrite onRead_unfold by first [assumption | lia].
  apply onRead_loop_fails; try first [assumption | lia].
  intros i Hi. apply Hbefore. lia.
Qed.

(** 1500 bytes from sector 0, offset 100, on a card whose sector 2 cannot
    be read: two reads, the failed third, [-1], and 924 bytes delivered. *)
Lemma onRead_stops_at_first_failure_witness :
  let sd := unreadable_at 2 (sample_card 512 8) in
  onRead [] sd 0 100 1500
  = Returned (-1) (medium_bytes sd 100 924)
      [RdSector 0 true; RdSector 1 true; RdSector 2 false].
Proof.
  intros sd.
  assert (Hwf : medium_wf sd) by (subst sd; decide_by_computation).
  assert (Hsec : 0 < sectorSize sd <= TMP_SIZE) by (change (0 < 512 <= 512); lia).
  assert (Hoff : 0 <= 100 < sectorSize sd) by (change (0 <= 100 < 512); lia).
  assert (Hm : 0 <= 2 < sectors_touched (sectorSize sd) 100 1500)
    by (change (0 <= 2 < 4); lia).
  assert (Hbefore : Forall (fun k => is_Some (read_sector sd k)) (seqZ 0 2))
    by (subst sd; decide_by_computation).
  exact (onRead_stops_at_first_failure [] sd 0 100 1500 2 Hwf Hsec
           ltac:(lia) Hoff ltac:(lia) Hm Hbefore eq_refl).
Defined.

(** ** Requests that adjoin *)



(** ** What a write changes *)

(** X3.  Whatever its outcome, a write request changes nothing outside its
    range.  For a request with [0 < bufsize], [0 <= offset < sectorSize <=
    512]: [onWrite] returns; every call it makes is on a sector the
    request touches; the driver state, the geometry and the set of sectors
    of the card are as before; every sector the request does not touch,
    and every byte of the medium outside the [bufsize] bytes from
    [lba * sectorSize + offset] on, is unchanged, also when the request
    fails half way. *)
Theorem onWrite_changes_only_the_range junk sd lba offset buffer :
  let bufsize := Z.of_nat (length buffer) in
  let sec := sectorSize sd in
  let pos := lba * sec + offset in
  medium_wf sd ->
  0 < sec <= TMP_SIZE ->
  0 <= offset < sec ->
  0 < bufsize < 2 ^ 32 ->
  exists r sd' ops,
    onWrite junk sd lba offset buffer bufsize = Returned r sd' ops
    /\ same_card sd sd'
    /\ Forall (fun op => lba <= op_sector op
                         < lba + sectors_touched sec offset bufsize) ops
    /\ (forall k, ~ (lba <= k < lba + sectors_touched sec offset bufsize) ->
                  sd_sectors sd' !! k = sd_sectors sd !! k)
    /\ (forall p, ~ (pos <= p < pos + bufsize) ->
                  medium_byte sd' p = medium_byte sd p).
Proof.
  intros bufsize sec pos Hwf Hsec Hoff Hlen.
  destruct (sectorSize_open sd) as [Hopen Hss]; [subst sec; lia|].
  assert (Hs32 : 0 < sd_sectorSize sd < 2 ^ 32)
    by (subst sec; rewrite Hss in *; destruct Hwf; lia).
  assert (Hfuel : (Z.to_nat bufsize + (if decide (offset = 0%Z) then 0 else 1)
                   <= S (Z.to_nat bufsize))%nat)
    by (destruct (decide (offset = 0)); lia).
  destruct (onWrite_loop_runs junk bufsize (S (Z.to_nat bufsize)) sd bufsize
              lba offset buffer Hwf ltac:(subst sec; lia) ltac:(subst sec; lia)
              ltac:(lia) Hfuel)
    as (r & sd' & ops & Hrun & _).
  rewrite <- onWrite_unfold in Hrun by first [assumption | lia].
  exists r, sd', ops. split; [exact Hrun|].
  destruct (onWrite_medium junk sd lba offset buffer r sd' ops Hwf Hsec Hoff
              Hlen Hrun) as (_ & Hsame & _ & Hrange & Hunw & Hout & _).
  subst sec pos. rewrite Hss in *.
  split_and!; auto.
  intros k Hk. apply Hunw. intros img Hin.
  rewrite Forall_forall in Hrange. apply Hk. exact (Hrange _ Hin).
Qed.

(** Three sectors written from sector 1 on to a card whose sector 2 refuses
    writes: sectors 0 and 3 are as before, and so is every byte before
    position 512, although sector 1 has changed. *)
Lemma onWrite_changes_only_the_range_witness :
  let sd := write_protected_at 2 (sample_card 512 8) in
  exists sd' ops,
    onWrite [] sd 1 0 (replicate 1536 x55) 1536 = Returned (-1) sd' ops
    /\ sd_sectors sd' !! 0 = sd_sectors sd !! 0
    /\ sd_sectors sd' !! 4 = sd_sectors sd !! 4
    /\ medium_byte sd' 511 = medium_byte sd 511.
Proof.
  intros sd.
  pose proof (onWrite_changes_only_the_range [] sd 1 0 (replicate 1536 x55)) as H.
  cbv zeta in H.
  assert (Hwf : medium_wf sd) by (subst sd; decide_by_computation).
  assert (H1 : 0 < sectorSize sd <= TMP_SIZE) by (change (0 < 512 <= 512); lia).
  assert (H2 : 0 <= 0 < sectorSize sd) by (change (0 <= 0 < 512); lia).
  assert (H3 : 0 < Z.of_nat (length (replicate 1536 x55)) < 2 ^ 32)
    by (change (0 < 1536 < 2 ^ 32); lia).
  destruct (H Hwf H1 H2 H3) as (r & sd' & ops & Hrun & _ & _ & Hsect & Hbyte).
  change (Z.of_nat (length (replicate 1536 x55))) with 1536 in *.
  change (sectorSize sd) with 512 in *.
  change (sectors_touched 512 0 1536) with 3 in *.
  assert (Hc : exists s o,
             onWrite [] sd 1 0 (replicate 1536 x55) 1536 = Returned (-1) s o).
  { do 2 eexists. vm_compute. reflexivity. }
  destruct Hc as (s & o & Hc). rewrite Hc in Hrun. injection Hrun as <- <- <-.
  exists s, o. split; [exact Hc|].
  split; [apply Hsect; lia|]. split; [apply Hsect; lia|]. apply Hbyte. lia.
Defined.

(** X4.  A write request that does not return [-1] has stored the whole
    buffer.  For a request with [0 < bufsize], [0 <= offset < sectorSize
    <= 512]: if [onWrite] returns a value other than [-1], that value is
    [(int32_t)bufsize], every call to the card succeeded, and the
    [bufsize] bytes of the medium from [lba * sectorSize + offset] on are
    the bytes of the buffer. *)
Theorem onWrite_stores_the_buffer junk sd lba offset buffer r sd' ops :
  let bufsize := Z.of_nat (length buffer) in
  let sec := sectorSize sd in
  medium_wf sd ->
  0 < sec <= TMP_SIZE ->
  0 <= offset < sec ->
  0 < bufsize < 2 ^ 32 ->
  onWrite junk sd lba offset buffer bufsize = Returned r sd' ops ->
  r <> -1 ->
  r = to_int32 bufsize
  /\ Forall (fun op => op_ok op = true) ops
  /\ medium_bytes sd' (lba * sec + offset) bufsize = buffer.
Proof.
  intros bufsize sec Hwf Hsec Hoff Hlen Hrun Hr.
  destruct (onWrite_medium junk sd lba offset buffer r sd' ops Hwf Hsec Hoff
              Hlen Hrun) as (_ & _ & Hshape & _ & _ & _ & Hin).
  destruct (sectorSize_open sd) as [Hopen Hss]; [subst sec; lia|].
  subst sec. rewrite Hss.
  destruct Hshape as [[-> Hok]|[Hneg _]]; [|contradiction].
  split; [reflexivity|]. split; [exact Hok|].
  apply medium_bytes_buffer. exact (Hin Hr).
Qed.

(** 700 bytes written at sector 1, offset 100. *)
Lemma onWrite_stores_the_buffer_witness :
  exists sd' ops,
    onWrite [] (sample_card 512 8) 1 100 (replicate 700 x55) 700
    = Returned 700 sd' ops
    /\ medium_bytes sd' 612 700 = replicate 700 x55.
Proof.
  assert (Hc : exists s o,
             onWrite [] (sample_card 512 8) 1 100 (replicate 700 x55) 700
             = Returned 700 s o).
  { do 2 eexists. vm_compute. reflexivity. }
  destruct Hc as (s & o & Hc). exists s, o. split; [exact Hc|].
  destruct (onWrite_stores_the_buffer [] (sample_card 512 8) 1 100
              (replicate 700 x55) 700 s o) as (_ & _ & Hbytes).
  - apply sample_card_wf; lia.
  - change (0 < 512 <= 512). lia.
  - change (0 <= 100 < 512). lia.
  - change (0 < 700 < 2 ^ 32). lia.
  - exact Hc.
  - lia.
  - exact Hbytes.
Defined.

(** ** How write requests compose *)

(** X5.  A buffer written in two adjoining requests leaves the card that
    one request for the whole buffer leaves.  Whenever the request for
    [a ++ b] at ([lba], [offset]), the request for [a] at ([lba],
    [offset]) and, after it, the request for [b] at the position where [a]
    ends all return a value other than [-1], the two cards are equal. *)
Theorem onWrite_in_two_requests junk sd lba offset a lba2 offset2 b
    r sd_ab ops r1 sd_a ops1 r2 sd_b ops2 :
  let sec := sectorSize sd in
  medium_wf sd ->
  0 < sec <= TMP_SIZE ->
  0 <= offset < sec -> 0 <= offset2 < sec ->
  a <> [] -> b <> [] -> Z.of_nat (length (a ++ b)) < 2 ^ 32 ->
  lba2 * sec + offset2 = lba * sec + offset + Z.of_nat (length a) ->
  onWrite junk sd lba offset (a ++ b) (Z.of_nat (length (a ++ b)))
  = Returned r sd_ab ops ->
  r <> -1 ->
  onWrite junk sd lba offset a (Z.of_nat (length a)) = Returned r1 sd_a ops1 ->
  r1 <> -1 ->
  onWrite junk sd_a lba2 offset2 b (Z.of_nat (length b)) = Returned r2 sd_b ops2 ->
  r2 <> -1 ->
  sd_b = sd_ab.
Proof.
  intros sec Hwf Hsec Hoff Hoff2 Ha Hb Hlen Hadj Hrun Hr Hrun1 Hr1 Hrun2 Hr2.
  subst sec.
  assert (Hla : 0 < Z.of_nat (length a)) by (destruct a; [congruence|cbn; lia]).
  assert (Hlb : 0 < Z.of_nat (length b)) by (destruct b; [congruence|cbn; lia]).
  rewrite length_app in Hlen.
  destruct (onWrite_written junk sd lba offset (a ++ b) r sd_ab ops)
    as (Hwf_ab & Hsame_ab & Hbytes_ab);
    try first [assumption | rewrite length_app; lia].
  destruct (onWrite_written junk sd lba offset a r1 sd_a ops1)
    as (Hwf_a & Hsame_a & Hbytes_a); try first [assumption | lia].
  pose proof (sectorSize_same_card sd sd_a Hsame_a) as Hss.
  destruct (onWrite_written junk sd_a lba2 offset2 b r2 sd_b ops2)
    as (Hwf_b & Hsame_b & Hbytes_b);
    try first [assumption | rewrite Hss; assumption | lia].
  destruct (sectorSize_open sd) as [Hopen Hsd]; [lia|].
  apply card_ext; try assumption.
  - destruct Hsame_ab as (_ & _ & -> & _). lia.
  - eapply same_card_trans; [apply same_card_sym; exact Hsame_ab|].
    eapply same_card_trans; eassumption.
  - intros p. rewrite Hbytes_b, Hbytes_ab, Hss, Hadj.
    rewrite <- written_adjoining. apply written_ext. exact Hbytes_a.
Qed.

(** 700 bytes at sector 1, offset 100, then 500 bytes at sector 2, offset
    288, against the 1200 bytes in one request. *)
Lemma onWrite_in_two_requests_witness :
  let sd := sample_card 512 8 in
  let a := replicate 700 x55 in
  let b := replicate 500 xaa in
  exists sd_a sd_b ops1 ops2 ops,
    onWrite [] sd 1 100 a 700 = Returned 700 sd_a ops1
    /\ onWrite [] sd_a 2 288 b 500 = Returned 500 sd_b ops2
    /\ onWrite [] sd 1 100 (a ++ b) 1200 = Returned 1200 sd_b ops.
Proof.
  intros sd a b.
  assert (H1 : exists s o, onWrite [] sd 1 100 a 700 = Returned 700 s o)
    by (do 2 eexists; vm_compute; reflexivity).
  destruct H1 as (sd_a & ops1 & H1).
  assert (H2 : exists s o, onWrite [] sd_a 2 288 b 500 = Returned 500 s o).
  { pose proof H1 as H1'. vm_compute in H1'. injection H1' as <- _.
    do 2 eexists. vm_compute. reflexivity. }
  destruct H2 as (sd_b & ops2 & H2).
  assert (H3 : exists s o, onWrite [] sd 1 100 (a ++ b) 1200 = Returned 1200 s o)
    by (do 2 eexists; vm_compute; reflexivity).
  destruct H3 as (sd_ab & ops & H3).
  assert (Heq : sd_b = sd_ab).
  { apply (onWrite_in_two_requests [] sd 1 100 a 2 288 b
             1200 sd_ab ops 700 sd_a ops1 500 sd_b ops2).
    - apply sample_card_wf; lia.
    - change (0 < 512 <= 512). lia.
    - change (0 <= 100 < 512). lia.
    - change (0 <= 288 < 512). lia.
    - discriminate.
    - discriminate.
    - change (1200 < 2 ^ 32). lia.
    - reflexivity.
    - exact H3.
    - lia.
    - exact H1.
    - lia.
    - exact H2.
    - lia. }
  exists sd_a, sd_b, ops1, ops2, ops. rewrite Heq.
  split; [exact H1|]. split; [rewrite <- Heq; exact H2 | exact H3].
Defined.

(** X6.  Write requests for ranges that do not overlap commute, also when
    the ranges share a sector.  Whenever [a] at ([lba1], [off1]) followed
    by [b] at ([lba2], [off2]), and [b] followed by [a], all return a
    value other than [-1] and the two byte ranges are disjoint, the card
    is the same after either order. *)
Theorem onWrite_disjoint_commute junk sd lba1 off1 a lba2 off2 b
    r1 sd_a ops1 r2 sd_ab ops2 r3 sd_b ops3 r4 sd_ba ops4 :
  let sec := sectorSize sd in
  let pos1 := lba1 * sec + off1 in
  let pos2 := lba2 * sec + off2 in
  medium_wf sd ->
  0 < sec <= TMP_SIZE ->
  0 <= off1 < sec -> 0 <= off2 < sec ->
  0 < Z.of_nat (length a) < 2 ^ 32 -> 0 < Z.of_nat (length b) < 2 ^ 32 ->
  pos1 + Z.of_nat (length a) <= pos2 \/ pos2 + Z.of_nat (length b) <= pos1 ->
  onWrite junk sd lba1 off1 a (Z.of_nat (length a)) = Returned r1 sd_a ops1 ->
  r1 <> -1 ->
  onWrite junk sd_a lba2 off2 b (Z.of_nat (length b)) = Returned r2 sd_ab ops2 ->
  r2 <> -1 ->
  onWrite junk sd lba2 off2 b (Z.of_nat (length b)) = Returned r3 sd_b ops3 ->
  r3 <> -1 ->
  onWrite junk sd_b lba1 off1 a (Z.of_nat (length a)) = Returned r4 sd_ba ops4 ->
  r4 <> -1 ->
  sd_ab = sd_ba.
Proof.
  intros sec pos1 pos2 Hwf Hsec Hoff1 Hoff2 Hla Hlb Hdisj
         Hrun1 Hr1 Hrun2 Hr2 Hrun3 Hr3 Hrun4 Hr4.
  subst sec pos1 pos2.
  destruct (onWrite_twice junk sd lba1 off1 a lba2 off2 b r1 sd_a ops1
              r2 sd_ab ops2) as (Hwf_ab & Hsame_ab & Hbytes_ab); try assumption.
  destruct (onWrite_twice junk sd lba2 off2 b lba1 off1 a r3 sd_b ops3
              r4 sd_ba ops4) as (Hwf_ba & Hsame_ba & Hbytes_ba); try assumption.
  destruct (sectorSize_open sd) as [Hopen Hsd]; [lia|].
  apply card_ext; try assumption.
  - destruct Hsame_ba as (_ & _ & -> & _). lia.
  - eapply same_card_trans; [apply same_card_sym; exact Hsame_ba|exact Hsame_ab].
  - intros p. rewrite Hbytes_ab, Hbytes_ba. apply written_disjoint. exact Hdisj.
Qed.

(** 300 bytes at sector 1, offset 100, and 200 bytes at sector 1, offset
    450, which run into sector 2: the two orders leave the same card. *)
Lemma onWrite_disjoint_commute_witness :
  let sd := sample_card 512 8 in
  let a := replicate 300 x55 in
  let b := replicate 200 xaa in
  exists sd_a sd_b sd' o1 o2 o3 o4,
    onWrite [] sd 1 100 a 300 = Returned 300 sd_a o1
    /\ onWrite [] sd_a 1 450 b 200 = Returned 200 sd' o2
    /\ onWrite [] sd 1 450 b 200 = Returned 200 sd_b o3
    /\ onWrite [] sd_b 1 100 a 300 = Returned 300 sd' o4.
Proof.
  intros sd a b.
  assert (H1 : exists s o, onWrite [] sd 1 100 a 300 = Returned 300 s o)
    by (do 2 eexists; vm_compute; reflexivity).
  destruct H1 as (sd_a & o1 & H1).
  assert (H2 : exists s o, onWrite [] sd_a 1 450 b 200 = Returned 200 s o).
  { pose proof H1 as H1'. vm_compute in H1'. injection H1' as <- _.
    do 2 eexists. vm_compute. reflexivity. }
  destruct H2 as (sd_ab & o2 & H2).
  assert (H3 : exists s o, onWrite [] sd 1 450 b 200 = Returned 200 s o)
    by (do 2 eexists; vm_compute; reflexivity).
  destruct H3 as (sd_b & o3 & H3).
  assert (H4 : exists s o, onWrite [] sd_b 1 100 a 300 = Returned 300 s o).
  { pose proof H3 as H3'. vm_compute in H3'. injection H3' as <- _.
    do 2 eexists. vm_compute. reflexivity. }
  destruct H4 as (sd_ba & o4 & H4).
  assert (Heq : sd_ab = sd_ba).
  { apply (onWrite_disjoint_commute [] sd 1 100 a 1 450 b
             300 sd_a o1 200 sd_ab o2 200 sd_b o3 300 sd_ba o4).
    - apply sample_card_wf; lia.
    - change (0 < 512 <= 512). lia.
    - change (0 <= 100 < 512). lia.
    - change (0 <= 450 < 512). lia.
    - change (0 < 300 < 2 ^ 32). lia.
    - change (0 < 200 < 2 ^ 32). lia.
    - left. change (1 * 512 + 100 + 300 <= 1 * 512 + 450). lia.
    - exact H1.
    - lia.
    - exact H2.
    - lia.
    - exact H3.
    - lia.
    - exact H4.
    - lia. }
  exists sd_a, sd_b, sd_ab, o1, o2, o3, o4. rewrite <- Heq in H4.
  split_and!; assumption.
Defined.

(** X7.  The last write wins.  Whenever [a] and then [b], of the same
    length, are written to the same range, and [b] alone is written to it,
    all three requests returning a value other than [-1], the card after
    the two writes is the card after the second alone; in particular
    writing the same buffer twice leaves what writing it once leaves. *)
Theorem onWrite_last_write_wins junk sd lba offset a b
    r1 sd_a ops1 r2 sd_ab ops2 r3 sd_b ops3 :
  let sec := sectorSize sd in
  medium_wf sd ->
  0 < sec <= TMP_SIZE ->
  0 <= offset < sec ->
  length a = length b ->
  0 < Z.of_nat (length b) < 2 ^ 32 ->
  onWrite junk sd lba offset a (Z.of_nat (length a)) = Returned r1 sd_a ops1 ->
  r1 <> -1 ->
  onWrite junk sd_a lba offset b (Z.of_nat (length b)) = Returned r2 sd_ab ops2 ->
  r2 <> -1 ->
  onWrite junk sd lba offset b (Z.of_nat (length b)) = Returned r3 sd_b ops3 ->
  r3 <> -1 ->
  sd_ab = sd_b /\ (a = b -> sd_ab = sd_a).
Proof.
  intros sec Hwf Hsec Hoff Hl Hlb Hrun1 Hr1 Hrun2 Hr2 Hrun3 Hr3. subst sec.
  destruct (onWrite_twice junk sd lba offset a lba offset b r1 sd_a ops1
              r2 sd_ab ops2) as (Hwf_ab & Hsame_ab & Hbytes_ab);
    try first [assumption | lia].
  destruct (onWrite_written junk sd lba offset b r3 sd_b ops3)
    as (Hwf_b & Hsame_b & Hbytes_b); try assumption.
  destruct (sectorSize_open sd) as [Hopen Hsd]; [lia|].
  assert (Heq : sd_ab = sd_b).
  { apply card_ext; try assumption.
    - destruct Hsame_b as (_ & _ & -> & _). lia.
    - eapply same_card_trans; [apply same_card_sym; exact Hsame_b|exact Hsame_ab].
    - intros p. rewrite Hbytes_ab, Hbytes_b. apply written_over. exact Hl. }
  split; [exact Heq|].
  intros ->. rewrite Heq. congruence.
Qed.

(** 700 bytes at sector 1, offset 100, written over 700 other bytes. *)
Lemma onWrite_last_write_wins_witness :
  let sd := sample_card 512 8 in
  let a := replicate 700 x55 in
  let b := replicate 700 xaa in
  exists sd_a sd_b o1 o2 o3,
    onWrite [] sd 1 100 a 700 = Returned 700 sd_a o1
    /\ onWrite [] sd_a 1 100 b 700 = Returned 700 sd_b o2
    /\ onWrite [] sd 1 100 b 700 = Returned 700 sd_b o3.
Proof.
  intros sd a b.
  assert (H1 : exists s o, onWrite [] sd 1 100 a 700 = Returned 700 s o)
    by (do 2 eexists; vm_compute; reflexivity).
  destruct H1 as (sd_a & o1 & H1).
  assert (H2 : exists s o, onWrite [] sd_a 1 100 b 700 = Returned 700 s o).
  { pose proof H1 as H1'. vm_compute in H1'. injection H1' as <- _.
    do 2 eexists. vm_compute. reflexivity. }
  destruct H2 as (sd_ab & o2 & H2).
  assert (H3 : exists s o, onWrite [] sd 1 100 b 700 = Returned 700 s o)
    by (do 2 eexists; vm_compute; reflexivity).
  destruct H3 as (sd_b & o3 & H3).
  destruct (onWrite_last_write_wins [] sd 1 100 a b
              700 sd_a o1 700 sd_ab o2 700 sd_b o3) as [Heq _].
  - apply sample_card_wf; lia.
  - change (0 < 512 <= 512). lia.
  - change (0 <= 100 < 512). lia.
  - reflexivity.
  - change (0 < 700 < 2 ^ 32). lia.
  - exact H1.
  - lia.
  - exact H2.
  - lia.
  - exact H3.
  - lia.
  - exists sd_a, sd_ab, o1, o2, o3. rewrite <- Heq in H3.
    split_and!; assumption.
Defined.

(** X8.  A write request never changes what a read of a disjoint range
    returns, whether the write succeeds or fails half way, and also when
    the two ranges share a sector: after [onWrite] of a range, [onRead] of
    a range that does not overlap it returns the value, the bytes and the
    calls it returns on the card as it was before. *)
Theorem onRead_unaffected_by_disjoint_write junk junk' sd lba offset buffer
    r sd' ops lba2 offset2 len2 :
  let sec := sectorSize sd in
  let bufsize := Z.of_nat (length buffer) in
  let pos := lba * sec + offset in
  let pos2 := lba2 * sec + offset2 in
  medium_wf sd ->
  0 < sec <= TMP_SIZE ->
  0 <= offset < sec -> 0 < bufsize < 2 ^ 32 ->
  onWrite junk sd lba offset buffer bufsize = Returned r sd' ops ->
  0 <= lba2 -> 0 <= offset2 < sec -> 0 < len2 < 2 ^ 32 ->
  pos2 + len2 <= pos \/ pos + bufsize <= pos2 ->
  onRead junk' sd' lba2 offset2 len2 = onRead junk' sd lba2 offset2 len2.
Proof.
  intros sec bufsize pos pos2 Hwf Hsec Hoff Hlen Hrun Hlba2 Hoff2 Hlen2 Hdisj.
  destruct (onWrite_medium junk sd lba offset buffer r sd' ops Hwf Hsec Hoff
              Hlen Hrun) as (Hwf' & Hsame & _ & _ & _ & Hout & _).
  subst sec bufsize pos pos2.
  destruct (sectorSize_open sd) as [Hopen Hss]; [lia|]. rewrite Hss in *.
  assert (Hs32 : 0 < sd_sectorSize sd < 2 ^ 32) by (destruct Hwf; lia).
  assert (Hsec' : sd_sectorSize sd' = sd_sectorSize sd) by apply Hsame.
  assert (Hopen' : sd_open sd' = true) by (destruct Hsame as (-> & _); exact Hopen).
  rewrite !onRead_unfold by first [assumption | lia].
  rewrite Hsec'. apply onRead_loop_settled; try first [assumption | lia].
  intros p Hp. apply Hout. lia.
Qed.

(** A write of 200 bytes at sector 1, offset 450, that fails at sector 2,
    and a read of the 300 bytes before it in sector 1. *)
Lemma onRead_unaffected_by_disjoint_write_witness :
  let sd := write_protected_at 2 (sample_card 512 8) in
  exists sd' ops,
    onWrite [] sd 1 450 (replicate 200 xaa) 200 = Returned (-1) sd' ops
    /\ sd_sectors sd' !! 1 <> sd_sectors sd !! 1
    /\ onRead [] sd' 1 100 300 = onRead [] sd 1 100 300.
Proof.
  intros sd.
  assert (Hc : exists s o,
             onWrite [] sd 1 450 (replicate 200 xaa) 200 = Returned (-1) s o
             /\ sd_sectors s !! 1 <> sd_sectors sd !! 1).
  { do 2 eexists. split; [vm_compute; reflexivity|]. vm_compute. discriminate. }
  destruct Hc as (s & o & Hc & Hdiff). exists s, o.
  split; [exact Hc|]. split; [exact Hdiff|].
  apply (onRead_unaffected_by_disjoint_write [] [] sd 1 450 (replicate 200 xaa)
           (-1) s o 1 100 300).
  - subst sd. decide_by_computation.
  - change (0 < 512 <= 512). lia.
  - change (0 <= 450 < 512). lia.
  - change (0 < 200 < 2 ^ 32). lia.
  - exact Hc.
  - lia.
  - change (0 <= 100 < 512). lia.
  - lia.
  - left. change (1 * 512 + 100 + 300 <= 1 * 512 + 450). lia.
Defined.

(** ** The sector buffer and the offset *)

(** X9.  No byte of the uninitialised sector buffer reaches the host or
    the card.  For every card with [sectorSize <= 512], every [offset]
    with [0 <= offset <= sectorSize] and every [bufsize] within the
    buffer handed over, what [onRead] and [onWrite] return, deliver and
    write does not depend on what [tmp[512]] holds when the loop body is
    entered. *)
Theorem translator_ignores_stack_contents junk junk' sd lba offset buffer bufsize :
  medium_wf sd ->
  sectorSize sd <= TMP_SIZE ->
  0 <= offset <= sectorSize sd ->
  0 <= bufsize <= Z.of_nat (length buffer) ->
  onRead junk sd lba offset bufsize = onRead junk' sd lba offset bufsize
  /\ onWrite junk sd lba offset buffer bufsize
     = onWrite junk' sd lba offset buffer bufsize.
Proof.
  intros Hwf Hsec Hoff Hlen.
  destruct (decide (sectorSize sd = 0 \/ bufsize = 0)) as [Hz|Hnz].
  { rewrite !onRead_refuses, !onWrite_refuses by assumption. auto. }
  destruct (sectorSize_open sd) as [Hopen Hss]; [lia|]. rewrite Hss in *.
  assert (Hs32 : 0 < sd_sectorSize sd < 2 ^ 32) by (destruct Hwf; lia).
  rewrite !onRead_unfold, !onWrite_unfold by first [assumption | lia].
  split.
  - apply onRead_loop_junk; first [assumption | lia].
  - apply onWrite_loop_junk; first [assumption | lia].
Qed.

(** A read and a write of 700 bytes at sector 1, offset 100, over a buffer
    of zeros and over a buffer of [0xAA]. *)
Lemma translator_ignores_stack_contents_witness :
  let sd := sample_card 512 8 in
  onRead [] sd 1 100 700 = onRead (replicate 512 xaa) sd 1 100 700
  /\ onWrite [] sd 1 100 (replicate 700 x55) 700
     = onWrite (replicate 512 xaa) sd 1 100 (replicate 700 x55) 700.
Proof.
  intros sd.
  apply (translator_ignores_stack_contents [] (replicate 512 xaa) sd 1 100
           (replicate 700 x55) 700).
  - apply sample_card_wf; lia.
  - change (512 <= 512). lia.
  - change (0 <= 100 <= 512). lia.
  - change (0 <= 700 <= 700). lia.
Defined.

(** X10.  The offset is not checked against the sector size.  When
    [offset] lies beyond the sector ([sectorSize < offset]) and
    [offset + bufsize <= 512], [onRead] reads sector [lba], reports
    success with [bufsize], and the bytes it delivers are the bytes the
    sector buffer held at [offset] before the call, not bytes of the
    card. *)
Theorem onRead_offset_beyond_sector junk sd lba offset bufsize data :
  medium_wf sd ->
  read_sector sd lba = Some data ->
  0 < sectorSize sd < offset ->
  0 < bufsize ->
  offset + bufsize <= TMP_SIZE ->
  onRead junk sd lba offset bufsize
  = Returned bufsize
      (take (Z.to_nat bufsize) (drop (Z.to_nat offset) (stack_buffer junk)))
      [RdSector lba true].
Proof.
  intros Hwf Hdata Hsec Hlen Hend.
  destruct (sectorSize_open sd) as [Hopen Hss]; [lia|]. rewrite Hss in *.
  assert (Hs32 : 0 < sd_sectorSize sd < 2 ^ 32) by (destruct Hwf; lia).
  destruct (read_sector_Some _ _ _ Hdata) as (_ & _ & Hlk).
  destruct (medium_wf_sector _ _ _ Hwf Hlk) as [Hrange Hldata].
  unfold TMP_SIZE in Hend.
  rewrite onRead_unfold by first [assumption | lia].
  cbn [onRead_loop].
  destruct (Z.eqb_spec bufsize 0) as [|_]; [lia|].
  rewrite (readRAW_ok junk sd lba data Hdata) by (unfold TMP_SIZE; lia).
  assert (Hwrap : wrap32 (sd_sectorSize sd - offset)
                  = 2 ^ 32 + sd_sectorSize sd - offset).
  { unfold wrap32.
    replace (sd_sectorSize sd - offset)
      with (2 ^ 32 + sd_sectorSize sd - offset + (-1) * 2 ^ 32) by lia.
    rewrite Z.mod_add by lia. apply Z.mod_small. lia. }
  rewrite Hwrap.
  replace (Z.min bufsize (2 ^ 32 + sd_sectorSize sd - offset)) with bufsize by lia.
  pose proof (length_stack_buffer junk) as Hjunk. unfold TMP_SIZE in Hjunk.
  unfold buf_load.
  replace ((0 <=? offset) && (0 <=? bufsize)
           && (offset + bufsize
               <=? Z.of_nat (length (data ++ drop (length data) (stack_buffer junk)))))
    with true.
  2:{ symmetry. rewrite !andb_true_iff, !Z.leb_le, length_app, length_drop. lia. }
  rewrite Z.sub_diag, onRead_loop_done.
  rewrite to_int32_small by lia. rewrite app_nil_r. f_equal.
  rewrite drop_app_ge by lia. rewrite drop_drop. do 2 f_equal. lia.
Qed.

(** Ten bytes asked at offset 300 of a 256-byte sector: the ten bytes
    returned are those the buffer held. *)
Lemma onRead_offset_beyond_sector_witness :
  onRead (replicate 512 xaa) (sample_card 256 8) 0 300 10
  = Returned 10 (replicate 10 xaa) [RdSector 0 true].
Proof.
  apply (onRead_offset_beyond_sector (replicate 512 xaa) (sample_card 256 8)
           0 300 10 (sample_sector 256 0)).
  - apply sample_card_wf; lia.
  - apply sample_card_read. lia.
  - change (0 < 256 < 300). lia.
  - lia.
  - unfold TMP_SIZE. lia.
Defined.

(** ** Requests beyond the card *)



(** * Further properties of the life cycle *)

(** ** When [mount()] succeeds, and what it sets up *)

(** X12.  From an unmounted state [mount()] returns [true] exactly when
    the card driver opens (or is open already), the card type is not
    [CARD_NONE], the sector size and the sector count the driver reports
    are not zero as [uint32_t] values, and the mass-storage class
    starts. *)
Theorem mount_succeeds_iff env st :
  s_mounted st = false ->
  ((mount env st).1 = true
   <-> (sd_open (SD_MMC st) = true \/ env_sd_begin_ok env = true)
       /\ sd_cardType (SD_MMC st) <> CARD_NONE
       /\ wrap32 (sd_sectorSize (SD_MMC st)) <> 0
       /\ wrap32 (sd_numSectors (SD_MMC st)) <> 0
       /\ env_msc_begin_ok env = true).
Proof. exact (mount_ok_iff env st). Qed.

(** After boot, a card that answers and a class that starts. *)
Lemma mount_succeeds_iff_witness :
  (mount (mkMountEnv true true) (boot (sample_card 512 8))).1 = true
  /\ (mount (mkMountEnv true false) (boot (sample_card 512 8))).1 = false
  /\ (mount (mkMountEnv true true) (boot (sample_card 0 8))).1 = false.
Proof.
  split_and!.
  - apply (mount_succeeds_iff (mkMountEnv true true) (boot (sample_card 512 8))
             eq_refl).
    split_and!; [right; reflexivity | discriminate | discriminate
                | discriminate | reflexivity].
  - reflexivity.
  - reflexivity.
Defined.

(** X13.  A [mount()] that succeeds from an unmounted state leaves the
    device mounted with the card open, the identification strings
    ["ESP32"], ["SD-USB"], ["1.0"] and the three callbacks set, the media
    present, the class started with the card's sector count and sector
    size, and the USB stack started; the link state and the card's
    contents are untouched.  The library calls it makes are, in this
    order: pins, card begin, card type, the three strings, the three
    callbacks, sector size, sector count, media present, class begin, USB
    begin. *)
Theorem mount_presents_the_card env st :
  s_mounted st = false ->
  (mount env st).1 = true ->
  let st' := (mount env st).2 in
  let sd := SD_MMC st in
  isMounted st' = true
  /\ SD_MMC st' = set_sd_open true sd
  /\ s_msc st' = mkUSBMSC "ESP32" "SD-USB" "1.0" true true true true true
                   (wrap32 (sd_numSectors sd)) (wrap32 (sd_sectorSize sd))
  /\ usb_started st' = true
  /\ isUsbOnline st' = isUsbOnline st
  /\ usb_events_attached st' = usb_events_attached st
  /\ calls st' = calls st ++ mount_calls sd.
Proof.
  intros Hm Hok st' sd. subst st' sd.
  rewrite (mount_ok_state env st Hm Hok).
  split_and!; reflexivity.
Qed.

(** The first mount after boot on a card of 8 sectors of 512 bytes. *)
Lemma mount_presents_the_card_witness :
  let st' := (mount (mkMountEnv true true) (boot (sample_card 512 8))).2 in
  isMounted st' = true
  /\ msc_blockCount (s_msc st') = 8 /\ msc_blockSize (s_msc st') = 512
  /\ length (calls st') = 14%nat.
Proof.
  intros st'.
  destruct (mount_presents_the_card (mkMountEnv true true)
              (boot (sample_card 512 8)) eq_refl eq_refl)
    as (Hm & _ & Hmsc & _ & _ & _ & Hcalls).
  fold st' in Hm, Hmsc, Hcalls.
  split; [exact Hm|]. rewrite Hmsc, Hcalls. split_and!; reflexivity.
Defined.

(** ** Mounting and unmounting, one after the other *)

(** X14.  [unmount()] after a successful [mount()] gives back the card as
    it was: from an unmounted state with the driver closed, a successful
    [mount()] followed by [unmount()] leaves [isMounted()] false, the card
    object exactly as before (closed, same sectors), the class stopped
    with no media present, the link state unchanged and the USB stack
    still running; its calls are media removal, a 50 ms delay, class end,
    a 10 ms delay, card end, in this order; and a further [mount()] under
    the same conditions succeeds again and announces the same geometry. *)
Theorem mount_then_unmount_restores env st :
  s_mounted st = false ->
  sd_open (SD_MMC st) = false ->
  (mount env st).1 = true ->
  let st1 := (mount env st).2 in
  let st2 := unmount st1 in
  isMounted st2 = false
  /\ SD_MMC st2 = SD_MMC st
  /\ msc_started (s_msc st2) = false
  /\ msc_mediaPresent (s_msc st2) = false
  /\ isUsbOnline st2 = isUsbOnline st
  /\ usb_started st2 = true
  /\ calls st2 = calls st1 ++ unmount_calls
  /\ (mount env st2).1 = true
  /\ s_msc (mount env st2).2 = s_msc st1
  /\ SD_MMC (mount env st2).2 = SD_MMC st1.
Proof.
  intros Hm Hclosed Hok st1 st2. subst st1 st2.
  rewrite (mount_ok_state env st Hm Hok).
  assert (Hsd : SD_MMC (unmount (presented_state st)) = SD_MMC st).
  { cbn. rewrite <- Hclosed. rewrite set_sd_open_twice. apply set_sd_open_same. }
  assert (Hagain : (mount env (unmount (presented_state st))).1 = true).
  { apply mount_ok_iff; [reflexivity|]. rewrite Hsd.
    apply (mount_ok_iff env st Hm). exact Hok. }
  split_and!; try reflexivity; try assumption.
  - unfold unmount_calls. cbn. rewrite <- !app_assoc. reflexivity.
  - rewrite (mount_ok_state env (unmount (presented_state st)) eq_refl Hagain).
    cbn [s_msc presented_state]. rewrite Hsd. reflexivity.
  - rewrite (mount_ok_state env (unmount (presented_state st)) eq_refl Hagain). cbn [SD_MMC presented_state].
    rewrite Hsd. reflexivity.
Qed.

(** Mount, unmount and mount again after boot. *)
Lemma mount_then_unmount_restores_witness :
  let env := mkMountEnv true true in
  let st := boot (sample_card 512 8) in
  let st2 := unmount (mount env st).2 in
  isMounted st2 = false
  /\ SD_MMC st2 = SD_MMC st
  /\ (mount env st2).1 = true.
Proof.
  intros env st st2.
  destruct (mount_then_unmount_restores env st eq_refl eq_refl eq_refl)
    as (Hm & Hsd & _ & _ & _ & _ & _ & Hagain & _).
  split; [exact Hm|]. split; [exact Hsd | exact Hagain].
Defined.

(** ** What holds while the card is presented *)

(** X15.  In every state the device reaches from boot through
    [attachUsbEvents], [mount], [unmount], the host's start/stop command,
    USB events and write requests: the card driver is open exactly when
    [isMounted()] holds, so is the class started; and whenever
    [isMounted()] holds, the media is present, the three callbacks and the
    identification strings are set, the USB stack runs, the card type is
    not [CARD_NONE], and the block size and block count announced to the
    host are the card's sector size and sector count, neither zero. *)
Theorem mounted_state_invariant st :
  reachable st ->
  sd_open (SD_MMC st) = isMounted st
  /\ msc_started (s_msc st) = isMounted st
  /\ (isMounted st = true -> presented st).
Proof.
  intros Hreach.
  destruct (reachable_mounted_inv st Hreach) as [Hstarted Hpres].
  split; [exact (reachable_inv st Hreach)|]. split; assumption.
Qed.

(** After a mount and a write request of 700 bytes the class still
    announces 8 blocks of 512 bytes. *)
Lemma mounted_state_invariant_witness :
  let st1 := (mount (mkMountEnv true true) (boot (sample_card 512 8))).2 in
  exists sd' ops,
    onWrite [] (SD_MMC st1) 1 100 (replicate 700 x55) 700 = Returned 700 sd' ops
    /\ isMounted (set_SD_MMC sd' st1) = true
    /\ presented (set_SD_MMC sd' st1).
Proof.
  intros st1.
  assert (Hc : exists s o, onWrite [] (SD_MMC st1) 1 100 (replicate 700 x55) 700
                           = Returned 700 s o)
    by (do 2 eexists; vm_compute; reflexivity).
  destruct Hc as (s & o & Hc). exists s, o.
  assert (Hreach : reachable (set_SD_MMC s st1)).
  { eapply reachable_step; [|eapply step_write; exact Hc].
    eapply reachable_step; [apply reachable_boot|].
    apply (step_mount (mkMountEnv true true)). }
  destruct (mounted_state_invariant _ Hreach) as (_ & _ & Hpres).
  split; [exact Hc|]. split; [reflexivity|]. apply Hpres. reflexivity.
Defined.

(** ** The link state and the card *)

(** X16.  The link state and the mount state do not touch each other.
    [mount], [unmount], the host's start/stop command and
    [attachUsbEvents] never change [isUsbOnline()]; a USB event changes
    nothing but the link state: [isMounted()], the card, the class object,
    the USB stack and the log of library calls are as before.  After a
    [STARTED] or [RESUME] event of the USB event base [isUsbOnline()] is
    true, after [SUSPEND] or [STOPPED] it is false, and any other event,
    or an event of another base, leaves it as it was. *)
Theorem link_state_is_independent :
  (forall env st, isUsbOnline (mount env st).2 = isUsbOnline st)
  /\ (forall st, isUsbOnline (unmount st) = isUsbOnline st)
  /\ (forall pc start eject st,
        isUsbOnline (onStartStop pc start eject st).2 = isUsbOnline st)
  /\ (forall st, isUsbOnline (attachUsbEvents st) = isUsbOnline st)
  /\ (forall base id st,
        let st' := usbEventCallback base id st in
        isMounted st' = isMounted st /\ SD_MMC st' = SD_MMC st
        /\ s_msc st' = s_msc st /\ usb_started st' = usb_started st
        /\ usb_events_attached st' = usb_events_attached st
        /\ calls st' = calls st)
  /\ (forall id st,
        isUsbOnline (usbEventCallback OTHER_EVENT_BASE id st) = isUsbOnline st)
  /\ (forall st,
        isUsbOnline (usbEventCallback ARDUINO_USB_EVENTS ARDUINO_USB_STARTED_EVENT st) = true
        /\ isUsbOnline (usbEventCallback ARDUINO_USB_EVENTS ARDUINO_USB_RESUME_EVENT st) = true
        /\ isUsbOnline (usbEventCallback ARDUINO_USB_EVENTS ARDUINO_USB_SUSPEND_EVENT st) = false
        /\ isUsbOnline (usbEventCallback ARDUINO_USB_EVENTS ARDUINO_USB_STOPPED_EVENT st) = false
        /\ isUsbOnline (usbEventCallback ARDUINO_USB_EVENTS ARDUINO_USB_ANY_EVENT st)
           = isUsbOnline st
        /\ isUsbOnline (usbEventCallback ARDUINO_USB_EVENTS ARDUINO_USB_MAX_EVENT st)
           = isUsbOnline st).
Proof.
  assert (Hmount : forall env st, isUsbOnline (mount env st).2 = isUsbOnline st).
  { intros env st. unfold isUsbOnline. mount_cases; reflexivity. }
  assert (Hunmount : forall st, isUsbOnline (unmount st) = isUsbOnline st).
  { intros st. unfold isUsbOnline, unmount. destruct (s_mounted st); reflexivity. }
  split_and!; auto.
  - intros pc start eject st. unfold onStartStop.
    destruct (negb start && eject); cbn; auto.
  - intros base id st. destruct base, id; cbn; auto 10.
  - intros st. cbn. auto 10.
Qed.

(** X17.  Nothing but a write request changes the card.  [mount],
    [unmount], the host's start/stop command, USB events and
    [attachUsbEvents] leave the card's sectors, geometry and type exactly
    as they are and change at most whether the driver is open; a write
    request leaves the geometry, the type, the driver state and the set of
    sectors as they are.  Hence in every step of the device the sector
    size, the sector count, the card type and the set of sectors are
    preserved. *)
Theorem only_requests_change_the_card :
  (forall env st,
      SD_MMC (mount env st).2
      = set_sd_open (sd_open (SD_MMC (mount env st).2)) (SD_MMC st))
  /\ (forall st,
      SD_MMC (unmount st) = set_sd_open (sd_open (SD_MMC (unmount st))) (SD_MMC st))
  /\ (forall pc start eject st,
      let st' := (onStartStop pc start eject st).2 in
      SD_MMC st' = set_sd_open (sd_open (SD_MMC st')) (SD_MMC st))
  /\ (forall base id st, SD_MMC (usbEventCallback base id st) = SD_MMC st)
  /\ (forall st, SD_MMC (attachUsbEvents st) = SD_MMC st)
  /\ (forall junk sd lba offset buffer bufsize r sd' ops,
      onWrite junk sd lba offset buffer bufsize = Returned r sd' ops ->
      same_card sd sd')
  /\ (forall st st', step st st' ->
      sd_sectorSize (SD_MMC st') = sd_sectorSize (SD_MMC st)
      /\ sd_numSectors (SD_MMC st') = sd_numSectors (SD_MMC st)
      /\ sd_cardType (SD_MMC st') = sd_cardType (SD_MMC st)
      /\ dom (sd_sectors (SD_MMC st')) = dom (sd_sectors (SD_MMC st))).
Proof.
  assert (Hmount : forall env st,
             SD_MMC (mount env st).2
             = set_sd_open (sd_open (SD_MMC (mount env st).2)) (SD_MMC st)).
  { intros env st. mount_cases; card_eta. }
  assert (Hunmount : forall st,
             SD_MMC (unmount st)
             = set_sd_open (sd_open (SD_MMC (unmount st))) (SD_MMC st)).
  { intros st. unfold unmount. destruct (s_mounted st); cbn;
      destruct (SD_MMC st); reflexivity. }
  assert (Hss : forall pc start eject st,
             SD_MMC (onStartStop pc start eject st).2
             = set_sd_open (sd_open (SD_MMC (onStartStop pc start eject st).2))
                 (SD_MMC st)).
  { intros pc start eject st. unfold onStartStop.
    destruct (negb start && eject); cbn; [apply Hunmount|].
    destruct (SD_MMC st); reflexivity. }
  assert (Hev : forall base id st, SD_MMC (usbEventCallback base id st) = SD_MMC st).
  { intros base id st. destruct base, id; reflexivity. }
  split_and!; auto.
  - exact onWrite_same_card.
  - intros st st' Hstep. destruct Hstep.
    + auto.
    + rewrite Hmount. auto.
    + rewrite Hunmount. auto.
    + rewrite Hss. auto.
    + rewrite Hev. auto.
    + apply onWrite_same_card in H. cbn. destruct H as (_ & ? & ? & ? & _ & _ & ?).
      auto.
Qed.

(** A mount, a write request, and an unmount on a card of 8 sectors. *)
Lemma only_requests_change_the_card_witness :
  let st := boot (sample_card 512 8) in
  let st1 := (mount (mkMountEnv true true) st).2 in
  sd_sectors (SD_MMC (unmount st1)) = sd_sectors (SD_MMC st)
  /\ forall r sd' ops,
       onWrite [] (SD_MMC st1) 1 100 (replicate 700 x55) 700 = Returned r sd' ops ->
       sd_numSectors sd' = 8 /\ sd_sectorSize sd' = 512.
Proof.
  intros st st1.
  destruct only_requests_change_the_card
    as (Hmount & Hunmount & _ & _ & _ & Hwrite & _).
  split.
  - rewrite Hunmount. subst st1. cbn [sd_sectors set_sd_open].
    rewrite Hmount. reflexivity.
  - intros r sd' ops Hrun. apply Hwrite in Hrun.
    destruct Hrun as (_ & _ & -> & -> & _). split; reflexivity.
Defined.
(** * Properties of the application *)

(** ** The probe of the card *)

(** X18.  [countFilesAndFolders] counts a directory tree: where the file
    system answers as a tree of directories and files, the nesting of the
    tree is within the depth followed and the counters stay within
    [INT_MAX], the walk ends and raises [folderCount] by the number of
    directories below the start, [totalFileCount] by the number of files
    at any depth, and [rootFileCount] by the number of files directly in
    the start directory when [isRoot] is set, and by nothing otherwise. *)
Theorem countFilesAndFolders_counts_the_tree fs depth children path info
    (isRoot : bool) :
  answers_as fs path (TDir children) ->
  (tree_depth (TDir children) <= depth)%nat ->
  folderCount info + tree_folders (TDir children) <= INT_MAX ->
  rootFileCount info + (if isRoot then root_files children else 0) <= INT_MAX ->
  totalFileCount info + tree_files (TDir children) <= INT_MAX ->
  countFilesAndFolders depth fs path info isRoot
  = Some (mkSDCardInfo (detected info) (totalBytes info) (usedBytes info)
            (folderCount info + tree_folders (TDir children))
            (rootFileCount info + (if isRoot then root_files children else 0))
            (totalFileCount info + tree_files (TDir children))).
Proof. exact (countFilesAndFolders_walk fs depth children path info isRoot). Qed.

(** The sample card: two folders, two files in the root, four files. *)
Lemma countFilesAndFolders_counts_the_tree_witness :
  countFilesAndFolders 8 sample_fs "/" (mkSDCardInfo true 4096 1024 0 0 0) true
  = Some (mkSDCardInfo true 4096 1024 2 2 4).
Proof.
  apply (countFilesAndFolders_counts_the_tree sample_fs 8 sample_tree "/"
           (mkSDCardInfo true 4096 1024 0 0 0) true).
  - exact sample_answers.
  - vm_compute. lia.
  - vm_compute. discriminate.
  - vm_compute. discriminate.
  - vm_compute. discriminate.
Defined.

(** X19.  [getSDCardInfo] on a closed driver: when the directory walk
    ends, the probe returns; it reports a card exactly when the driver
    takes the pins, the card answers and its type is not [CARD_NONE]; and
    it leaves the driver closed and the card, the class object and
    [isMounted()] as they were.  Of the library calls that [Storage]
    makes it has made only [setPins], [begin], [cardType] and [end] on
    the driver: none to the class object, none to the USB stack. *)
Theorem getSDCardInfo_probes_a_closed_driver bd env st :
  sd_open (SD_MMC st) = false ->
  env_walks env ->
  exists info st',
    getSDCardInfo bd env st = Some (info, st')
    /\ (detected info = true
        <-> env_setPins_ok env = true /\ env_card_answers env = true
            /\ sd_cardType (SD_MMC st) <> CARD_NONE)
    /\ isMounted st' = isMounted st
    /\ SD_MMC st' = SD_MMC st
    /\ s_msc st' = s_msc st
    /\ exists new, calls st' = calls st ++ new
                   /\ forallb is_probe_call new = true.
Proof.
  intros Hclosed Hwalk.
  destruct (getSDCardInfo_returns bd env st Hwalk) as [[info st'] Hp].
  exists info, st'. split; [exact Hp|].
  destruct (getSDCardInfo_closed bd env st info st' Hclosed Hp)
    as [(Hm & _ & Hsd & Hmsc & _ & _ & Hcalls) Hdet].
  auto.
Qed.

(** After boot, with the sample card in the slot and without it. *)
Lemma getSDCardInfo_probes_a_closed_driver_witness :
  (exists info st',
      getSDCardInfo sample_board sample_env (boot (sample_card 512 2))
      = Some (info, st')
      /\ detected info = true
      /\ SD_MMC st' = SD_MMC (boot (sample_card 512 2)))
  /\ (exists info st',
         getSDCardInfo sample_board empty_slot_env (boot (sample_card 512 2))
         = Some (info, st')
         /\ detected info = false).
Proof.
  split.
  - destruct (getSDCardInfo_probes_a_closed_driver sample_board sample_env
                (boot (sample_card 512 2)) eq_refl sample_env_walks)
      as (info & st' & Hp & Hdet & _ & Hsd & _).
    exists info, st'. split; [exact Hp|]. split; [|exact Hsd].
    apply Hdet. split_and!; [reflexivity|reflexivity|discriminate].
  - destruct (getSDCardInfo_probes_a_closed_driver sample_board empty_slot_env
                (boot (sample_card 512 2)) eq_refl empty_slot_env_walks)
      as (info & st' & Hp & Hdet & _).
    exists info, st'. split; [exact Hp|].
    destruct (detected info); [|reflexivity].
    destruct (proj1 Hdet eq_refl) as (_ & Hanswers & _). discriminate Hanswers.
Defined.

(** X20.  What [getSDCardInfo] reports is consistent: without a card
    every field has its initial value; with a card the sizes are the ones
    the driver gives, no counter is negative, and the files in the root
    are at most the files in all. *)
Theorem getSDCardInfo_counts_are_consistent bd env st info st' :
  getSDCardInfo bd env st = Some (info, st') ->
  (detected info = false -> info = SDCardInfo_default)
  /\ (detected info = true ->
      totalBytes info = env_totalBytes env
      /\ usedBytes info = env_usedBytes env
      /\ 0 <= folderCount info
      /\ 0 <= rootFileCount info <= totalFileCount info).
Proof. exact (getSDCardInfo_counters bd env st info st'). Qed.

(** The probe of the sample card. *)
Lemma getSDCardInfo_counts_are_consistent_witness :
  exists st',
    getSDCardInfo sample_board sample_env (boot (sample_card 512 2))
    = Some (mkSDCardInfo true 4096 1024 2 2 4, st')
    /\ 0 <= 2 <= 4.
Proof.
  eexists. split; [vm_compute; reflexivity|].
  eapply (getSDCardInfo_counts_are_consistent sample_board sample_env
            (boot (sample_card 512 2)) (mkSDCardInfo true 4096 1024 2 2 4)).
  - vm_compute. reflexivity.
  - reflexivity.
Defined.

(** X21.  [getSDCardInfo] ends the driver whether or not it opened it:
    once the driver has taken the pins the probe returns with the driver
    closed, also when the driver was open before; [isMounted()] and the
    class object are as they were in any case.  When the driver refuses
    the pins the probe reports no card and leaves the driver as it
    was. *)
Theorem getSDCardInfo_closes_the_driver bd env st info st' :
  getSDCardInfo bd env st = Some (info, st') ->
  isMounted st' = isMounted st
  /\ s_msc st' = s_msc st
  /\ (env_setPins_ok env = true -> sd_open (SD_MMC st') = false)
  /\ (env_setPins_ok env = false ->
      SD_MMC st' = SD_MMC st /\ detected info = false).
Proof. exact (getSDCardInfo_closes bd env st info st'). Qed.

(** A probe of the card while it is presented to the host: the class
    stays started, the driver under it is closed. *)
Lemma getSDCardInfo_closes_the_driver_witness :
  let st := (mount (mkMountEnv true true) (boot (sample_card 512 2))).2 in
  exists info st',
    getSDCardInfo sample_board sample_env st = Some (info, st')
    /\ sd_open (SD_MMC st) = true
    /\ isMounted st' = true
    /\ msc_started (s_msc st') = true
    /\ sd_open (SD_MMC st') = false.
Proof.
  intros st.
  destruct (getSDCardInfo_returns sample_board sample_env st sample_env_walks)
    as [[info st'] Hp].
  exists info, st'. split; [exact Hp|].
  destruct (getSDCardInfo_closes_the_driver sample_board sample_env st
              info st' Hp) as (Hm & Hmsc & Hclosed & _).
  rewrite Hm, Hmsc.
  split_and!; [reflexivity|reflexivity|reflexivity|exact (Hclosed eq_refl)].
Defined.

(** ** The application and [Storage] *)

(** X22.  In every state the application reaches, the flags of the
    sketch agree with the state of [Storage]: the driver is open exactly
    while [isMounted()] holds; [isMounted()] holds only in mount mode
    ([sd_card_mounted]), and then the card is presented to the host with
    its own geometry; mount mode implies that the button has mounted
    before and that the USB flags are set; and once the button has
    mounted, [usb_connected] is set. *)
Theorem app_flags_follow_storage bd a :
  app_reachable bd a ->
  sd_open (SD_MMC (storage a)) = isMounted (storage a)
  /\ (isMounted (storage a) = true ->
      sd_card_mounted a = true /\ presented (storage a))
  /\ (sd_card_mounted a = true ->
      usb_was_ever_mounted a = true
      /\ usb_was_connected_before_mount a = true)
  /\ (usb_was_ever_mounted a = true -> usb_connected a = true).
Proof.
  intros Hreach.
  destruct (app_reachable_inv bd a Hreach)
    as (Hlife & [_ Hpres] & Hflag & Hmode & Hsticky).
  split_and!; auto.
Qed.

(** Set-up with the sample card, a click, and a turn of [loop()]. *)
Lemma app_flags_follow_storage_witness :
  exists a0 a1 a2,
    setup sample_board sample_env true (power_on (sample_card 512 2)) = Some a0
    /\ mount_btn_event_handler sample_board sample_env a0 = Some a1
    /\ loop sample_board sample_env 1000 a1 = Some a2
    /\ isMounted (storage a2) = true
    /\ sd_card_mounted a2 = true
    /\ presented (storage a2).
Proof.
  destruct (setup_returns sample_board sample_env
              (power_on (sample_card 512 2)) sample_env_walks) as [a0 H0].
  destruct (mount_btn_event_handler_returns sample_board sample_env a0
              sample_env_walks) as [a1 H1].
  destruct (loop_returns sample_board sample_env 1000 a1 sample_env_walks)
    as [a2 H2].
  exists a0, a1, a2. split_and!; [exact H0|exact H1|exact H2|..].
  all: assert (Hm : isMounted (storage a2) = true)
    by (clear - H0 H1 H2;
        vm_compute in H0; injection H0 as <-;
        vm_compute in H1; injection H1 as <-;
        vm_compute in H2; injection H2 as <-; reflexivity).
  all: assert (Hreach : app_reachable sample_board a2)
    by (eapply app_reachable_step;
        [eapply app_reachable_step;
         [eapply app_reachable_setup; exact H0|eapply app_click; exact H1]
        |eapply app_loop; exact H2]).
  all: destruct (app_flags_follow_storage sample_board a2 Hreach)
    as (_ & Hpres & _).
  - exact Hm.
  - apply Hpres, Hm.
  - apply Hpres, Hm.
Defined.

(** X23.  [loop()] never mounts and never unmounts.  From a state the
    application reaches, a turn of [loop()] leaves [isMounted()], the
    link state, the card and the class object as they were, and keeps
    [sd_card_mounted], [usb_was_ever_mounted] and
    [usb_was_connected_before_mount]; of the library calls that [Storage]
    makes it makes only those of the probe.  What it may change are
    [usb_connected], [last_usb_state], the timers and the drawing. *)
Theorem loop_never_mounts_or_unmounts bd env now a a' :
  app_reachable bd a ->
  loop bd env now a = Some a' ->
  isMounted (storage a') = isMounted (storage a)
  /\ isUsbOnline (storage a') = isUsbOnline (storage a)
  /\ SD_MMC (storage a') = SD_MMC (storage a)
  /\ s_msc (storage a') = s_msc (storage a)
  /\ (exists new, calls (storage a') = calls (storage a) ++ new
                  /\ forallb is_probe_call new = true)
  /\ sd_card_mounted a' = sd_card_mounted a
  /\ usb_was_ever_mounted a' = usb_was_ever_mounted a
  /\ usb_was_connected_before_mount a' = usb_was_connected_before_mount a.
Proof.
  intros Hreach Hloop.
  destruct (loop_inv bd env now a a' (app_reachable_inv bd a Hreach) Hloop)
    as [_ ((Hm & Ho & Hsd & Hmsc & _ & _ & Hcalls) & Hbefore & Hever & Hmode & _)].
  split_and!; assumption.
Qed.

(** The first turn of [loop()] after set-up, at 1000 ms: both timed parts
    run, the card is probed, nothing is mounted. *)
Lemma loop_never_mounts_or_unmounts_witness :
  exists a0 a1,
    setup sample_board sample_env true (power_on (sample_card 512 2)) = Some a0
    /\ loop sample_board sample_env 1000 a0 = Some a1
    /\ isMounted (storage a1) = false
    /\ SD_MMC (storage a1) = SD_MMC (storage a0)
    /\ lastRefreshTime a1 = 1000.
Proof.
  destruct (setup_returns sample_board sample_env
              (power_on (sample_card 512 2)) sample_env_walks) as [a0 H0].
  destruct (loop_returns sample_board sample_env 1000 a0 sample_env_walks)
    as [a1 H1].
  exists a0, a1. split; [exact H0|]. split; [exact H1|].
  assert (Hreach : app_reachable sample_board a0)
    by (eapply app_reachable_setup; exact H0).
  destruct (loop_never_mounts_or_unmounts sample_board sample_env 1000 a0 a1
              Hreach H1) as (Hm & _ & Hsd & _).
  rewrite Hm. split_and!; [|exact Hsd|].
  - clear - H0. vm_compute in H0. injection H0 as <-. reflexivity.
  - clear - H0 H1. vm_compute in H0. injection H0 as <-.
    vm_compute in H1. injection H1 as <-. reflexivity.
Defined.

(** X24.  In mount mode a turn of [loop()] only redraws: whenever
    [sd_card_mounted] is set, [loop()] returns, and the state of
    [Storage] with the card and the log of library calls, and every flag
    of the sketch, are exactly as before; only the drawing and the timers
    change.  In particular the card is not probed. *)
Theorem loop_in_mount_mode bd env now a :
  sd_card_mounted a = true ->
  exists a',
    loop bd env now a = Some a'
    /\ storage a' = storage a
    /\ sd_card_mounted a' = true
    /\ usb_connected a' = usb_connected a
    /\ last_usb_state a' = last_usb_state a
    /\ usb_was_connected_before_mount a' = usb_was_connected_before_mount a
    /\ usb_was_ever_mounted a' = usb_was_ever_mounted a
    /\ last_sd_present a' = last_sd_present a.
Proof.
  intros Hmounted.
  destruct (loop_mount_mode bd env now a Hmounted)
    as (a' & Hloop & Hst & Hconn & Hlast & Hbefore & Hever & Hmode & Hsd & _).
  exists a'. rewrite Hmode. auto 10.
Qed.

(** Mount mode on a device that has only just been switched on. *)
Lemma loop_in_mount_mode_witness :
  let a := set_sd_card_mounted true (power_on (sample_card 512 2)) in
  exists a',
    loop sample_board empty_slot_env 1000 a = Some a'
    /\ storage a' = storage a
    /\ sd_card_mounted a' = true.
Proof.
  intros a.
  destruct (loop_in_mount_mode sample_board empty_slot_env 1000 a eq_refl)
    as (a' & Hloop & Hst & Hm & _).
  exists a'. auto.
Defined.

(** X25.  The application does not notice that the host ejects the card.
    From a reachable state with the card presented, the host's eject
    request unmounts [Storage] and closes the driver; [sd_card_mounted]
    stays set, and the next turn of [loop()] keeps it set, leaves
    [Storage] unmounted and does not probe the card. *)
Theorem host_eject_is_not_noticed bd env now power_condition a :
  app_reachable bd a ->
  isMounted (storage a) = true ->
  let a1 := set_storage (onStartStop power_condition false true (storage a)).2 a in
  app_reachable bd a1
  /\ isMounted (storage a1) = false
  /\ sd_open (SD_MMC (storage a1)) = false
  /\ sd_card_mounted a1 = true
  /\ exists a2,
       loop bd env now a1 = Some a2
       /\ storage a2 = storage a1
       /\ sd_card_mounted a2 = true.
Proof.
  intros Hreach Hm a1.
  destruct (app_reachable_inv bd a Hreach) as (Hlife & _ & Hflag & _).
  assert (Hmode : sd_card_mounted a1 = true) by (apply Hflag, Hm).
  assert (Hreach1 : app_reachable bd a1).
  { eapply app_reachable_step; [exact Hreach|].
    apply app_host, host_startstop. }
  destruct (app_reachable_inv bd a1 Hreach1) as (Hlife1 & _).
  assert (Hm1 : isMounted (storage a1) = false)
    by apply unmount_not_mounted.
  split; [exact Hreach1|]. split; [exact Hm1|].
  split; [rewrite Hlife1; exact Hm1|]. split; [exact Hmode|].
  destruct (loop_mount_mode bd env now a1 Hmode)
    as (a2 & Hloop & Hst & _ & _ & _ & _ & Hmode2 & _).
  exists a2. rewrite Hmode2. auto.
Qed.

(** Set-up, a click that mounts the sample card, the host's eject. *)
Lemma host_eject_is_not_noticed_witness :
  exists a0 a1,
    setup sample_board sample_env true (power_on (sample_card 512 2)) = Some a0
    /\ mount_btn_event_handler sample_board sample_env a0 = Some a1
    /\ isMounted (storage a1) = true
    /\ let a2 := set_storage (onStartStop 0 false true (storage a1)).2 a1 in
       isMounted (storage a2) = false /\ sd_card_mounted a2 = true.
Proof.
  destruct (setup_returns sample_board sample_env
              (power_on (sample_card 512 2)) sample_env_walks) as [a0 H0].
  destruct (mount_btn_event_handler_returns sample_board sample_env a0
              sample_env_walks) as [a1 H1].
  exists a0, a1. split; [exact H0|]. split; [exact H1|].
  assert (Hm : isMounted (storage a1) = true)
    by (clear - H0 H1; vm_compute in H0; injection H0 as <-;
        vm_compute in H1; injection H1 as <-; reflexivity).
  assert (Hreach : app_reachable sample_board a1)
    by (eapply app_reachable_step;
        [eapply app_reachable_setup; exact H0|eapply app_click; exact H1]).
  split; [exact Hm|].
  destruct (host_eject_is_not_noticed sample_board sample_env 1000 0 a1
              Hreach Hm) as (_ & Hm2 & _ & Hmode & _).
  split; assumption.
Defined.

(** ** The button *)

(** X26.  A click with USB connected, outside mount mode, enters mount
    mode whether or not [Storage::mount()] succeeds: the handler returns,
    [sd_card_mounted], [usb_was_ever_mounted] and
    [usb_was_connected_before_mount] are set, and [Storage] is in the
    state [mount()] leaves; [isMounted()] holds afterwards exactly when
    the card answers, its type is not [CARD_NONE], its sector size and
    sector count are not zero as [uint32_t] values, and the class
    starts. *)
Theorem click_enters_mount_mode bd env a :
  app_reachable bd a ->
  usb_connected a = true ->
  sd_card_mounted a = false ->
  exists a',
    mount_btn_event_handler bd env a = Some a'
    /\ sd_card_mounted a' = true
    /\ usb_was_ever_mounted a' = true
    /\ usb_was_connected_before_mount a' = true
    /\ usb_connected a' = true
    /\ storage a' = (mount (mount_env env) (storage a)).2
    /\ (isMounted (storage a') = true
        <-> env_card_answers env = true
            /\ sd_cardType (SD_MMC (storage a)) <> CARD_NONE
            /\ wrap32 (sd_sectorSize (SD_MMC (storage a))) <> 0
            /\ wrap32 (sd_numSectors (SD_MMC (storage a))) <> 0
            /\ env_class_starts env = true).
Proof.
  intros Hreach Hconn Hmode.
  pose proof (app_reachable_inv bd a Hreach) as Hinv.
  pose proof (app_inv_closed a Hinv Hmode) as Hclosed.
  destruct Hinv as (Hlife & _).
  assert (Hm : s_mounted (storage a) = false)
    by (rewrite <- Hlife; exact Hclosed).
  destruct (click_mount bd env a Hconn Hmode)
    as (b & (Hst & Hcb & _) & Hclick).
  eexists. split; [exact Hclick|]. run. rewrite Hst, Hcb.
  split_and!; auto.
  unfold isMounted. rewrite mount_flag.
  rewrite (mount_ok_iff (mount_env env) (storage a) Hm). cbn [mount_env
    env_sd_begin_ok env_msc_begin_ok]. rewrite Hclosed.
  split.
  - intros ([Hx|Hx] & ?); [discriminate Hx|auto].
  - intros (? & ?). auto.
Qed.

(** After set-up a click mounts the sample card; with the slot empty the
    click enters mount mode all the same, with nothing mounted. *)
Lemma click_enters_mount_mode_witness :
  (exists a0 a1,
      setup sample_board sample_env true (power_on (sample_card 512 2)) = Some a0
      /\ mount_btn_event_handler sample_board sample_env a0 = Some a1
      /\ sd_card_mounted a1 = true /\ isMounted (storage a1) = true)
  /\ (exists a0 a1,
         setup sample_board sample_env true (power_on (sample_card 512 2))
         = Some a0
         /\ mount_btn_event_handler sample_board empty_slot_env a0 = Some a1
         /\ sd_card_mounted a1 = true /\ isMounted (storage a1) = false).
Proof.
  destruct (setup_returns sample_board sample_env
              (power_on (sample_card 512 2)) sample_env_walks) as [a0 H0].
  assert (Hreach : app_reachable sample_board a0)
    by (eapply app_reachable_setup; exact H0).
  assert (Hfacts : usb_connected a0 = true /\ sd_card_mounted a0 = false
                   /\ SD_MMC (storage a0) = set_sd_open false (sample_card 512 2))
    by (clear - H0; vm_compute in H0; injection H0 as <-;
        split_and!; reflexivity).
  destruct Hfacts as (Hconn & Hmode & Hcard).
  split.
  - destruct (click_enters_mount_mode sample_board sample_env a0 Hreach Hconn
                Hmode) as (a1 & H1 & Hm1 & _ & _ & _ & _ & Hiff).
    exists a0, a1. split_and!; [exact H0|exact H1|exact Hm1|].
    apply Hiff. rewrite Hcard.
    split_and!; [reflexivity|discriminate|discriminate|discriminate|reflexivity].
  - destruct (click_enters_mount_mode sample_board empty_slot_env a0 Hreach
                Hconn Hmode) as (a1 & H1 & Hm1 & _ & _ & _ & _ & Hiff).
    exists a0, a1. split_and!; [exact H0|exact H1|exact Hm1|].
    destruct (isMounted (storage a1)); [|reflexivity].
    destruct (proj1 Hiff eq_refl) as (Hanswers & _). discriminate Hanswers.
Defined.

(** X27.  A click in mount mode always leaves it: from a reachable state
    with [sd_card_mounted] set, if the directory walk ends, the handler
    returns with [sd_card_mounted] and [usb_was_connected_before_mount]
    cleared, [Storage] unmounted and the driver closed, also when the
    host had ejected the card before; the card is otherwise as it was,
    and [usb_connected] stays set. *)
Theorem click_leaves_mount_mode bd env a :
  app_reachable bd a ->
  sd_card_mounted a = true ->
  env_walks env ->
  exists a',
    mount_btn_event_handler bd env a = Some a'
    /\ sd_card_mounted a' = false
    /\ usb_was_connected_before_mount a' = false
    /\ usb_connected a' = true
    /\ isMounted (storage a') = false
    /\ SD_MMC (storage a') = set_sd_open false (SD_MMC (storage a))
    /\ msc_started (s_msc (storage a')) = false.
Proof.
  intros Hreach Hmode Hwalk.
  pose proof (app_reachable_inv bd a Hreach) as Hinv.
  destruct (mount_btn_event_handler_returns bd env a Hwalk) as [a' Hclick].
  exists a'. split; [exact Hclick|].
  destruct (click_unmount bd env a a' Hinv Hmode Hclick)
    as ((Hm & _ & Hsd & Hmsc & _) & Hmode' & Hbefore & Hconn & _).
  destruct Hinv as (Hlife & Hminv & _).
  unfold isMounted. rewrite Hm, Hsd, Hmsc, unmount_not_mounted.
  rewrite (unmount_card _ Hlife).
  destruct (unmount_mounted_inv _ Hminv) as [Hstarted _].
  rewrite Hstarted, unmount_not_mounted. auto 10.
Qed.

(** Set-up, a click that mounts the sample card, a click that unmounts
    it. *)
Lemma click_leaves_mount_mode_witness :
  exists a0 a1 a2,
    setup sample_board sample_env true (power_on (sample_card 512 2)) = Some a0
    /\ mount_btn_event_handler sample_board sample_env a0 = Some a1
    /\ isMounted (storage a1) = true
    /\ mount_btn_event_handler sample_board sample_env a1 = Some a2
    /\ isMounted (storage a2) = false
    /\ sd_card_mounted a2 = false.
Proof.
  destruct (setup_returns sample_board sample_env
              (power_on (sample_card 512 2)) sample_env_walks) as [a0 H0].
  destruct (mount_btn_event_handler_returns sample_board sample_env a0
              sample_env_walks) as [a1 H1].
  assert (Hfacts : isMounted (storage a1) = true /\ sd_card_mounted a1 = true)
    by (clear - H0 H1; vm_compute in H0; injection H0 as <-;
        vm_compute in H1; injection H1 as <-; split; reflexivity).
  destruct Hfacts as [Hm Hmode].
  assert (Hreach : app_reachable sample_board a1)
    by (eapply app_reachable_step;
        [eapply app_reachable_setup; exact H0|eapply app_click; exact H1]).
  destruct (click_leaves_mount_mode sample_board sample_env a1 Hreach Hmode
              sample_env_walks) as (a2 & H2 & Hmode2 & _ & _ & Hm2 & _).
  exists a0, a1, a2. split_and!; assumption.
Defined.

(** ** The detection of the USB connection *)

(** X28.  Once the button has mounted, the application takes USB for
    connected ever after: in a reachable state with
    [usb_was_ever_mounted] set, [isUSBConnected()] answers [true] whatever
    the port reports, and after any further step (a turn of [loop()], a
    click, a request of the host) [usb_was_ever_mounted] and
    [usb_connected] are still set. *)
Theorem usb_detection_is_sticky bd a a' jtag :
  app_reachable bd a ->
  usb_was_ever_mounted a = true ->
  app_step bd a a' ->
  isUSBConnected jtag a = true
  /\ usb_was_ever_mounted a' = true
  /\ usb_connected a' = true
  /\ isUSBConnected jtag a' = true.
Proof.
  intros Hreach Hever Hstep.
  pose proof (app_reachable_inv bd a Hreach) as Hinv.
  pose proof (app_step_ever bd a a' Hinv Hstep Hever) as Hever'.
  pose proof (app_step_inv bd a a' Hstep Hinv) as (_ & _ & _ & _ & Hsticky).
  unfold isUSBConnected. rewrite Hever, Hever'. auto.
Qed.

(** Mounted, unmounted again, and the cable pulled: a turn of [loop()]
    on the unplugged device still has [usb_connected] set. *)
Lemma usb_detection_is_sticky_witness :
  exists a0 a1 a2 a3,
    setup sample_board sample_env true (power_on (sample_card 512 2)) = Some a0
    /\ mount_btn_event_handler sample_board sample_env a0 = Some a1
    /\ mount_btn_event_handler sample_board sample_env a1 = Some a2
    /\ loop sample_board unplugged_env 1000 a2 = Some a3
    /\ env_jtag_connected unplugged_env = false
    /\ sd_card_mounted a3 = false
    /\ usb_connected a3 = true.
Proof.
  destruct (setup_returns sample_board sample_env
              (power_on (sample_card 512 2)) sample_env_walks) as [a0 H0].
  destruct (mount_btn_event_handler_returns sample_board sample_env a0
              sample_env_walks) as [a1 H1].
  destruct (mount_btn_event_handler_returns sample_board sample_env a1
              sample_env_walks) as [a2 H2].
  destruct (loop_returns sample_board unplugged_env 1000 a2
              unplugged_env_walks) as [a3 H3].
  exists a0, a1, a2, a3.
  assert (Hreach : app_reachable sample_board a2)
    by (eapply app_reachable_step;
        [eapply app_reachable_step;
         [eapply app_reachable_setup; exact H0|eapply app_click; exact H1]
        |eapply app_click; exact H2]).
  assert (Hfacts : usb_was_ever_mounted a2 = true /\ sd_card_mounted a2 = false)
    by (clear - H0 H1 H2; vm_compute in H0; injection H0 as <-;
        vm_compute in H1; injection H1 as <-;
        vm_compute in H2; injection H2 as <-; split; reflexivity).
  destruct Hfacts as [Hever Hmode].
  destruct (usb_detection_is_sticky sample_board a2 a3 false Hreach Hever
              (app_loop sample_board unplugged_env 1000 a2 a3 H3))
    as (_ & _ & Hconn & _).
  rewrite (loop_keeps_mode sample_board unplugged_env 1000 a2 a3 Hreach H3).
  split_and!; auto.
Defined.

(** ** The two functions that call each other *)

(** X29.  [updateMountButtonState] and [refreshSDCardInfo] call each
    other, but never more than two levels deep: a bound on the nesting of
    two or more gives what the bound used here gives, for both functions;
    and when the directory walk ends, each entry of the sketch returns:
    [updateMountButtonState], [refreshSDCardInfo], the click handler,
    [loop()], and [setup()] on a display that initialises. *)
Theorem nesting_is_bounded bd env fuel now a :
  (2 <= fuel)%nat ->
  env_walks env ->
  updateMountButtonState fuel bd env a = updateMountButtonState NESTING bd env a
  /\ refreshSDCardInfo_with (updateMountButtonState fuel bd env) bd env a
     = refreshSDCardInfo bd env a
  /\ is_Some (updateMountButtonState NESTING bd env a)
  /\ is_Some (refreshSDCardInfo bd env a)
  /\ is_Some (mount_btn_event_handler bd env a)
  /\ is_Some (loop bd env now a)
  /\ is_Some (setup bd env true a).
Proof.
  intros Hfuel Hwalk. split_and!.
  - apply updateMountButtonState_NESTING, Hfuel.
  - apply refreshSDCardInfo_NESTING. lia.
  - apply (updateMountButtonState_total 1), Hwalk.
  - apply refreshSDCardInfo_returns, Hwalk.
  - apply mount_btn_event_handler_returns, Hwalk.
  - apply loop_returns, Hwalk.
  - apply setup_returns, Hwalk.
Qed.

(** The state the forced leaving of mount mode starts from: mount mode
    with USB taken for unconnected, and the card gone since the last
    probe; here the nesting is two deep. *)
Lemma nesting_is_bounded_witness :
  let a := set_sd_card_mounted true (power_on (sample_card 512 2)) in
  updateMountButtonState 1 sample_board empty_slot_env a = None
  /\ updateMountButtonState 7 sample_board empty_slot_env a
     = updateMountButtonState NESTING sample_board empty_slot_env a
  /\ is_Some (updateMountButtonState NESTING sample_board empty_slot_env a).
Proof.
  intros a. split; [vm_compute; reflexivity|].
  destruct (nesting_is_bounded sample_board empty_slot_env 7 0 a ltac:(lia)
              empty_slot_env_walks) as (Hfuel & _ & Hsome & _).
  split; assumption.
Defined.

(** ** The LED *)

(** X30.  [updateNeoPixel] shows every colour at a sixteenth: with the
    pixel object set it sets pixel 0 to the colour whose red, green and
    blue are the three bytes of [color], each divided by 16, so that no
    channel is above 15, and shows it; a colour with all three bytes
    below 16 switches the LED off.  Without the pixel object it does
    nothing. *)
Theorem updateNeoPixel_dims color a :
  let r := Z.land (Z.shiftr color 16) 0xFF / 16 in
  let g := Z.land (Z.shiftr color 8) 0xFF / 16 in
  let b := Z.land color 0xFF / 16 in
  (pixels a = true ->
   ui (updateNeoPixel color a)
   = ui a ++ [pixels_setPixelColor 0 (65536 * r + 256 * g + b); pixels_show]
   /\ 0 <= r < 16 /\ 0 <= g < 16 /\ 0 <= b < 16
   /\ (0 <= color < 2 ^ 24 ->
       Z.land color 0xF0F0F0 = 0 -> 65536 * r + 256 * g + b = 0))
  /\ (pixels a = false -> updateNeoPixel color a = a).
Proof.
  intros r g b.
  pose proof (channel_dim (Z.shiftr color 16)) as Hr.
  pose proof (channel_dim (Z.shiftr color 8)) as Hg.
  pose proof (channel_dim color) as Hb.
  fold r in Hr. fold g in Hg. fold b in Hb.
  split; intros Hpix; unfold updateNeoPixel; rewrite Hpix; [|reflexivity].
  split_and!; try lia.
  - cbn [ui draw]. fold r g b. rewrite (Color_dim r g b Hr Hg Hb).
    rewrite <- app_assoc. reflexivity.
  - intros Hcolor Hlow. apply dim_channels_off; assumption.
Qed.

(** The orange of the button on the LED, and a dark grey. *)
Lemma updateNeoPixel_dims_witness :
  let a := set_pixels true (power_on (sample_card 512 2)) in
  ui (updateNeoPixel COLOR_ORANGE a)
  = [pixels_setPixelColor 0 0x0F0701; pixels_show]
  /\ ui (updateNeoPixel 0x0F0F0F a) = [pixels_setPixelColor 0 0; pixels_show].
Proof.
  intros a.
  destruct (updateNeoPixel_dims COLOR_ORANGE a) as [Hon _].
  destruct (Hon eq_refl) as (Hui & _).
  split; [exact Hui|].
  destruct (updateNeoPixel_dims 0x0F0F0F a) as [Hon' _].
  destruct (Hon' eq_refl) as (Hui' & _ & _ & _ & Hoff).
  rewrite Hui'. rewrite Hoff; [reflexivity|lia|reflexivity].
Defined.
